(** * MensaHSG: the weekly-menu parser of [app.py] and its serving layer

    A shallow embedding of [app.py]: the text pipeline
    ([_squash_spaced_letters], [_extract_items_from_lines],
    [parse_week_pdf]) together with the fragment of Python's [str] and
    [re] behaviour these functions rely on, the functions around it
    (the calendar helpers, the search for the PDF link, the tables and
    the routes), and the properties of the parser stated in the
    specification and of the code around it.

    Conventions.
    - A Python [str] is a list of Unicode code points ([list N]); the
      literals of the program are written with [py].
    - The character tables (whitespace, line breaks, decimal digits,
      alphanumeric characters, the case properties, the lowercase
      mapping and the extra cases of [re.IGNORECASE]) are the ones of
      CPython 3.11, Unicode 14.0.0, for the whole code space, so that
      [str.lower], [\d], [\w], [\b] and case-insensitive matching are
      those of Python on every text.
    - Patterns are kept as text and compiled by [Re.compile]; matching
      is a backtracking search with the priorities of [re].
    - Operations that raise in Python (indexing, key lookup, attribute
      access on [None], [re.error]) return in the [result] monad.
    - Dicts are [gmap]s keyed by text, the [seen] set is a [gset].
    - The process state [Globals] holds [_cached_pdf_url].  The steps
      of the parser are functions on texts; [parse_week_pdf] and, in
      [Process], the functions it calls are written once more as
      computations over the process state, and [ProcessFacts] shows
      that they compute those functions and hand the state on.
    - A [datetime.date] is its ordinal; what the clock and the network
      return to a call is a parameter of the function that makes the
      call; a response is the library call that builds it.

    Layout: [Literal], [Unicode], [Str], [Re] and [App] hold the
    embedding of the parser, [Calendar] and [Site] the one of the
    serving layer; the modules after them hold the properties, from the
    character tables and the matcher ([UnicodeFacts], [ReFacts],
    [ReBounds]) up to the parser ([ParseFacts], [CaseFacts]) and, from
    [NormalFacts] on, further properties of the parser and those of the
    serving layer. *)

From Stdlib Require Import NArith Ascii String.
From stdpp Require Import base list gmap strings sorting.

Set Default Proof Using "Type".
Set Warnings "-clear-no-such-hyp".
Open Scope N_scope.

Abbreviation char := N (only parsing).
Abbreviation str := (list N) (only parsing).

(** ** String literals *)

Module Literal.

(** UTF-8 decoding of the bytes of a source literal into code points. *)
Fixpoint utf8_decode (bs : list N) : str :=
  match bs with
  | [] => []
  | b :: r =>
    if b <? 128 then b :: utf8_decode r
    else match r with
    | [] => []
    | b1 :: r1 =>
      if b <? 224 then ((b - 192) * 64 + (b1 - 128)) :: utf8_decode r1
      else match r1 with
      | [] => []
      | b2 :: r2 =>
        if b <? 240
        then ((b - 224) * 4096 + (b1 - 128) * 64 + (b2 - 128)) :: utf8_decode r2
        else match r2 with
        | [] => []
        | b3 :: r3 =>
          ((b - 240) * 262144 + (b1 - 128) * 4096 + (b2 - 128) * 64 + (b3 - 128))
            :: utf8_decode r3
        end
      end
    end
  end.

Definition py (s : string) : str :=
  utf8_decode (map N_of_ascii (list_ascii_of_string s)).

End Literal.
Export Literal.

(** ** Character tables

    The tables are those of the Unicode Character Database 14.0.0, as
    CPython 3.11 holds them; each lists its code points as ranges
    [(first, last)] in ascending order. *)

Module Unicode.

Definition in_range (lo hi c : char) : bool := (lo <=? c) && (c <=? hi).

Fixpoint in_table (t : list (N * N)) (c : char) : bool :=
  match t with
  | [] => false
  | (lo, hi) :: r => if c <? lo then false else (c <=? hi) || in_table r c
  end.

(** [str.isspace] on one character, which is also [\s] of [re]. *)
Definition isspace (c : char) : bool :=
  in_range 9 13 c || in_range 28 32 c || (c =? 133) || (c =? 160)
  || (c =? 5760) || in_range 8192 8202 c || (c =? 8232) || (c =? 8233)
  || (c =? 8239) || (c =? 8287) || (c =? 12288).

(** Line boundaries of [str.splitlines]. *)
Definition islinebreak (c : char) : bool :=
  in_range 10 13 c || in_range 28 30 c || (c =? 133) || (c =? 8232) || (c =? 8233).

(** The decimal digits, general category Nd. *)
Definition DECIMAL : list (N * N) :=
  [(48, 57); (1632, 1641); (1776, 1785); (1984, 1993); (2406, 2415);
   (2534, 2543); (2662, 2671); (2790, 2799); (2918, 2927); (3046, 3055);
   (3174, 3183); (3302, 3311); (3430, 3439); (3558, 3567); (3664, 3673);
   (3792, 3801); (3872, 3881); (4160, 4169); (4240, 4249); (6112, 6121);
   (6160, 6169); (6470, 6479); (6608, 6617); (6784, 6793); (6800, 6809);
   (6992, 7001); (7088, 7097); (7232, 7241); (7248, 7257); (42528, 42537);
   (43216, 43225); (43264, 43273); (43472, 43481); (43504, 43513);
   (43600, 43609); (44016, 44025); (65296, 65305); (66720, 66729);
   (68912, 68921); (69734, 69743); (69872, 69881); (69942, 69951);
   (70096, 70105); (70384, 70393); (70736, 70745); (70864, 70873);
   (71248, 71257); (71360, 71369); (71472, 71481); (71904, 71913);
   (72016, 72025); (72784, 72793); (73040, 73049); (73120, 73129);
   (92768, 92777); (92864, 92873); (93008, 93017); (120782, 120831);
   (123200, 123209); (123632, 123641); (125264, 125273); (130032, 130041)].

(** [str.isdecimal] on one character, which is also [\d] of [re]. *)
Definition isdecimal (c : char) : bool := in_table DECIMAL c.

(** The alphanumeric characters. *)
Definition ALNUM : list (N * N) :=
  [(48, 57); (65, 90); (97, 122); (170, 170); (178, 179); (181, 181);
   (185, 186); (188, 190); (192, 214); (216, 246); (248, 705); (710, 721);
   (736, 740); (748, 748); (750, 750); (880, 884); (886, 887); (890, 893);
   (895, 895); (902, 902); (904, 906); (908, 908); (910, 929); (931, 1013);
   (1015, 1153); (1162, 1327); (1329, 1366); (1369, 1369); (1376, 1416);
   (1488, 1514); (1519, 1522); (1568, 1610); (1632, 1641); (1646, 1647);
   (1649, 1747); (1749, 1749); (1765, 1766); (1774, 1788); (1791, 1791);
   (1808, 1808); (1810, 1839); (1869, 1957); (1969, 1969); (1984, 2026);
   (2036, 2037); (2042, 2042); (2048, 2069); (2074, 2074); (2084, 2084);
   (2088, 2088); (2112, 2136); (2144, 2154); (2160, 2183); (2185, 2190);
   (2208, 2249); (2308, 2361); (2365, 2365); (2384, 2384); (2392, 2401);
   (2406, 2415); (2417, 2432); (2437, 2444); (2447, 2448); (2451, 2472);
   (2474, 2480); (2482, 2482); (2486, 2489); (2493, 2493); (2510, 2510);
   (2524, 2525); (2527, 2529); (2534, 2545); (2548, 2553); (2556, 2556);
   (2565, 2570); (2575, 2576); (2579, 2600); (2602, 2608); (2610, 2611);
   (2613, 2614); (2616, 2617); (2649, 2652); (2654, 2654); (2662, 2671);
   (2674, 2676); (2693, 2701); (2703, 2705); (2707, 2728); (2730, 2736);
   (2738, 2739); (2741, 2745); (2749, 2749); (2768, 2768); (2784, 2785);
   (2790, 2799); (2809, 2809); (2821, 2828); (2831, 2832); (2835, 2856);
   (2858, 2864); (2866, 2867); (2869, 2873); (2877, 2877); (2908, 2909);
   (2911, 2913); (2918, 2927); (2929, 2935); (2947, 2947); (2949, 2954);
   (2958, 2960); (2962, 2965); (2969, 2970); (2972, 2972); (2974, 2975);
   (2979, 2980); (2984, 2986); (2990, 3001); (3024, 3024); (3046, 3058);
   (3077, 3084); (3086, 3088); (3090, 3112); (3114, 3129); (3133, 3133);
   (3160, 3162); (3165, 3165); (3168, 3169); (3174, 3183); (3192, 3198);
   (3200, 3200); (3205, 3212); (3214, 3216); (3218, 3240); (3242, 3251);
   (3253, 3257); (3261, 3261); (3293, 3294); (3296, 3297); (3302, 3311);
   (3313, 3314); (3332, 3340); (3342, 3344); (3346, 3386); (3389, 3389);
   (3406, 3406); (3412, 3414); (3416, 3425); (3430, 3448); (3450, 3455);
   (3461, 3478); (3482, 3505); (3507, 3515); (3517, 3517); (3520, 3526);
   (3558, 3567); (3585, 3632); (3634, 3635); (3648, 3654); (3664, 3673);
   (3713, 3714); (3716, 3716); (3718, 3722); (3724, 3747); (3749, 3749);
   (3751, 3760); (3762, 3763); (3773, 3773); (3776, 3780); (3782, 3782);
   (3792, 3801); (3804, 3807); (3840, 3840); (3872, 3891); (3904, 3911);
   (3913, 3948); (3976, 3980); (4096, 4138); (4159, 4169); (4176, 4181);
   (4186, 4189); (4193, 4193); (4197, 4198); (4206, 4208); (4213, 4225);
   (4238, 4238); (4240, 4249); (4256, 4293); (4295, 4295); (4301, 4301);
   (4304, 4346); (4348, 4680); (4682, 4685); (4688, 4694); (4696, 4696);
   (4698, 4701); (4704, 4744); (4746, 4749); (4752, 4784); (4786, 4789);
   (4792, 4798); (4800, 4800); (4802, 4805); (4808, 4822); (4824, 4880);
   (4882, 4885); (4888, 4954); (4969, 4988); (4992, 5007); (5024, 5109);
   (5112, 5117); (5121, 5740); (5743, 5759); (5761, 5786); (5792, 5866);
   (5870, 5880); (5888, 5905); (5919, 5937); (5952, 5969); (5984, 5996);
   (5998, 6000); (6016, 6067); (6103, 6103); (6108, 6108); (6112, 6121);
   (6128, 6137); (6160, 6169); (6176, 6264); (6272, 6276); (6279, 6312);
   (6314, 6314); (6320, 6389); (6400, 6430); (6470, 6509); (6512, 6516);
   (6528, 6571); (6576, 6601); (6608, 6618); (6656, 6678); (6688, 6740);
   (6784, 6793); (6800, 6809); (6823, 6823); (6917, 6963); (6981, 6988);
   (6992, 7001); (7043, 7072); (7086, 7141); (7168, 7203); (7232, 7241);
   (7245, 7293); (7296, 7304); (7312, 7354); (7357, 7359); (7401, 7404);
   (7406, 7411); (7413, 7414); (7418, 7418); (7424, 7615); (7680, 7957);
   (7960, 7965); (7968, 8005); (8008, 8013); (8016, 8023); (8025, 8025);
   (8027, 8027); (8029, 8029); (8031, 8061); (8064, 8116); (8118, 8124);
   (8126, 8126); (8130, 8132); (8134, 8140); (8144, 8147); (8150, 8155);
   (8160, 8172); (8178, 8180); (8182, 8188); (8304, 8305); (8308, 8313);
   (8319, 8329); (8336, 8348); (8450, 8450); (8455, 8455); (8458, 8467);
   (8469, 8469); (8473, 8477); (8484, 8484); (8486, 8486); (8488, 8488);
   (8490, 8493); (8495, 8505); (8508, 8511); (8517, 8521); (8526, 8526);
   (8528, 8585); (9312, 9371); (9450, 9471); (10102, 10131); (11264, 11492);
   (11499, 11502); (11506, 11507); (11517, 11517); (11520, 11557);
   (11559, 11559); (11565, 11565); (11568, 11623); (11631, 11631);
   (11648, 11670); (11680, 11686); (11688, 11694); (11696, 11702);
   (11704, 11710); (11712, 11718); (11720, 11726); (11728, 11734);
   (11736, 11742); (11823, 11823); (12293, 12295); (12321, 12329);
   (12337, 12341); (12344, 12348); (12353, 12438); (12445, 12447);
   (12449, 12538); (12540, 12543); (12549, 12591); (12593, 12686);
   (12690, 12693); (12704, 12735); (12784, 12799); (12832, 12841);
   (12872, 12879); (12881, 12895); (12928, 12937); (12977, 12991);
   (13312, 19903); (19968, 42124); (42192, 42237); (42240, 42508);
   (42512, 42539); (42560, 42606); (42623, 42653); (42656, 42735);
   (42775, 42783); (42786, 42888); (42891, 42954); (42960, 42961);
   (42963, 42963); (42965, 42969); (42994, 43009); (43011, 43013);
   (43015, 43018); (43020, 43042); (43056, 43061); (43072, 43123);
   (43138, 43187); (43216, 43225); (43250, 43255); (43259, 43259);
   (43261, 43262); (43264, 43301); (43312, 43334); (43360, 43388);
   (43396, 43442); (43471, 43481); (43488, 43492); (43494, 43518);
   (43520, 43560); (43584, 43586); (43588, 43595); (43600, 43609);
   (43616, 43638); (43642, 43642); (43646, 43695); (43697, 43697);
   (43701, 43702); (43705, 43709); (43712, 43712); (43714, 43714);
   (43739, 43741); (43744, 43754); (43762, 43764); (43777, 43782);
   (43785, 43790); (43793, 43798); (43808, 43814); (43816, 43822);
   (43824, 43866); (43868, 43881); (43888, 44002); (44016, 44025);
   (44032, 55203); (55216, 55238); (55243, 55291); (63744, 64109);
   (64112, 64217); (64256, 64262); (64275, 64279); (64285, 64285);
   (64287, 64296); (64298, 64310); (64312, 64316); (64318, 64318);
   (64320, 64321); (64323, 64324); (64326, 64433); (64467, 64829);
   (64848, 64911); (64914, 64967); (65008, 65019); (65136, 65140);
   (65142, 65276); (65296, 65305); (65313, 65338); (65345, 65370);
   (65382, 65470); (65474, 65479); (65482, 65487); (65490, 65495);
   (65498, 65500); (65536, 65547); (65549, 65574); (65576, 65594);
   (65596, 65597); (65599, 65613); (65616, 65629); (65664, 65786);
   (65799, 65843); (65856, 65912); (65930, 65931); (66176, 66204);
   (66208, 66256); (66273, 66299); (66304, 66339); (66349, 66378);
   (66384, 66421); (66432, 66461); (66464, 66499); (66504, 66511);
   (66513, 66517); (66560, 66717); (66720, 66729); (66736, 66771);
   (66776, 66811); (66816, 66855); (66864, 66915); (66928, 66938);
   (66940, 66954); (66956, 66962); (66964, 66965); (66967, 66977);
   (66979, 66993); (66995, 67001); (67003, 67004); (67072, 67382);
   (67392, 67413); (67424, 67431); (67456, 67461); (67463, 67504);
   (67506, 67514); (67584, 67589); (67592, 67592); (67594, 67637);
   (67639, 67640); (67644, 67644); (67647, 67669); (67672, 67702);
   (67705, 67742); (67751, 67759); (67808, 67826); (67828, 67829);
   (67835, 67867); (67872, 67897); (67968, 68023); (68028, 68047);
   (68050, 68096); (68112, 68115); (68117, 68119); (68121, 68149);
   (68160, 68168); (68192, 68222); (68224, 68255); (68288, 68295);
   (68297, 68324); (68331, 68335); (68352, 68405); (68416, 68437);
   (68440, 68466); (68472, 68497); (68521, 68527); (68608, 68680);
   (68736, 68786); (68800, 68850); (68858, 68899); (68912, 68921);
   (69216, 69246); (69248, 69289); (69296, 69297); (69376, 69415);
   (69424, 69445); (69457, 69460); (69488, 69505); (69552, 69579);
   (69600, 69622); (69635, 69687); (69714, 69743); (69745, 69746);
   (69749, 69749); (69763, 69807); (69840, 69864); (69872, 69881);
   (69891, 69926); (69942, 69951); (69956, 69956); (69959, 69959);
   (69968, 70002); (70006, 70006); (70019, 70066); (70081, 70084);
   (70096, 70106); (70108, 70108); (70113, 70132); (70144, 70161);
   (70163, 70187); (70272, 70278); (70280, 70280); (70282, 70285);
   (70287, 70301); (70303, 70312); (70320, 70366); (70384, 70393);
   (70405, 70412); (70415, 70416); (70419, 70440); (70442, 70448);
   (70450, 70451); (70453, 70457); (70461, 70461); (70480, 70480);
   (70493, 70497); (70656, 70708); (70727, 70730); (70736, 70745);
   (70751, 70753); (70784, 70831); (70852, 70853); (70855, 70855);
   (70864, 70873); (71040, 71086); (71128, 71131); (71168, 71215);
   (71236, 71236); (71248, 71257); (71296, 71338); (71352, 71352);
   (71360, 71369); (71424, 71450); (71472, 71483); (71488, 71494);
   (71680, 71723); (71840, 71922); (71935, 71942); (71945, 71945);
   (71948, 71955); (71957, 71958); (71960, 71983); (71999, 71999);
   (72001, 72001); (72016, 72025); (72096, 72103); (72106, 72144);
   (72161, 72161); (72163, 72163); (72192, 72192); (72203, 72242);
   (72250, 72250); (72272, 72272); (72284, 72329); (72349, 72349);
   (72368, 72440); (72704, 72712); (72714, 72750); (72768, 72768);
   (72784, 72812); (72818, 72847); (72960, 72966); (72968, 72969);
   (72971, 73008); (73030, 73030); (73040, 73049); (73056, 73061);
   (73063, 73064); (73066, 73097); (73112, 73112); (73120, 73129);
   (73440, 73458); (73648, 73648); (73664, 73684); (73728, 74649);
   (74752, 74862); (74880, 75075); (77712, 77808); (77824, 78894);
   (82944, 83526); (92160, 92728); (92736, 92766); (92768, 92777);
   (92784, 92862); (92864, 92873); (92880, 92909); (92928, 92975);
   (92992, 92995); (93008, 93017); (93019, 93025); (93027, 93047);
   (93053, 93071); (93760, 93846); (93952, 94026); (94032, 94032);
   (94099, 94111); (94176, 94177); (94179, 94179); (94208, 100343);
   (100352, 101589); (101632, 101640); (110576, 110579); (110581, 110587);
   (110589, 110590); (110592, 110882); (110928, 110930); (110948, 110951);
   (110960, 111355); (113664, 113770); (113776, 113788); (113792, 113800);
   (113808, 113817); (119520, 119539); (119648, 119672); (119808, 119892);
   (119894, 119964); (119966, 119967); (119970, 119970); (119973, 119974);
   (119977, 119980); (119982, 119993); (119995, 119995); (119997, 120003);
   (120005, 120069); (120071, 120074); (120077, 120084); (120086, 120092);
   (120094, 120121); (120123, 120126); (120128, 120132); (120134, 120134);
   (120138, 120144); (120146, 120485); (120488, 120512); (120514, 120538);
   (120540, 120570); (120572, 120596); (120598, 120628); (120630, 120654);
   (120656, 120686); (120688, 120712); (120714, 120744); (120746, 120770);
   (120772, 120779); (120782, 120831); (122624, 122654); (123136, 123180);
   (123191, 123197); (123200, 123209); (123214, 123214); (123536, 123565);
   (123584, 123627); (123632, 123641); (124896, 124902); (124904, 124907);
   (124909, 124910); (124912, 124926); (124928, 125124); (125127, 125135);
   (125184, 125251); (125259, 125259); (125264, 125273); (126065, 126123);
   (126125, 126127); (126129, 126132); (126209, 126253); (126255, 126269);
   (126464, 126467); (126469, 126495); (126497, 126498); (126500, 126500);
   (126503, 126503); (126505, 126514); (126516, 126519); (126521, 126521);
   (126523, 126523); (126530, 126530); (126535, 126535); (126537, 126537);
   (126539, 126539); (126541, 126543); (126545, 126546); (126548, 126548);
   (126551, 126551); (126553, 126553); (126555, 126555); (126557, 126557);
   (126559, 126559); (126561, 126562); (126564, 126564); (126567, 126570);
   (126572, 126578); (126580, 126583); (126585, 126588); (126590, 126590);
   (126592, 126601); (126603, 126619); (126625, 126627); (126629, 126633);
   (126635, 126651); (127232, 127244); (130032, 130041); (131072, 173791);
   (173824, 177976); (177984, 178205); (178208, 183969); (183984, 191456);
   (194560, 195101); (196608, 201546)].

(** [str.isalnum] on one character. *)
Definition isalnum (c : char) : bool := in_table ALNUM c.

(** Word characters, [\w]: alphanumeric or underscore. *)
Definition isword (c : char) : bool := isalnum c || (c =? 95).

(** The characters with the property Uppercase. *)
Definition UPPERCASE : list (N * N) :=
  [(65, 90); (192, 214); (216, 222); (256, 256); (258, 258); (260, 260);
   (262, 262); (264, 264); (266, 266); (268, 268); (270, 270); (272, 272);
   (274, 274); (276, 276); (278, 278); (280, 280); (282, 282); (284, 284);
   (286, 286); (288, 288); (290, 290); (292, 292); (294, 294); (296, 296);
   (298, 298); (300, 300); (302, 302); (304, 304); (306, 306); (308, 308);
   (310, 310); (313, 313); (315, 315); (317, 317); (319, 319); (321, 321);
   (323, 323); (325, 325); (327, 327); (330, 330); (332, 332); (334, 334);
   (336, 336); (338, 338); (340, 340); (342, 342); (344, 344); (346, 346);
   (348, 348); (350, 350); (352, 352); (354, 354); (356, 356); (358, 358);
   (360, 360); (362, 362); (364, 364); (366, 366); (368, 368); (370, 370);
   (372, 372); (374, 374); (376, 377); (379, 379); (381, 381); (385, 386);
   (388, 388); (390, 391); (393, 395); (398, 401); (403, 404); (406, 408);
   (412, 413); (415, 416); (418, 418); (420, 420); (422, 423); (425, 425);
   (428, 428); (430, 431); (433, 435); (437, 437); (439, 440); (444, 444);
   (452, 452); (455, 455); (458, 458); (461, 461); (463, 463); (465, 465);
   (467, 467); (469, 469); (471, 471); (473, 473); (475, 475); (478, 478);
   (480, 480); (482, 482); (484, 484); (486, 486); (488, 488); (490, 490);
   (492, 492); (494, 494); (497, 497); (500, 500); (502, 504); (506, 506);
   (508, 508); (510, 510); (512, 512); (514, 514); (516, 516); (518, 518);
   (520, 520); (522, 522); (524, 524); (526, 526); (528, 528); (530, 530);
   (532, 532); (534, 534); (536, 536); (538, 538); (540, 540); (542, 542);
   (544, 544); (546, 546); (548, 548); (550, 550); (552, 552); (554, 554);
   (556, 556); (558, 558); (560, 560); (562, 562); (570, 571); (573, 574);
   (577, 577); (579, 582); (584, 584); (586, 586); (588, 588); (590, 590);
   (880, 880); (882, 882); (886, 886); (895, 895); (902, 902); (904, 906);
   (908, 908); (910, 911); (913, 929); (931, 939); (975, 975); (978, 980);
   (984, 984); (986, 986); (988, 988); (990, 990); (992, 992); (994, 994);
   (996, 996); (998, 998); (1000, 1000); (1002, 1002); (1004, 1004);
   (1006, 1006); (1012, 1012); (1015, 1015); (1017, 1018); (1021, 1071);
   (1120, 1120); (1122, 1122); (1124, 1124); (1126, 1126); (1128, 1128);
   (1130, 1130); (1132, 1132); (1134, 1134); (1136, 1136); (1138, 1138);
   (1140, 1140); (1142, 1142); (1144, 1144); (1146, 1146); (1148, 1148);
   (1150, 1150); (1152, 1152); (1162, 1162); (1164, 1164); (1166, 1166);
   (1168, 1168); (1170, 1170); (1172, 1172); (1174, 1174); (1176, 1176);
   (1178, 1178); (1180, 1180); (1182, 1182); (1184, 1184); (1186, 1186);
   (1188, 1188); (1190, 1190); (1192, 1192); (1194, 1194); (1196, 1196);
   (1198, 1198); (1200, 1200); (1202, 1202); (1204, 1204); (1206, 1206);
   (1208, 1208); (1210, 1210); (1212, 1212); (1214, 1214); (1216, 1217);
   (1219, 1219); (1221, 1221); (1223, 1223); (1225, 1225); (1227, 1227);
   (1229, 1229); (1232, 1232); (1234, 1234); (1236, 1236); (1238, 1238);
   (1240, 1240); (1242, 1242); (1244, 1244); (1246, 1246); (1248, 1248);
   (1250, 1250); (1252, 1252); (1254, 1254); (1256, 1256); (1258, 1258);
   (1260, 1260); (1262, 1262); (1264, 1264); (1266, 1266); (1268, 1268);
   (1270, 1270); (1272, 1272); (1274, 1274); (1276, 1276); (1278, 1278);
   (1280, 1280); (1282, 1282); (1284, 1284); (1286, 1286); (1288, 1288);
   (1290, 1290); (1292, 1292); (1294, 1294); (1296, 1296); (1298, 1298);
   (1300, 1300); (1302, 1302); (1304, 1304); (1306, 1306); (1308, 1308);
   (1310, 1310); (1312, 1312); (1314, 1314); (1316, 1316); (1318, 1318);
   (1320, 1320); (1322, 1322); (1324, 1324); (1326, 1326); (1329, 1366);
   (4256, 4293); (4295, 4295); (4301, 4301); (5024, 5109); (7312, 7354);
   (7357, 7359); (7680, 7680); (7682, 7682); (7684, 7684); (7686, 7686);
   (7688, 7688); (7690, 7690); (7692, 7692); (7694, 7694); (7696, 7696);
   (7698, 7698); (7700, 7700); (7702, 7702); (7704, 7704); (7706, 7706);
   (7708, 7708); (7710, 7710); (7712, 7712); (7714, 7714); (7716, 7716);
   (7718, 7718); (7720, 7720); (7722, 7722); (7724, 7724); (7726, 7726);
   (7728, 7728); (7730, 7730); (7732, 7732); (7734, 7734); (7736, 7736);
   (7738, 7738); (7740, 7740); (7742, 7742); (7744, 7744); (7746, 7746);
   (7748, 7748); (7750, 7750); (7752, 7752); (7754, 7754); (7756, 7756);
   (7758, 7758); (7760, 7760); (7762, 7762); (7764, 7764); (7766, 7766);
   (7768, 7768); (7770, 7770); (7772, 7772); (7774, 7774); (7776, 7776);
   (7778, 7778); (7780, 7780); (7782, 7782); (7784, 7784); (7786, 7786);
   (7788, 7788); (7790, 7790); (7792, 7792); (7794, 7794); (7796, 7796);
   (7798, 7798); (7800, 7800); (7802, 7802); (7804, 7804); (7806, 7806);
   (7808, 7808); (7810, 7810); (7812, 7812); (7814, 7814); (7816, 7816);
   (7818, 7818); (7820, 7820); (7822, 7822); (7824, 7824); (7826, 7826);
   (7828, 7828); (7838, 7838); (7840, 7840); (7842, 7842); (7844, 7844);
   (7846, 7846); (7848, 7848); (7850, 7850); (7852, 7852); (7854, 7854);
   (7856, 7856); (7858, 7858); (7860, 7860); (7862, 7862); (7864, 7864);
   (7866, 7866); (7868, 7868); (7870, 7870); (7872, 7872); (7874, 7874);
   (7876, 7876); (7878, 7878); (7880, 7880); (7882, 7882); (7884, 7884);
   (7886, 7886); (7888, 7888); (7890, 7890); (7892, 7892); (7894, 7894);
   (7896, 7896); (7898, 7898); (7900, 7900); (7902, 7902); (7904, 7904);
   (7906, 7906); (7908, 7908); (7910, 7910); (7912, 7912); (7914, 7914);
   (7916, 7916); (7918, 7918); (7920, 7920); (7922, 7922); (7924, 7924);
   (7926, 7926); (7928, 7928); (7930, 7930); (7932, 7932); (7934, 7934);
   (7944, 7951); (7960, 7965); (7976, 7983); (7992, 7999); (8008, 8013);
   (8025, 8025); (8027, 8027); (8029, 8029); (8031, 8031); (8040, 8047);
   (8120, 8123); (8136, 8139); (8152, 8155); (8168, 8172); (8184, 8187);
   (8450, 8450); (8455, 8455); (8459, 8461); (8464, 8466); (8469, 8469);
   (8473, 8477); (8484, 8484); (8486, 8486); (8488, 8488); (8490, 8493);
   (8496, 8499); (8510, 8511); (8517, 8517); (8544, 8559); (8579, 8579);
   (9398, 9423); (11264, 11311); (11360, 11360); (11362, 11364);
   (11367, 11367); (11369, 11369); (11371, 11371); (11373, 11376);
   (11378, 11378); (11381, 11381); (11390, 11392); (11394, 11394);
   (11396, 11396); (11398, 11398); (11400, 11400); (11402, 11402);
   (11404, 11404); (11406, 11406); (11408, 11408); (11410, 11410);
   (11412, 11412); (11414, 11414); (11416, 11416); (11418, 11418);
   (11420, 11420); (11422, 11422); (11424, 11424); (11426, 11426);
   (11428, 11428); (11430, 11430); (11432, 11432); (11434, 11434);
   (11436, 11436); (11438, 11438); (11440, 11440); (11442, 11442);
   (11444, 11444); (11446, 11446); (11448, 11448); (11450, 11450);
   (11452, 11452); (11454, 11454); (11456, 11456); (11458, 11458);
   (11460, 11460); (11462, 11462); (11464, 11464); (11466, 11466);
   (11468, 11468); (11470, 11470); (11472, 11472); (11474, 11474);
   (11476, 11476); (11478, 11478); (11480, 11480); (11482, 11482);
   (11484, 11484); (11486, 11486); (11488, 11488); (11490, 11490);
   (11499, 11499); (11501, 11501); (11506, 11506); (42560, 42560);
   (42562, 42562); (42564, 42564); (42566, 42566); (42568, 42568);
   (42570, 42570); (42572, 42572); (42574, 42574); (42576, 42576);
   (42578, 42578); (42580, 42580); (42582, 42582); (42584, 42584);
   (42586, 42586); (42588, 42588); (42590, 42590); (42592, 42592);
   (42594, 42594); (42596, 42596); (42598, 42598); (42600, 42600);
   (42602, 42602); (42604, 42604); (42624, 42624); (42626, 42626);
   (42628, 42628); (42630, 42630); (42632, 42632); (42634, 42634);
   (42636, 42636); (42638, 42638); (42640, 42640); (42642, 42642);
   (42644, 42644); (42646, 42646); (42648, 42648); (42650, 42650);
   (42786, 42786); (42788, 42788); (42790, 42790); (42792, 42792);
   (42794, 42794); (42796, 42796); (42798, 42798); (42802, 42802);
   (42804, 42804); (42806, 42806); (42808, 42808); (42810, 42810);
   (42812, 42812); (42814, 42814); (42816, 42816); (42818, 42818);
   (42820, 42820); (42822, 42822); (42824, 42824); (42826, 42826);
   (42828, 42828); (42830, 42830); (42832, 42832); (42834, 42834);
   (42836, 42836); (42838, 42838); (42840, 42840); (42842, 42842);
   (42844, 42844); (42846, 42846); (42848, 42848); (42850, 42850);
   (42852, 42852); (42854, 42854); (42856, 42856); (42858, 42858);
   (42860, 42860); (42862, 42862); (42873, 42873); (42875, 42875);
   (42877, 42878); (42880, 42880); (42882, 42882); (42884, 42884);
   (42886, 42886); (42891, 42891); (42893, 42893); (42896, 42896);
   (42898, 42898); (42902, 42902); (42904, 42904); (42906, 42906);
   (42908, 42908); (42910, 42910); (42912, 42912); (42914, 42914);
   (42916, 42916); (42918, 42918); (42920, 42920); (42922, 42926);
   (42928, 42932); (42934, 42934); (42936, 42936); (42938, 42938);
   (42940, 42940); (42942, 42942); (42944, 42944); (42946, 42946);
   (42948, 42951); (42953, 42953); (42960, 42960); (42966, 42966);
   (42968, 42968); (42997, 42997); (65313, 65338); (66560, 66599);
   (66736, 66771); (66928, 66938); (66940, 66954); (66956, 66962);
   (66964, 66965); (68736, 68786); (71840, 71871); (93760, 93791);
   (119808, 119833); (119860, 119885); (119912, 119937); (119964, 119964);
   (119966, 119967); (119970, 119970); (119973, 119974); (119977, 119980);
   (119982, 119989); (120016, 120041); (120068, 120069); (120071, 120074);
   (120077, 120084); (120086, 120092); (120120, 120121); (120123, 120126);
   (120128, 120132); (120134, 120134); (120138, 120144); (120172, 120197);
   (120224, 120249); (120276, 120301); (120328, 120353); (120380, 120405);
   (120432, 120457); (120488, 120512); (120546, 120570); (120604, 120628);
   (120662, 120686); (120720, 120744); (120778, 120778); (125184, 125217);
   (127280, 127305); (127312, 127337); (127344, 127369)].

(** [str.isupper] on one character. *)
Definition isupper (c : char) : bool := in_table UPPERCASE c.

(** The characters with the property Cased. *)
Definition CASED : list (N * N) :=
  [(65, 90); (97, 122); (170, 170); (181, 181); (186, 186); (192, 214);
   (216, 246); (248, 442); (444, 447); (452, 659); (661, 696); (704, 705);
   (736, 740); (837, 837); (880, 883); (886, 887); (890, 893); (895, 895);
   (902, 902); (904, 906); (908, 908); (910, 929); (931, 1013);
   (1015, 1153); (1162, 1327); (1329, 1366); (1376, 1416); (4256, 4293);
   (4295, 4295); (4301, 4301); (4304, 4346); (4349, 4351); (5024, 5109);
   (5112, 5117); (7296, 7304); (7312, 7354); (7357, 7359); (7424, 7615);
   (7680, 7957); (7960, 7965); (7968, 8005); (8008, 8013); (8016, 8023);
   (8025, 8025); (8027, 8027); (8029, 8029); (8031, 8061); (8064, 8116);
   (8118, 8124); (8126, 8126); (8130, 8132); (8134, 8140); (8144, 8147);
   (8150, 8155); (8160, 8172); (8178, 8180); (8182, 8188); (8305, 8305);
   (8319, 8319); (8336, 8348); (8450, 8450); (8455, 8455); (8458, 8467);
   (8469, 8469); (8473, 8477); (8484, 8484); (8486, 8486); (8488, 8488);
   (8490, 8493); (8495, 8500); (8505, 8505); (8508, 8511); (8517, 8521);
   (8526, 8526); (8544, 8575); (8579, 8580); (9398, 9449); (11264, 11492);
   (11499, 11502); (11506, 11507); (11520, 11557); (11559, 11559);
   (11565, 11565); (42560, 42605); (42624, 42653); (42786, 42887);
   (42891, 42894); (42896, 42954); (42960, 42961); (42963, 42963);
   (42965, 42969); (42997, 42998); (43000, 43002); (43824, 43866);
   (43868, 43880); (43888, 43967); (64256, 64262); (64275, 64279);
   (65313, 65338); (65345, 65370); (66560, 66639); (66736, 66771);
   (66776, 66811); (66928, 66938); (66940, 66954); (66956, 66962);
   (66964, 66965); (66967, 66977); (66979, 66993); (66995, 67001);
   (67003, 67004); (67456, 67456); (67459, 67461); (67463, 67504);
   (67506, 67514); (68736, 68786); (68800, 68850); (71840, 71903);
   (93760, 93823); (119808, 119892); (119894, 119964); (119966, 119967);
   (119970, 119970); (119973, 119974); (119977, 119980); (119982, 119993);
   (119995, 119995); (119997, 120003); (120005, 120069); (120071, 120074);
   (120077, 120084); (120086, 120092); (120094, 120121); (120123, 120126);
   (120128, 120132); (120134, 120134); (120138, 120144); (120146, 120485);
   (120488, 120512); (120514, 120538); (120540, 120570); (120572, 120596);
   (120598, 120628); (120630, 120654); (120656, 120686); (120688, 120712);
   (120714, 120744); (120746, 120770); (120772, 120779); (122624, 122633);
   (122635, 122654); (125184, 125251); (127280, 127305); (127312, 127337);
   (127344, 127369)].

(** The characters with the property Case_Ignorable. *)
Definition CASE_IGNORABLE : list (N * N) :=
  [(39, 39); (46, 46); (58, 58); (94, 94); (96, 96); (168, 168); (173, 173);
   (175, 175); (180, 180); (183, 184); (688, 879); (884, 885); (890, 890);
   (900, 901); (903, 903); (1155, 1161); (1369, 1369); (1375, 1375);
   (1425, 1469); (1471, 1471); (1473, 1474); (1476, 1477); (1479, 1479);
   (1524, 1524); (1536, 1541); (1552, 1562); (1564, 1564); (1600, 1600);
   (1611, 1631); (1648, 1648); (1750, 1757); (1759, 1768); (1770, 1773);
   (1807, 1807); (1809, 1809); (1840, 1866); (1958, 1968); (2027, 2037);
   (2042, 2042); (2045, 2045); (2070, 2093); (2137, 2139); (2184, 2184);
   (2192, 2193); (2200, 2207); (2249, 2306); (2362, 2362); (2364, 2364);
   (2369, 2376); (2381, 2381); (2385, 2391); (2402, 2403); (2417, 2417);
   (2433, 2433); (2492, 2492); (2497, 2500); (2509, 2509); (2530, 2531);
   (2558, 2558); (2561, 2562); (2620, 2620); (2625, 2626); (2631, 2632);
   (2635, 2637); (2641, 2641); (2672, 2673); (2677, 2677); (2689, 2690);
   (2748, 2748); (2753, 2757); (2759, 2760); (2765, 2765); (2786, 2787);
   (2810, 2815); (2817, 2817); (2876, 2876); (2879, 2879); (2881, 2884);
   (2893, 2893); (2901, 2902); (2914, 2915); (2946, 2946); (3008, 3008);
   (3021, 3021); (3072, 3072); (3076, 3076); (3132, 3132); (3134, 3136);
   (3142, 3144); (3146, 3149); (3157, 3158); (3170, 3171); (3201, 3201);
   (3260, 3260); (3263, 3263); (3270, 3270); (3276, 3277); (3298, 3299);
   (3328, 3329); (3387, 3388); (3393, 3396); (3405, 3405); (3426, 3427);
   (3457, 3457); (3530, 3530); (3538, 3540); (3542, 3542); (3633, 3633);
   (3636, 3642); (3654, 3662); (3761, 3761); (3764, 3772); (3782, 3782);
   (3784, 3789); (3864, 3865); (3893, 3893); (3895, 3895); (3897, 3897);
   (3953, 3966); (3968, 3972); (3974, 3975); (3981, 3991); (3993, 4028);
   (4038, 4038); (4141, 4144); (4146, 4151); (4153, 4154); (4157, 4158);
   (4184, 4185); (4190, 4192); (4209, 4212); (4226, 4226); (4229, 4230);
   (4237, 4237); (4253, 4253); (4348, 4348); (4957, 4959); (5906, 5908);
   (5938, 5939); (5970, 5971); (6002, 6003); (6068, 6069); (6071, 6077);
   (6086, 6086); (6089, 6099); (6103, 6103); (6109, 6109); (6155, 6159);
   (6211, 6211); (6277, 6278); (6313, 6313); (6432, 6434); (6439, 6440);
   (6450, 6450); (6457, 6459); (6679, 6680); (6683, 6683); (6742, 6742);
   (6744, 6750); (6752, 6752); (6754, 6754); (6757, 6764); (6771, 6780);
   (6783, 6783); (6823, 6823); (6832, 6862); (6912, 6915); (6964, 6964);
   (6966, 6970); (6972, 6972); (6978, 6978); (7019, 7027); (7040, 7041);
   (7074, 7077); (7080, 7081); (7083, 7085); (7142, 7142); (7144, 7145);
   (7149, 7149); (7151, 7153); (7212, 7219); (7222, 7223); (7288, 7293);
   (7376, 7378); (7380, 7392); (7394, 7400); (7405, 7405); (7412, 7412);
   (7416, 7417); (7468, 7530); (7544, 7544); (7579, 7679); (8125, 8125);
   (8127, 8129); (8141, 8143); (8157, 8159); (8173, 8175); (8189, 8190);
   (8203, 8207); (8216, 8217); (8228, 8228); (8231, 8231); (8234, 8238);
   (8288, 8292); (8294, 8303); (8305, 8305); (8319, 8319); (8336, 8348);
   (8400, 8432); (11388, 11389); (11503, 11505); (11631, 11631);
   (11647, 11647); (11744, 11775); (11823, 11823); (12293, 12293);
   (12330, 12333); (12337, 12341); (12347, 12347); (12441, 12446);
   (12540, 12542); (40981, 40981); (42232, 42237); (42508, 42508);
   (42607, 42610); (42612, 42621); (42623, 42623); (42652, 42655);
   (42736, 42737); (42752, 42785); (42864, 42864); (42888, 42890);
   (42994, 42996); (43000, 43001); (43010, 43010); (43014, 43014);
   (43019, 43019); (43045, 43046); (43052, 43052); (43204, 43205);
   (43232, 43249); (43263, 43263); (43302, 43309); (43335, 43345);
   (43392, 43394); (43443, 43443); (43446, 43449); (43452, 43453);
   (43471, 43471); (43493, 43494); (43561, 43566); (43569, 43570);
   (43573, 43574); (43587, 43587); (43596, 43596); (43632, 43632);
   (43644, 43644); (43696, 43696); (43698, 43700); (43703, 43704);
   (43710, 43711); (43713, 43713); (43741, 43741); (43756, 43757);
   (43763, 43764); (43766, 43766); (43867, 43871); (43881, 43883);
   (44005, 44005); (44008, 44008); (44013, 44013); (64286, 64286);
   (64434, 64450); (65024, 65039); (65043, 65043); (65056, 65071);
   (65106, 65106); (65109, 65109); (65279, 65279); (65287, 65287);
   (65294, 65294); (65306, 65306); (65342, 65342); (65344, 65344);
   (65392, 65392); (65438, 65439); (65507, 65507); (65529, 65531);
   (66045, 66045); (66272, 66272); (66422, 66426); (67456, 67461);
   (67463, 67504); (67506, 67514); (68097, 68099); (68101, 68102);
   (68108, 68111); (68152, 68154); (68159, 68159); (68325, 68326);
   (68900, 68903); (69291, 69292); (69446, 69456); (69506, 69509);
   (69633, 69633); (69688, 69702); (69744, 69744); (69747, 69748);
   (69759, 69761); (69811, 69814); (69817, 69818); (69821, 69821);
   (69826, 69826); (69837, 69837); (69888, 69890); (69927, 69931);
   (69933, 69940); (70003, 70003); (70016, 70017); (70070, 70078);
   (70089, 70092); (70095, 70095); (70191, 70193); (70196, 70196);
   (70198, 70199); (70206, 70206); (70367, 70367); (70371, 70378);
   (70400, 70401); (70459, 70460); (70464, 70464); (70502, 70508);
   (70512, 70516); (70712, 70719); (70722, 70724); (70726, 70726);
   (70750, 70750); (70835, 70840); (70842, 70842); (70847, 70848);
   (70850, 70851); (71090, 71093); (71100, 71101); (71103, 71104);
   (71132, 71133); (71219, 71226); (71229, 71229); (71231, 71232);
   (71339, 71339); (71341, 71341); (71344, 71349); (71351, 71351);
   (71453, 71455); (71458, 71461); (71463, 71467); (71727, 71735);
   (71737, 71738); (71995, 71996); (71998, 71998); (72003, 72003);
   (72148, 72151); (72154, 72155); (72160, 72160); (72193, 72202);
   (72243, 72248); (72251, 72254); (72263, 72263); (72273, 72278);
   (72281, 72283); (72330, 72342); (72344, 72345); (72752, 72758);
   (72760, 72765); (72767, 72767); (72850, 72871); (72874, 72880);
   (72882, 72883); (72885, 72886); (73009, 73014); (73018, 73018);
   (73020, 73021); (73023, 73029); (73031, 73031); (73104, 73105);
   (73109, 73109); (73111, 73111); (73459, 73460); (78896, 78904);
   (92912, 92916); (92976, 92982); (92992, 92995); (94031, 94031);
   (94095, 94111); (94176, 94177); (94179, 94180); (110576, 110579);
   (110581, 110587); (110589, 110590); (113821, 113822); (113824, 113827);
   (118528, 118573); (118576, 118598); (119143, 119145); (119155, 119170);
   (119173, 119179); (119210, 119213); (119362, 119364); (121344, 121398);
   (121403, 121452); (121461, 121461); (121476, 121476); (121499, 121503);
   (121505, 121519); (122880, 122886); (122888, 122904); (122907, 122913);
   (122915, 122916); (122918, 122922); (123184, 123197); (123566, 123566);
   (123628, 123631); (125136, 125142); (125252, 125259); (127995, 127999);
   (917505, 917505); (917536, 917631); (917760, 917999)].

Definition iscased (c : char) : bool := in_table CASED c.

Definition iscaseignorable (c : char) : bool := in_table CASE_IGNORABLE c.

(** The simple lowercase mapping.  A run [(first, last, step, image)]
    sends [first], [first + step], ... up to [last] to [image],
    [image + step], ...; the runs are in ascending order of [first]. *)
Definition LOWERCASE : list (N * N * N * N) :=
  [(65, 90, 1, 97); (192, 214, 1, 224); (216, 222, 1, 248);
   (256, 302, 2, 257); (304, 304, 1, 105); (306, 310, 2, 307);
   (313, 327, 2, 314); (330, 374, 2, 331); (376, 376, 1, 255);
   (377, 381, 2, 378); (385, 385, 1, 595); (386, 388, 2, 387);
   (390, 390, 1, 596); (391, 391, 1, 392); (393, 394, 1, 598);
   (395, 395, 1, 396); (398, 398, 1, 477); (399, 399, 1, 601);
   (400, 400, 1, 603); (401, 401, 1, 402); (403, 403, 1, 608);
   (404, 404, 1, 611); (406, 406, 1, 617); (407, 407, 1, 616);
   (408, 408, 1, 409); (412, 412, 1, 623); (413, 413, 1, 626);
   (415, 415, 1, 629); (416, 420, 2, 417); (422, 422, 1, 640);
   (423, 423, 1, 424); (425, 425, 1, 643); (428, 428, 1, 429);
   (430, 430, 1, 648); (431, 431, 1, 432); (433, 434, 1, 650);
   (435, 437, 2, 436); (439, 439, 1, 658); (440, 440, 1, 441);
   (444, 444, 1, 445); (452, 452, 1, 454); (453, 453, 1, 454);
   (455, 455, 1, 457); (456, 456, 1, 457); (458, 458, 1, 460);
   (459, 475, 2, 460); (478, 494, 2, 479); (497, 497, 1, 499);
   (498, 500, 2, 499); (502, 502, 1, 405); (503, 503, 1, 447);
   (504, 542, 2, 505); (544, 544, 1, 414); (546, 562, 2, 547);
   (570, 570, 1, 11365); (571, 571, 1, 572); (573, 573, 1, 410);
   (574, 574, 1, 11366); (577, 577, 1, 578); (579, 579, 1, 384);
   (580, 580, 1, 649); (581, 581, 1, 652); (582, 590, 2, 583);
   (880, 882, 2, 881); (886, 886, 1, 887); (895, 895, 1, 1011);
   (902, 902, 1, 940); (904, 906, 1, 941); (908, 908, 1, 972);
   (910, 911, 1, 973); (913, 929, 1, 945); (931, 939, 1, 963);
   (975, 975, 1, 983); (984, 1006, 2, 985); (1012, 1012, 1, 952);
   (1015, 1015, 1, 1016); (1017, 1017, 1, 1010); (1018, 1018, 1, 1019);
   (1021, 1023, 1, 891); (1024, 1039, 1, 1104); (1040, 1071, 1, 1072);
   (1120, 1152, 2, 1121); (1162, 1214, 2, 1163); (1216, 1216, 1, 1231);
   (1217, 1229, 2, 1218); (1232, 1326, 2, 1233); (1329, 1366, 1, 1377);
   (4256, 4293, 1, 11520); (4295, 4295, 1, 11559); (4301, 4301, 1, 11565);
   (5024, 5103, 1, 43888); (5104, 5109, 1, 5112); (7312, 7354, 1, 4304);
   (7357, 7359, 1, 4349); (7680, 7828, 2, 7681); (7838, 7838, 1, 223);
   (7840, 7934, 2, 7841); (7944, 7951, 1, 7936); (7960, 7965, 1, 7952);
   (7976, 7983, 1, 7968); (7992, 7999, 1, 7984); (8008, 8013, 1, 8000);
   (8025, 8031, 2, 8017); (8040, 8047, 1, 8032); (8072, 8079, 1, 8064);
   (8088, 8095, 1, 8080); (8104, 8111, 1, 8096); (8120, 8121, 1, 8112);
   (8122, 8123, 1, 8048); (8124, 8124, 1, 8115); (8136, 8139, 1, 8050);
   (8140, 8140, 1, 8131); (8152, 8153, 1, 8144); (8154, 8155, 1, 8054);
   (8168, 8169, 1, 8160); (8170, 8171, 1, 8058); (8172, 8172, 1, 8165);
   (8184, 8185, 1, 8056); (8186, 8187, 1, 8060); (8188, 8188, 1, 8179);
   (8486, 8486, 1, 969); (8490, 8490, 1, 107); (8491, 8491, 1, 229);
   (8498, 8498, 1, 8526); (8544, 8559, 1, 8560); (8579, 8579, 1, 8580);
   (9398, 9423, 1, 9424); (11264, 11311, 1, 11312);
   (11360, 11360, 1, 11361); (11362, 11362, 1, 619);
   (11363, 11363, 1, 7549); (11364, 11364, 1, 637);
   (11367, 11371, 2, 11368); (11373, 11373, 1, 593); (11374, 11374, 1, 625);
   (11375, 11375, 1, 592); (11376, 11376, 1, 594); (11378, 11378, 1, 11379);
   (11381, 11381, 1, 11382); (11390, 11391, 1, 575);
   (11392, 11490, 2, 11393); (11499, 11501, 2, 11500);
   (11506, 11506, 1, 11507); (42560, 42604, 2, 42561);
   (42624, 42650, 2, 42625); (42786, 42798, 2, 42787);
   (42802, 42862, 2, 42803); (42873, 42875, 2, 42874);
   (42877, 42877, 1, 7545); (42878, 42886, 2, 42879);
   (42891, 42891, 1, 42892); (42893, 42893, 1, 613);
   (42896, 42898, 2, 42897); (42902, 42920, 2, 42903);
   (42922, 42922, 1, 614); (42923, 42923, 1, 604); (42924, 42924, 1, 609);
   (42925, 42925, 1, 620); (42926, 42926, 1, 618); (42928, 42928, 1, 670);
   (42929, 42929, 1, 647); (42930, 42930, 1, 669); (42931, 42931, 1, 43859);
   (42932, 42946, 2, 42933); (42948, 42948, 1, 42900);
   (42949, 42949, 1, 642); (42950, 42950, 1, 7566);
   (42951, 42953, 2, 42952); (42960, 42960, 1, 42961);
   (42966, 42968, 2, 42967); (42997, 42997, 1, 42998);
   (65313, 65338, 1, 65345); (66560, 66599, 1, 66600);
   (66736, 66771, 1, 66776); (66928, 66938, 1, 66967);
   (66940, 66954, 1, 66979); (66956, 66962, 1, 66995);
   (66964, 66965, 1, 67003); (68736, 68786, 1, 68800);
   (71840, 71871, 1, 71872); (93760, 93791, 1, 93792);
   (125184, 125217, 1, 125218)].

Fixpoint mapped (t : list (N * N * N * N)) (c : char) : option char :=
  match t with
  | [] => None
  | (first, last, step, image) :: r =>
    if c <? first then None
    else if (c <=? last) && ((c - first) mod step =? 0)
         then Some (image + (c - first))
         else mapped r c
  end.

(** The lowercase of one character as one character,
    [_sre.unicode_tolower]. *)
Definition tolower (c : char) : char := default c (mapped LOWERCASE c).

(** The lowercase of one character as [str.lower] writes it: the simple
    mapping, except for U+0130, which becomes two characters. *)
Definition lower_full (c : char) : list char :=
  if c =? 304 then [105; 775] else [tolower c].

(** The characters that differ from their simple lowercase or from their
    simple uppercase mapping. *)
Definition PAIRED : list (N * N) :=
  [(65, 90); (97, 122); (181, 181); (192, 214); (216, 246); (248, 311);
   (313, 396); (398, 410); (412, 425); (428, 441); (444, 445); (447, 447);
   (452, 544); (546, 563); (570, 596); (598, 599); (601, 601); (603, 604);
   (608, 609); (611, 611); (613, 614); (616, 620); (623, 623); (625, 626);
   (629, 629); (637, 637); (640, 640); (642, 643); (647, 652); (658, 658);
   (669, 670); (837, 837); (880, 883); (886, 887); (891, 893); (895, 895);
   (902, 902); (904, 906); (908, 908); (910, 929); (931, 977); (981, 1013);
   (1015, 1019); (1021, 1153); (1162, 1327); (1329, 1366); (1377, 1415);
   (4256, 4293); (4295, 4295); (4301, 4301); (4304, 4346); (4349, 4351);
   (5024, 5109); (5112, 5117); (7296, 7304); (7312, 7354); (7357, 7359);
   (7545, 7545); (7549, 7549); (7566, 7566); (7680, 7835); (7838, 7838);
   (7840, 7957); (7960, 7965); (7968, 8005); (8008, 8013); (8016, 8023);
   (8025, 8025); (8027, 8027); (8029, 8029); (8031, 8061); (8064, 8116);
   (8118, 8124); (8126, 8126); (8130, 8132); (8134, 8140); (8144, 8147);
   (8150, 8155); (8160, 8172); (8178, 8180); (8182, 8188); (8486, 8486);
   (8490, 8491); (8498, 8498); (8526, 8526); (8544, 8575); (8579, 8580);
   (9398, 9449); (11264, 11376); (11378, 11379); (11381, 11382);
   (11390, 11491); (11499, 11502); (11506, 11507); (11520, 11557);
   (11559, 11559); (11565, 11565); (42560, 42605); (42624, 42651);
   (42786, 42799); (42802, 42863); (42873, 42887); (42891, 42893);
   (42896, 42900); (42902, 42926); (42928, 42954); (42960, 42961);
   (42966, 42969); (42997, 42998); (43859, 43859); (43888, 43967);
   (64256, 64262); (64275, 64279); (65313, 65338); (65345, 65370);
   (66560, 66639); (66736, 66771); (66776, 66811); (66928, 66938);
   (66940, 66954); (66956, 66962); (66964, 66965); (66967, 66977);
   (66979, 66993); (66995, 67001); (67003, 67004); (68736, 68786);
   (68800, 68850); (71840, 71903); (93760, 93823); (125184, 125251)].

(** [_sre.unicode_iscased] *)
Definition unicode_iscased (c : char) : bool := in_table PAIRED c.

(** [re._casefix._EXTRA_CASES]: for a lowercase character, the other
    lowercase characters it matches when case is ignored. *)
Definition EXTRA_CASES : list (N * list N) :=
  [(105, [305]); (115, [383]); (181, [956]); (305, [105]); (383, [115]);
   (837, [953; 8126]); (912, [8147]); (944, [8163]); (946, [976]);
   (949, [1013]); (952, [977]); (953, [837; 8126]); (954, [1008]);
   (956, [181]); (960, [982]); (961, [1009]); (962, [963]); (963, [962]);
   (966, [981]); (976, [946]); (977, [952]); (981, [966]); (982, [960]);
   (1008, [954]); (1009, [961]); (1013, [949]); (1074, [7296]);
   (1076, [7297]); (1086, [7298]); (1089, [7299]); (1090, [7300; 7301]);
   (1098, [7302]); (1123, [7303]); (7296, [1074]); (7297, [1076]);
   (7298, [1086]); (7299, [1089]); (7300, [1090; 7301]); (7301, [1090;
   7300]); (7302, [1098]); (7303, [1123]); (7304, [42571]); (7777, [7835]);
   (7835, [7777]); (8126, [837; 953]); (8147, [912]); (8163, [944]);
   (42571, [7304]); (64261, [64262]); (64262, [64261])].

Definition extra_cases (lo : char) : list char :=
  match list_find (λ e, e.1 = lo) EXTRA_CASES with
  | Some (_, (_, cs)) => cs
  | None => []
  end.

End Unicode.
Export Unicode.

(** ** The [str] methods used by the program *)

Module Str.

(** [s.lower()].  Every character is replaced by its lowercase, except
    that a capital sigma becomes a final sigma when a cased character
    stands before it and none after it, case-ignorable characters
    skipped on both sides.  [before] holds the characters already
    passed, the nearest first. *)
Fixpoint skip_ignorable (s : str) : option char :=
  match s with
  | [] => None
  | c :: r => if iscaseignorable c then skip_ignorable r else Some c
  end.

Definition final_sigma (before after : str) : bool :=
  match skip_ignorable before with
  | Some c =>
    iscased c && match skip_ignorable after with
                 | Some d => negb (iscased d)
                 | None => true
                 end
  | None => false
  end.

Fixpoint lower_from (before : str) (s : str) : str :=
  match s with
  | [] => []
  | c :: r =>
    (if c =? 931
     then [if final_sigma before r then 962 else 963]
     else lower_full c) ++ lower_from (c :: before) r
  end.

Definition lower (s : str) : str := lower_from [] s.

Fixpoint lstrip_by (p : char → bool) (s : str) : str :=
  match s with
  | [] => []
  | c :: r => if p c then lstrip_by p r else s
  end.

Definition rstrip_by (p : char → bool) (s : str) : str :=
  reverse (lstrip_by p (reverse s)).

Definition strip_by (p : char → bool) (s : str) : str :=
  rstrip_by p (lstrip_by p s).

(** [s.strip()] *)
Definition strip (s : str) : str := strip_by isspace s.

Definition mem_char (cs : str) (c : char) : bool := existsb (N.eqb c) cs.

(** [s.strip(chars)] *)
Definition strip_chars (cs : str) (s : str) : str := strip_by (mem_char cs) s.

(** [s.split()]: the maximal runs of non-whitespace characters.  [w] is
    the word read so far. *)
Fixpoint split_go (w : str) (s : str) : list str :=
  match s with
  | [] => match w with [] => [] | _ => [w] end
  | c :: r =>
    if isspace c
    then match w with [] => split_go [] r | _ => w :: split_go [] r end
    else split_go (w ++ [c]) r
  end.

Definition split (s : str) : list str := split_go [] s.

(** [sep.join(parts)] *)
Fixpoint join (sep : str) (parts : list str) : str :=
  match parts with
  | [] => []
  | [p] => p
  | p :: ps => p ++ sep ++ join sep ps
  end.

(** [s.splitlines()]: a carriage return followed by a line feed is one
    boundary; no empty line is produced after a final boundary. *)
Fixpoint splitlines_go (cur : str) (s : str) : list str :=
  match s with
  | [] => match cur with [] => [] | _ => [cur] end
  | c :: r =>
    if c =? 13
    then match r with
         | c' :: r' => if c' =? 10 then cur :: splitlines_go [] r'
                       else cur :: splitlines_go [] r
         | [] => cur :: splitlines_go [] r
         end
    else if islinebreak c then cur :: splitlines_go [] r
    else splitlines_go (cur ++ [c]) r
  end.

Definition splitlines (s : str) : list str := splitlines_go [] s.

Fixpoint startswith (p : str) (s : str) : bool :=
  match p, s with
  | [], _ => true
  | a :: p', b :: s' => (a =? b) && startswith p' s'
  | _ :: _, [] => false
  end.

(** [sub in s] *)
Fixpoint contains (sub : str) (s : str) : bool :=
  startswith sub s ||
  match s with
  | [] => false
  | _ :: r => contains sub r
  end.

(** [s.replace(old, new)]: occurrences are replaced left to right and do
    not overlap; [skip] counts the characters of an occurrence still to
    be passed over. *)
Fixpoint replace_go (old new : str) (skip : nat) (s : str) : str :=
  match s with
  | [] => []
  | c :: r =>
    match skip with
    | S k => replace_go old new k r
    | O => if startswith old s
           then new ++ replace_go old new (Nat.pred (length old)) r
           else c :: replace_go old new 0 r
    end
  end.

Definition replace (old new : str) (s : str) : str :=
  match old with
  | [] => new ++ flat_map (λ c, c :: new) s
  | _ => replace_go old new 0 s
  end.

(** [s[a:b]] for indices [0 <= a] and [0 <= b]. *)
Definition slice (s : str) (a b : nat) : str := take (b - a) (drop a s).

End Str.

(** ** Exceptions *)

Inductive exn :=
| IndexError | KeyError | AttributeError | ReError
| RuntimeError | HTTPError.

Abbreviation result := (sum exn).

#[global] Instance result_ret : MRet result := λ A x, inr x.
#[global] Instance result_bind : MBind result := λ A B f m,
  match m with
  | inl e => inl e
  | inr x => f x
  end.

#[global] Instance result_fmap : FMap result := λ A B f m,
  match m with
  | inl e => inl e
  | inr x => inr (f x)
  end.

Definition raise {A} (e : exn) : result A := inl e.

(** ** The fragment of [re] used by the program *)

Module Re.

(** *** Compiled patterns *)

Inductive citem :=
| CChar (c : char)
| CRange (lo hi : char)
| CSpace
| CDigit.

Inductive regex :=
| Empty
| Lit (c : char)
| Any
| In (items : list citem)
| Cat (r1 r2 : regex)
| Alt (r1 r2 : regex)
| Rep (greedy : bool) (lo : nat) (hi : option nat) (r : regex)
| Group (n : nat) (r : regex)
| Ahead (r : regex)
| Boundary
| Eos.

Record Pattern := {
  pattern : str;                      (* the source text, [p.pattern] *)
  ignorecase : bool;                  (* [re.IGNORECASE] *)
  code : regex;
  groups : nat;                       (* number of capturing groups *)
  groupindex : list (str * nat)       (* names of the named groups *)
}.

(** *** Parsing of pattern text

    The syntax covered is the one the program's patterns are written in:
    literals, [.], [$], the escapes [\b], [\s], [\d] and escaped
    punctuation, character sets with ranges, the groups [(...)],
    [(?:...)], [(?P<name>...)] and [(?=...)], alternation and the
    quantifiers [*], [+], [?], [{m}], [{m,}], [{m,n}] with their lazy
    forms.  Anything else is rejected with [ReError], also a set with a
    member outside the Basic Multilingual Plane. *)

Definition ch (a : ascii) : char := N_of_ascii a.

Definition eat (lit : string) (s : str) : option str :=
  let l := py lit in
  if Str.startswith l s then Some (drop (length l) s) else None.

Definition cat (a b : regex) : regex :=
  match b with
  | Empty => a
  | _ => Cat a b
  end.

(** The digits of the pattern syntax, [DIGITS] of the parser. *)
Definition DIGITS (c : char) : bool := in_range 48 57 c.

Fixpoint read_nat (acc : nat) (s : str) : nat * str :=
  match s with
  | c :: r => if DIGITS c then read_nat (10 * acc + N.to_nat (c - 48)) r else (acc, s)
  | [] => (acc, [])
  end.

Definition starts_digit (s : str) : bool :=
  match s with
  | c :: _ => DIGITS c
  | [] => false
  end.

Definition lazy_suffix (s : str) : bool * str :=
  match eat "?" s with
  | Some t => (false, t)
  | None => (true, s)
  end.

Definition quantified (lo : nat) (hi : option nat) (a : regex) (s : str)
  : result (regex * str) :=
  let '(g, t) := lazy_suffix s in mret (Rep g lo hi a, t).

Definition parse_braces (a : regex) (s : str) : result (regex * str) :=
  if starts_digit s then
    let '(lo, s1) := read_nat 0 s in
    match eat "}" s1 with
    | Some t => quantified lo (Some lo) a t
    | None =>
      match eat "," s1 with
      | None => raise ReError
      | Some s2 =>
        match eat "}" s2 with
        | Some t => quantified lo None a t
        | None =>
          if starts_digit s2 then
            let '(hi, s3) := read_nat 0 s2 in
            match eat "}" s3 with
            | Some t => if (hi <? lo)%nat then raise ReError
                        else quantified lo (Some hi) a t
            | None => raise ReError
            end
          else raise ReError
        end
      end
    end
  else raise ReError.

Definition parse_quant (a : regex) (s : str) : result (regex * str) :=
  match eat "*" s with
  | Some t => quantified 0 None a t
  | None =>
  match eat "+" s with
  | Some t => quantified 1 None a t
  | None =>
  match eat "?" s with
  | Some t => quantified 0 (Some 1%nat) a t
  | None =>
  match eat "{" s with
  | Some t => parse_braces a t
  | None => mret (a, s)
  end end end end.

Definition is_alnum_ascii (c : char) : bool :=
  in_range 48 57 c || in_range 65 90 c || in_range 97 122 c.

Definition class_escape (e : char) : result citem :=
  if e =? ch "s" then mret CSpace
  else if e =? ch "d" then mret CDigit
  else if is_alnum_ascii e then raise ReError
  else mret (CChar e).

Fixpoint parse_class (s : str) : result (list citem * str) :=
  match s with
  | [] => raise ReError
  | c :: t =>
    if c =? ch "]" then mret ([], t)
    else if 65535 <? c then raise ReError
    else if c =? ch "\" then
      match t with
      | e :: t' =>
        it ← class_escape e;
        '(items, r) ← parse_class t';
        mret (it :: items, r)
      | [] => raise ReError
      end
    else
      match t with
      | d :: hi :: t' =>
        if (d =? ch "-") && negb (hi =? ch "]") then
          if (hi =? ch "\") || (hi <? c) || (65535 <? hi) then raise ReError
          else '(items, r) ← parse_class t'; mret (CRange c hi :: items, r)
        else '(items, r) ← parse_class t; mret (CChar c :: items, r)
      | _ => '(items, r) ← parse_class t; mret (CChar c :: items, r)
      end
  end.

Definition parse_escape (e : char) : result regex :=
  if e =? ch "b" then mret Boundary
  else if e =? ch "s" then mret (In [CSpace])
  else if e =? ch "d" then mret (In [CDigit])
  else if is_alnum_ascii e then raise ReError
  else mret (Lit e).

Definition PState : Type := str * nat * list (str * nat).

Definition close (mk : regex → regex) (x : regex * PState) : result (regex * PState) :=
  let '(r, (s, g, names)) := x in
  match eat ")" s with
  | Some t => mret (mk r, (t, g, names))
  | None => raise ReError
  end.

Fixpoint name_prefix (s : str) : str :=
  match s with
  | c :: r => if is_alnum_ascii c || (c =? 95) then c :: name_prefix r else []
  | [] => []
  end.

Definition read_name (s : str) : result (str * str) :=
  let name := name_prefix s in
  match name, eat ">" (drop (length name) s) with
  | _ :: _, Some t => mret (name, t)
  | _, _ => raise ReError
  end.

Fixpoint parse_alt (fuel : nat) (st : PState) : result (regex * PState) :=
  match fuel with
  | O => raise ReError
  | S f =>
    '(r1, (s1, g1, n1)) ← parse_seq f st;
    match eat "|" s1 with
    | Some t => '(r2, st2) ← parse_alt f (t, g1, n1); mret (Alt r1 r2, st2)
    | None => mret (r1, (s1, g1, n1))
    end
  end
with parse_seq (fuel : nat) (st : PState) : result (regex * PState) :=
  match fuel with
  | O => raise ReError
  | S f =>
    match st.1.1 with
    | [] => mret (Empty, st)
    | c :: _ =>
      if (c =? ch "|") || (c =? ch ")") then mret (Empty, st)
      else
        '(a, (s1, g1, n1)) ← parse_atom f st;
        '(q, s2) ← parse_quant a s1;
        '(r, st3) ← parse_seq f (s2, g1, n1);
        mret (cat q r, st3)
    end
  end
with parse_atom (fuel : nat) (st : PState) : result (regex * PState) :=
  match fuel with
  | O => raise ReError
  | S f =>
    let '(s, g, names) := st in
    match eat "(?:" s with
    | Some t => parse_alt f (t, g, names) ≫= close id
    | None =>
    match eat "(?=" s with
    | Some t => parse_alt f (t, g, names) ≫= close Ahead
    | None =>
    match eat "(?P<" s with
    | Some t =>
      '(name, t') ← read_name t;
      parse_alt f (t', S g, names ++ [(name, g)]) ≫= close (Group g)
    | None =>
    match eat "(?" s with
    | Some _ => raise ReError
    | None =>
    match eat "(" s with
    | Some t => parse_alt f (t, S g, names) ≫= close (Group g)
    | None =>
    match s with
    | [] => raise ReError
    | c :: t =>
      if c =? ch "[" then
        match t with
        | c' :: _ =>
          if c' =? ch "^" then raise ReError
          else '(items, r) ← parse_class t; mret (In items, (r, g, names))
        | [] => raise ReError
        end
      else if c =? ch "\" then
        match t with
        | e :: t' => a ← parse_escape e; mret (a, (t', g, names))
        | [] => raise ReError
        end
      else if c =? ch "." then mret (Any, (t, g, names))
      else if c =? ch "$" then mret (Eos, (t, g, names))
      else if Str.mem_char (py "*+?{}^]") c then raise ReError
      else mret (Lit c, (t, g, names))
    end end end end end end
  end.

(** [re.compile(src, flags)] *)
Definition compile (src : str) (ic : bool) : result Pattern :=
  '(r, (rest, g, names)) ← parse_alt (4 * length src + 8) (src, 1%nat, []);
  match rest with
  | [] => mret {| pattern := src; ignorecase := ic; code := r;
                  groups := Nat.pred g; groupindex := names |}
  | _ => raise ReError
  end.

(** *** Matching

    A backtracking matcher in continuation-passing style: [go r i c k]
    tries [r] at offset [i] with the group spans [c] and hands every way
    of matching it, in the priority order of [re], to the continuation
    [k], until one is accepted. *)

Definition caps : Type := list (nat * (nat * nat)).

Fixpoint cap_get (n : nat) (c : caps) : option (nat * nat) :=
  match c with
  | [] => None
  | (m, sp) :: r => if (m =? n)%nat then Some sp else cap_get n r
  end.

Definition citem_test (c : char) (it : citem) : bool :=
  match it with
  | CChar a => a =? c
  | CRange lo hi => in_range lo hi c
  | CSpace => isspace c
  | CDigit => isdecimal c
  end.

Definition set_test (items : list citem) (c : char) : bool :=
  existsb (citem_test c) items.

(** With [re.IGNORECASE] a literal that is not cased is compared as it
    is; a cased one is compiled to its lowercase [lo], or to the set of
    [lo] and its extra cases, and compared with the lowercase of the
    character read. *)
Definition folded (a : char) : list char := tolower a :: extra_cases (tolower a).

(** The characters from [lo] to [hi]. *)
Definition chars_of (lo hi : char) : list char :=
  N.of_nat <$> seq (N.to_nat lo) (N.to_nat hi + 1 - N.to_nat lo).

(** A set compiled with [re.IGNORECASE]: its character map holds the
    lowercase of every literal and of every member of a range, with
    their extra cases; the set is cased when a literal or a member of a
    range is. *)
Definition citem_cased (it : citem) : bool :=
  match it with
  | CChar a => unicode_iscased a
  | CRange lo hi => existsb unicode_iscased (chars_of lo hi)
  | CSpace | CDigit => false
  end.

Definition citem_fold_test (c : char) (it : citem) : bool :=
  match it with
  | CChar a => Str.mem_char (folded a) c
  | CRange lo hi => existsb (λ a, Str.mem_char (folded a) c) (chars_of lo hi)
  | CSpace => isspace c
  | CDigit => isdecimal c
  end.

Section Matcher.
Variable ic : bool.
Variable s : str.

Definition lit_test (a c : char) : bool :=
  if ic && unicode_iscased a
  then Str.mem_char (folded a) (tolower c)
  else a =? c.

(** A cased set is tested on the lowercase of the character read, any
    other set on the character itself. *)
Definition in_test (items : list citem) (c : char) : bool :=
  if ic
  then existsb (citem_fold_test (if existsb citem_cased items then tolower c else c))
               items
  else set_test items c.

Definition any_test (c : char) : bool := negb (c =? 10).

Definition word_at (i : nat) : bool :=
  match s !! i with
  | Some c => isword c
  | None => false
  end.

Definition at_boundary (i : nat) : bool :=
  xorb (match i with O => false | S j => word_at j end) (word_at i).

(** [$] without [re.MULTILINE]: the end, or just before a final
    line feed. *)
Definition at_end (i : nat) : bool :=
  (i =? length s)%nat
  || ((S i =? length s)%nat && bool_decide (s !! i = Some 10)).

Definition K : Type := nat → caps → option (nat * caps).

Definition step (t : char → bool) (i : nat) (c : caps) (k : K)
  : option (nat * caps) :=
  match s !! i with
  | Some x => if t x then k (S i) c else None
  | None => None
  end.

Definition may_repeat (left : option nat) : bool :=
  match left with
  | Some O => false
  | _ => true
  end.

(** The optional iterations of a quantifier, after the mandatory ones.
    Every iteration has to consume input, so that [fuel], the number
    of characters left when the loop is entered, bounds their
    number; at the end of the input only stopping is possible. *)
Fixpoint more (greedy : bool) (left : option nat) (fuel : nat)
    (body : nat → caps → K → option (nat * caps))
    (i : nat) (c : caps) (k : K) {struct fuel} : option (nat * caps) :=
  match fuel with
  | O => k i c
  | S f =>
    let again (_ : unit) :=
      if may_repeat left
      then body i c (λ j c', if (i <? j)%nat
                             then more greedy (Nat.pred <$> left) f body j c' k
                             else None)
      else None in
    if greedy
    then match again () with
         | Some m => Some m
         | None => k i c
         end
    else match k i c with
         | Some m => Some m
         | None => again ()
         end
  end.

(** The mandatory iterations of a quantifier. *)
Fixpoint must (body : nat → caps → K → option (nat * caps)) (n : nat)
    (i : nat) (c : caps) (k : K) {struct n} : option (nat * caps) :=
  match n with
  | S n' => body i c (λ j c', must body n' j c' k)
  | O => k i c
  end.

Fixpoint go (r : regex) (i : nat) (c : caps) (k : K) {struct r}
  : option (nat * caps) :=
  match r with
  | Empty => k i c
  | Lit a => step (lit_test a) i c k
  | Any => step any_test i c k
  | In items => step (in_test items) i c k
  | Cat r1 r2 => go r1 i c (λ j c', go r2 j c' k)
  | Alt r1 r2 =>
    match go r1 i c k with
    | Some m => Some m
    | None => go r2 i c k
    end
  | Group n r1 => go r1 i c (λ j c', k j ((n, (i, j)) :: c'))
  | Ahead r1 =>
    match go r1 i c (λ j c', Some (j, c')) with
    | Some (_, c') => k i c'
    | None => None
    end
  | Boundary => if at_boundary i then k i c else None
  | Eos => if at_end i then k i c else None
  | Rep greedy lo hi r1 =>
    must (go r1) lo i c
      (λ j c', more greedy ((λ h, h - lo)%nat <$> hi) (length s - j) (go r1) j c' k)
  end.
End Matcher.

(** *** Match objects and the module functions *)

Record Match := {
  m_string : str;
  m_start : nat;                      (* [m.start()] *)
  m_end : nat;                        (* [m.end()] *)
  m_caps : caps
}.

(** One attempt at offset [i]; [ok] filters the end offsets the caller
    accepts. *)
Definition match_at (p : Pattern) (s : str) (i : nat) (ok : nat → bool)
  : option Match :=
  match go (ignorecase p) s (code p) i []
           (λ j c, if ok j then Some (j, c) else None) with
  | Some (j, c) => Some {| m_string := s; m_start := i; m_end := j; m_caps := c |}
  | None => None
  end.

(** Scan for the leftmost match from [i]; [n] offsets remain after [i].
    With [adv] set (the previous match was empty and ended at [i]) an
    empty match at [i] is refused. *)
Fixpoint search_go (p : Pattern) (s : str) (n : nat) (i : nat) (adv : bool)
  : option Match :=
  match match_at p s i (λ j, negb (adv && (j =? i)%nat)) with
  | Some m => Some m
  | None =>
    match n with
    | O => None
    | S n' => search_go p s n' (S i) false
    end
  end.

Definition search_from (p : Pattern) (s : str) (i : nat) (adv : bool)
  : option Match :=
  if (i <=? length s)%nat then search_go p s (length s - i) i adv else None.

(** [p.search(s)] *)
Definition search (p : Pattern) (s : str) : option Match :=
  search_from p s 0 false.

(** [p.fullmatch(s)] *)
Definition fullmatch (p : Pattern) (s : str) : option Match :=
  match_at p s 0 (λ j, (j =? length s)%nat).

(** [p.finditer(s)]: successive non-overlapping matches. *)
Fixpoint finditer_go (p : Pattern) (s : str) (fuel : nat) (pos : nat) (adv : bool)
  : list Match :=
  match fuel with
  | O => []
  | S f =>
    match search_from p s pos adv with
    | None => []
    | Some m => m :: finditer_go p s f (m_end m) (m_end m =? m_start m)%nat
    end
  end.

Definition finditer (p : Pattern) (s : str) : list Match :=
  finditer_go p s (2 * length s + 2) 0 false.

(** [m.group(n)]; [None] when the group took no part in the match. *)
Definition group (m : Match) (n : nat) : option str :=
  match n with
  | O => Some (Str.slice (m_string m) (m_start m) (m_end m))
  | _ => (λ sp, Str.slice (m_string m) sp.1 sp.2) <$> cap_get n (m_caps m)
  end.

(** [m.group(name)] *)
Definition group_named (p : Pattern) (m : Match) (name : str)
  : result (option str) :=
  match list_find (λ e, e.1 = name) (groupindex p) with
  | Some (_, (_, n)) => mret (group m n)
  | None => raise IndexError
  end.

(** Replacement templates: text and [\1] ... [\9]. *)
Inductive tpart := TText (c : char) | TGroup (n : nat).

Fixpoint parse_template (ngroups : nat) (repl : str) : result (list tpart) :=
  match repl with
  | [] => mret []
  | c :: r =>
    if c =? ch "\" then
      match r with
      | d :: r' =>
        if in_range 49 57 d && negb (starts_digit r') then
          let n := N.to_nat (d - 48) in
          if (n <=? ngroups)%nat
          then ps ← parse_template ngroups r'; mret (TGroup n :: ps)
          else raise ReError
        else raise ReError
      | [] => raise ReError
      end
    else ps ← parse_template ngroups r; mret (TText c :: ps)
  end.

Definition expand (t : list tpart) (m : Match) : str :=
  flat_map (λ part, match part with
                    | TText c => [c]
                    | TGroup n => default [] (group m n)
                    end) t.

Fixpoint sub_go (t : list tpart) (s : str) (pos : nat) (ms : list Match) : str :=
  match ms with
  | [] => drop pos s
  | m :: ms' => Str.slice s pos (m_start m) ++ expand t m ++ sub_go t s (m_end m) ms'
  end.

(** [p.sub(repl, s)] *)
Definition sub (p : Pattern) (repl : str) (s : str) : result str :=
  t ← parse_template (groups p) repl;
  mret (sub_go t s 0 (finditer p s)).

(** [re.sub(pat, repl, s, flags=...)] and [re.fullmatch(pat, s)] on
    pattern text. *)
Definition re_sub (pat repl s : str) (ic : bool) : result str :=
  p ← compile pat ic; sub p repl s.

Definition re_fullmatch (pat s : str) : result (option Match) :=
  p ← compile pat false; mret (fullmatch p s).

End Re.

(** ** The program *)

Module App.

Import Re.

(** Attribute access on a value that may be [None]. *)
Definition attr {A} (o : option A) : result A :=
  match o with
  | Some x => mret x
  | None => raise AttributeError
  end.

(** [d[k]] on a dict and [l[i]] on a list. *)
Definition getitem {V} (d : gmap (list N) V) (k : str) : result V :=
  match d !! k with
  | Some v => mret v
  | None => raise KeyError
  end.

Definition index {A} (l : list A) (i : nat) : result A :=
  match l !! i with
  | Some x => mret x
  | None => raise IndexError
  end.

Definition nonempty {A} (l : list A) : bool :=
  match l with
  | [] => false
  | _ => true
  end.

Definition WEEKDAY_ORDER : list str :=
  [py "montag"; py "dienstag"; py "mittwoch"; py "donnerstag"; py "freitag"].

Definition WEEKDAY_PATTERNS : result (gmap (list N) Pattern) :=
  montag ← compile (py "\bm\s*o\s*n\s*t\s*a\s*g\b") true;
  dienstag ← compile (py "\bd\s*i\s*e\s*n\s*s\s*t\s*a\s*g\b") true;
  mittwoch ← compile (py "\bm\s*i\s*t\s*t\s*w\s*o\s*c\s*h\b") true;
  donnerstag ← compile (py "\bd\s*o\s*n\s*n\s*e\s*r\s*s\s*t\s*a\s*g\b") true;
  freitag ← compile (py "\bf\s*r\s*e\s*i\s*t\s*a\s*g\b") true;
  mret (list_to_map [
    (py "montag", montag);
    (py "dienstag", dienstag);
    (py "mittwoch", mittwoch);
    (py "donnerstag", donnerstag);
    (py "freitag", freitag)]).

(** *** Text helpers *)

Definition fix_word (word : str) : result str :=
  m ← re_fullmatch (py "(?:[A-Za-zÄÖÜäöü]\s*){3,}") word;
  match m with
  | Some _ => re_sub (py "\s+") (py "") word false
  | None => mret word
  end.

Definition _squash_spaced_letters (s : str) : result str :=
  ws ← mapM fix_word (Str.split s);
  mret (Str.join (py " ") ws).

Record MenuItem := {
  title : str;
  price_chf : option str
}.

#[global] Instance MenuItem_eq_dec : EqDecision MenuItem.
Proof. solve_decision. Defined.

Definition PRICE_RE : str :=
  py "(?P<title>.+?)\s*CHF\s*(?P<price>\d{1,2}[.,]\d{2})(?=\s*(?:[A-ZÄÖÜ]|$)|\s*CHF)".

(** The text the price pattern is run on: the lines joined, whitespace
    collapsed, allergen codes and legend text removed. *)
Definition clean_text (lines : list str) : result str :=
  let text := Str.join (py " ") lines in
  text ← Str.strip <$> re_sub (py "\s+") (py " ") text false;
  text ← re_sub (py "\b([A-ZÄÖÜ](?:\s*,\s*[A-ZÄÖÜ])+)\b") (py "") text false;
  re_sub (py "\b(Allerg(?:ene|ien)|Icon|Info|Bio)\b.*?$") (py "") text true.

(** The body of the loop over the price matches; [None] when the title
    is empty and nothing is appended. *)
Definition price_item (pattern : Pattern) (m : Match) : result (option MenuItem) :=
  title ← Str.strip_chars (py " ,;:-") <$> (group_named pattern m (py "title") ≫= attr);
  price ← Str.replace (py ",") (py ".") <$> (group_named pattern m (py "price") ≫= attr);
  let title := Str.replace (py "Tagessuppeklein") (py "Tagessuppe klein") title in
  let title := Str.replace (py "Tagessuppegross") (py "Tagessuppe gross") title in
  title ← re_sub (py "([a-zäöü])([A-ZÄÖÜ])") (py "\1 \2") title false;
  title ← re_sub (py "\s{2,}") (py " ") title false;
  if nonempty title
  then mret (Some {| title := title; price_chf := Some price |})
  else mret None.

(** The body of the fallback loop over the lines. *)
Definition line_item (ln : str) : result (option MenuItem) :=
  t ← Str.strip_chars (py " ,;") <$> re_sub (py "\s+") (py " ") ln false;
  if nonempty t
  then mret (Some {| title := t; price_chf := None |})
  else mret None.

Definition _extract_items_from_lines (lines : list str) : result (list MenuItem) :=
  text ← clean_text lines;
  pattern ← compile PRICE_RE true;
  items ← omap id <$> mapM (price_item pattern) (finditer pattern text);
  if nonempty items then mret items
  else omap id <$> mapM line_item lines.

(** *** Process state *)

Record Globals := {
  _cached_pdf_url : option str
}.

Definition Proc (A : Type) : Type := Globals → result A * Globals.

Definition get_cached_pdf_url : Proc (option str) :=
  λ g, (mret (_cached_pdf_url g), g).

Definition set_cached_pdf_url (url : str) : Proc unit :=
  λ g, (mret tt, {| _cached_pdf_url := Some url |}).

(** *** The opened PDF

    What [pdfplumber] hands to the parser: per page the tables (rows of
    cells, a cell being text or [None]; [None] for the tables when the
    extraction raised or returned nothing) and the free text. *)

Definition Row : Type := list (option (list N)).

Record Page := {
  extract_tables : option (list (list Row));
  extract_text : option (list N)
}.

Definition row_lines (row : Row) : list str :=
  match row with
  | [] => []
  | _ =>
    let line := Str.strip (Str.join (py " ") (filter (λ c, nonempty c) (omap id row))) in
    if nonempty line then [line] else []
  end.

Definition page_lines (page : Page) : list str :=
  let tables := default [] (extract_tables page) in
  let raw := default [] (extract_text page) in
  flat_map (λ tbl, flat_map row_lines tbl) tables
  ++ filter (λ ln, nonempty ln) (map Str.strip (Str.splitlines raw)).

(** Step 1: all text lines of the document. *)
Definition text_lines (pdf : list Page) : list str := flat_map page_lines pdf.

(** *** Parsing of the week *)

Abbreviation WeekMenu := (gmap (list N) (list MenuItem)).

(** Step 2: one line normalised; [None] when it is dropped. *)
Definition norm_line (ln : str) : result (option str) :=
  ln ← _squash_spaced_letters ln;
  ln ← Str.strip <$> re_sub (py "\s+") (py " ") ln false;
  if nonempty ln then
    let low := Str.lower ln in
    if Str.startswith (py "menüplan") low || Str.contains (py "kw") low
    then mret None
    else mret (Some ln)
  else mret None.

Definition norm_lines (lines : list str) : result (list str) :=
  omap id <$> mapM norm_line lines.

Definition make_blob (norm : list str) : str :=
  Str.lower (Str.join [10] norm).

(** The patterns with their word boundaries taken out. *)
Definition day_regexes : result (gmap (list N) Pattern) :=
  pats ← WEEKDAY_PATTERNS;
  list_to_map <$>
    mapM (λ wp : list N * Pattern,
            p ← compile (Str.replace (py "\b") (py "") (pattern wp.2)) true;
            mret (wp.1, p))
         (map_to_list pats).

Abbreviation Hit := (list N * nat)%type.

(** Step 3, the weekday locator: first match of each weekday, in
    canonical order. *)
Definition locate (blob : str) : result (list Hit) :=
  regs ← day_regexes;
  omap id <$>
    mapM (λ wd,
            p ← getitem regs wd;
            mret ((λ m, (wd, m_start m)) <$> search p blob))
         WEEKDAY_ORDER.

(** [hits.sort(key=lambda x: x[1])], a stable sort. *)
Fixpoint insert_hit (h : Hit) (l : list Hit) : list Hit :=
  match l with
  | [] => [h]
  | x :: r => if (h.2 <=? x.2)%nat then h :: l else x :: insert_hit h r
  end.

Definition sort_hits (hits : list Hit) : list Hit := foldr insert_hit [] hits.

(** The loop [for i, (wd, pos) in enumerate(hits)], entered at index
    [i] with [rest] still to visit. *)
Fixpoint segment_loop (hits : list Hit) (blob : str) (i : nat) (rest : list Hit)
    (segments : gmap (list N) (list N)) : result (gmap (list N) (list N)) :=
  match rest with
  | [] => mret segments
  | (wd, pos) :: rest' =>
    end_ ← (if (i + 1 <? length hits)%nat
            then snd <$> index hits (i + 1)
            else mret (length blob));
    segment_loop hits blob (S i) rest' (<[wd := Str.slice blob pos end_]> segments)
  end.

Definition segments_by_pos (hits : list Hit) (blob : str)
  : result (option (gmap (list N) (list N))) :=
  if (2 <=? length hits)%nat then
    let hits := sort_hits hits in
    Some <$> segment_loop hits blob 0 hits ∅
  else mret None.

Definition truthy_dict {V} (d : option (gmap (list N) V)) : bool :=
  match d with
  | Some m => negb (bool_decide (m = ∅))
  | None => false
  end.

Definition segment_lines (seg : str) : result (list str) :=
  mapM (λ ln, Str.strip <$> re_sub (py "\s+") (py " ") ln false)
       (filter (λ ln, nonempty (Str.strip ln)) (Str.splitlines seg)).

(** The loop [for wd in WEEKDAY_ORDER] that fills [results] from the
    segments. *)
Fixpoint fill_from_segments (segments : gmap (list N) (list N)) (wds : list str)
    (results : WeekMenu) : result WeekMenu :=
  match wds with
  | [] => mret results
  | wd :: wds' =>
    match segments !! wd with
    | Some seg =>
      seg_lines ← segment_lines seg;
      items ← _extract_items_from_lines seg_lines;
      fill_from_segments segments wds' (<[wd := items]> results)
    | None => fill_from_segments segments wds' results
    end
  end.

Definition empty_results : WeekMenu :=
  list_to_map (map (λ wd, (wd, [])) WEEKDAY_ORDER).

(** [results] after attempt A. *)
Definition primary (norm : list str) : result WeekMenu :=
  let blob := make_blob norm in
  hits ← locate blob;
  segments ← segments_by_pos hits blob;
  match segments with
  | Some segs =>
    if truthy_dict segments
    then fill_from_segments segs WEEKDAY_ORDER empty_results
    else mret empty_results
  | None => mret empty_results
  end.

(** [any(results.values())] *)
Definition any_values (results : WeekMenu) : bool :=
  existsb (λ kv, nonempty kv.2) (map_to_list results).

Definition is_marker (ln : str) : bool :=
  Str.contains (py "tagessuppe") (Str.lower ln)
  && Str.contains (py "klein") (Str.lower ln).

Fixpoint marker_idx_from (i : nat) (norm : list str) : list nat :=
  match norm with
  | [] => []
  | ln :: r => if is_marker ln then i :: marker_idx_from (S i) r
               else marker_idx_from (S i) r
  end.

Definition marker_idx (norm : list str) : list nat := marker_idx_from 0 norm.

(** The loop [for i in range(5)] that cuts the blocks. *)
Definition block (norm : list str) (marker : list nat) (i : nat) : result (list str) :=
  start ← index marker i;
  end_ ← (if (i + 1 <? length marker)%nat
          then index marker (i + 1)
          else mret (length norm));
  mret (take (end_ - start) (drop start norm)).

(** The loop [for i, wd in enumerate(WEEKDAY_ORDER)] of the fallback. *)
Fixpoint fill_from_blocks (blocks : list (list str)) (i : nat) (wds : list str)
    (results : WeekMenu) : result WeekMenu :=
  match wds with
  | [] => mret results
  | wd :: wds' =>
    b ← index blocks i;
    items ← _extract_items_from_lines b;
    fill_from_blocks blocks (S i) wds' (<[wd := items]> results)
  end.

(** Step 4, attempt B. *)
Definition fallback (norm : list str) (results : WeekMenu) : result WeekMenu :=
  if negb (any_values results) then
    let marker := marker_idx norm in
    if (5 <=? length marker)%nat then
      blocks ← mapM (block norm marker) (seq 0 5);
      fill_from_blocks blocks 0 WEEKDAY_ORDER results
    else mret results
  else mret results.

(** Step 5: the key of an item and the duplicate filter. *)
Definition item_key (it : MenuItem) : list N * option (list N) :=
  (Str.lower (title it), price_chf it).

Fixpoint dedup_loop (seen : gset (list N * option (list N))) (items : list MenuItem)
  : list MenuItem :=
  match items with
  | [] => []
  | it :: r =>
    if decide (item_key it ∈ seen) then dedup_loop seen r
    else it :: dedup_loop ({[item_key it]} ∪ seen) r
  end.

Definition dedup (items : list MenuItem) : list MenuItem := dedup_loop ∅ items.

(** Steps 2 to 5 on the collected lines. *)
Definition parse_lines (lines : list str) : result WeekMenu :=
  norm ← norm_lines lines;
  results ← primary norm;
  results ← fallback norm results;
  mret ((dedup <$> results) : WeekMenu).

(** *** The parser in the process

    A function of the program runs in the process and could read or
    write the variables of the module.  Here the call graph of
    [parse_week_pdf] is written over the process state: a call of a
    function of the program is a computation on that state and hands it
    on, in the order of the statements; a call into a library ([re],
    [str], [pdfplumber]) cannot name a variable of the module and
    leaves the state alone. *)

#[global] Instance Proc_ret : MRet Proc := λ A x g, (inr x, g).
#[global] Instance Proc_bind : MBind Proc := λ A B f m g,
  match m g with
  | (inl e, g') => (inl e, g')
  | (inr x, g') => f x g'
  end.

#[global] Instance Proc_fmap : FMap Proc := λ A B f m g,
  match m g with
  | (inl e, g') => (inl e, g')
  | (inr x, g') => (inr (f x), g')
  end.

(** A library call, with the value or the exception it gives. *)
Definition lib {A} (r : result A) : Proc A := λ g, (r, g).

Module Process.

Definition fix_word (word : str) : Proc str :=
  m ← lib (re_fullmatch (py "(?:[A-Za-zÄÖÜäöü]\s*){3,}") word);
  match m with
  | Some _ => lib (re_sub (py "\s+") (py "") word false)
  | None => mret word
  end.

Definition _squash_spaced_letters (s : str) : Proc str :=
  ws ← mapM fix_word (Str.split s);
  mret (Str.join (py " ") ws).

(** The body calls into [re] and [str] only; the two loops are the
    ones of [price_item] and [line_item]. *)
Definition _extract_items_from_lines (lines : list str) : Proc (list MenuItem) :=
  text ← lib (clean_text lines);
  pattern ← lib (compile PRICE_RE true);
  items ← lib (omap id <$> mapM (price_item pattern) (finditer pattern text));
  if nonempty items then mret items
  else lib (omap id <$> mapM line_item lines).

(** The body of the loop of step 2. *)
Definition norm_line (ln : str) : Proc (option str) :=
  ln ← _squash_spaced_letters ln;
  ln ← lib (Str.strip <$> re_sub (py "\s+") (py " ") ln false);
  if nonempty ln then
    let low := Str.lower ln in
    if Str.startswith (py "menüplan") low || Str.contains (py "kw") low
    then mret None
    else mret (Some ln)
  else mret None.

(** The loop [for wd in WEEKDAY_ORDER] of attempt A. *)
Fixpoint fill_from_segments (segments : gmap (list N) (list N)) (wds : list str)
    (results : WeekMenu) : Proc WeekMenu :=
  match wds with
  | [] => mret results
  | wd :: wds' =>
    match segments !! wd with
    | Some seg =>
      seg_lines ← lib (segment_lines seg);
      items ← _extract_items_from_lines seg_lines;
      fill_from_segments segments wds' (<[wd := items]> results)
    | None => fill_from_segments segments wds' results
    end
  end.

(** The loop [for i, wd in enumerate(WEEKDAY_ORDER)] of attempt B. *)
Fixpoint fill_from_blocks (blocks : list (list str)) (i : nat) (wds : list str)
    (results : WeekMenu) : Proc WeekMenu :=
  match wds with
  | [] => mret results
  | wd :: wds' =>
    b ← lib (index blocks i);
    items ← _extract_items_from_lines b;
    fill_from_blocks blocks (S i) wds' (<[wd := items]> results)
  end.

End Process.

Definition parse_week_pdf (pdf : list Page) : Proc WeekMenu :=
  (* step 1 *)
  let text_lines := text_lines pdf in
  (* step 2 *)
  norm_lines ← omap id <$> mapM Process.norm_line text_lines;
  (* step 3, attempt A *)
  let blob := make_blob norm_lines in
  hits ← lib (locate blob);
  segments_by_pos ← lib (segments_by_pos hits blob);
  results ← match segments_by_pos with
            | Some segs =>
              if truthy_dict segments_by_pos
              then Process.fill_from_segments segs WEEKDAY_ORDER empty_results
              else mret empty_results
            | None => mret empty_results
            end;
  (* step 4, attempt B *)
  results ← (if negb (any_values results) then
               let marker_idx := marker_idx norm_lines in
               if (5 <=? length marker_idx)%nat then
                 blocks ← lib (mapM (block norm_lines marker_idx) (seq 0 5));
                 Process.fill_from_blocks blocks 0 WEEKDAY_ORDER results
               else mret results
             else mret results);
  (* step 5 *)
  mret ((dedup <$> results) : WeekMenu).

(** *** The callers of the parser

    What the two requests of [load_week_pdf_bytes] return: the URL found
    on the start page, and the document behind it. *)
Record Fetch := {
  fetched_url : result (list N);
  fetched_pdf : result (list Page)
}.

Definition load_week_pdf_bytes (net : Fetch) : Proc (list Page) :=
  λ g, match fetched_url net with
       | inl e => (inl e, g)
       | inr url => (fetched_pdf net, (set_cached_pdf_url url g).2)
       end.

Definition scrape_week (net : Fetch) : Proc WeekMenu :=
  λ g, match load_week_pdf_bytes net g with
       | (inl e, g') => (inl e, g')
       | (inr pdf_bytes, g') => parse_week_pdf pdf_bytes g'
       end.

End App.

(** * The serving layer

    The functions of [app.py] around the parser: the calendar helpers,
    the search for the PDF link on the start page, the tables built from
    the parsed week and the five routes. *)

(** ** Exceptions

    Those of the parser and of the requests, and the [OverflowError] of
    date arithmetic. *)

Inductive fault := Raised (e : exn) | OverflowError.

Abbreviation outcome := (sum fault).

#[global] Instance outcome_ret : MRet outcome := λ A x, inr x.
#[global] Instance outcome_bind : MBind outcome := λ A B f m,
  match m with
  | inl e => inl e
  | inr x => f x
  end.

#[global] Instance outcome_fmap : FMap outcome := λ A B f m,
  match m with
  | inl e => inl e
  | inr x => inr (f x)
  end.

(** A [result] of the parser layer inside the serving layer. *)
Definition lift {A} (r : result A) : outcome A :=
  match r with
  | inl e => inl (Raised e)
  | inr x => inr x
  end.


(** ** Dates

    A [datetime.date] is its proleptic Gregorian ordinal
    ([date.toordinal()]): day 1 is 0001-01-01, the last day is
    9999-12-31. *)

Module Calendar.

Local Open Scope Z_scope.

Definition _MAXORDINAL : Z := 3652059.

(** The ordinals of [date.min] ... [date.max]. *)
Definition is_date (d : Z) : bool := (1 <=? d) && (d <=? _MAXORDINAL).

(** [d.weekday()]: 0 is Monday, 6 is Sunday. *)
Definition weekday (d : Z) : Z := (d + 6) mod 7.

(** [d + timedelta(days=n)] *)
Definition plus_days (d n : Z) : outcome Z :=
  let o := d + n in
  if (0 <? o) && (o <=? _MAXORDINAL) then inr o else inl OverflowError.

Definition _DAYS_IN_MONTH (month : Z) : Z :=
  match month with
  | 1 => 31 | 2 => 28 | 3 => 31 | 4 => 30 | 5 => 31 | 6 => 30
  | 7 => 31 | 8 => 31 | 9 => 30 | 10 => 31 | 11 => 30 | 12 => 31
  | _ => -1
  end.

Definition _DAYS_BEFORE_MONTH (month : Z) : Z :=
  match month with
  | 1 => 0 | 2 => 31 | 3 => 59 | 4 => 90 | 5 => 120 | 6 => 151
  | 7 => 181 | 8 => 212 | 9 => 243 | 10 => 273 | 11 => 304 | 12 => 334
  | _ => -1
  end.

(** Year, month and day of an ordinal, as [datetime] computes them. *)
Definition _ord2ymd (n : Z) : Z * Z * Z :=
  let n := n - 1 in
  let n400 := n / 146097 in
  let n := n mod 146097 in
  let year := n400 * 400 + 1 in
  let n100 := n / 36524 in
  let n := n mod 36524 in
  let n4 := n / 1461 in
  let n := n mod 1461 in
  let n1 := n / 365 in
  let n := n mod 365 in
  let year := year + n100 * 100 + n4 * 4 + n1 in
  if (n1 =? 4) || (n100 =? 4) then (year - 1, 12, 31)
  else
    let leapyear := (n1 =? 3) && (negb (n4 =? 24) || (n100 =? 3)) in
    let month := Z.shiftr (n + 50) 5 in
    let preceding :=
      _DAYS_BEFORE_MONTH month + (if (2 <? month) && leapyear then 1 else 0) in
    if n <? preceding then
      let month := month - 1 in
      let preceding :=
        preceding - (_DAYS_IN_MONTH month + (if (month =? 2) && leapyear then 1 else 0)) in
      (year, month, n - preceding + 1)
    else (year, month, n - preceding + 1).

(** The decimal digits of a number that is not negative; [fuel] bounds
    their number. *)
Fixpoint decimal_go (fuel : nat) (n : Z) (acc : list N) : list N :=
  match fuel with
  | O => acc
  | S f =>
    let acc := Z.to_N (48 + n mod 10) :: acc in
    if n <? 10 then acc else decimal_go f (n / 10) acc
  end.

Definition decimal (n : Z) : list N := decimal_go (S (Z.to_nat (Z.log2 n))) n [].

(** ["%0wd" % n] *)
Definition zero_padded (w : nat) (n : Z) : list N :=
  let ds := decimal n in replicate (w - length ds) 48%N ++ ds.

(** [d.isoformat()] *)
Definition isoformat (d : Z) : list N :=
  let '(year, month, day) := _ord2ymd d in
  zero_padded 4 year ++ [45%N] ++ zero_padded 2 month ++ [45%N] ++ zero_padded 2 day.

End Calendar.

(** ** The helpers, the tables and the routes *)

Module Site.

Import App Calendar.

Definition BASE_URL : str := py "https://www.restaurant-unisg.ch/".

(** *** Two more [str] methods *)

(** [s.endswith(suffix)] *)
Definition endswith (suffix s : str) : bool :=
  Str.startswith (reverse suffix) (reverse s).

(** [s.capitalize()]: the first character raised, the rest lowered.
    The first character is raised with the table of Basic Latin and
    Latin-1, which makes the function exact on the weekday names, the
    only texts the program capitalises. *)
Definition upper_char (c : char) : char :=
  if in_range 97 122 c || in_range 224 246 c || in_range 248 254 c
  then c - 32 else c.

Definition capitalize (s : str) : str :=
  match s with
  | [] => []
  | c :: r => upper_char c :: Str.lower_from [c] r
  end.

(** *** Time and dates *)

(** [week_dates_for_today(today)]: the dict literal is built from
    Monday on. *)
Definition week_dates_for_today (today : Z) : outcome (gmap (list N) Z) :=
  monday ← plus_days today (- weekday today);
  dienstag ← plus_days monday 1;
  mittwoch ← plus_days monday 2;
  donnerstag ← plus_days monday 3;
  freitag ← plus_days monday 4;
  mret (list_to_map [
    (py "montag", monday);
    (py "dienstag", dienstag);
    (py "mittwoch", mittwoch);
    (py "donnerstag", donnerstag);
    (py "freitag", freitag)]).

Definition weekday_de_name (iso_day : Z) : result (option str) :=
  if ((0 <=? iso_day) && (iso_day <=? 4))%Z
  then Some <$> index WEEKDAY_ORDER (Z.to_nat iso_day)
  else mret None.

(** *** The link to the PDF

    What the start page holds for [fetch_current_week_pdf_url]: the
    elements of [soup.find_all("a", href=True)], each with its text
    [a.get_text(" ")] and its [href]. *)

Record Anchor := {
  get_text : str;
  href : str
}.

(** The test of the first loop, and the one of the second. *)
Definition current_week_link (a : Anchor) : bool :=
  let text := Str.lower (Str.strip (get_text a)) in
  Str.contains (py "aktuelle woche") text
  && endswith (py ".pdf") (Str.lower (href a)).

Definition menueplan_link (a : Anchor) : bool :=
  endswith (py ".pdf") (Str.lower (href a))
  && (Str.contains (py "menueplan") (Str.lower (href a))
      || Str.contains (py "menueplaene") (Str.lower (href a))).

Section fetch.

(** [requests.compat.urljoin] *)
Variable urljoin : str → str → str.

Definition absolute (href : str) : str :=
  if Str.startswith (py "http") href then href else urljoin BASE_URL href.

(** One loop [for a in soup.find_all("a", href=True)]: the value
    returned from inside the loop, if any. *)
Fixpoint first_link (test : Anchor → bool) (anchors : list Anchor) : option str :=
  match anchors with
  | [] => None
  | a :: rest => if test a then Some (absolute (href a)) else first_link test rest
  end.

(** [page] is what the request for the start page gives: the exception
    of [requests.get] or [raise_for_status], or the anchors of the
    document. *)
Definition fetch_current_week_pdf_url (page : result (list Anchor)) : result str :=
  anchors ← page;
  match first_link current_week_link anchors with
  | Some url => mret url
  | None =>
    match first_link menueplan_link anchors with
    | Some url => mret url
    | None => raise RuntimeError
    end
  end.

End fetch.

(** *** Today's table *)

(** A row of a table: the dict with the keys ["date"], ["weekday"],
    ["title"], ["price_chf"] and ["source"]. *)
Record TableRow := {
  col_date : str;
  col_weekday : str;
  col_title : str;
  col_price_chf : option str;
  col_source : str
}.

(** A [pd.DataFrame] with these five columns: its rows.  [df.empty]
    holds when there is no row. *)
Abbreviation DataFrame := (list TableRow).

Definition empty (df : DataFrame) : bool := negb (nonempty df).

(** The functions of this layer run over the process state and raise
    in [outcome]. *)
Definition Serve (A : Type) : Type := Globals → outcome A * Globals.

(** [get_cached_pdf_url() or alt] *)
Definition cached_url_or (alt : str) (g : Globals) : outcome str :=
  url ← lift (get_cached_pdf_url g).1;
  match url with
  | Some (c :: r) => mret (c :: r)
  | _ => mret alt
  end.

(** The dict appended for one item: [dates[wd].isoformat()], the label
    of the weekday, the item and the cached URL. *)
Definition table_row (dates : gmap (list N) Z) (wd label : str) (it : MenuItem)
    (g : Globals) : outcome TableRow :=
  d ← lift (getitem dates wd);
  src ← cached_url_or (py "") g;
  mret {| col_date := isoformat d; col_weekday := label;
          col_title := title it; col_price_chf := price_chf it;
          col_source := src |}.

Definition build_dataframe_for_today (week_data : WeekMenu) (today : Z)
  : Serve DataFrame :=
  λ g,
    (dates ← week_dates_for_today today;
     wd_key ← lift (weekday_de_name (weekday today));
     match wd_key with
     | Some wd =>
       if nonempty wd && bool_decide (is_Some (week_data !! wd))
       then items ← lift (getitem week_data wd);
            mapM (λ it, table_row dates wd (capitalize wd) it g) items
       else mret []
     | None => mret []
     end, g).

(** [scrape_today_df()]; [now] is the date [today_local_date()]
    returns. *)
Definition scrape_today_df (net : Fetch) (now : Z) : Serve DataFrame :=
  λ g, match scrape_week net g with
       | (inl e, g') => (inl (Raised e), g')
       | (inr week, g') => build_dataframe_for_today week now g'
       end.

(** *** The routes

    A response is the call that builds it, with its arguments:
    [jsonify(records)], [Response(body, status=...)], [send_file] of
    the CSV text of a table under a download name, and the page
    rendered from the template with its table (the table of a frame, or
    the fixed paragraph when there is none), date and source. *)
Inductive Response :=
| Jsonify (records : list TableRow)
| Plain (body : str) (status : Z)
| SendCsv (df : DataFrame) (download_name : str)
| Rendered (table : option DataFrame) (today : str) (src : str).

Definition not_found : Response := Plain (py "Keine Daten gefunden.") 404.

(** The loops [for wd in WEEKDAY_ORDER: for it in week.get(wd, [])]
    of [week_json] and [week_csv]. *)
Definition week_rows (week : WeekMenu) (dates : gmap (list N) Z) (g : Globals)
  : outcome (list TableRow) :=
  (λ l, concat l) <$>
    mapM (λ wd, mapM (λ it, table_row dates wd (capitalize wd) it g)
                     (default [] (week !! wd)))
         WEEKDAY_ORDER.

Definition menu_json (net : Fetch) (now : Z) : Serve Response :=
  λ g, match scrape_today_df net now g with
       | (inl e, g') => (inl e, g')
       | (inr df, g') => (inr (Jsonify (if empty df then [] else df)), g')
       end.

(** [now] is the date read by [scrape_today_df], [now'] the one read
    for the download name. *)
Definition download_csv_today (net : Fetch) (now now' : Z) : Serve Response :=
  λ g, match scrape_today_df net now g with
       | (inl e, g') => (inl e, g')
       | (inr df, g') =>
         if empty df then (inr not_found, g')
         else (inr (SendCsv df (py "unisg_menu_" ++ isoformat now' ++ py ".csv")), g')
       end.

Definition week_json (net : Fetch) (now : Z) : Serve Response :=
  λ g, match scrape_week net g with
       | (inl e, g') => (inl (Raised e), g')
       | (inr week, g') =>
         (dates ← week_dates_for_today now;
          records ← week_rows week dates g';
          mret (Jsonify records), g')
       end.

Definition week_csv (net : Fetch) (now now' : Z) : Serve Response :=
  λ g, match scrape_week net g with
       | (inl e, g') => (inl (Raised e), g')
       | (inr week, g') =>
         (dates ← week_dates_for_today now;
          df ← week_rows week dates g';
          if empty df then mret not_found
          else mret (SendCsv df (py "unisg_menu_week_" ++ isoformat now' ++ py ".csv")),
          g')
       end.

(** The table shown at the weekend: Friday of the current week. *)
Definition friday_rows (week : WeekMenu) (dates : gmap (list N) Z) (g : Globals)
  : outcome (list TableRow) :=
  mapM (λ it, table_row dates (py "freitag") (py "Freitag") it g)
       (default [] (week !! py "freitag")).

(** [index()].  [net] and [net'] are the requests of the first and of
    the second [scrape_week()]; [now1] ... [now4] are the dates read by
    [scrape_today_df], by the weekend test, for the week dates and for
    the heading. *)
Definition index (net net' : Fetch) (now1 now2 now3 now4 : Z) : Serve Response :=
  λ g, match scrape_today_df net now1 g with
       | (inl e, g1) => (inl e, g1)
       | (inr df, g1) =>
         let '(df, g2) :=
           if empty df && (5 <=? weekday now2)%Z then
             match scrape_week net' g1 with
             | (inl e, g2) => (inl (Raised e), g2)
             | (inr week, g2) =>
               (dates ← week_dates_for_today now3; friday_rows week dates g2, g2)
             end
           else (inr df, g1) in
         (df ← df;
          src ← cached_url_or (py "–") g2;
          mret (Rendered (if empty df then None else Some df) (isoformat now4) src), g2)
       end.

End Site.


(** * Properties *)

Import App.

Arguments py : simpl never.
Arguments Re.compile : simpl never.
Arguments Re.ch : simpl never.
Arguments Re.re_sub : simpl never.
Arguments Re.finditer : simpl never.

(** Reduce the monadic plumbing only. *)
Ltac rsimpl :=
  cbn [mbind result_bind fmap result_fmap mret result_ret raise attr].

(** ** The [result] monad *)

Section result_facts.
Context {A B : Type}.

Lemma bind_inr (f : A → result B) (m : result A) (y : B) :
  m ≫= f = inr y ↔ ∃ x, m = inr x ∧ f x = inr y.
Proof.
  destruct m as [e|x]; simpl; split.
  - discriminate.
  - intros (x & Hx & _). discriminate.
  - eauto.
  - intros (x' & [= <-] & H). exact H.
Qed.

Lemma fmap_inr (f : A → B) (m : result A) (y : B) :
  f <$> m = inr y ↔ ∃ x, m = inr x ∧ y = f x.
Proof.
  destruct m as [e|x]; simpl; split.
  - discriminate.
  - intros (x & Hx & _). discriminate.
  - intros [= <-]. eauto.
  - intros (x' & [= <-] & ->). reflexivity.
Qed.

End result_facts.

Lemma mapM_inr {A B} (f : A → result B) (l : list A) (k : list B) :
  mapM f l = inr k ↔ Forall2 (λ x y, f x = inr y) l k.
Proof.
  revert k. induction l as [|x l IH]; intros k; simpl.
  - split.
    + intros [= <-]. constructor.
    + intros H. inversion H. reflexivity.
  - split.
    + intros H. apply bind_inr in H as (y & Hy & H).
      apply bind_inr in H as (k' & Hk' & [= <-]).
      constructor; [exact Hy | apply IH, Hk'].
    + intros H. inversion H as [|? y ? k' Hy Hk']; subst.
      apply IH in Hk'. rewrite Hy. simpl. rewrite Hk'. reflexivity.
Qed.

Lemma mapM_total {A B} (f : A → result B) (l : list A) :
  (∀ x, x ∈ l → ∃ y, f x = inr y) → ∃ k, mapM f l = inr k.
Proof.
  induction l as [|x l IH]; intros H.
  - exists []. reflexivity.
  - destruct (H x) as [y Hy]; [left|].
    destruct IH as [k Hk]; [intros z Hz; apply H; right; exact Hz|].
    exists (y :: k). simpl. rewrite Hy. simpl. rewrite Hk. reflexivity.
Qed.

Lemma mapM_id_inr {A} (f : A → result A) (l : list A) :
  Forall (λ x, f x = inr x) l → mapM f l = inr l.
Proof.
  intros H. apply mapM_inr. induction H; constructor; assumption.
Qed.

(** ** The character tables *)

Module UnicodeFacts.

(** Unfold the whitespace table and the ranges into linear arithmetic. *)
Ltac char_arith :=
  unfold isspace, islinebreak, in_range in *;
  repeat match goal with
  | H : context [if ?b then _ else _] |- _ => destruct b eqn:?
  | |- context [if ?b then _ else _] => destruct b eqn:?
  end;
  rewrite ?orb_true_iff, ?orb_false_iff, ?andb_true_iff, ?andb_false_iff,
    ?N.leb_le, ?N.leb_gt, ?N.eqb_eq, ?N.eqb_neq in *;
  try lia.

(** The characters a table lists. *)
Lemma in_table_spec (t : list (N * N)) (c : char) :
  in_table t c = true → ∃ lo hi, (lo, hi) ∈ t ∧ lo ≤ c ≤ hi.
Proof.
  induction t as [|[lo hi] t IH]; cbn [in_table]; [discriminate|].
  destruct (c <? lo) eqn:E; [discriminate|]. apply N.ltb_ge in E.
  destruct (c <=? hi) eqn:E'.
  - intros _. apply N.leb_le in E'. exists lo, hi. split; [left | lia].
  - intros H. destruct (IH H) as (lo' & hi' & Hin & Hc).
    exists lo', hi'. split; [right; exact Hin | exact Hc].
Qed.

Lemma chars_of_range (lo hi c : char) : lo ≤ c ≤ hi → c ∈ Re.chars_of lo hi.
Proof.
  intros Hc. unfold Re.chars_of. apply list_elem_of_fmap.
  exists (N.to_nat c). split; [symmetry; apply N2Nat.id|].
  apply elem_of_seq. lia.
Qed.

(** The pairs of the lowercase mapping, run by run. *)
Definition run_pairs (e : N * N * N * N) : list (char * char) :=
  let '(first, last, step, image) := e in
  (λ k, (first + N.of_nat k * step, image + N.of_nat k * step))
    <$> seq 0 (S (N.to_nat ((last - first) / step))).

Definition pairs (t : list (N * N * N * N)) : list (char * char) :=
  flat_map run_pairs t.

Lemma mapped_pairs (t : list (N * N * N * N)) (c l : char) :
  mapped t c = Some l → (c, l) ∈ pairs t.
Proof.
  induction t as [|[[[first last] step] image] t IH]; cbn [mapped]; [discriminate|].
  destruct (c <? first) eqn:E; [discriminate|]. apply N.ltb_ge in E.
  unfold pairs. cbn [flat_map]. fold (pairs t).
  destruct (_ && _) eqn:E'.
  - intros [= <-]. apply elem_of_app. left.
    apply andb_true_iff in E' as [Hl Hm].
    apply N.leb_le in Hl. apply N.eqb_eq in Hm.
    unfold run_pairs. apply list_elem_of_fmap.
    exists (N.to_nat ((c - first) / step)).
    assert (Hk : (c - first) / step * step = c - first).
    { destruct (decide (step = 0)) as [->|Hs].
      - rewrite N.mod_0_r in Hm. rewrite Hm. reflexivity.
      - apply N.Div0.div_exact in Hm. rewrite N.mul_comm. symmetry. exact Hm. }
    rewrite N2Nat.id, Hk. split; [f_equal; lia|].
    apply elem_of_seq. split; [apply Nat.le_0_l|]. cbn [plus].
    assert (Hle : (c - first) / step ≤ (last - first) / step)
      by apply N.Div0.div_le_mono, N.sub_le_mono_r, Hl.
    revert Hle. generalize ((c - first) / step), ((last - first) / step).
    intros q q' Hle. lia.
  - intros H. apply elem_of_app. right. apply IH, H.
Qed.

Lemma tolower_cases (c : char) :
  tolower c = c ∨ (c, tolower c) ∈ pairs LOWERCASE.
Proof.
  unfold tolower. destruct (mapped LOWERCASE c) as [l|] eqn:E; [|left; reflexivity].
  right. apply mapped_pairs, E.
Qed.

(** A property of every pair of a character and its lowercase follows
    from the pairs of the table. *)
Lemma tolower_table (P : char → char → bool) :
  forallb (λ p, P p.1 p.2) (pairs LOWERCASE) = true →
  ∀ c, tolower c = c ∨ P c (tolower c) = true.
Proof.
  intros H c. destruct (tolower_cases c) as [E|E]; [left; exact E|]. right.
  rewrite forallb_forall in H. apply (H (c, tolower c)).
  apply list_elem_of_In, E.
Qed.

(** *** Characters without a lowercase of their own *)

(** The characters [str.lower] leaves as they are. *)
Definition fixed (c : char) : bool := tolower c =? c.

Lemma fixed_lower_full (c : char) : fixed c = true → lower_full c = [c].
Proof.
  unfold fixed, lower_full. intros H. apply N.eqb_eq in H.
  destruct (c =? 304) eqn:E; [|rewrite H; reflexivity].
  apply N.eqb_eq in E. subst c. discriminate H.
Qed.

Lemma fixed_not_sigma (c : char) : fixed c = true → (c =? 931) = false.
Proof.
  intros H. destruct (c =? 931) eqn:E; [|reflexivity].
  apply N.eqb_eq in E. subst c. discriminate H.
Qed.

Lemma tolower_fixed (c : char) : fixed (tolower c) = true.
Proof.
  destruct (tolower_table (λ _ l, fixed l)) with (c := c) as [E|E];
    [vm_compute; reflexivity | | exact E].
  unfold fixed. rewrite !E. apply N.eqb_refl.
Qed.

Lemma lower_full_fixed (c : char) : Forall (λ x, fixed x = true) (lower_full c).
Proof.
  unfold lower_full. destruct (c =? 304).
  - repeat constructor.
  - repeat constructor. apply tolower_fixed.
Qed.

(** [str.lower] gives characters it leaves as they are, and leaves a
    text of such characters as it is. *)
Lemma lower_from_fixed (before s : str) :
  Forall (λ x, fixed x = true) (Str.lower_from before s).
Proof.
  revert before. induction s as [|c s IH]; intros before; cbn [Str.lower_from];
    [constructor|].
  apply Forall_app. split; [|apply IH].
  destruct (c =? 931); [|apply lower_full_fixed].
  destruct (Str.final_sigma before s); repeat constructor.
Qed.

Lemma lower_from_id (before s : str) :
  Forall (λ x, fixed x = true) s → Str.lower_from before s = s.
Proof.
  revert before. induction s as [|c s IH]; intros before Hs; [reflexivity|].
  apply Forall_cons in Hs as [Hc Hs]. cbn [Str.lower_from].
  rewrite (fixed_not_sigma c Hc), (fixed_lower_full c Hc), IH by exact Hs.
  reflexivity.
Qed.

(** *** The characters a literal matches when case is ignored *)

(** The characters with the lowercase [y]. *)
Definition preimage (y : char) : list char :=
  y :: (filter (λ p, p.2 = y) (pairs LOWERCASE)).*1.

Lemma tolower_preimage (x y : char) : tolower x = y → x ∈ preimage y.
Proof.
  intros E. unfold preimage. destruct (tolower_cases x) as [H|H].
  - replace y with x by congruence. left.
  - right. apply list_elem_of_fmap. exists (x, tolower x). split; [reflexivity|].
    apply list_elem_of_filter. split; [exact E | exact H].
Qed.

Definition matching (a : char) : list char :=
  if unicode_iscased a then Re.folded a ≫= preimage else [a].

Lemma lit_test_matching (a x : char) :
  Re.lit_test true a x = true → x ∈ matching a.
Proof.
  unfold Re.lit_test, matching. cbn [andb]. destruct (unicode_iscased a).
  - unfold Str.mem_char. intros H. apply existsb_exists in H as (y & Hy & E).
    apply N.eqb_eq in E. apply list_elem_of_bind. exists y.
    split; [apply tolower_preimage, E | apply list_elem_of_In, Hy].
  - intros H. apply N.eqb_eq in H. subst x. left.
Qed.

End UnicodeFacts.

(** ** Strings *)

Module StrFacts.

Definition no_space (w : str) : Prop := Forall (λ c, isspace c = false) w.

Lemma split_go_no_space (w s : str) :
  no_space w → Forall no_space (Str.split_go w s).
Proof.
  revert w. induction s as [|c r IH]; intros w Hw; simpl.
  - destruct w; constructor; [exact Hw | constructor].
  - destruct (isspace c) eqn:Hc.
    + destruct w.
      * apply IH. constructor.
      * constructor; [exact Hw | apply IH; constructor].
    + apply IH. apply Forall_app. split; [exact Hw|].
      constructor; [exact Hc | constructor].
Qed.

Lemma split_no_space (s : str) : Forall no_space (Str.split s).
Proof. apply split_go_no_space. constructor. Qed.

(** [startswith], [in] and [endswith] in terms of concatenation. *)
Lemma startswith_spec (p s : str) :
  Str.startswith p s = true ↔ ∃ v, s = p ++ v.
Proof.
  revert s. induction p as [|a p IH]; intros s; cbn [Str.startswith].
  - split; [intros _; exists s; reflexivity | reflexivity].
  - destruct s as [|b s]; [split; [discriminate | intros [v Hv]; discriminate Hv]|].
    rewrite andb_true_iff, N.eqb_eq, IH. split.
    + intros [-> [v ->]]. exists v. reflexivity.
    + intros [v Hv]. injection Hv as -> ->. split; [reflexivity | exists v; reflexivity].
Qed.

Lemma contains_spec (sub s : str) :
  Str.contains sub s = true ↔ ∃ u v, s = u ++ sub ++ v.
Proof.
  induction s as [|c s IH]; cbn [Str.contains]; rewrite orb_true_iff, startswith_spec.
  - split.
    + intros [[v Hv]|H]; [exists [], v; exact Hv | discriminate H].
    + intros (u & v & H). left. destruct u as [|? u]; [exists v; exact H|].
      discriminate H.
  - rewrite IH. split.
    + intros [[v Hv]|(u & v & ->)]; [exists [], v; exact Hv|].
      exists (c :: u), v. reflexivity.
    + intros (u & v & H). destruct u as [|c' u].
      * left. exists v. exact H.
      * right. injection H as -> ->. exists u, v. reflexivity.
Qed.

End StrFacts.

(** ** The matcher *)

Module ReFacts.

Import Re.

Lemma compile_ws_plus :
  compile (py "\s+") false =
  inr {| pattern := py "\s+"; ignorecase := false;
         code := Rep true 1 None (In [CSpace]);
         groups := 0; groupindex := [] |}.
Proof. reflexivity. Qed.

Lemma compile_squash :
  ∃ p, compile (py "(?:[A-Za-zÄÖÜäöü]\s*){3,}") false = inr p.
Proof. eexists. reflexivity. Qed.

(** When no offset admits a match, scanning finds nothing. *)
Lemma search_go_none (p : Pattern) (s : str) (n i : nat) (adv : bool) :
  (∀ j ok, match_at p s j ok = None) → search_go p s n i adv = None.
Proof.
  intros H. revert i adv. induction n as [|n IH]; intros i adv; simpl.
  - rewrite H. reflexivity.
  - rewrite H. apply IH.
Qed.

Lemma finditer_none (p : Pattern) (s : str) :
  (∀ j ok, match_at p s j ok = None) → finditer p s = [].
Proof.
  intros H. unfold finditer.
  destruct (2 * length s + 2)%nat as [|f]; [reflexivity|].
  simpl. unfold search_from.
  destruct (0 <=? length s)%nat; [|reflexivity].
  rewrite search_go_none by exact H. reflexivity.
Qed.

Lemma sub_go_nil (t : list tpart) (s : str) : sub_go t s 0 [] = s.
Proof. reflexivity. Qed.

(** A class that no character of the text belongs to cannot take a
    step. *)
Lemma step_none (s : str) (t : char → bool) (i : nat) (c : caps) (k : K) :
  Forall (λ x, t x = false) s → step s t i c k = None.
Proof.
  intros H. unfold step. destruct (s !! i) as [x|] eqn:Hx; [|reflexivity].
  rewrite Forall_forall in H. rewrite H; [reflexivity|].
  eapply list_elem_of_lookup_2, Hx.
Qed.

Lemma ws_plus_no_match (w : str) (j : nat) ok :
  StrFacts.no_space w →
  match_at {| pattern := py "\s+"; ignorecase := false;
              code := Rep true 1 None (In [CSpace]);
              groups := 0; groupindex := [] |} w j ok = None.
Proof.
  intros Hw. unfold match_at. simpl.
  rewrite step_none; [reflexivity|].
  eapply Forall_impl; [exact Hw|]. intros x Hx. unfold in_test, set_test. simpl.
  rewrite Hx. reflexivity.
Qed.

(** Removing whitespace runs from a text without whitespace. *)
Lemma re_sub_ws_empty_id (w : str) :
  StrFacts.no_space w → re_sub (py "\s+") (py "") w false = inr w.
Proof.
  intros Hw. unfold re_sub. rewrite compile_ws_plus. simpl.
  unfold sub. simpl.
  rewrite finditer_none; [reflexivity|].
  intros j ok. apply ws_plus_no_match, Hw.
Qed.

(** *** Group spans only accumulate

    A property [I] of the group spans that survives the recording of a
    further span holds of the spans of every match, if it holds of the
    spans the attempt starts from. *)

Definition stable (I : caps → Prop) : Prop :=
  ∀ n sp c, I c → I ((n, sp) :: c).

Definition respects (I : caps → Prop)
    (f : nat → caps → K → option (nat * caps)) : Prop :=
  ∀ (Ψ : nat * caps → Prop) i c k res,
    I c →
    (∀ j c' res', I c' → k j c' = Some res' → Ψ res') →
    f i c k = Some res → Ψ res.

Lemma step_respects (s : str) (I : caps → Prop) (t : char → bool) :
  respects I (step s t).
Proof.
  intros Ψ i c k res Hc Hk. unfold step.
  destruct (s !! i) as [x|]; [|discriminate].
  destruct (t x); [|discriminate]. apply Hk, Hc.
Qed.

Lemma more_respects (I : caps → Prop) greedy left fuel body :
  respects I body → respects I (more greedy left fuel body).
Proof.
  intros Hb. revert left. induction fuel as [|f IH]; intros left Ψ i c k res Hc Hk.
  - simpl. apply Hk, Hc.
  - simpl. destruct greedy.
    + destruct (may_repeat left).
      * match goal with
        | |- context [body i c ?k'] => destruct (body i c k') as [m|] eqn:Hm
        end.
        -- intros [= <-]. revert Hm. apply Hb; [exact Hc|].
           intros j c' res' Hc'. destruct (i <? j)%nat; [|discriminate].
           apply IH; [exact Hc' | exact Hk].
        -- apply Hk, Hc.
      * apply Hk, Hc.
    + destruct (k i c) as [m|] eqn:Hm.
      * intros [= <-]. eapply Hk; [exact Hc | exact Hm].
      * destruct (may_repeat left); [|discriminate].
        apply Hb; [exact Hc|].
        intros j c' res' Hc'. destruct (i <? j)%nat; [|discriminate].
        apply IH; [exact Hc' | exact Hk].
Qed.

Lemma go_Cat ic s r1 r2 i c k :
  go ic s (Cat r1 r2) i c k = go ic s r1 i c (λ j c', go ic s r2 j c' k).
Proof. reflexivity. Qed.

Lemma go_Group ic s n r i c k :
  go ic s (Group n r) i c k = go ic s r i c (λ j c', k j ((n, (i, j)) :: c')).
Proof. reflexivity. Qed.

Lemma must_respects (I : caps → Prop) body n :
  respects I body → respects I (must body n).
Proof.
  intros Hb. induction n as [|n IH]; intros Ψ i c k res Hc Hk; simpl.
  - apply Hk, Hc.
  - apply Hb; [exact Hc|]. intros j c' res' Hc'. apply IH; assumption.
Qed.

Lemma go_respects ic (s : str) (I : caps → Prop) (r : regex) :
  stable I → respects I (go ic s r).
Proof.
  intros HI. induction r as
    [ | a | | items | r1 IH1 r2 IH2 | r1 IH1 r2 IH2 | greedy lo hi r1 IH1
    | n r1 IH1 | r1 IH1 | | ]; intros Ψ i c k res Hc Hk; simpl.
  - apply Hk, Hc.
  - apply (step_respects s I _ Ψ i c k res Hc Hk).
  - apply (step_respects s I _ Ψ i c k res Hc Hk).
  - apply (step_respects s I _ Ψ i c k res Hc Hk).
  - apply IH1; [exact Hc|]. intros j c' res' Hc'. apply IH2; assumption.
  - destruct (go ic s r1 i c k) as [m|] eqn:Hm.
    + intros [= <-]. revert Hm. apply IH1; assumption.
    + apply IH2; assumption.
  - apply (must_respects I _ lo IH1); [exact Hc|].
    intros j c' res' Hc'.
    apply (more_respects I _ _ _ _ IH1 Ψ j c' k res' Hc' Hk).
  - apply IH1; [exact Hc|]. intros j c' res' Hc'. apply Hk, HI, Hc'.
  - destruct (go ic s r1 i c (λ j c', Some (j, c'))) as [[j c']|] eqn:Hm;
      [|discriminate].
    apply Hk. revert Hm. apply (IH1 (λ res, I res.2)); [exact Hc|].
    intros j' c'' res' Hc'' [= <-]. exact Hc''.
  - destruct (at_boundary s i); [|discriminate]. apply Hk, Hc.
  - destruct (at_end s i); [|discriminate]. apply Hk, Hc.
Qed.

Definition has_group (n : nat) (c : caps) : Prop := is_Some (cap_get n c).

(** Pass a [respects] fact through one stage of a chained match. *)
Tactic Notation "follow" uconstr(lem) constr(Ψ) constr(Hc) :=
  refine (lem Ψ _ _ _ _ Hc _).

Lemma has_group_stable (n : nat) : stable (has_group n).
Proof.
  intros m sp c H. unfold has_group. simpl.
  destruct (m =? n)%nat; [eexists; reflexivity | exact H].
Qed.

Lemma has_group_here (n : nat) sp c : has_group n ((n, sp) :: c).
Proof. unfold has_group. simpl. rewrite Nat.eqb_refl. eexists; reflexivity. Qed.

(** *** What the scans return *)

Lemma match_at_string p s i ok m :
  match_at p s i ok = Some m → m_string m = s ∧ m_start m = i.
Proof.
  unfold match_at. destruct (go _ _ _ _ _ _) as [[j c]|]; [|discriminate].
  intros [= <-]. split; reflexivity.
Qed.

Lemma search_go_origin (P : Match → Prop) p s n i adv m :
  (∀ j ok m', match_at p s j ok = Some m' → P m') →
  search_go p s n i adv = Some m → P m.
Proof.
  intros H. revert i adv. induction n as [|n IH]; intros i adv; simpl;
    destruct (match_at p s i _) as [m'|] eqn:Hm.
  - intros [= <-]. eapply H, Hm.
  - discriminate.
  - intros [= <-]. eapply H, Hm.
  - apply IH.
Qed.

Lemma finditer_go_origin (P : Match → Prop) p s fuel pos adv :
  (∀ j ok m', match_at p s j ok = Some m' → P m') →
  Forall P (finditer_go p s fuel pos adv).
Proof.
  intros H. revert pos adv. induction fuel as [|f IH]; intros pos adv; simpl.
  - constructor.
  - unfold search_from. destruct (pos <=? length s)%nat; [|constructor].
    destruct (search_go _ _ _ _ _) as [m|] eqn:Hm; [|constructor].
    constructor; [|apply IH]. eapply search_go_origin; eassumption.
Qed.

Lemma finditer_origin (P : Match → Prop) p s :
  (∀ j ok m', match_at p s j ok = Some m' → P m') →
  Forall P (finditer p s).
Proof. apply finditer_go_origin. Qed.

Lemma finditer_string p s : Forall (λ m, m_string m = s) (finditer p s).
Proof.
  apply finditer_origin. intros j ok m H.
  apply match_at_string in H as [H _]. exact H.
Qed.

(** *** [sub] never raises on a pattern that compiles and a template
    that parses *)

Lemma re_sub_inr pat repl s ic p t :
  compile pat ic = inr p →
  parse_template (groups p) repl = inr t →
  re_sub pat repl s ic = inr (sub_go t s 0 (finditer p s)).
Proof.
  intros Hp Ht. unfold re_sub. rewrite Hp. simpl. unfold sub.
  rewrite Ht. reflexivity.
Qed.

(** *** The patterns of the program compile *)

Definition UPPER : list citem := [CRange 65 90; CChar 196; CChar 214; CChar 220].

Lemma compile_ws2 :
  compile (py "\s{2,}") false =
  inr {| pattern := py "\s{2,}"; ignorecase := false;
         code := Rep true 2 None (In [CSpace]);
         groups := 0; groupindex := [] |}.
Proof. reflexivity. Qed.

Lemma compile_allergen :
  compile (py "\b([A-ZÄÖÜ](?:\s*,\s*[A-ZÄÖÜ])+)\b") false =
  inr {| pattern := py "\b([A-ZÄÖÜ](?:\s*,\s*[A-ZÄÖÜ])+)\b"; ignorecase := false;
         code := Cat Boundary
                   (Cat (Group 1
                           (Cat (In UPPER)
                              (Rep true 1 None
                                 (Cat (Rep true 0 None (In [CSpace]))
                                    (Cat (Lit 44)
                                       (Cat (Rep true 0 None (In [CSpace]))
                                          (In UPPER)))))))
                      Boundary);
         groups := 1; groupindex := [] |}.
Proof. reflexivity. Qed.

Lemma compile_legend :
  ∃ p, compile (py "\b(Allerg(?:ene|ien)|Icon|Info|Bio)\b.*?$") true = inr p
       ∧ groups p = 1%nat.
Proof. eexists. split; reflexivity. Qed.

Lemma compile_camel :
  compile (py "([a-zäöü])([A-ZÄÖÜ])") false =
  inr {| pattern := py "([a-zäöü])([A-ZÄÖÜ])"; ignorecase := false;
         code := Cat (Group 1 (In [CRange 97 122; CChar 228; CChar 246; CChar 252]))
                     (Group 2 (In UPPER));
         groups := 2; groupindex := [] |}.
Proof. reflexivity. Qed.

Definition PRICE_TAIL : regex :=
  Cat (Rep true 0 None (In [CSpace]))
    (Cat (Lit 67) (Cat (Lit 72) (Cat (Lit 70)
      (Cat (Rep true 0 None (In [CSpace]))
        (Cat (Group 2
                (Cat (Rep true 1 (Some 2%nat) (In [CDigit]))
                   (Cat (In [CChar 46; CChar 44])
                      (Rep true 2 (Some 2%nat) (In [CDigit])))))
           (Ahead
              (Alt (Cat (Rep true 0 None (In [CSpace])) (Alt (In UPPER) Eos))
                 (Cat (Rep true 0 None (In [CSpace]))
                    (Cat (Lit 67) (Cat (Lit 72) (Lit 70))))))))))).

Definition PRICE : Pattern :=
  {| pattern := PRICE_RE; ignorecase := true;
     code := Cat (Group 1 (Rep false 1 None Any)) PRICE_TAIL;
     groups := 2;
     groupindex := [(py "title", 1%nat); (py "price", 2%nat)] |}.

Lemma compile_price : compile PRICE_RE true = inr PRICE.
Proof. reflexivity. Qed.

Lemma template_plain (n : nat) (t : str) :
  Forall (λ c, c ≠ ch "\") t → parse_template n t = inr (map TText t).
Proof.
  induction 1 as [|c t Hc _ IH]; [reflexivity|].
  cbn [parse_template map].
  destruct (c =? ch "\") eqn:E; [apply N.eqb_eq in E; contradiction|].
  rewrite IH. reflexivity.
Qed.

Lemma template_empty (n : nat) : parse_template n (py "") = inr [].
Proof. reflexivity. Qed.

Lemma template_space (n : nat) : parse_template n (py " ") = inr [TText 32].
Proof. reflexivity. Qed.

Lemma template_camel :
  parse_template 2 (py "\1 \2") = inr [TGroup 1; TText 32; TGroup 2].
Proof. reflexivity. Qed.

(** *** Both named groups of the price pattern take part in every
    match *)

Lemma price_match_groups (s : str) (j : nat) ok (m : Match) :
  match_at PRICE s j ok = Some m →
  has_group 1 (m_caps m) ∧ has_group 2 (m_caps m).
Proof.
  unfold match_at.
  destruct (go _ _ _ _ _ _) as [[e c]|] eqn:Hgo; [|discriminate].
  intros [= <-]. simpl. revert Hgo.
  change (code PRICE) with (Cat (Group 1 (Rep false 1 None Any)) PRICE_TAIL).
  change (ignorecase PRICE) with true.
  set (Ψ := λ res : nat * caps, has_group 1 res.2 ∧ has_group 2 res.2).
  change (has_group 1 c ∧ has_group 2 c) with (Ψ (e, c)).
  generalize (e, c). intros res.
  rewrite go_Cat, go_Group.
  refine (go_respects true s (λ _, True) (Rep false 1 None Any)
            (λ _ _ _ _, I) Ψ _ _ _ _ I _).
  clear res. intros j1 c1 res _. unfold PRICE_TAIL.
  set (I1 := has_group 1).
  assert (HI1 : stable I1) by apply has_group_stable.
  assert (H1 : I1 ((1%nat, (j, j1)) :: c1)) by apply has_group_here.
  revert H1. generalize ((1%nat, (j, j1)) :: c1). clear c1. intros c1 Hc.
  rewrite go_Cat.
  follow (go_respects true s I1 _ HI1) Ψ Hc. clear res Hc. intros j2 c2 res Hc.
  rewrite go_Cat.
  follow (go_respects true s I1 _ HI1) Ψ Hc. clear res Hc. intros j3 c3 res Hc.
  rewrite go_Cat.
  follow (go_respects true s I1 _ HI1) Ψ Hc. clear res Hc. intros j4 c4 res Hc.
  rewrite go_Cat.
  follow (go_respects true s I1 _ HI1) Ψ Hc. clear res Hc. intros j5 c5 res Hc.
  rewrite go_Cat.
  follow (go_respects true s I1 _ HI1) Ψ Hc. clear res Hc. intros j6 c6 res Hc.
  rewrite go_Cat, go_Group.
  follow (go_respects true s I1 _ HI1) Ψ Hc. clear res Hc. intros j7 c7 res Hc.
  set (I2 := λ c, has_group 1 c ∧ has_group 2 c).
  assert (HI2 : stable I2).
  { intros n sp c' [Ha Hb]. split; apply has_group_stable; assumption. }
  assert (H2 : I2 ((2%nat, (j6, j7)) :: c7)).
  { split; [apply has_group_stable, Hc | apply has_group_here]. }
  revert H2. generalize ((2%nat, (j6, j7)) :: c7). clear Hc. intros c8 Hc.
  follow (go_respects true s I2 _ HI2) Ψ Hc. clear res Hc.
  intros j9 c9 res Hc. destruct (ok j9); [|discriminate].
  intros [= <-]. exact Hc.
Qed.

End ReFacts.

(** ** The loop bounds of the matcher never cut a loop short *)

Module ReBounds.

Import Re ReFacts.

Section bounds.
Variable ic : bool.
Variable s : str.

Abbreviation stage := (nat → caps → K → option (nat * caps)).

(** A stage started inside the text hands over inside the text, at or
    after its own offset. *)
Definition confined (f : stage) : Prop :=
  ∀ (Ψ : nat * caps → Prop) i c k res,
    (i ≤ length s)%nat →
    (∀ j c' res', (i ≤ j ≤ length s)%nat → k j c' = Some res' → Ψ res') →
    f i c k = Some res → Ψ res.

(** A stage consults its continuation only at such offsets. *)
Definition local (f : stage) : Prop :=
  ∀ i c k k',
    (i ≤ length s)%nat →
    (∀ j c', (i ≤ j ≤ length s)%nat → k j c' = k' j c') →
    f i c k = f i c k'.

(** A stage whose continuation always fails, fails. *)
Definition fails (f : stage) : Prop :=
  ∀ i c k, (∀ j c', k j c' = None) → f i c k = None.

Lemma step_confined t : confined (step s t).
Proof.
  intros Ψ i c k res Hi Hk. unfold step.
  destruct (s !! i) as [x|] eqn:Hx; [|discriminate].
  destruct (t x); [|discriminate].
  apply lookup_lt_Some in Hx. apply Hk. lia.
Qed.

Lemma step_local t : local (step s t).
Proof.
  intros i c k k' Hi Hk. unfold step.
  destruct (s !! i) as [x|] eqn:Hx; [|reflexivity].
  destruct (t x); [|reflexivity].
  apply lookup_lt_Some in Hx. apply Hk. lia.
Qed.

Lemma step_fails t : fails (step s t).
Proof.
  intros i c k Hk. unfold step. destruct (s !! i) as [x|]; [|reflexivity].
  destruct (t x); [apply Hk | reflexivity].
Qed.

Lemma must_confined body n : confined body → confined (must body n).
Proof.
  intros Hb. induction n as [|n IH]; intros Ψ i c k res Hi Hk; cbn [must].
  - apply Hk. lia.
  - apply Hb; [exact Hi|]. intros j c' res' Hj.
    apply IH; [lia|]. intros j' c'' res'' Hj'. apply Hk. lia.
Qed.

Lemma must_local body n : local body → local (must body n).
Proof.
  intros Hb. induction n as [|n IH]; intros i c k k' Hi Hk; cbn [must].
  - apply Hk. lia.
  - apply Hb; [exact Hi|]. intros j c' Hj.
    apply IH; [lia|]. intros j' c'' Hj'. apply Hk. lia.
Qed.

Lemma must_fails body n : fails body → fails (must body n).
Proof.
  intros Hb. induction n as [|n IH]; intros i c k Hk; cbn [must].
  - apply Hk.
  - apply Hb. intros j c'. apply IH, Hk.
Qed.

Lemma more_confined greedy left fuel body :
  confined body → confined (more greedy left fuel body).
Proof.
  intros Hb. revert left.
  induction fuel as [|f IH]; intros left Ψ i c k res Hi Hk; cbn [more].
  - apply Hk. lia.
  - assert (Hagain : body i c
              (λ j c', if (i <? j)%nat
                       then more greedy (Nat.pred <$> left) f body j c' k
                       else None) = Some res → Ψ res).
    { apply Hb; [exact Hi|]. intros j c' res' Hj.
      destruct (i <? j)%nat; [|discriminate].
      apply IH; [lia|]. intros j' c'' res'' Hj'. apply Hk. lia. }
    assert (Hstop : k i c = Some res → Ψ res) by (apply Hk; lia).
    destruct greedy.
    + destruct (may_repeat left); [|exact Hstop].
      destruct (body i c _) as [m|] eqn:Hm; [|exact Hstop].
      intros [= <-]. apply Hagain. reflexivity.
    + destruct (k i c) as [m|] eqn:Hm.
      * intros [= <-]. apply Hstop. reflexivity.
      * destruct (may_repeat left); [exact Hagain | discriminate].
Qed.

Lemma more_local greedy left fuel body :
  local body → local (more greedy left fuel body).
Proof.
  intros Hb. revert left.
  induction fuel as [|f IH]; intros left i c k k' Hi Hk; cbn [more].
  - apply Hk. lia.
  - assert (Hagain : body i c
              (λ j c', if (i <? j)%nat
                       then more greedy (Nat.pred <$> left) f body j c' k
                       else None)
            = body i c
              (λ j c', if (i <? j)%nat
                       then more greedy (Nat.pred <$> left) f body j c' k'
                       else None)).
    { apply Hb; [exact Hi|]. intros j c' Hj.
      destruct (i <? j)%nat; [|reflexivity].
      apply IH; [lia|]. intros j' c'' Hj'. apply Hk. lia. }
    rewrite Hagain, (Hk i c) by lia. reflexivity.
Qed.

Lemma more_fails greedy left fuel body :
  fails body → fails (more greedy left fuel body).
Proof.
  intros Hb. revert left.
  induction fuel as [|f IH]; intros left i c k Hk; cbn [more]; [apply Hk|].
  rewrite Hk, Hb.
  - destruct greedy, (may_repeat left); reflexivity.
  - intros j c'. destruct (i <? j)%nat; [apply IH, Hk | reflexivity].
Qed.

Lemma go_confined (r : regex) : confined (go ic s r).
Proof.
  induction r as
    [ | a | | items | r1 IH1 r2 IH2 | r1 IH1 r2 IH2 | greedy lo hi r1 IH1
    | n r1 IH1 | r1 IH1 | | ]; intros Ψ i c k res Hi Hk; cbn [go].
  - apply Hk. lia.
  - apply (step_confined _ Ψ i c k res Hi Hk).
  - apply (step_confined _ Ψ i c k res Hi Hk).
  - apply (step_confined _ Ψ i c k res Hi Hk).
  - apply IH1; [exact Hi|]. intros j c' res' Hj.
    apply IH2; [lia|]. intros j' c'' res'' Hj'. apply Hk. lia.
  - destruct (go ic s r1 i c k) as [m|] eqn:Hm.
    + intros [= <-]. revert Hm. apply IH1; assumption.
    + apply IH2; assumption.
  - apply (must_confined _ lo IH1); [exact Hi|]. intros j c' res' Hj.
    apply (more_confined _ _ _ _ IH1); [lia|].
    intros j' c'' res'' Hj'. apply Hk. lia.
  - apply IH1; [exact Hi|]. intros j c' res' Hj. apply Hk. exact Hj.
  - destruct (go ic s r1 i c (λ j c', Some (j, c'))) as [[j c']|]; [|discriminate].
    apply Hk. lia.
  - destruct (at_boundary s i); [|discriminate]. apply Hk. lia.
  - destruct (at_end s i); [|discriminate]. apply Hk. lia.
Qed.

Lemma go_local (r : regex) : local (go ic s r).
Proof.
  induction r as
    [ | a | | items | r1 IH1 r2 IH2 | r1 IH1 r2 IH2 | greedy lo hi r1 IH1
    | n r1 IH1 | r1 IH1 | | ]; intros i c k k' Hi Hk; cbn [go].
  - apply Hk. lia.
  - apply (step_local _ i c k k' Hi Hk).
  - apply (step_local _ i c k k' Hi Hk).
  - apply (step_local _ i c k k' Hi Hk).
  - apply IH1; [exact Hi|]. intros j c' Hj.
    apply IH2; [lia|]. intros j' c'' Hj'. apply Hk. lia.
  - rewrite (IH1 i c k k' Hi Hk), (IH2 i c k k' Hi Hk). reflexivity.
  - apply (must_local _ lo IH1); [exact Hi|]. intros j c' Hj.
    apply (more_local _ _ _ _ IH1); [lia|].
    intros j' c'' Hj'. apply Hk. lia.
  - apply IH1; [exact Hi|]. intros j c' Hj. apply Hk. exact Hj.
  - destruct (go ic s r1 i c (λ j c', Some (j, c'))) as [[j c']|]; [|reflexivity].
    apply Hk. lia.
  - destruct (at_boundary s i); [|reflexivity]. apply Hk. lia.
  - destruct (at_end s i); [|reflexivity]. apply Hk. lia.
Qed.

Lemma go_fails (r : regex) : fails (go ic s r).
Proof.
  induction r as
    [ | a | | items | r1 IH1 r2 IH2 | r1 IH1 r2 IH2 | greedy lo hi r1 IH1
    | n r1 IH1 | r1 IH1 | | ]; intros i c k Hk; cbn [go].
  - apply Hk.
  - apply step_fails, Hk.
  - apply step_fails, Hk.
  - apply step_fails, Hk.
  - apply IH1. intros j c'. apply IH2, Hk.
  - rewrite (IH1 i c k Hk). apply IH2, Hk.
  - apply (must_fails _ lo IH1). intros j c'. apply (more_fails _ _ _ _ IH1), Hk.
  - apply IH1. intros j c'. apply Hk.
  - destruct (go ic s r1 i c _) as [[j c']|]; [apply Hk | reflexivity].
  - destruct (at_boundary s i); [apply Hk | reflexivity].
  - destruct (at_end s i); [apply Hk | reflexivity].
Qed.

(** The optional iterations of a quantifier consume input, so the
    number of characters left bounds them: any larger bound gives the
    same result. *)
Lemma more_fuel_enough greedy body (fuel fuel' : nat) left i c k :
  local body → fails body →
  (i ≤ length s)%nat → (length s - i ≤ fuel)%nat → (length s - i ≤ fuel')%nat →
  more greedy left fuel body i c k = more greedy left fuel' body i c k.
Proof.
  intros Hl Hf. revert fuel' left i c.
  assert (Hend : ∀ f left i c, i = length s →
            more greedy left f body i c k = k i c).
  { intros f left i c ->. destruct f as [|f]; [reflexivity|]. cbn [more].
    assert (Hnone : body (length s) c
              (λ j c', if (length s <? j)%nat
                       then more greedy (Nat.pred <$> left) f body j c' k
                       else None) = None).
    { rewrite (Hl _ _ _ (λ _ _, None)); [apply Hf; reflexivity | lia|].
      intros j c' Hj. assert (E : (length s <? j)%nat = false)
        by (apply Nat.ltb_ge; lia). rewrite E. reflexivity. }
    rewrite Hnone. destruct greedy, (may_repeat left), (k (length s) c); reflexivity. }
  induction fuel as [|f IH]; intros fuel' left i c Hi Hfu Hfu'.
  - rewrite !Hend by lia. reflexivity.
  - destruct fuel' as [|f']; [rewrite !Hend by lia; reflexivity|].
    cbn [more].
    assert (Hagain : body i c
              (λ j c', if (i <? j)%nat
                       then more greedy (Nat.pred <$> left) f body j c' k
                       else None)
            = body i c
              (λ j c', if (i <? j)%nat
                       then more greedy (Nat.pred <$> left) f' body j c' k
                       else None)).
    { apply Hl; [exact Hi|]. intros j c' Hj.
      destruct (i <? j)%nat eqn:E; [|reflexivity].
      apply Nat.ltb_lt in E. apply IH; lia. }
    rewrite Hagain. reflexivity.
Qed.

End bounds.

(** In [go] the bound of a quantifier can be replaced by any larger
    one. *)
Lemma rep_fuel_enough ic (s : str) greedy lo hi (r : regex) i c k (fuel : nat) :
  (i ≤ length s)%nat → (length s ≤ fuel)%nat →
  go ic s (Rep greedy lo hi r) i c k
  = must (go ic s r) lo i c
      (λ j c', more greedy ((λ h, h - lo)%nat <$> hi) fuel (go ic s r) j c' k).
Proof.
  intros Hi Hfuel. cbn [go].
  refine (must_local s _ lo (go_local ic s r) _ _ _ _ Hi _).
  intros j c' Hj. apply (more_fuel_enough s);
    [apply go_local | apply go_fails | lia..].
Qed.

(** *** The scans stay inside the text and move forward *)

Lemma match_at_span p s i ok m :
  (i ≤ length s)%nat → match_at p s i ok = Some m →
  m_start m = i ∧ (i ≤ m_end m ≤ length s)%nat ∧ ok (m_end m) = true.
Proof.
  intros Hi. unfold match_at.
  destruct (go _ _ _ _ _ _) as [[j c]|] eqn:Hgo; [|discriminate].
  intros [= <-]. cbn. split; [reflexivity|]. revert Hgo.
  apply (go_confined _ _ _ (λ res, (i ≤ res.1 ≤ length s)%nat ∧ ok res.1 = true));
    [exact Hi|].
  intros j' c' res' Hj. destruct (ok j') eqn:E; [|discriminate].
  intros [= <-]. cbn. split; [exact Hj | exact E].
Qed.

Lemma search_go_span p s n i adv m :
  (i + n ≤ length s)%nat → search_go p s n i adv = Some m →
  (i ≤ m_start m ≤ m_end m)%nat ∧ (m_end m ≤ length s)%nat
  ∧ (adv = true → (i < m_end m)%nat).
Proof.
  revert i adv. induction n as [|n IH]; intros i adv Hi; cbn [search_go];
    destruct (match_at p s i _) as [m'|] eqn:Hm.
  - intros [= <-]. apply match_at_span in Hm as (-> & Hj & Hok); [|lia].
    split; [lia|]. split; [lia|]. intros ->. cbn in Hok.
    apply negb_true_iff, Nat.eqb_neq in Hok. lia.
  - discriminate.
  - intros [= <-]. apply match_at_span in Hm as (-> & Hj & Hok); [|lia].
    split; [lia|]. split; [lia|]. intros ->. cbn in Hok.
    apply negb_true_iff, Nat.eqb_neq in Hok. lia.
  - intros H. apply IH in H as (H1 & H2 & _); [|lia].
    split; [lia|]. split; [exact H2|]. intros _. lia.
Qed.

Lemma search_from_span p s i adv m :
  search_from p s i adv = Some m →
  (i ≤ m_start m ≤ m_end m)%nat ∧ (m_end m ≤ length s)%nat
  ∧ (adv = true → (i < m_end m)%nat).
Proof.
  unfold search_from. destruct (i <=? length s)%nat eqn:E; [|discriminate].
  apply Nat.leb_le in E. apply search_go_span. lia.
Qed.

(** [search] returns the leftmost offset at which the pattern
    matches. *)
Lemma search_go_leftmost p s n i m :
  search_go p s n i false = Some m →
  ∀ j, (i ≤ j < m_start m)%nat → match_at p s j (λ _, true) = None.
Proof.
  revert i. induction n as [|n IH]; intros i; cbn [search_go];
    change (λ j : nat, negb (false && (j =? i)%nat)) with (λ _ : nat, true);
    destruct (match_at p s i (λ _, true)) as [m'|] eqn:Hm.
  - intros [= <-] j Hj. apply match_at_string in Hm as [_ Hm]. lia.
  - discriminate.
  - intros [= <-] j Hj. apply match_at_string in Hm as [_ Hm]. lia.
  - intros H j Hj. destruct (decide (j = i)) as [->|Hne]; [exact Hm|].
    apply (IH (S i) H). lia.
Qed.

Lemma search_leftmost p s m :
  search p s = Some m →
  ∀ j, (j < m_start m)%nat → match_at p s j (λ _, true) = None.
Proof.
  unfold search, search_from. destruct (0 <=? length s)%nat; [|discriminate].
  intros H j Hj. apply (search_go_leftmost _ _ _ _ _ H). lia.
Qed.

(** What is left to scan: twice the remaining characters, plus one
    while an empty match at the current offset is still allowed. *)
Definition rank (s : str) (pos : nat) (adv : bool) : nat :=
  2 * (length s - pos) + (if adv then 0 else 1).

(** [finditer] is not cut short by its bound: any bound above the rank
    gives the same matches. *)
Lemma finditer_go_fuel_enough p s (fuel fuel' pos : nat) adv :
  (rank s pos adv < fuel)%nat → (rank s pos adv < fuel')%nat →
  finditer_go p s fuel pos adv = finditer_go p s fuel' pos adv.
Proof.
  revert fuel' pos adv. induction fuel as [|f IH]; intros fuel' pos adv Hf Hf'; [lia|].
  destruct fuel' as [|f']; [lia|]. cbn [finditer_go].
  destruct (search_from p s pos adv) as [m|] eqn:Hm; [|reflexivity].
  f_equal. apply search_from_span in Hm as (H1 & H2 & H3).
  assert (Hrank : (rank s (m_end m) (m_end m =? m_start m) < rank s pos adv)%nat).
  { unfold rank in *. destruct (m_end m =? m_start m)%nat eqn:E.
    - apply Nat.eqb_eq in E. destruct adv; [specialize (H3 eq_refl)|]; lia.
    - apply Nat.eqb_neq in E. destruct adv; lia. }
  apply IH; lia.
Qed.

Lemma finditer_fuel_enough p s (fuel : nat) :
  (2 * length s + 2 ≤ fuel)%nat → finditer p s = finditer_go p s fuel 0 false.
Proof.
  intros H. unfold finditer. apply finditer_go_fuel_enough; unfold rank; lia.
Qed.

End ReBounds.

(** ** Whitespace normalisation

    [re.sub(r"\s+", " ", s)] against a direct definition: every maximal
    run of whitespace becomes one blank. *)

Module WhitespaceFacts.

Import Re ReFacts ReBounds.

(** [in_run] tells that the character before was whitespace. *)
Fixpoint collapse_go (in_run : bool) (s : str) : str :=
  match s with
  | [] => []
  | c :: r =>
    if isspace c
    then if in_run then collapse_go true r else 32 :: collapse_go true r
    else c :: collapse_go false r
  end.

Definition collapse_ws (s : str) : str := collapse_go false s.

Definition WS_PLUS : Pattern :=
  {| pattern := py "\s+"; ignorecase := false;
     code := Rep true 1 None (In [CSpace]);
     groups := 0; groupindex := [] |}.

(** The offset behind the whitespace run that starts at [i]. *)
Definition run_end (s : str) (i : nat) : nat :=
  (length s - length (Str.lstrip_by isspace (drop i s)))%nat.

Lemma space_test (x : char) : in_test false [CSpace] x = isspace x.
Proof. unfold in_test, set_test. cbn. apply orb_false_r. Qed.

Lemma lstrip_by_suffix p (l : str) :
  (length (Str.lstrip_by p l) ≤ length l)%nat
  ∧ Str.lstrip_by p l = drop (length l - length (Str.lstrip_by p l)) l.
Proof.
  induction l as [|c l [IH1 IH2]]; cbn [Str.lstrip_by]; [split; reflexivity|].
  destruct (p c).
  - split; [cbn [length]; lia|]. cbn [length].
    replace (S (length l) - length (Str.lstrip_by p l))%nat
      with (S (length l - length (Str.lstrip_by p l))) by lia.
    exact IH2.
  - split; [lia|]. rewrite Nat.sub_diag. reflexivity.
Qed.

Lemma collapse_go_run (l : str) :
  collapse_go true l = collapse_go false (Str.lstrip_by isspace l).
Proof.
  induction l as [|c l IH]; [reflexivity|]. cbn [collapse_go Str.lstrip_by].
  destruct (isspace c) eqn:E; [exact IH|]. cbn [collapse_go]. rewrite E. reflexivity.
Qed.

Lemma run_end_space s i x :
  s !! i = Some x → isspace x = true → run_end s i = run_end s (S i).
Proof.
  intros Hx Hs. unfold run_end. rewrite (drop_S _ _ _ Hx).
  cbn [Str.lstrip_by]. rewrite Hs. reflexivity.
Qed.

Lemma run_end_stop s i :
  (i ≤ length s)%nat →
  (∀ x, s !! i = Some x → isspace x = false) → run_end s i = i.
Proof.
  intros Hi Hx. unfold run_end. destruct (s !! i) as [x|] eqn:E.
  - rewrite (drop_S _ _ _ E). cbn [Str.lstrip_by]. rewrite (Hx x eq_refl).
    cbn [length]. rewrite length_drop. apply lookup_lt_Some in E. lia.
  - apply lookup_ge_None in E. rewrite drop_ge by exact E. cbn [Str.lstrip_by length]. lia.
Qed.

Lemma run_end_bounds s i : (i ≤ length s)%nat → (i ≤ run_end s i ≤ length s)%nat.
Proof.
  intros Hi. unfold run_end.
  destruct (lstrip_by_suffix isspace (drop i s)) as [H _].
  rewrite length_drop in H. lia.
Qed.

Lemma run_end_drop s i :
  (i ≤ length s)%nat → drop (run_end s i) s = Str.lstrip_by isspace (drop i s).
Proof.
  intros Hi. unfold run_end.
  destruct (lstrip_by_suffix isspace (drop i s)) as [H1 H2].
  rewrite H2 at 2. rewrite drop_drop, length_drop. f_equal.
  rewrite length_drop in H1. lia.
Qed.

(** The greedy loop of [\s+] runs to the end of the run. *)
Lemma more_ws_greedy s fuel i c (k : K) :
  (i ≤ length s)%nat → (length s - i ≤ fuel)%nat →
  (∀ j, (i ≤ j)%nat → k j c = Some (j, c)) →
  more true None fuel (step s (in_test false [CSpace])) i c k
  = Some (run_end s i, c).
Proof.
  revert i. induction fuel as [|f IH]; intros i Hi Hf Hk; cbn [more].
  - rewrite Hk by lia. rewrite run_end_stop; [reflexivity | exact Hi|].
    intros x Hx. apply lookup_lt_Some in Hx. lia.
  - cbn [may_repeat fmap option_fmap option_map]. unfold step at 1.
    destruct (s !! i) as [x|] eqn:Hx.
    + rewrite space_test. destruct (isspace x) eqn:Hs.
      * assert (E : (i <? S i)%nat = true) by (apply Nat.ltb_lt; lia). rewrite E.
        apply lookup_lt_Some in Hx as Hlt.
        rewrite IH; [|lia | lia | intros j Hj; apply Hk; lia].
        rewrite (run_end_space s i x Hx Hs). reflexivity.
      * rewrite Hk by lia. rewrite run_end_stop; [reflexivity | exact Hi|].
        intros x' Hx'. congruence.
    + rewrite Hk by lia. rewrite run_end_stop; [reflexivity | exact Hi|].
      intros x' Hx'. congruence.
Qed.

Lemma match_at_ws_space s i x ok :
  s !! i = Some x → isspace x = true → (∀ j, (i < j)%nat → ok j = true) →
  match_at WS_PLUS s i ok
  = Some {| m_string := s; m_start := i; m_end := run_end s (S i); m_caps := [] |}.
Proof.
  intros Hx Hs Hok. unfold match_at. cbn [code ignorecase WS_PLUS go must].
  unfold step at 1. rewrite Hx, space_test, Hs.
  apply lookup_lt_Some in Hx.
  rewrite more_ws_greedy; [reflexivity | lia | lia|].
  intros j Hj. rewrite Hok by lia. reflexivity.
Qed.

Lemma match_at_ws_other s i ok :
  (∀ x, s !! i = Some x → isspace x = false) → match_at WS_PLUS s i ok = None.
Proof.
  intros Hx. unfold match_at. cbn [code ignorecase WS_PLUS go must].
  unfold step at 1. destruct (s !! i) as [x|]; [|reflexivity].
  rewrite space_test, (Hx x eq_refl). reflexivity.
Qed.

Lemma search_from_ws_space s pos x :
  s !! pos = Some x → isspace x = true →
  search_from WS_PLUS s pos false
  = Some {| m_string := s; m_start := pos; m_end := run_end s (S pos); m_caps := [] |}.
Proof.
  intros Hx Hs. unfold search_from. apply lookup_lt_Some in Hx as Hlt.
  assert (E : (pos <=? length s)%nat = true) by (apply Nat.leb_le; lia). rewrite E.
  destruct (length s - pos)%nat; cbn [search_go];
    rewrite (match_at_ws_space s pos x _ Hx Hs); reflexivity.
Qed.

Lemma search_from_ws_other s pos x :
  s !! pos = Some x → isspace x = false →
  search_from WS_PLUS s pos false = search_from WS_PLUS s (S pos) false.
Proof.
  intros Hx Hs. unfold search_from. apply lookup_lt_Some in Hx as Hlt.
  assert (E : (pos <=? length s)%nat = true) by (apply Nat.leb_le; lia).
  assert (E' : (S pos <=? length s)%nat = true) by (apply Nat.leb_le; lia).
  rewrite E, E'.
  replace (length s - pos)%nat with (S (length s - S pos)) by lia.
  cbn [search_go]. rewrite match_at_ws_other; [reflexivity|].
  intros x' Hx'. congruence.
Qed.

Lemma search_from_ws_end s pos :
  (length s ≤ pos)%nat → search_from WS_PLUS s pos false = None.
Proof.
  intros Hpos. unfold search_from. destruct (pos <=? length s)%nat; [|reflexivity].
  replace (length s - pos)%nat with 0%nat by lia. cbn [search_go].
  rewrite match_at_ws_other; [reflexivity|].
  intros x Hx. apply lookup_lt_Some in Hx. lia.
Qed.

Lemma slice_cons (s : str) (pos b : nat) x :
  s !! pos = Some x → (S pos ≤ b)%nat →
  Str.slice s pos b = x :: Str.slice s (S pos) b.
Proof.
  intros Hx Hb. unfold Str.slice. rewrite (drop_S _ _ _ Hx).
  replace (b - pos)%nat with (S (b - S pos)) by lia. reflexivity.
Qed.

(** The substitution from offset [pos] on; [n] bounds what is left. *)
Lemma sub_ws_from s (n pos fuel : nat) :
  (length s - pos ≤ n)%nat → (pos ≤ length s)%nat → (rank s pos false < fuel)%nat →
  sub_go [TText 32] s pos (finditer_go WS_PLUS s fuel pos false)
  = collapse_ws (drop pos s).
Proof.
  revert pos fuel. induction n as [|n IH]; intros pos fuel Hn Hpos Hfuel;
    (destruct fuel as [|f]; [lia|]); cbn [finditer_go].
  - rewrite search_from_ws_end by lia. cbn [sub_go]. rewrite drop_ge by lia. reflexivity.
  - destruct (s !! pos) as [x|] eqn:Hx.
    2: { apply lookup_ge_None in Hx. rewrite search_from_ws_end by lia.
         cbn [sub_go]. rewrite drop_ge by lia. reflexivity. }
    apply lookup_lt_Some in Hx as Hlt.
    rewrite (drop_S _ _ _ Hx). unfold collapse_ws. cbn [collapse_go].
    destruct (isspace x) eqn:Hs.
    + rewrite (search_from_ws_space s pos x Hx Hs). cbn [m_end m_start sub_go].
      pose proof (run_end_bounds s (S pos) ltac:(lia)) as Hb.
      assert (E : (run_end s (S pos) =? pos)%nat = false) by (apply Nat.eqb_neq; lia).
      rewrite E. unfold Str.slice at 1. rewrite Nat.sub_diag, take_0.
      cbn [app expand flat_map].
      fold (collapse_ws (drop (run_end s (S pos)) s)) in IH.
      rewrite IH; [|lia | lia | unfold rank in *; lia].
      unfold collapse_ws. rewrite run_end_drop by lia. rewrite collapse_go_run.
      reflexivity.
    + assert (Hstep : finditer_go WS_PLUS s (S f) pos false
                      = finditer_go WS_PLUS s (S f) (S pos) false).
      { cbn [finditer_go]. rewrite (search_from_ws_other s pos x Hx Hs). reflexivity. }
      cbn [finditer_go] in Hstep. rewrite Hstep.
      specialize (IH (S pos) (S f) ltac:(lia) ltac:(lia) ltac:(unfold rank in *; lia)).
      cbn [finditer_go] in IH. unfold collapse_ws in IH. rewrite <- IH.
      destruct (search_from WS_PLUS s (S pos) false) as [m|] eqn:Hm.
      * apply search_from_span in Hm as (H1 & _). cbn [sub_go].
        rewrite (slice_cons s pos (m_start m) x Hx) by lia. reflexivity.
      * cbn [sub_go]. apply (drop_S _ _ _ Hx).
Qed.

Lemma compile_WS_PLUS : compile (py "\s+") false = inr WS_PLUS.
Proof. reflexivity. Qed.

(** [re.sub(r"\s+", " ", s)] is whitespace-run collapsing. *)
Lemma re_sub_ws_collapse (s : str) :
  re_sub (py "\s+") (py " ") s false = inr (collapse_ws s).
Proof.
  erewrite re_sub_inr; [|apply compile_WS_PLUS | apply template_space].
  f_equal. unfold finditer.
  rewrite (sub_ws_from s (length s) 0 (2 * length s + 2));
    [reflexivity | lia | lia | unfold rank; lia].
Qed.

End WhitespaceFacts.

(** ** The item extractor never raises *)

Module ExtractFacts.

Import Re ReFacts StrFacts.

Lemma ws_space_total (s : str) :
  ∃ r, re_sub (py "\s+") (py " ") s false = inr r.
Proof.
  eexists. eapply re_sub_inr; [apply compile_ws_plus | apply template_space].
Qed.

Lemma clean_text_total (lines : list str) : ∃ text, clean_text lines = inr text.
Proof.
  unfold clean_text.
  destruct (ws_space_total (Str.join (py " ") lines)) as [t1 ->]. rsimpl.
  erewrite re_sub_inr; [|apply compile_allergen | apply template_empty]. rsimpl.
  destruct compile_legend as (p & Hp & Hg).
  eexists. eapply re_sub_inr; [exact Hp | rewrite Hg; apply template_empty].
Qed.

Lemma group_named_title (m : Match) :
  group_named PRICE m (py "title") = inr (group m 1).
Proof. reflexivity. Qed.

Lemma group_named_price (m : Match) :
  group_named PRICE m (py "price") = inr (group m 2).
Proof. reflexivity. Qed.

Lemma group_is_Some (m : Match) (n : nat) :
  has_group (S n) (m_caps m) → ∃ t, group m (S n) = Some t.
Proof. intros [sp H]. unfold group. rewrite H. eexists. reflexivity. Qed.

Lemma price_item_total (m : Match) :
  has_group 1 (m_caps m) → has_group 2 (m_caps m) →
  ∃ o, price_item PRICE m = inr o.
Proof.
  intros H1 H2. unfold price_item.
  rewrite group_named_title, group_named_price.
  destruct (group_is_Some m 0 H1) as [t ->].
  destruct (group_is_Some m 1 H2) as [q ->]. rsimpl.
  erewrite re_sub_inr; [|apply compile_camel | apply template_camel]. rsimpl.
  erewrite re_sub_inr; [|apply compile_ws2 | apply template_space]. rsimpl.
  destruct (nonempty _); eexists; reflexivity.
Qed.

Lemma line_item_total (ln : str) : ∃ o, line_item ln = inr o.
Proof.
  unfold line_item. destruct (ws_space_total ln) as [t ->]. rsimpl.
  destruct (nonempty _); eexists; reflexivity.
Qed.

Lemma price_items_total (text : str) :
  ∃ os, mapM (price_item PRICE) (finditer PRICE text) = inr os.
Proof.
  apply mapM_total. intros m Hm.
  assert (H : Forall (λ m, has_group 1 (m_caps m) ∧ has_group 2 (m_caps m))
                     (finditer PRICE text)).
  { apply finditer_origin. intros j ok m'. apply price_match_groups. }
  rewrite Forall_forall in H. destruct (H m Hm) as [H1 H2].
  apply price_item_total; assumption.
Qed.

Lemma line_items_total (lines : list str) :
  ∃ os, mapM line_item lines = inr os.
Proof. apply mapM_total. intros ln _. apply line_item_total. Qed.

Lemma extract_total (lines : list str) :
  ∃ items, _extract_items_from_lines lines = inr items.
Proof.
  unfold _extract_items_from_lines.
  destruct (clean_text_total lines) as [text ->]. rsimpl.
  rewrite compile_price. rsimpl.
  destruct (price_items_total text) as [os ->]. rsimpl.
  destruct (nonempty _); [eexists; reflexivity|].
  destruct (line_items_total lines) as [os' ->]. eexists. reflexivity.
Qed.

End ExtractFacts.

(** ** The letter-desquash normaliser *)

Module SquashFacts.

Import Re ReFacts StrFacts.

Lemma fix_word_id (w : str) : no_space w → fix_word w = inr w.
Proof.
  intros Hw. unfold fix_word, re_fullmatch.
  destruct compile_squash as [p ->]. simpl.
  destruct (fullmatch p w); [|reflexivity].
  apply re_sub_ws_empty_id, Hw.
Qed.

Lemma squash_eq (s : str) :
  _squash_spaced_letters s = inr (Str.join (py " ") (Str.split s)).
Proof.
  unfold _squash_spaced_letters.
  rewrite mapM_id_inr; [reflexivity|].
  eapply Forall_impl; [apply split_no_space|].
  intros w Hw. apply fix_word_id, Hw.
Qed.

(** Plain whitespace-run collapsing, [" ".join(s.split())]: the words
    of [s] joined by single blanks. *)
Definition join_split (s : str) : str := Str.join (py " ") (Str.split s).

(** C9: [_squash_spaced_letters] is whitespace-run collapsing: on every
    input [s] it returns [" ".join(s.split())].  The candidate words come
    from [s.split()], so none contains whitespace, [fix_word] returns
    each of them as it is, and separated letters are never merged. *)
Theorem squash_is_whitespace_collapse (s : str) :
  _squash_spaced_letters s = inr (join_split s)
  ∧ Forall (λ w, no_space w ∧ fix_word w = inr w) (Str.split s).
Proof.
  split; [apply squash_eq|].
  eapply Forall_impl; [apply split_no_space|].
  intros w Hw. split; [exact Hw | apply fix_word_id, Hw].
Qed.

End SquashFacts.

(** ** The weekday locator *)

Module LocateFacts.

Import Re ReFacts UnicodeFacts.

(** The code of a weekday pattern without its word boundaries: the
    letters of the name with [\s*] between them. *)
Fixpoint spaced (w : str) : regex :=
  match w with
  | [] => Empty
  | [c] => Lit c
  | c :: r => Cat (Lit c) (Cat (Rep true 0 None (In [CSpace])) (spaced r))
  end.

Definition day_pattern (wd : str) : Pattern :=
  {| pattern := Str.join (py "\s*") (map (λ c, [c]) wd);
     ignorecase := true; code := spaced wd; groups := 0; groupindex := [] |}.

Lemma day_regexes_eq :
  day_regexes = inr (list_to_map (map (λ wd, (wd, day_pattern wd)) WEEKDAY_ORDER)).
Proof. vm_compute. reflexivity. Qed.

Definition hit_of (blob : str) (wd : str) : option Hit :=
  (λ m, (wd, m_start m)) <$> search (day_pattern wd) blob.

(** The locator never raises; it returns the first match of each
    weekday that occurs, in canonical order. *)
Lemma locate_eq (blob : str) :
  locate blob = inr (omap (hit_of blob) WEEKDAY_ORDER).
Proof.
  unfold locate. rewrite day_regexes_eq. rsimpl.
  set (regs := list_to_map _).
  assert (Hget : ∀ wd, wd ∈ WEEKDAY_ORDER → getitem regs wd = inr (day_pattern wd)).
  { intros wd Hwd. unfold WEEKDAY_ORDER in Hwd.
    repeat (apply elem_of_cons in Hwd as [-> | Hwd]; [vm_compute; reflexivity|]).
    inversion Hwd. }
  clearbody regs.
  assert (Hall : ∀ wds, wds ⊆ WEEKDAY_ORDER →
    omap id <$> mapM (λ wd, p ← getitem regs wd;
                        mret ((λ m, (wd, m_start m)) <$> search p blob)) wds
    = inr (omap (hit_of blob) wds)).
  { induction wds as [|wd wds IH]; intros Hsub; [reflexivity|].
    cbn [mapM]. rewrite Hget by (apply Hsub; left). rsimpl.
    assert (Hsub' : wds ⊆ WEEKDAY_ORDER) by (intros x Hx; apply Hsub; right; exact Hx).
    specialize (IH Hsub').
    destruct (mapM _ wds) as [e|os]; [discriminate|]. rsimpl.
    injection IH as IH. f_equal.
    change (omap id (hit_of blob wd :: os) = omap (hit_of blob) (wd :: wds)).
    cbn [omap list_omap]. rewrite <- IH.
    destruct (hit_of blob wd); reflexivity. }
  apply Hall. reflexivity.
Qed.

Lemma hit_of_fst blob wd h : hit_of blob wd = Some h → h.1 = wd.
Proof.
  unfold hit_of. destruct (search _ _); [|discriminate]. intros [= <-]. reflexivity.
Qed.

Lemma omap_hit_fst blob (wds : list str) :
  sublist ((omap (hit_of blob) wds).*1) wds.
Proof.
  induction wds as [|wd wds IH]; [constructor|].
  change (omap (hit_of blob) (wd :: wds))
    with (match hit_of blob wd with
          | Some y => y :: omap (hit_of blob) wds
          | None => omap (hit_of blob) wds
          end).
  destruct (hit_of blob wd) as [h|] eqn:Hh.
  - rewrite fmap_cons, (hit_of_fst _ _ _ Hh).
    apply sublist_skip, IH.
  - apply sublist_cons, IH.
Qed.

Lemma WEEKDAY_ORDER_NoDup : NoDup WEEKDAY_ORDER.
Proof.
  apply (bool_decide_unpack (NoDup WEEKDAY_ORDER)). vm_compute. exact I.
Qed.

(** Every located weekday is canonical and located once. *)
Lemma locate_weekdays blob hits :
  locate blob = inr hits → sublist (hits.*1) WEEKDAY_ORDER ∧ NoDup (hits.*1).
Proof.
  rewrite locate_eq. intros [= <-].
  pose proof (omap_hit_fst blob WEEKDAY_ORDER) as H. split; [exact H|].
  eapply sublist_NoDup; [apply WEEKDAY_ORDER_NoDup | exact H].
Qed.

(** *** Distinct weekdays are located at distinct offsets *)

Lemma space_class_isspace (y : char) :
  in_test true [CSpace] y = true → isspace y = true.
Proof.
  unfold in_test. cbn [existsb citem_cased citem_fold_test orb].
  rewrite orb_false_r. auto.
Qed.

(** A property of the lowercase letters of Basic Latin, read off the
    twenty-six of them. *)
Lemma letter_cases (P : char → bool) (b : char) :
  forallb P (chars_of 97 122) = true → 97 ≤ b ≤ 122 → P b = true.
Proof.
  intros H Hb. rewrite forallb_forall in H. apply H, list_elem_of_In.
  apply chars_of_range, Hb.
Qed.

Lemma letter_not_space (b y : char) :
  97 ≤ b ≤ 122 → lit_test true b y = true → isspace y = false.
Proof.
  intros Hb H. apply lit_test_matching in H.
  pose proof (letter_cases (λ b, forallb (λ y, negb (isspace y)) (matching b)) b
                eq_refl Hb) as Hall.
  rewrite forallb_forall in Hall. apply negb_true_iff, Hall, list_elem_of_In, H.
Qed.

(** What a match of [a\s*b...] at offset [o] says about the text. *)
Definition head_fact (s : str) (a b : char) (o : nat) : Prop :=
  ∃ x j y,
    s !! o = Some x ∧ lit_test true a x = true ∧ (o < j)%nat
    ∧ (∀ z, (o < z < j)%nat → ∃ w, s !! z = Some w ∧ isspace w = true)
    ∧ s !! j = Some y ∧ lit_test true b y = true.

Lemma more_space_run (s : str) greedy left fuel i c k res :
  more greedy left fuel (step s (in_test true [CSpace])) i c k = Some res →
  ∃ j, (i ≤ j)%nat
    ∧ (∀ z, (i ≤ z < j)%nat → ∃ w, s !! z = Some w ∧ isspace w = true)
    ∧ k j c = Some res.
Proof.
  revert left i. induction fuel as [|f IH]; intros left i; cbn [more].
  - intros H. exists i. split; [lia|]. split; [intros z Hz; lia | exact H].
  - assert (Hstop : k i c = Some res → ∃ j, (i ≤ j)%nat
      ∧ (∀ z, (i ≤ z < j)%nat → ∃ w, s !! z = Some w ∧ isspace w = true)
      ∧ k j c = Some res).
    { intros H. exists i. split; [lia|]. split; [intros z Hz; lia | exact H]. }
    assert (Hagain : ∀ left',
      step s (in_test true [CSpace]) i c
        (λ j c', if (i <? j)%nat
                 then more greedy left' f (step s (in_test true [CSpace])) j c' k
                 else None) = Some res →
      ∃ j, (i ≤ j)%nat
        ∧ (∀ z, (i ≤ z < j)%nat → ∃ w, s !! z = Some w ∧ isspace w = true)
        ∧ k j c = Some res).
    { intros left'. unfold step at 1.
      destruct (s !! i) as [x|] eqn:Hx; [|discriminate].
      destruct (in_test true [CSpace] x) eqn:Ht; [|discriminate].
      destruct (i <? S i)%nat; [|discriminate].
      intros H. apply IH in H as (j & Hj & Hrun & Hk).
      exists j. split; [lia|]. split; [|exact Hk].
      intros z Hz. destruct (decide (z = i)) as [->|Hne].
      - exists x. split; [exact Hx | apply space_class_isspace, Ht].
      - apply Hrun. lia. }
    destruct greedy.
    + destruct (may_repeat left).
      * match goal with
        | |- context [step s ?t i c ?k'] => destruct (step s t i c k') as [m|] eqn:Hm
        end.
        -- intros [= <-]. eapply Hagain, Hm.
        -- exact Hstop.
      * exact Hstop.
    + destruct (k i c) as [m|] eqn:Hm.
      * intros [= <-]. apply Hstop. reflexivity.
      * destruct (may_repeat left); [|discriminate]. apply Hagain.
Qed.

Lemma spaced_first (s : str) (b : char) (w : str) j c k res :
  go true s (spaced (b :: w)) j c k = Some res →
  ∃ y, s !! j = Some y ∧ lit_test true b y = true.
Proof.
  destruct w as [|b' w].
  - cbn [spaced go]. unfold step. destruct (s !! j) as [y|]; [|discriminate].
    destruct (lit_test true b y) eqn:E; [|discriminate]. eauto.
  - change (spaced (b :: b' :: w))
      with (Cat (Lit b) (Cat (Rep true 0 None (In [CSpace])) (spaced (b' :: w)))).
    rewrite go_Cat. cbn [go]. unfold step at 1.
    destruct (s !! j) as [y|]; [|discriminate].
    destruct (lit_test true b y) eqn:E; [|discriminate]. eauto.
Qed.

Lemma spaced_head (s : str) (a b : char) (w : str) o c k res :
  go true s (spaced (a :: b :: w)) o c k = Some res → head_fact s a b o.
Proof.
  change (spaced (a :: b :: w))
    with (Cat (Lit a) (Cat (Rep true 0 None (In [CSpace])) (spaced (b :: w)))).
  rewrite go_Cat. cbn [go]. unfold step at 1.
  destruct (s !! o) as [x|] eqn:Hx; [|discriminate].
  destruct (lit_test true a x) eqn:Ha; [|discriminate].
  cbn [must fmap option_fmap option_map].
  intros H. apply more_space_run in H as (j & Hj & Hrun & H).
  apply spaced_first in H as (y & Hy & Hb).
  exists x, j, y. repeat split; try assumption; lia.
Qed.

Lemma search_go_start (P : nat → Prop) p s n i adv m :
  (∀ j ok m', match_at p s j ok = Some m' → P j) →
  search_go p s n i adv = Some m → P (m_start m).
Proof.
  intros H. apply (search_go_origin (λ m, P (m_start m))).
  intros j ok m' Hm. destruct (match_at_string _ _ _ _ _ Hm) as [_ ->].
  eapply H, Hm.
Qed.

Lemma hit_head blob (a b : char) (w : str) h :
  hit_of blob (a :: b :: w) = Some h → head_fact blob a b h.2.
Proof.
  unfold hit_of, search, search_from.
  destruct (0 <=? length blob)%nat; [|discriminate].
  destruct (search_go _ _ _ _ _) as [m|] eqn:Hm; [|discriminate].
  intros [= <-]. cbn [snd]. revert Hm.
  apply (search_go_start (head_fact blob a b)).
  intros j ok m'. unfold match_at. cbn [ignorecase code day_pattern].
  destruct (go _ _ _ _ _ _) as [res|] eqn:Hgo; [|discriminate].
  intros _. eapply spaced_head, Hgo.
Qed.

(** Two names matched at one offset share a character that matches
    their first letters, and one that matches their second letters. *)
Definition meet (a a' : char) : bool :=
  existsb (λ x, Str.mem_char (matching a') x) (matching a).

Lemma lit_test_meet (a a' x : char) :
  lit_test true a x = true → lit_test true a' x = true → meet a a' = true.
Proof.
  intros H H'. apply lit_test_matching in H, H'.
  unfold meet. apply existsb_exists. exists x. split; [apply list_elem_of_In, H|].
  unfold Str.mem_char. apply existsb_exists. exists x.
  split; [apply list_elem_of_In, H' | apply N.eqb_refl].
Qed.

Lemma head_fact_agree (s : str) (a b a' b' : char) o :
  97 ≤ b ≤ 122 → 97 ≤ b' ≤ 122 →
  head_fact s a b o → head_fact s a' b' o →
  meet a a' = true ∧ meet b b' = true.
Proof.
  intros Hb Hb' (x & j & y & Hx & Ha & Hj & Hrun & Hy & Hby)
                (x' & j' & y' & Hx' & Ha' & Hj' & Hrun' & Hy' & Hby').
  rewrite Hx in Hx'. injection Hx' as <-.
  assert (j = j') as <-.
  { destruct (lt_eq_lt_dec j j') as [[Hlt | Heq] | Hgt]; [|exact Heq|].
    - destruct (Hrun' j) as (w & Hw & Hsp); [lia|].
      rewrite Hy in Hw. injection Hw as <-.
      rewrite (letter_not_space b y Hb Hby) in Hsp. discriminate.
    - destruct (Hrun j') as (w & Hw & Hsp); [lia|].
      rewrite Hy' in Hw. injection Hw as <-.
      rewrite (letter_not_space b' y' Hb' Hby') in Hsp. discriminate. }
  rewrite Hy in Hy'. injection Hy' as <-.
  split; eapply lit_test_meet; eassumption.
Qed.

Definition same_head (wd wd' : str) : bool :=
  match wd, wd' with
  | a :: b :: _, a' :: b' :: _ => meet a a' && meet b b'
  | _, _ => false
  end.

Lemma weekday_heads (wd : str) :
  wd ∈ WEEKDAY_ORDER → ∃ a b w, wd = a :: b :: w ∧ 97 ≤ b ≤ 122.
Proof.
  unfold WEEKDAY_ORDER. intros H.
  repeat (apply elem_of_cons in H as [-> | H];
          [eexists _, _, _; split; [vm_compute; reflexivity | vm_compute; split; discriminate]|]).
  inversion H.
Qed.

Lemma weekday_same_head (wd wd' : str) :
  wd ∈ WEEKDAY_ORDER → wd' ∈ WEEKDAY_ORDER → same_head wd wd' = true → wd = wd'.
Proof.
  assert (H : Forall (λ wd, Forall (λ wd', same_head wd wd' = true → wd = wd')
                               WEEKDAY_ORDER) WEEKDAY_ORDER).
  { unfold WEEKDAY_ORDER.
    repeat (apply Forall_cons; split); try solve [constructor];
      vm_compute; intros E; first [reflexivity | discriminate E]. }
  intros Hwd Hwd'. rewrite Forall_forall in H. specialize (H wd Hwd).
  rewrite Forall_forall in H. exact (H wd' Hwd').
Qed.

Lemma hits_same_offset blob wd wd' h h' :
  wd ∈ WEEKDAY_ORDER → wd' ∈ WEEKDAY_ORDER →
  hit_of blob wd = Some h → hit_of blob wd' = Some h' → h.2 = h'.2 → wd = wd'.
Proof.
  intros Hwd Hwd' Hh Hh' Ho.
  destruct (weekday_heads wd Hwd) as (a & b & w & E & Hb).
  destruct (weekday_heads wd' Hwd') as (a' & b' & w' & E' & Hb').
  rewrite E in Hh. rewrite E' in Hh'.
  apply hit_head in Hh, Hh'. rewrite Ho in Hh.
  destruct (head_fact_agree _ _ _ _ _ _ Hb Hb' Hh Hh') as [Ea Eb].
  apply weekday_same_head; [assumption..|]. rewrite E, E'. cbn [same_head].
  rewrite Ea, Eb. reflexivity.
Qed.

Lemma omap_hit_offsets_NoDup blob (wds : list str) :
  wds ⊆ WEEKDAY_ORDER → NoDup wds → NoDup ((omap (hit_of blob) wds).*2).
Proof.
  induction wds as [|wd wds IH]; intros Hsub Hnd; [constructor|].
  apply NoDup_cons in Hnd as [Hwd Hnd].
  assert (Hsub' : wds ⊆ WEEKDAY_ORDER) by (intros x Hx; apply Hsub; right; exact Hx).
  change (omap (hit_of blob) (wd :: wds))
    with (match hit_of blob wd with
          | Some y => y :: omap (hit_of blob) wds
          | None => omap (hit_of blob) wds
          end).
  destruct (hit_of blob wd) as [h|] eqn:Hh; [|apply IH; assumption].
  rewrite fmap_cons. apply NoDup_cons. split; [|apply IH; assumption].
  intros Hin. apply list_elem_of_fmap in Hin as (h' & Ho & Hin).
  apply list_elem_of_omap in Hin as (wd' & Hwd' & Hh').
  assert (wd = wd') as <-.
  { eapply hits_same_offset; [apply Hsub; left | apply Hsub', Hwd' | exact Hh | exact Hh' | exact Ho]. }
  contradiction.
Qed.

Lemma locate_offsets_NoDup blob hits :
  locate blob = inr hits → NoDup (hits.*2).
Proof.
  rewrite locate_eq. intros H.
  assert (hits = omap (hit_of blob) WEEKDAY_ORDER) as -> by congruence.
  apply omap_hit_offsets_NoDup; [reflexivity | apply WEEKDAY_ORDER_NoDup].
Qed.

End LocateFacts.

(** ** The primary segmenter *)

Module SegmentFacts.

Import Re ReFacts LocateFacts.

(** The end of the segment that starts at index [i] of the sorted hits:
    the offset of the next hit, or the end of the blob. *)
Definition next_offset (hits : list Hit) (blob : str) (i : nat) : nat :=
  match hits !! S i with
  | Some h => h.2
  | None => length blob
  end.

(** The segments in the order of the sorted hits. *)
Fixpoint spans (blob : str) (hits : list Hit) : list str :=
  match hits with
  | [] => []
  | h :: r =>
    Str.slice blob h.2 (match r with h' :: _ => h'.2 | [] => length blob end)
      :: spans blob r
  end.

Definition by_offset (a b : Hit) : Prop := (a.2 ≤ b.2)%nat.

Lemma insert_hit_perm h l : insert_hit h l ≡ₚ h :: l.
Proof.
  induction l as [|x l IH]; simpl; [reflexivity|].
  destruct (h.2 <=? x.2)%nat; [reflexivity|].
  rewrite IH. apply Permutation_swap.
Qed.

Lemma sort_hits_perm hits : sort_hits hits ≡ₚ hits.
Proof.
  induction hits as [|h l IH]; simpl; [reflexivity|].
  rewrite insert_hit_perm, IH. reflexivity.
Qed.

Lemma insert_hit_sorted h l :
  StronglySorted by_offset l → StronglySorted by_offset (insert_hit h l).
Proof.
  induction 1 as [|x l Hl IH Hx]; simpl.
  - repeat constructor.
  - destruct (h.2 <=? x.2)%nat eqn:E.
    + apply Nat.leb_le in E. constructor; [constructor; assumption|].
      constructor; [exact E|].
      eapply Forall_impl; [exact Hx|]. unfold by_offset. intros; lia.
    + apply Nat.leb_gt in E. constructor; [exact IH|].
      rewrite insert_hit_perm. constructor; [unfold by_offset; lia | exact Hx].
Qed.

Lemma sort_hits_sorted hits : StronglySorted by_offset (sort_hits hits).
Proof.
  induction hits as [|h l IH]; simpl; [constructor|].
  apply insert_hit_sorted, IH.
Qed.

Lemma sort_hits_length hits : length (sort_hits hits) = length hits.
Proof. apply Permutation_length, sort_hits_perm. Qed.

Lemma end_offset (hits : list Hit) (blob : str) (i : nat) :
  (if (i + 1 <? length hits)%nat
   then snd <$> index hits (i + 1)
   else mret (length blob)) = inr (next_offset hits blob i).
Proof.
  unfold next_offset, index. replace (i + 1)%nat with (S i) by lia.
  destruct (hits !! S i) as [h|] eqn:Hh.
  - apply lookup_lt_Some in Hh. apply Nat.ltb_lt in Hh. rewrite Hh. reflexivity.
  - apply lookup_ge_None in Hh. apply Nat.ltb_ge in Hh. rewrite Hh. reflexivity.
Qed.

(** The loop assigns to every weekday it visits the slice from its
    offset to the next offset, and leaves the other keys alone. *)
Lemma segment_loop_spec hits blob pre rest acc :
  hits = pre ++ rest → NoDup (rest.*1) →
  ∃ r, segment_loop hits blob (length pre) rest acc = inr r
    ∧ (∀ k wd o, rest !! k = Some (wd, o) →
         r !! wd = Some (Str.slice blob o (next_offset hits blob (length pre + k))))
    ∧ (∀ wd, wd ∉ rest.*1 → r !! wd = acc !! wd).
Proof.
  revert pre acc. induction rest as [|[wd pos] rest IH]; intros pre acc Hh Hnd.
  - exists acc. split; [reflexivity|]. split; [intros k wd o H; inversion H|].
    reflexivity.
  - cbn [segment_loop]. rewrite end_offset. rsimpl.
    rewrite fmap_cons in Hnd. apply NoDup_cons in Hnd as [Hwd Hnd].
    destruct (IH (pre ++ [(wd, pos)])
                 (<[wd := Str.slice blob pos (next_offset hits blob (length pre))]> acc))
      as (r & Hr & Hin & Hout); [rewrite <- app_assoc; exact Hh | exact Hnd |].
    rewrite length_app in Hr, Hin. cbn [length] in Hr, Hin.
    replace (length pre + 1)%nat with (S (length pre)) in Hr, Hin by lia.
    exists r. split; [exact Hr|]. split.
    + intros [|k] wd' o Hk.
      * injection Hk as -> ->. rewrite Hout by exact Hwd.
        rewrite lookup_insert_eq. do 3 f_equal. lia.
      * rewrite (Hin k wd' o Hk). do 3 f_equal. lia.
    + intros wd' Hwd'. rewrite fmap_cons in Hwd'. cbn [fst] in Hwd'.
      apply not_elem_of_cons in Hwd' as [Hne Hwd'].
      rewrite Hout by exact Hwd'. apply lookup_insert_ne. congruence.
Qed.

Lemma spans_lookup blob hits pre rest k h :
  hits = pre ++ rest → rest !! k = Some h →
  spans blob rest !! k
  = Some (Str.slice blob h.2 (next_offset hits blob (length pre + k))).
Proof.
  revert pre k. induction rest as [|x rest IH]; intros pre k Hh Hk; [inversion Hk|].
  destruct k as [|k].
  - injection Hk as ->. cbn [spans lookup list_lookup]. do 2 f_equal.
    unfold next_offset. rewrite Hh, Nat.add_0_r.
    rewrite lookup_app_r by lia. replace (S (length pre) - length pre)%nat with 1%nat by lia.
    destruct rest; reflexivity.
  - cbn [spans]. change ((?a :: ?l) !! S k) with (l !! k).
    rewrite (IH (pre ++ [x]) k); [|rewrite <- app_assoc; exact Hh | exact Hk].
    rewrite length_app. cbn [length]. do 3 f_equal. lia.
Qed.

(** Consecutive slices with non-decreasing bounds leave no gap up to
    the end of the blob. *)
Lemma spans_concat blob h hits :
  StronglySorted by_offset (h :: hits) →
  concat (spans blob (h :: hits)) = drop h.2 blob.
Proof.
  revert h. induction hits as [|h' hits IH]; intros h Hs.
  - cbn [spans concat]. rewrite app_nil_r. unfold Str.slice.
    apply take_ge. rewrite length_drop. lia.
  - change (spans blob (h :: h' :: hits))
      with (Str.slice blob h.2 h'.2 :: spans blob (h' :: hits)).
    cbn [concat]. apply StronglySorted_inv in Hs as [Hs Hh].
    rewrite IH by exact Hs.
    apply Forall_inv in Hh. unfold by_offset in Hh. unfold Str.slice.
    rewrite <- (take_drop (h'.2 - h.2) (drop h.2 blob)) at 2.
    rewrite drop_drop. do 2 f_equal. lia.
Qed.

Definition offset_lt (a b : Hit) : Prop := (a.2 < b.2)%nat.

Lemma sorted_strict (l : list Hit) :
  StronglySorted by_offset l → NoDup (l.*2) → StronglySorted offset_lt l.
Proof.
  induction 1 as [|x l Hl IH Hx]; intros Hnd; [constructor|].
  rewrite fmap_cons in Hnd. apply NoDup_cons in Hnd as [Hx' Hnd].
  constructor; [apply IH, Hnd|].
  rewrite Forall_forall in Hx |- *. intros y Hy.
  specialize (Hx y Hy). unfold by_offset in Hx. unfold offset_lt.
  destruct (decide (x.2 = y.2)) as [E|E]; [|lia].
  exfalso. apply Hx'. rewrite E. apply list_elem_of_fmap. eauto.
Qed.

(** C3: when the locator finds two or more weekdays, the hits sorted by
    offset are strictly increasing, the weekday located at [o_i] is
    assigned exactly [blob[o_i:o_{i+1}]] ([blob[o_n:len(blob)]] for the
    last), these segments concatenate to the blob from [o_1] to its end,
    and a weekday that was not located gets no segment. *)
Theorem primary_segments_exact (blob : str) (hits : list Hit) :
  locate blob = inr hits → (2 ≤ length hits)%nat →
  ∃ segs : gmap (list N) (list N),
    segments_by_pos hits blob = inr (Some segs)
    ∧ sort_hits hits ≡ₚ hits
    ∧ StronglySorted offset_lt (sort_hits hits)
    ∧ (∀ i wd o, sort_hits hits !! i = Some (wd, o) →
         segs !! wd
           = Some (Str.slice blob o (next_offset (sort_hits hits) blob i))
         ∧ spans blob (sort_hits hits) !! i = segs !! wd)
    ∧ (∀ h, head (sort_hits hits) = Some h →
         concat (spans blob (sort_hits hits)) = drop h.2 blob)
    ∧ (∀ wd, wd ∉ hits.*1 → segs !! wd = None).
Proof.
  intros Hloc Hlen.
  pose proof (locate_weekdays _ _ Hloc) as [_ Hnd1].
  pose proof (locate_offsets_NoDup _ _ Hloc) as Hnd2.
  pose proof (sort_hits_perm hits) as Hperm.
  pose proof (sort_hits_sorted hits) as Hsorted.
  set (hs := sort_hits hits) in *.
  assert (Hnd1' : NoDup (hs.*1)) by (rewrite Hperm; exact Hnd1).
  assert (Hnd2' : NoDup (hs.*2)) by (rewrite Hperm; exact Hnd2).
  destruct (segment_loop_spec hs blob [] hs ∅ eq_refl Hnd1')
    as (segs & Hsegs & Hin & Hout).
  exists segs. split.
  { unfold segments_by_pos. apply Nat.leb_le in Hlen. rewrite Hlen.
    fold hs. cbn [length] in Hsegs. rewrite Hsegs. reflexivity. }
  split; [exact Hperm|].
  split; [apply sorted_strict; assumption|].
  split.
  { intros i wd o Hi. specialize (Hin i wd o Hi). cbn [length] in Hin.
    split; [exact Hin|]. rewrite Hin.
    rewrite (spans_lookup blob hs [] hs i (wd, o) eq_refl Hi). reflexivity. }
  split.
  { intros h Hh. destruct hs as [|h0 hs']; [discriminate|].
    injection Hh as <-. apply spans_concat, Hsorted. }
  intros wd Hwd. rewrite Hout; [apply lookup_empty|].
  rewrite Hperm. exact Hwd.
Qed.

End SegmentFacts.

(** ** The deduplicator *)

Module DedupFacts.

Abbreviation keys := (fmap (M:=list) item_key).

Lemma dedup_loop_keys seen items :
  NoDup (keys (dedup_loop seen items))
  ∧ (∀ k, k ∈ keys (dedup_loop seen items) → (k ∉ seen) ∧ (k ∈ keys items)).
Proof.
  revert seen. induction items as [|it r IH]; intros seen; cbn [dedup_loop].
  - split; [constructor | intros k Hk; inversion Hk].
  - destruct (decide (item_key it ∈ seen)) as [Hin|Hout].
    + destruct (IH seen) as [Hnd Hk]. split; [exact Hnd|].
      intros k Hkin. destruct (Hk k Hkin). split; [assumption|].
      rewrite fmap_cons. right. assumption.
    + destruct (IH ({[item_key it]} ∪ seen)) as [Hnd Hk].
      rewrite !fmap_cons. split.
      * apply NoDup_cons. split; [|exact Hnd].
        intros Hkin. destruct (Hk _ Hkin) as [Hn _]. set_solver.
      * intros k Hkin. apply elem_of_cons in Hkin as [->|Hkin].
        -- split; [exact Hout | left].
        -- destruct (Hk k Hkin) as [Hn Hi]. split; [set_solver | right; exact Hi].
Qed.

(** A list without duplicate keys, none of them seen, passes unchanged. *)
Lemma dedup_loop_fixed seen items :
  NoDup (keys items) → (∀ k, k ∈ keys items → k ∉ seen) →
  dedup_loop seen items = items.
Proof.
  revert seen. induction items as [|it r IH]; intros seen Hnd Hs; [reflexivity|].
  cbn [dedup_loop]. rewrite fmap_cons in Hnd, Hs.
  apply NoDup_cons in Hnd as [Hit Hnd].
  destruct (decide (item_key it ∈ seen)) as [Hin|Hout].
  - exfalso. apply (Hs (item_key it)); [left | exact Hin].
  - f_equal. apply IH; [exact Hnd|].
    intros k Hk. specialize (Hs k (list_elem_of_further _ _ _ Hk)).
    assert (k ≠ item_key it) by (intros ->; contradiction). set_solver.
Qed.

Lemma dedup_loop_sublist seen items : sublist (dedup_loop seen items) items.
Proof.
  revert seen. induction items as [|it r IH]; intros seen; cbn [dedup_loop].
  - constructor.
  - destruct (decide _); [apply sublist_cons | apply sublist_skip]; apply IH.
Qed.

(** The loop seen from the right: the last item is kept exactly when
    its key is neither seen nor the key of an earlier item. *)
Lemma dedup_loop_snoc seen items it :
  dedup_loop seen (items ++ [it])
  = if decide (item_key it ∈ seen ∨ item_key it ∈ keys items)
    then dedup_loop seen items
    else dedup_loop seen items ++ [it].
Proof.
  revert seen. induction items as [|x r IH]; intros seen.
  - cbn [app dedup_loop]. rewrite fmap_nil.
    destruct (decide (item_key it ∈ seen)) as [H|H];
      destruct (decide _) as [H'|H']; try reflexivity.
    + exfalso. apply H'. left. exact H.
    + exfalso. destruct H' as [H'|H']; [contradiction | inversion H'].
  - cbn [app dedup_loop]. rewrite fmap_cons.
    destruct (decide (item_key x ∈ seen)) as [Hx|Hx]; rewrite IH.
    + destruct (decide _) as [H|H]; destruct (decide _) as [H'|H']; try reflexivity.
      * exfalso. apply H'. destruct H as [H|H]; [left; exact H | right; right; exact H].
      * exfalso. apply H. destruct H' as [H'|H']; [left; exact H'|].
        apply elem_of_cons in H' as [->|H']; [left; exact Hx | right; exact H'].
    + destruct (decide _) as [H|H]; destruct (decide _) as [H'|H']; try reflexivity.
      * exfalso. apply H'. destruct H as [H|H]; [|right; right; exact H].
        apply elem_of_union in H as [H|H]; [|left; exact H].
        apply elem_of_singleton in H. right. rewrite H. left.
      * exfalso. apply H. destruct H' as [H'|H']; [left; set_solver|].
        apply elem_of_cons in H' as [->|H']; [left; set_solver | right; exact H'].
Qed.

Lemma dedup_loop_covers seen items it :
  it ∈ items → item_key it ∉ seen → item_key it ∈ keys (dedup_loop seen items).
Proof.
  revert seen. induction items as [|x r IH]; intros seen Hin Hs; [inversion Hin|].
  cbn [dedup_loop]. destruct (decide (item_key x ∈ seen)) as [Hx|Hx].
  - apply elem_of_cons in Hin as [->|Hin]; [contradiction|]. apply IH; assumption.
  - rewrite fmap_cons. destruct (decide (item_key it = item_key x)) as [E|E].
    + rewrite E. left.
    + right. apply elem_of_cons in Hin as [->|Hin]; [contradiction|].
      apply IH; [exact Hin | set_solver].
Qed.

(** C7: the deduplicator is idempotent and order-preserving.  The key
    of an item is the pair of its title in lowercase ([str.lower]) and
    its price.  The output is a subsequence of the input with pairwise
    distinct keys in which every key of the input occurs; reading the
    input from the left, an item is kept exactly when no earlier item
    has its key, and is then placed after the items kept before it.  So
    "SUPPE" after "Suppe" at the same price is removed, and the same
    title at another price is kept. *)
Theorem dedup_idempotent_first_occurrence (L : list MenuItem) :
  dedup (dedup L) = dedup L
  ∧ sublist (dedup L) L
  ∧ NoDup ((λ it, (Str.lower (title it), price_chf it)) <$> dedup L)
  ∧ (∀ it, it ∈ L →
       (Str.lower (title it), price_chf it)
       ∈ (λ it, (Str.lower (title it), price_chf it)) <$> dedup L)
  ∧ dedup [] = []
  ∧ (∀ l it,
       dedup (l ++ [it])
       = if decide ((Str.lower (title it), price_chf it)
                    ∈ (λ it, (Str.lower (title it), price_chf it)) <$> l)
         then dedup l else dedup l ++ [it])
  ∧ dedup [{| title := py "Suppe"; price_chf := Some (py "4.50") |};
           {| title := py "SUPPE"; price_chf := Some (py "4.50") |};
           {| title := py "Suppe"; price_chf := Some (py "5.00") |};
           {| title := py "Suppe"; price_chf := None |};
           {| title := py "BŒUF"; price_chf := Some (py "9.00") |};
           {| title := py "bœuf"; price_chf := Some (py "9.00") |}]
    = [{| title := py "Suppe"; price_chf := Some (py "4.50") |};
       {| title := py "Suppe"; price_chf := Some (py "5.00") |};
       {| title := py "Suppe"; price_chf := None |};
       {| title := py "BŒUF"; price_chf := Some (py "9.00") |}].
Proof.
  change (λ it, (Str.lower (title it), price_chf it)) with item_key.
  unfold dedup. destruct (dedup_loop_keys ∅ L) as [Hnd Hk].
  split; [apply dedup_loop_fixed; [exact Hnd | intros k _; set_solver]|].
  split; [apply dedup_loop_sublist|].
  split; [exact Hnd|].
  split; [intros it Hit; apply (dedup_loop_covers ∅ L it); [exact Hit | set_solver]|].
  split; [reflexivity|].
  split; [|vm_compute; reflexivity].
  intros l it. change (Str.lower (title it), price_chf it) with (item_key it).
  rewrite dedup_loop_snoc.
  destruct (decide _) as [H|H]; destruct (decide _) as [H'|H']; try reflexivity.
  - exfalso. destruct H as [H|H]; [set_solver | contradiction].
  - exfalso. apply H. right. exact H'.
Qed.

End DedupFacts.

(** ** The parser in the process *)

Module ProcessFacts.

(** A computation that gives [r] and hands the state on as it is. *)
Definition stateless {A} (m : Proc A) (r : result A) : Prop :=
  ∀ g, m g = (r, g).

Lemma stateless_lib {A} (r : result A) : stateless (lib r) r.
Proof. intros g. reflexivity. Qed.

Lemma stateless_ret {A} (x : A) : stateless (mret x) (mret x).
Proof. intros g. reflexivity. Qed.

Lemma stateless_bind {A B} (m : Proc A) (r : result A) (f : A → Proc B)
    (f' : A → result B) :
  stateless m r → (∀ x, r = inr x → stateless (f x) (f' x)) →
  stateless (m ≫= f) (r ≫= f').
Proof.
  intros Hm Hf g. unfold mbind, Proc_bind. rewrite (Hm g).
  destruct r as [e|x]; [reflexivity|]. apply (Hf x eq_refl).
Qed.

Lemma stateless_fmap {A B} (m : Proc A) (r : result A) (f : A → B) :
  stateless m r → stateless (f <$> m) (f <$> r).
Proof.
  intros Hm g. unfold fmap, Proc_fmap. rewrite (Hm g).
  destruct r as [e|x]; reflexivity.
Qed.

Lemma stateless_mapM {A B} (f : A → Proc B) (f' : A → result B) (l : list A) :
  (∀ x, stateless (f x) (f' x)) → stateless (mapM f l) (mapM f' l).
Proof.
  intros Hf. induction l as [|x l IH]; [apply stateless_ret|].
  cbn [mapM]. apply stateless_bind; [apply Hf|]. intros y _.
  apply stateless_bind; [exact IH|]. intros k _. apply stateless_ret.
Qed.

(** Function by function, the computation gives what the function on
    texts gives. *)
Lemma fix_word_stateless (word : str) :
  stateless (Process.fix_word word) (fix_word word).
Proof.
  apply stateless_bind; [apply stateless_lib|].
  intros [m|] _; [apply stateless_lib | apply stateless_ret].
Qed.

Lemma squash_stateless (s : str) :
  stateless (Process._squash_spaced_letters s) (_squash_spaced_letters s).
Proof.
  apply stateless_bind; [apply stateless_mapM, fix_word_stateless|].
  intros ws _. apply stateless_ret.
Qed.

Lemma extract_stateless (lines : list str) :
  stateless (Process._extract_items_from_lines lines)
            (_extract_items_from_lines lines).
Proof.
  apply stateless_bind; [apply stateless_lib|]. intros text _.
  apply stateless_bind; [apply stateless_lib|]. intros pattern _.
  apply stateless_bind; [apply stateless_lib|]. intros items _.
  destruct (nonempty items); [apply stateless_ret | apply stateless_lib].
Qed.

Lemma norm_line_stateless (ln : str) :
  stateless (Process.norm_line ln) (norm_line ln).
Proof.
  apply stateless_bind; [apply squash_stateless|]. intros t _.
  apply stateless_bind; [apply stateless_lib|]. intros t' _.
  destruct (nonempty t'); [|apply stateless_ret].
  cbn zeta. destruct (_ || _); apply stateless_ret.
Qed.

Lemma fill_from_segments_stateless (segs : gmap (list N) (list N))
    (wds : list str) (results : WeekMenu) :
  stateless (Process.fill_from_segments segs wds results)
            (fill_from_segments segs wds results).
Proof.
  revert results. induction wds as [|wd wds IH]; intros results;
    [apply stateless_ret|].
  cbn [Process.fill_from_segments fill_from_segments].
  destruct (segs !! wd) as [seg|]; [|apply IH].
  apply stateless_bind; [apply stateless_lib|]. intros seg_lines _.
  apply stateless_bind; [apply extract_stateless|]. intros items _. apply IH.
Qed.

Lemma fill_from_blocks_stateless (blocks : list (list str)) (i : nat)
    (wds : list str) (results : WeekMenu) :
  stateless (Process.fill_from_blocks blocks i wds results)
            (fill_from_blocks blocks i wds results).
Proof.
  revert i results. induction wds as [|wd wds IH]; intros i results;
    [apply stateless_ret|].
  cbn [Process.fill_from_blocks fill_from_blocks].
  apply stateless_bind; [apply stateless_lib|]. intros b _.
  apply stateless_bind; [apply extract_stateless|]. intros items _. apply IH.
Qed.

Lemma bind_stateless {A B} (m : Proc A) (r : result A) (f : A → Proc B)
    (g : Globals) :
  stateless m r →
  (m ≫= f) g = match r with
               | inl e => (inl e, g)
               | inr x => f x g
               end.
Proof.
  intros Hm. unfold mbind, Proc_bind. rewrite (Hm g). destruct r; reflexivity.
Qed.

Lemma fallback_stateless (norm : list str) (results : WeekMenu) :
  stateless
    (if negb (any_values results) then
       if (5 <=? length (marker_idx norm))%nat then
         blocks ← lib (mapM (block norm (marker_idx norm)) (seq 0 5));
         Process.fill_from_blocks blocks 0 WEEKDAY_ORDER results
       else mret results
     else mret results)
    (fallback norm results).
Proof.
  unfold fallback. cbn zeta.
  destruct (negb (any_values results)); [|apply stateless_ret].
  destruct (5 <=? length (marker_idx norm))%nat; [|apply stateless_ret].
  apply stateless_bind; [apply stateless_lib|]. intros blocks _.
  apply fill_from_blocks_stateless.
Qed.

(** The parser gives what steps 2 to 5 give on the lines of the
    document, and hands the state on as it is. *)
Lemma parse_week_pdf_stateless (pdf : list Page) :
  stateless (parse_week_pdf pdf) (parse_lines (text_lines pdf)).
Proof.
  unfold parse_week_pdf, parse_lines. cbn zeta.
  apply stateless_bind.
  { apply stateless_fmap, stateless_mapM, norm_line_stateless. }
  intros norm _ g. unfold primary. cbn zeta.
  assert (Htail : ∀ results : WeekMenu,
    ((if negb (any_values results) then
        if (5 <=? length (marker_idx norm))%nat then
          blocks ← lib (mapM (block norm (marker_idx norm)) (seq 0 5));
          Process.fill_from_blocks blocks 0 WEEKDAY_ORDER results
        else mret results
      else mret results)
     ≫= λ results : WeekMenu, (mret ((dedup <$> results) : WeekMenu) : Proc WeekMenu)) g
    = (fallback norm results ≫= λ r : WeekMenu, mret ((dedup <$> r) : WeekMenu), g)).
  { intros results. rewrite (bind_stateless _ _ _ _ (fallback_stateless norm results)).
    destruct (fallback norm results); reflexivity. }
  rewrite (bind_stateless _ _ _ _ (stateless_lib _)).
  destruct (locate (make_blob norm)) as [e|hits]; [reflexivity|]. rsimpl.
  rewrite (bind_stateless _ _ _ _ (stateless_lib _)).
  destruct (segments_by_pos hits (make_blob norm)) as [e|[segs|]]; [reflexivity| |];
    rsimpl.
  - destruct (truthy_dict (Some segs)).
    + rewrite (bind_stateless _ _ _ _ (fill_from_segments_stateless _ _ _)).
      destruct (fill_from_segments segs WEEKDAY_ORDER empty_results) as [e|results];
        [reflexivity|]. rsimpl. apply Htail.
    + rewrite (bind_stateless _ _ _ _ (stateless_ret _)). rsimpl. apply Htail.
  - rewrite (bind_stateless _ _ _ _ (stateless_ret _)). rsimpl. apply Htail.
Qed.

Lemma parse_week_pdf_eq (pdf : list Page) (g : Globals) :
  parse_week_pdf pdf g = (parse_lines (text_lines pdf), g).
Proof. apply parse_week_pdf_stateless. Qed.

End ProcessFacts.

(** ** The whole parser *)

Module ParseFacts.

Import Re ReFacts StrFacts ExtractFacts SquashFacts LocateFacts SegmentFacts
  ProcessFacts.

Definition weekdays : gset (list N) := list_to_set WEEKDAY_ORDER.

Lemma norm_line_total (ln : str) : ∃ o, norm_line ln = inr o.
Proof.
  unfold norm_line. rewrite squash_eq. rsimpl.
  destruct (ws_space_total (Str.join (py " ") (Str.split ln))) as [t ->]. rsimpl.
  destruct (nonempty _); [|eexists; reflexivity].
  destruct (_ || _); eexists; reflexivity.
Qed.

Lemma norm_lines_total (lines : list str) : ∃ norm, norm_lines lines = inr norm.
Proof.
  unfold norm_lines.
  destruct (mapM_total norm_line lines) as [os ->];
    [intros ln _; apply norm_line_total|].
  eexists. reflexivity.
Qed.

Lemma segments_by_pos_total blob hits :
  NoDup (hits.*1) →
  ∃ o, segments_by_pos hits blob = inr o
       ∧ ((length hits < 2)%nat → o = None)
       ∧ (∀ segs wd, o = Some segs → is_Some (segs !! wd) → wd ∈ hits.*1).
Proof.
  intros Hnd. unfold segments_by_pos.
  destruct (2 <=? length hits)%nat eqn:E.
  - apply Nat.leb_le in E.
    assert (Hnd' : NoDup ((sort_hits hits).*1)) by (rewrite sort_hits_perm; exact Hnd).
    destruct (segment_loop_spec (sort_hits hits) blob [] (sort_hits hits) ∅ eq_refl Hnd')
      as (segs & Hsegs & _ & Hout).
    cbn [length] in Hsegs. rewrite Hsegs. eexists. split; [reflexivity|].
    split; [lia|].
    intros segs' wd [= <-] Hwd.
    destruct (decide (wd ∈ hits.*1)) as [H|H]; [exact H|].
    rewrite Hout in Hwd by (rewrite sort_hits_perm; exact H).
    rewrite lookup_empty in Hwd. destruct Hwd as [? ?]. discriminate.
  - apply Nat.leb_gt in E. eexists. split; [reflexivity|].
    split; [reflexivity | discriminate].
Qed.

Lemma segment_lines_total (seg : str) : ∃ lines, segment_lines seg = inr lines.
Proof.
  unfold segment_lines. apply mapM_total. intros ln _.
  destruct (ws_space_total ln) as [t ->]. eexists. reflexivity.
Qed.

(** The loop over the weekdays keeps the key set and fills a list only
    from the segment of its weekday. *)
Lemma fill_from_segments_spec (segs : gmap (list N) (list N)) (wds : list str)
    (results : WeekMenu) :
  (∀ wd, wd ∈ wds → wd ∈ dom results) →
  ∃ r : WeekMenu, fill_from_segments segs wds results = inr r
    ∧ dom r = dom results
    ∧ (∀ wd items, r !! wd = Some items →
         results !! wd = Some items
         ∨ ∃ seg lines, segs !! wd = Some seg ∧ segment_lines seg = inr lines
                        ∧ _extract_items_from_lines lines = inr items).
Proof.
  revert results. induction wds as [|wd wds IH]; intros results Hdom.
  - exists results. split; [reflexivity|]. split; [reflexivity|]. intros; left; assumption.
  - cbn [fill_from_segments].
    destruct (segs !! wd) as [seg|] eqn:Hseg.
    + destruct (segment_lines_total seg) as [lines Hlines]. rewrite Hlines. rsimpl.
      destruct (extract_total lines) as [items Hitems]. rewrite Hitems. rsimpl.
      destruct (IH (<[wd := items]> results)) as (r & Hr & Hd & Hprov).
      { intros wd' Hwd'. rewrite dom_insert_L. apply elem_of_union_r, Hdom. right. exact Hwd'. }
      exists r. split; [exact Hr|]. split.
      * rewrite Hd, dom_insert_L.
        assert (Hin : wd ∈ dom results) by (apply Hdom; left).
        clear -Hin. set_solver.
      * intros wd' items' Hl. destruct (Hprov wd' items' Hl) as [Hold|Hnew]; [|right; exact Hnew].
        destruct (decide (wd = wd')) as [<-|Hne].
        -- rewrite lookup_insert_eq in Hold. injection Hold as <-. right. eauto.
        -- rewrite lookup_insert_ne in Hold by exact Hne. left. exact Hold.
    + apply IH. intros wd' Hwd'. apply Hdom. right. exact Hwd'.
Qed.

Lemma empty_results_dom : dom empty_results = weekdays.
Proof.
  unfold empty_results, weekdays. rewrite dom_list_to_map_L.
  rewrite <- list_fmap_compose. f_equal.
Qed.

Lemma empty_results_lookup wd : wd ∈ WEEKDAY_ORDER → empty_results !! wd = Some [].
Proof.
  intros H. unfold WEEKDAY_ORDER in H.
  repeat (apply elem_of_cons in H as [-> | H]; [vm_compute; reflexivity|]).
  inversion H.
Qed.

Lemma weekdays_elem wd : wd ∈ weekdays ↔ wd ∈ WEEKDAY_ORDER.
Proof. unfold weekdays. apply elem_of_list_to_set. Qed.

Lemma any_values_empty : any_values empty_results = false.
Proof. vm_compute. reflexivity. Qed.

(** Attempt A never raises and keeps the five keys. *)
Lemma primary_spec (norm : list str) :
  ∃ hits (res : WeekMenu),
    locate (make_blob norm) = inr hits
    ∧ primary norm = inr res
    ∧ dom res = weekdays
    ∧ ((length hits < 2)%nat → res = empty_results).
Proof.
  unfold primary. rewrite locate_eq. rsimpl.
  set (hits := omap _ _).
  assert (Hnd : NoDup (hits.*1)).
  { eapply sublist_NoDup; [apply WEEKDAY_ORDER_NoDup | apply omap_hit_fst]. }
  destruct (segments_by_pos_total (make_blob norm) hits Hnd) as (o & Ho & Hnone & _).
  rewrite Ho. rsimpl. exists hits.
  destruct o as [segs|].
  - destruct (truthy_dict (Some segs)).
    + destruct (fill_from_segments_spec segs WEEKDAY_ORDER empty_results)
        as (r & Hr & Hd & _).
      { intros wd Hwd. rewrite empty_results_dom. apply weekdays_elem, Hwd. }
      exists r. split; [reflexivity|]. split; [exact Hr|].
      split; [rewrite Hd; apply empty_results_dom|].
      intros Hlt. specialize (Hnone Hlt). discriminate.
    + exists empty_results. split; [reflexivity|]. split; [reflexivity|].
      split; [apply empty_results_dom | reflexivity].
  - exists empty_results. split; [reflexivity|]. split; [reflexivity|].
    split; [apply empty_results_dom | reflexivity].
Qed.

Lemma any_values_false (res : WeekMenu) :
  any_values res = false ↔ ∀ wd items, res !! wd = Some items → items = [].
Proof.
  unfold any_values. split.
  - intros H wd items Hl. destruct items as [|it items]; [reflexivity|].
    assert (existsb (λ kv : list N * list MenuItem, nonempty kv.2) (map_to_list res) = true)
      as H'; [|rewrite H' in H; discriminate].
    apply existsb_exists. exists (wd, it :: items). split; [|reflexivity].
    apply list_elem_of_In, elem_of_map_to_list, Hl.
  - intros H. destruct (existsb _ _) eqn:E; [|reflexivity].
    apply existsb_exists in E as ([wd items] & Hin & Hne).
    apply list_elem_of_In, elem_of_map_to_list in Hin.
    rewrite (H wd items Hin) in Hne. discriminate.
Qed.

(** *** The marker lines *)

(** The end of the block that starts at anchor [i]: the next anchor, or
    the end of the lines. *)
Definition next_marker (marker : list nat) (norm : list str) (i : nat) : nat :=
  match marker !! S i with
  | Some b => b
  | None => length norm
  end.

Definition anchor_block (norm : list str) (marker : list nat) (i : nat) : list str :=
  let a := default 0%nat (marker !! i) in
  take (next_marker marker norm i - a) (drop a norm).

Lemma marker_idx_from_spec (i : nat) (norm : list str) :
  StronglySorted lt (marker_idx_from i norm)
  ∧ (∀ a, a ∈ marker_idx_from i norm ↔
          ∃ ln, (i ≤ a)%nat ∧ norm !! (a - i)%nat = Some ln ∧ is_marker ln = true).
Proof.
  revert i. induction norm as [|ln norm IH]; intros i; cbn [marker_idx_from].
  - split; [constructor|]. intros a. split; [intros H; inversion H|].
    intros (ln & _ & H & _). inversion H.
  - destruct (IH (S i)) as [Hs Hm].
    assert (Hrest : ∀ a, a ∈ marker_idx_from (S i) norm ↔
      ∃ ln', (S i ≤ a)%nat ∧ (ln :: norm) !! (a - i)%nat = Some ln' ∧ is_marker ln' = true).
    { intros a. rewrite Hm. split; intros (ln' & Ha & Hl & Hk); exists ln';
        (split; [exact Ha|]); (split; [|exact Hk]).
      - replace (a - i)%nat with (S (a - S i)) by lia. exact Hl.
      - replace (a - i)%nat with (S (a - S i)) in Hl by lia. exact Hl. }
    destruct (is_marker ln) eqn:Hln.
    + split.
      * constructor; [exact Hs|]. apply Forall_forall. intros a Ha.
        apply Hm in Ha as (? & Ha & _). lia.
      * intros a. rewrite elem_of_cons, Hrest. split.
        -- intros [-> | (ln' & Ha & H)].
           ++ exists ln. rewrite Nat.sub_diag. split; [lia|]. split; [reflexivity | exact Hln].
           ++ exists ln'. split; [lia | exact H].
        -- intros (ln' & Ha & Hl & Hk).
           destruct (decide (a = i)) as [->|Hne]; [left; reflexivity|].
           right. exists ln'. split; [lia|]. split; assumption.
    + split; [exact Hs|]. intros a. rewrite Hrest. split.
      * intros (ln' & Ha & H). exists ln'. split; [lia | exact H].
      * intros (ln' & Ha & Hl & Hk).
        destruct (decide (a = i)) as [->|Hne].
        -- rewrite Nat.sub_diag in Hl. injection Hl as <-. congruence.
        -- exists ln'. split; [lia|]. split; assumption.
Qed.

(** [marker_idx] lists the indices of the anchor lines in increasing
    order. *)
Lemma marker_idx_spec (norm : list str) :
  StronglySorted lt (marker_idx norm)
  ∧ (∀ a, a ∈ marker_idx norm ↔ ∃ ln, norm !! a = Some ln ∧ is_marker ln = true).
Proof.
  destruct (marker_idx_from_spec 0 norm) as [Hs Hm]. split; [exact Hs|].
  intros a. unfold marker_idx. rewrite Hm. rewrite Nat.sub_0_r.
  split; [intros (ln & _ & H); eauto | intros (ln & H); exists ln; split; [lia | exact H]].
Qed.

Lemma block_eq (norm : list str) (marker : list nat) (i : nat) :
  (i < length marker)%nat →
  block norm marker i = inr (anchor_block norm marker i).
Proof.
  intros Hi. unfold block, anchor_block, next_marker, index.
  destruct (lookup_lt_is_Some_2 marker i Hi) as [a Ha]. rewrite Ha. rsimpl.
  replace (i + 1)%nat with (S i) by lia.
  destruct (marker !! S i) as [b|] eqn:Hb.
  - apply lookup_lt_Some in Hb. apply Nat.ltb_lt in Hb. rewrite Hb. reflexivity.
  - apply lookup_ge_None in Hb. apply Nat.ltb_ge in Hb. rewrite Hb. reflexivity.
Qed.

Lemma mapM_fmap {A B} (f : A → result B) (g : A → B) (l : list A) :
  (∀ x, x ∈ l → f x = inr (g x)) → mapM f l = inr (g <$> l).
Proof.
  intros H. apply mapM_inr. induction l as [|x l IH]; [constructor|].
  rewrite fmap_cons. constructor; [apply H; left|].
  apply IH. intros y Hy. apply H. right. exact Hy.
Qed.

(** The second loop of the fallback assigns block [i] to weekday [i]. *)
Lemma fill_from_blocks_spec (blocks : list (list str)) (i : nat) (wds : list str)
    (results : WeekMenu) :
  NoDup wds → (i + length wds ≤ length blocks)%nat →
  ∃ r : WeekMenu, fill_from_blocks blocks i wds results = inr r
    ∧ dom r = dom results ∪ list_to_set wds
    ∧ (∀ k wd, wds !! k = Some wd →
         ∃ b items, blocks !! (i + k)%nat = Some b
                    ∧ _extract_items_from_lines b = inr items
                    ∧ r !! wd = Some items)
    ∧ (∀ wd, wd ∉ wds → r !! wd = results !! wd).
Proof.
  revert i results. induction wds as [|wd wds IH]; intros i results Hnd Hlen.
  - exists results. split; [reflexivity|]. split; [set_solver|].
    split; [intros k wd H; inversion H | reflexivity].
  - cbn [fill_from_blocks length] in *. apply NoDup_cons in Hnd as [Hwd Hnd].
    destruct (lookup_lt_is_Some_2 blocks i) as [b Hb]; [lia|].
    unfold index. rewrite Hb. rsimpl.
    destruct (extract_total b) as [items Hitems]. rewrite Hitems. rsimpl.
    destruct (IH (S i) (<[wd := items]> results) Hnd) as (r & Hr & Hd & Hin & Hout); [lia|].
    exists r. split; [exact Hr|]. split.
    { rewrite Hd, dom_insert_L. clear. set_solver. }
    split.
    + intros [|k] wd' Hk.
      * injection Hk as <-. exists b, items. rewrite Nat.add_0_r.
        split; [exact Hb|]. split; [exact Hitems|].
        rewrite Hout by exact Hwd. apply lookup_insert_eq.
      * destruct (Hin k wd' Hk) as (b' & items' & Hb' & Hi' & Hl').
        exists b', items'. replace (i + S k)%nat with (S i + k)%nat by lia.
        split; [exact Hb'|]. split; assumption.
    + intros wd' Hwd'. apply not_elem_of_cons in Hwd' as [Hne Hwd'].
      rewrite Hout by exact Hwd'. apply lookup_insert_ne. congruence.
Qed.

(** Attempt B when it runs with five or more anchors. *)
Lemma fallback_blocks (norm : list str) (results : WeekMenu) :
  any_values results = false → (5 ≤ length (marker_idx norm))%nat →
  ∃ r : WeekMenu, fallback norm results = inr r
    ∧ dom r = dom results ∪ weekdays
    ∧ (∀ i wd, WEEKDAY_ORDER !! i = Some wd →
         ∃ items, _extract_items_from_lines (anchor_block norm (marker_idx norm) i)
                    = inr items
                  ∧ r !! wd = Some items).
Proof.
  intros Hany Hlen. unfold fallback. rewrite Hany. cbn [negb].
  apply Nat.leb_le in Hlen as Hleb. rewrite Hleb.
  rewrite (mapM_fmap _ (anchor_block norm (marker_idx norm))).
  2: { intros i Hi. apply block_eq. apply elem_of_seq in Hi. lia. }
  rsimpl.
  destruct (fill_from_blocks_spec (anchor_block norm (marker_idx norm) <$> seq 0 5)
              0 WEEKDAY_ORDER results WEEKDAY_ORDER_NoDup)
    as (r & Hr & Hd & Hin & _); [rewrite length_fmap, length_seq; reflexivity|].
  exists r. split; [exact Hr|]. split; [exact Hd|].
  intros i wd Hi. destruct (Hin i wd Hi) as (b & items & Hb & Hitems & Hl).
  exists items. split; [|exact Hl].
  cbn [Nat.add] in Hb. rewrite list_lookup_fmap in Hb.
  assert (Hi5 : (i < 5)%nat) by (apply lookup_lt_Some in Hi; exact Hi).
  rewrite lookup_seq_lt in Hb by exact Hi5. injection Hb as <-. exact Hitems.
Qed.

Lemma fallback_total (norm : list str) (results : WeekMenu) :
  dom results = weekdays →
  ∃ r : WeekMenu, fallback norm results = inr r ∧ dom r = weekdays.
Proof.
  intros Hdom. destruct (any_values results) eqn:Hany.
  - exists results. unfold fallback. rewrite Hany. split; [reflexivity | exact Hdom].
  - destruct (le_lt_dec 5 (length (marker_idx norm))) as [Hlen|Hlen].
    + destruct (fallback_blocks norm results Hany Hlen) as (r & Hr & Hd & _).
      exists r. split; [exact Hr|]. rewrite Hd, Hdom. set_solver.
    + exists results. unfold fallback. rewrite Hany. cbn [negb].
      apply Nat.leb_gt in Hlen. rewrite Hlen. split; [reflexivity | exact Hdom].
Qed.

Lemma parse_lines_eq (lines norm : list str) (res r : WeekMenu) :
  norm_lines lines = inr norm → primary norm = inr res →
  fallback norm res = inr r → parse_lines lines = inr (dedup <$> r).
Proof.
  intros Hn Hp Hf. unfold parse_lines. rewrite Hn. rsimpl.
  rewrite Hp. rsimpl. rewrite Hf. reflexivity.
Qed.

Lemma fallback_skipped (norm : list str) (res : WeekMenu) :
  any_values res = true → fallback norm res = inr res.
Proof. intros H. unfold fallback. rewrite H. reflexivity. Qed.

Lemma fallback_too_few (norm : list str) (res : WeekMenu) :
  (length (marker_idx norm) < 5)%nat → fallback norm res = inr res.
Proof.
  intros H. unfold fallback. apply Nat.leb_gt in H. rewrite H.
  destruct (negb _); reflexivity.
Qed.

Lemma dedup_nil : dedup [] = [].
Proof. reflexivity. Qed.

(** C2: on every sequence of lines, the empty one included, the parser
    returns (it raises nothing) a mapping whose keys are exactly the
    five canonical weekdays, each bound to a list; when fewer than two
    weekdays are located and fewer than five anchor lines are found, all
    five lists are empty.  [parse_week_pdf] returns that mapping for a
    document with these lines. *)
Theorem parse_total_five_keys (lines : list str) :
  ∃ (norm : list str) (hits : list Hit) (menu : WeekMenu),
    norm_lines lines = inr norm
    ∧ locate (make_blob norm) = inr hits
    ∧ parse_lines lines = inr menu
    ∧ dom menu = list_to_set WEEKDAY_ORDER
    ∧ (∀ wd, wd ∈ WEEKDAY_ORDER → is_Some (menu !! wd))
    ∧ ((length hits < 2)%nat → (length (marker_idx norm) < 5)%nat →
       ∀ wd, wd ∈ WEEKDAY_ORDER → menu !! wd = Some [])
    ∧ (∀ pdf g, text_lines pdf = lines → parse_week_pdf pdf g = (inr menu, g))
    ∧ parse_lines [] = inr empty_results.
Proof.
  destruct (norm_lines_total lines) as [norm Hnorm].
  destruct (primary_spec norm) as (hits & res & Hloc & Hprim & Hdom & Hfew).
  destruct (fallback_total norm res Hdom) as (r & Hr & Hdr).
  pose proof (parse_lines_eq lines norm res r Hnorm Hprim Hr) as Hparse.
  exists norm, hits, (dedup <$> r).
  assert (Hd : dom (dedup <$> r) = list_to_set WEEKDAY_ORDER)
    by (rewrite dom_fmap_L; exact Hdr).
  split; [exact Hnorm|]. split; [exact Hloc|]. split; [exact Hparse|].
  split; [exact Hd|].
  split.
  { intros wd Hwd. apply elem_of_dom. rewrite Hd. apply elem_of_list_to_set, Hwd. }
  split.
  { intros Hlt Hm wd Hwd. specialize (Hfew Hlt). subst res.
    rewrite (fallback_too_few norm empty_results Hm) in Hr. injection Hr as <-.
    rewrite lookup_fmap, (empty_results_lookup wd Hwd). reflexivity. }
  split.
  { intros pdf g <-. rewrite parse_week_pdf_eq, Hparse. reflexivity. }
  vm_compute. reflexivity.
Qed.

(** An anchor line: its lowercase contains "tagessuppe" and contains
    "klein". *)
Lemma is_marker_spec (ln : str) :
  is_marker ln = true ↔
  (∃ u v, Str.lower ln = u ++ py "tagessuppe" ++ v)
  ∧ (∃ u v, Str.lower ln = u ++ py "klein" ++ v).
Proof. unfold is_marker. rewrite andb_true_iff, !contains_spec. reflexivity. Qed.

(** C4: the marker-based fallback decides the result exactly when every
    list is empty after attempt A: otherwise the result is attempt A's,
    deduplicated.  [marker_idx] lists, in increasing order, the indices
    of the anchor lines, the lines whose lowercase ([str.lower]) contains
    "tagessuppe" and contains "klein"; with five or more of them the
    weekday at canonical index [i] gets the items of the lines from
    anchor [i] up to, not including, anchor [i+1] (up to the end of the
    lines when there is no further anchor), and with fewer than five
    every list stays empty. *)
Theorem fallback_by_markers (lines norm : list str) (res : WeekMenu) :
  norm_lines lines = inr norm → primary norm = inr res →
  (StronglySorted lt (marker_idx norm)
   ∧ ∀ a, a ∈ marker_idx norm ↔
       ∃ ln, norm !! a = Some ln
         ∧ (∃ u v, Str.lower ln = u ++ py "tagessuppe" ++ v)
         ∧ (∃ u v, Str.lower ln = u ++ py "klein" ++ v))
  ∧ (any_values res = false ↔ ∀ wd, wd ∈ WEEKDAY_ORDER → res !! wd = Some [])
  ∧ (any_values res = true → parse_lines lines = inr (dedup <$> res))
  ∧ (any_values res = false → (5 ≤ length (marker_idx norm))%nat →
     ∃ menu : WeekMenu, parse_lines lines = inr menu
       ∧ ∀ i wd a, WEEKDAY_ORDER !! i = Some wd → marker_idx norm !! i = Some a →
           ∃ items,
             _extract_items_from_lines
               (take (next_marker (marker_idx norm) norm i - a) (drop a norm))
               = inr items
             ∧ menu !! wd = Some (dedup items))
  ∧ (any_values res = false → (length (marker_idx norm) < 5)%nat →
     ∃ menu : WeekMenu, parse_lines lines = inr menu
       ∧ ∀ wd, wd ∈ WEEKDAY_ORDER → menu !! wd = Some []).
Proof.
  intros Hnorm Hprim.
  assert (Hdom : dom res = weekdays).
  { destruct (primary_spec norm) as (hits & res' & _ & Hprim' & Hdom & _).
    rewrite Hprim in Hprim'. injection Hprim' as <-. exact Hdom. }
  split.
  { destruct (marker_idx_spec norm) as [Hsorted Hin]. split; [exact Hsorted|].
    intros a. rewrite Hin. split.
    - intros (ln & Hln & Hm). exists ln. split; [exact Hln|].
      apply is_marker_spec, Hm.
    - intros (ln & Hln & Hm). exists ln. split; [exact Hln|].
      apply is_marker_spec, Hm. }
  split.
  { rewrite any_values_false. split.
    - intros H wd Hwd.
      assert (Hin : wd ∈ dom res) by (rewrite Hdom; apply weekdays_elem, Hwd).
      apply elem_of_dom in Hin as [items Hitems].
      rewrite Hitems, (H wd items Hitems). reflexivity.
    - intros H wd items Hl.
      assert (Hwd : wd ∈ WEEKDAY_ORDER).
      { apply weekdays_elem. rewrite <- Hdom. apply elem_of_dom. eauto. }
      rewrite (H wd Hwd) in Hl. congruence. }
  split.
  { intros Hany. eapply parse_lines_eq; [exact Hnorm | exact Hprim|].
    apply fallback_skipped, Hany. }
  split.
  - intros Hany Hlen.
    destruct (fallback_blocks norm res Hany Hlen) as (r & Hr & _ & Hblocks).
    exists (dedup <$> r).
    split; [eapply parse_lines_eq; eassumption|].
    intros i wd a Hi Ha. destruct (Hblocks i wd Hi) as (items & Hitems & Hl).
    exists items. unfold anchor_block in Hitems. rewrite Ha in Hitems.
    split; [exact Hitems|]. rewrite lookup_fmap, Hl. reflexivity.
  - intros Hany Hlen. exists (dedup <$> res).
    split; [eapply parse_lines_eq; [exact Hnorm | exact Hprim|];
            apply fallback_too_few, Hlen|].
    intros wd Hwd. rewrite lookup_fmap.
    assert (Hin : wd ∈ dom res) by (rewrite Hdom; apply weekdays_elem, Hwd).
    apply elem_of_dom in Hin as [items Hitems]. rewrite Hitems.
    rewrite (proj1 (any_values_false res) Hany wd items Hitems). reflexivity.
Qed.

End ParseFacts.

(** ** The item extractor on price-bearing and price-free text *)

Module ItemFacts.

Import Re ReFacts WhitespaceFacts ExtractFacts.

(** C5: on the single line
    ["Tagessuppe klein CHF 4.50 Pouletgeschnetzeltes CHF 12.90"] the
    extractor returns exactly two items, in order: ["Tagessuppe klein"]
    at ["4.50"], then ["Pouletgeschnetzeltes"] at ["12.90"]. *)
Theorem extract_two_priced_items :
  _extract_items_from_lines
    [py "Tagessuppe klein CHF 4.50 Pouletgeschnetzeltes CHF 12.90"]
  = inr [ {| title := py "Tagessuppe klein"; price_chf := Some (py "4.50") |};
          {| title := py "Pouletgeschnetzeltes"; price_chf := Some (py "12.90") |} ].
Proof. vm_compute. reflexivity. Qed.

Definition title_only (t : str) : MenuItem := {| title := t; price_chf := None |}.

(** The title of a line in the fallback: whitespace runs collapsed,
    then blanks, commas and semicolons trimmed from both ends. *)
Definition line_title (ln : str) : str :=
  Str.strip_chars (py " ,;") (collapse_ws ln).

Lemma line_item_title (ln : str) :
  line_item ln
  = inr (if nonempty (line_title ln) then Some (title_only (line_title ln)) else None).
Proof.
  unfold line_item, line_title. rewrite re_sub_ws_collapse. rsimpl.
  destruct (nonempty _); reflexivity.
Qed.

Lemma line_items_titles (lines : list str) :
  omap id <$> mapM line_item lines
  = inr (title_only <$> filter (λ t, nonempty t) (line_title <$> lines)).
Proof.
  induction lines as [|ln lines IH]; [reflexivity|].
  cbn [mapM]. rewrite line_item_title. rsimpl.
  destruct (mapM line_item lines) as [e|os]; [discriminate|]. rsimpl.
  injection IH as IH. f_equal. rewrite fmap_cons, filter_cons.
  destruct (line_title ln) as [|c t].
  - rewrite decide_False by exact id. cbn. rewrite <- IH. reflexivity.
  - rewrite decide_True by exact I.
    rewrite fmap_cons. cbn. rewrite <- IH. reflexivity.
Qed.

Lemma zero_matches_line_items (lines : list str) (text : str) (pattern : Pattern) :
  clean_text lines = inr text →
  compile PRICE_RE true = inr pattern →
  finditer pattern text = [] →
  _extract_items_from_lines lines
  = inr (title_only <$> filter (λ t, nonempty t) (line_title <$> lines)).
Proof.
  intros Hclean Hpat Hnone.
  unfold _extract_items_from_lines. rewrite Hclean. rsimpl.
  rewrite Hpat. rsimpl. rewrite Hnone. cbn [mapM]. rsimpl.
  cbn [omap list_omap nonempty]. apply line_items_titles.
Qed.

(** C6, as the code has it: when the price pattern has no match on the
    cleaned text of a segment, the extractor returns, in the order of the
    lines, one title-only item (price [None]) for every line whose
    title (the line with whitespace runs collapsed and blanks, commas
    and semicolons trimmed from both ends) is not empty; a line whose
    title is empty yields no item. *)
Theorem fallback_line_items (lines : list str) (text : str) (pattern : Pattern) :
  clean_text lines = inr text →
  compile PRICE_RE true = inr pattern →
  finditer pattern text = [] →
  _extract_items_from_lines lines
  = inr (title_only <$> filter (λ t, nonempty t) (line_title <$> lines)).
Proof. apply zero_matches_line_items. Qed.

(** A segment with these hypotheses. *)
Lemma fallback_line_items_witness :
  _extract_items_from_lines [py "Suppe ;"; py ";"; py "Brot  und Butter"]
  = inr (title_only <$>
           filter (λ t, nonempty t)
             (line_title <$> [py "Suppe ;"; py ";"; py "Brot  und Butter"])).
Proof.
  apply (fallback_line_items [py "Suppe ;"; py ";"; py "Brot  und Butter"]
           (py "Suppe ; ; Brot und Butter") PRICE);
    vm_compute; reflexivity.
Defined.

(** C6 as stated fails on a line that is not empty but consists of
    trimmed punctuation: the price pattern has no match, the line [";"]
    is not empty, and no item is returned for it. *)
Lemma fallback_drops_punctuation_line :
  clean_text [py ";"] = inr (py ";")
  ∧ (∀ pattern, compile PRICE_RE true = inr pattern → finditer pattern (py ";") = [])
  ∧ Forall (λ ln, ln ≠ []) [py ";"]
  ∧ _extract_items_from_lines [py ";"] = inr []
  ∧ ¬ (∀ lines items, _extract_items_from_lines lines = inr items →
         (∀ text pattern, clean_text lines = inr text →
            compile PRICE_RE true = inr pattern → finditer pattern text = []) →
         length items = length (filter (λ ln, nonempty ln) lines)).
Proof.
  assert (H1 : clean_text [py ";"] = inr (py ";")) by (vm_compute; reflexivity).
  assert (H2 : ∀ pattern, compile PRICE_RE true = inr pattern →
                 finditer pattern (py ";") = []).
  { intros pattern. rewrite compile_price. intros [= <-]. vm_compute. reflexivity. }
  assert (H3 : _extract_items_from_lines [py ";"] = inr [])
    by (vm_compute; reflexivity).
  split; [exact H1|]. split; [exact H2|].
  split; [repeat constructor; discriminate|]. split; [exact H3|].
  intros H. specialize (H [py ";"] [] H3). cbn in H.
  assert (0%nat = 1%nat) as E; [|discriminate E].
  apply H. intros text pattern Ht Hp. rewrite H1 in Ht. injection Ht as <-.
  apply H2, Hp.
Qed.

End ItemFacts.

(** ** Process state *)

Module StateFacts.

Import ProcessFacts.

(** C8: parsing is deterministic and free of side effects.
    [parse_week_pdf] and the functions it calls,
    [_squash_spaced_letters] and [_extract_items_from_lines], hand the
    process state, the cached source URL included, on as they found it.
    The result is the one of steps 2 to 5 on the text lines of the
    document: it does not depend on the state, and invocations on
    documents with the same lines give the same result in any state.
    The caller [scrape_week] does write the state, before the parser
    runs: it leaves the cache as the fetch has set it. *)
Theorem parse_week_pdf_pure (pdf : list Page) (g g' : Globals) :
  parse_week_pdf pdf g = (parse_lines (text_lines pdf), g)
  ∧ (∀ s, Process._squash_spaced_letters s g = (_squash_spaced_letters s, g))
  ∧ (∀ lines, Process._extract_items_from_lines lines g
              = (_extract_items_from_lines lines, g))
  ∧ (∀ pdf', text_lines pdf' = text_lines pdf →
       (parse_week_pdf pdf' g').1 = (parse_week_pdf pdf g).1)
  ∧ parse_week_pdf pdf (parse_week_pdf pdf g).2 = parse_week_pdf pdf g
  ∧ (get_cached_pdf_url (parse_week_pdf pdf g).2).1 = (get_cached_pdf_url g).1
  ∧ (∀ net url, fetched_url net = inr url → fetched_pdf net = inr pdf →
       scrape_week net g
       = (parse_lines (text_lines pdf), {| _cached_pdf_url := Some url |})).
Proof.
  pose proof (parse_week_pdf_stateless pdf) as H.
  split; [apply H|].
  split; [intros s; apply squash_stateless|].
  split; [intros lines; apply extract_stateless|].
  split.
  { intros pdf' E. rewrite (parse_week_pdf_stateless pdf' g'), (H g), E.
    reflexivity. }
  rewrite !(H g). cbn [fst snd]. split; [apply H|]. split; [reflexivity|].
  intros net url Hurl Hpdf. unfold scrape_week, load_week_pdf_bytes.
  rewrite Hurl, Hpdf. apply H.
Qed.

End StateFacts.

(** ** A letter-spaced heading *)

Module HeadingFacts.

Import LocateFacts.

(** C1, at the heading of the specification: [_squash_spaced_letters]
    returns ["M O N T A G"] as it is, so that the normalised line does
    not contain ["MONTAG"]; the locator still finds the weekday, at
    offset 0, through the whitespace its pattern allows between
    letters. *)
Theorem spaced_heading_not_collapsed :
  _squash_spaced_letters (py "M O N T A G") = inr (py "M O N T A G")
  ∧ norm_lines [py "M O N T A G"; py "Suppe CHF 4.50"]
    = inr [py "M O N T A G"; py "Suppe CHF 4.50"]
  ∧ Str.contains (py "MONTAG") (py "M O N T A G") = false
  ∧ locate (make_blob [py "M O N T A G"; py "Suppe CHF 4.50"])
    = inr [(py "montag", 0%nat)].
Proof. repeat split; vm_compute; reflexivity. Qed.

End HeadingFacts.

(** ** Case: the primary strategy works on lowercased text *)

Module CaseFacts.

Import Re ReFacts UnicodeFacts StrFacts ExtractFacts SquashFacts LocateFacts SegmentFacts
  ParseFacts.

(** A text of characters that are their own lowercase. *)
Definition lowered (s : str) : Prop := Forall (λ c, fixed c = true) s.

Lemma lower_lowered (s : str) : lowered (Str.lower s).
Proof. apply lower_from_fixed. Qed.

Lemma lowered_lower_id (s : str) : lowered s → Str.lower s = s.
Proof. apply lower_from_id. Qed.

Lemma lower_from_id_lowered (before s : str) :
  Str.lower_from before s = s → lowered s.
Proof.
  revert before. induction s as [|c s IH]; intros before; [constructor|].
  cbn [Str.lower_from]. destruct (c =? 931) eqn:E.
  - apply N.eqb_eq in E. subst c.
    destruct (Str.final_sigma before s); discriminate.
  - unfold lower_full. destruct (c =? 304) eqn:E'.
    + apply N.eqb_eq in E'. subst c. discriminate.
    + cbn [app]. intros [= Hc Hs]. constructor; [|apply (IH _ Hs)].
      unfold fixed. rewrite Hc. apply N.eqb_refl.
Qed.

Lemma lower_id_lowered (s : str) : Str.lower s = s → lowered s.
Proof. apply lower_from_id_lowered. Qed.

(** *** The string operations keep the characters of their inputs *)

Section chars.
Variable Q : char → Prop.

Lemma lstrip_by_chars p (s : str) : Forall Q s → Forall Q (Str.lstrip_by p s).
Proof.
  induction 1 as [|c s Hc Hs IH]; cbn [Str.lstrip_by]; [constructor|].
  destruct (p c); [exact IH | constructor; assumption].
Qed.

Lemma strip_by_chars p (s : str) : Forall Q s → Forall Q (Str.strip_by p s).
Proof.
  intros H. unfold Str.strip_by, Str.rstrip_by.
  apply Forall_reverse, lstrip_by_chars, Forall_reverse, lstrip_by_chars, H.
Qed.

Lemma join_chars (sep : str) (parts : list str) :
  Forall Q sep → Forall (Forall Q) parts → Forall Q (Str.join sep parts).
Proof.
  intros Hsep. induction 1 as [|p ps Hp Hps IH]; [constructor|].
  cbn [Str.join]. destruct ps as [|p' ps']; [exact Hp|].
  apply Forall_app. split; [exact Hp|]. apply Forall_app. split; assumption.
Qed.

Lemma splitlines_go_chars (cur s : str) :
  Forall Q cur → Forall Q s → Forall (Forall Q) (Str.splitlines_go cur s).
Proof.
  intros Hcur Hs. revert cur Hcur.
  remember (length s) as n eqn:En. revert s En Hs.
  induction n as [n IH] using lt_wf_ind.
  intros s En Hs cur Hcur. destruct s as [|c r]; cbn [Str.splitlines_go].
  - destruct cur; [constructor|]. constructor; [exact Hcur | constructor].
  - apply Forall_cons in Hs as [Hc Hr]. cbn [length] in En.
    assert (IHr : ∀ cur', Forall Q cur' → Forall (Forall Q) (Str.splitlines_go cur' r)).
    { intros cur' H'. apply (IH (length r)); [lia | reflexivity | exact Hr | exact H']. }
    destruct (c =? 13).
    + destruct r as [|c' r'].
      * constructor; [exact Hcur | apply IHr; constructor].
      * destruct (c' =? 10).
        -- constructor; [exact Hcur|]. apply Forall_cons in Hr as [_ Hr'].
           apply (IH (length r')); [cbn [length] in En; lia | reflexivity | exact Hr' | constructor].
        -- constructor; [exact Hcur | apply IHr; constructor].
    + destruct (islinebreak c).
      * constructor; [exact Hcur | apply IHr; constructor].
      * apply IHr. apply Forall_app. split; [exact Hcur | repeat constructor; exact Hc].
Qed.

Lemma slice_chars (s : str) (a b : nat) : Forall Q s → Forall Q (Str.slice s a b).
Proof. intros H. unfold Str.slice. apply Forall_take, Forall_drop, H. Qed.

Lemma group_chars (m : Match) (n : nat) (t : str) :
  Forall Q (m_string m) → group m n = Some t → Forall Q t.
Proof.
  intros H. unfold group. destruct n.
  - intros [= <-]. apply slice_chars, H.
  - destruct (cap_get _ _); [|discriminate]. intros [= <-]. apply slice_chars, H.
Qed.

Definition template_ok (t : list tpart) : Prop :=
  Forall (λ part, match part with TText c => Q c | TGroup _ => True end) t.

Lemma parse_template_ok (n : nat) (repl : str) (t : list tpart) :
  Forall Q repl → parse_template n repl = inr t → template_ok t.
Proof.
  intros Hr. revert t.
  remember (length repl) as k eqn:Ek. revert repl Ek Hr.
  induction k as [k IH] using lt_wf_ind.
  intros repl Ek Hr t. destruct repl as [|c r]; cbn [parse_template].
  - intros [= <-]. constructor.
  - apply Forall_cons in Hr as [Hc Hr']. cbn [length] in Ek.
    destruct (c =? ch "\").
    + destruct r as [|d r']; [discriminate|].
      destruct (_ && _); [|discriminate].
      destruct (_ <=? _)%nat; [|discriminate].
      apply Forall_cons in Hr' as [_ Hr''].
      destruct (parse_template n r') as [e|ps] eqn:Hps; [discriminate|].
      intros [= <-]. constructor; [exact I|].
      apply (IH (length r') ltac:(cbn [length] in Ek; lia) r' eq_refl Hr'' ps Hps).
    + destruct (parse_template n r) as [e|ps] eqn:Hps; [discriminate|].
      intros [= <-]. constructor; [exact Hc|].
      apply (IH (length r) ltac:(lia) r eq_refl Hr' ps Hps).
Qed.

Lemma expand_chars (t : list tpart) (m : Match) :
  template_ok t → Forall Q (m_string m) → Forall Q (expand t m).
Proof.
  intros Ht Hm. unfold expand. induction Ht as [|part t Hp _ IH]; [constructor|].
  cbn [flat_map]. apply Forall_app. split; [|exact IH].
  destruct part as [c|n]; [repeat constructor; exact Hp|].
  destruct (group m n) as [g|] eqn:Hg; [|constructor].
  eapply group_chars; eassumption.
Qed.

Lemma sub_go_chars (t : list tpart) (s : str) (pos : nat) (ms : list Match) :
  template_ok t → Forall Q s → Forall (λ m, m_string m = s) ms →
  Forall Q (sub_go t s pos ms).
Proof.
  intros Ht Hs Hms. revert pos. induction Hms as [|m ms Hm _ IH]; intros pos.
  - apply Forall_drop, Hs.
  - cbn [sub_go]. apply Forall_app. split; [apply slice_chars, Hs|].
    apply Forall_app. split; [|apply IH].
    apply expand_chars; [exact Ht | rewrite Hm; exact Hs].
Qed.

(** [re.sub] builds its result from the text and the template. *)
Lemma re_sub_chars (pat repl s r : str) (ic : bool) :
  Forall Q s → Forall Q repl → re_sub pat repl s ic = inr r → Forall Q r.
Proof.
  intros Hs Hrepl. unfold re_sub, sub.
  destruct (compile pat ic) as [e|p]; [discriminate|]. rsimpl.
  destruct (parse_template (groups p) repl) as [e|t] eqn:Ht; [discriminate|].
  rsimpl. intros [= <-].
  apply sub_go_chars; [eapply parse_template_ok; eassumption | exact Hs|].
  apply finditer_string.
Qed.
End chars.

(** *** Steps that look for one of the letters A to Z, Ä, Ö, Ü find none *)

Lemma upper_class_members (c : char) :
  in_test false UPPER c = true → c ∈ chars_of 65 90 ++ [196; 214; 220].
Proof.
  unfold in_test, set_test, UPPER. cbn [existsb citem_test]. intros E.
  apply orb_true_iff in E as [E|E].
  { apply elem_of_app. left. apply andb_true_iff in E as [H1 H2].
    apply N.leb_le in H1, H2. apply chars_of_range. split; assumption. }
  apply elem_of_app. right.
  repeat (apply orb_true_iff in E as [E|E];
          [apply N.eqb_eq in E; subst c; set_solver|]).
  discriminate E.
Qed.

Lemma upper_class (c : char) : fixed c = true → in_test false UPPER c = false.
Proof.
  intros H. destruct (in_test false UPPER c) eqn:E; [|reflexivity]. exfalso.
  apply upper_class_members in E.
  assert (Hall : forallb (λ c, negb (fixed c)) (chars_of 65 90 ++ [196; 214; 220])
                 = true) by (vm_compute; reflexivity).
  rewrite forallb_forall in Hall. apply list_elem_of_In, Hall in E.
  rewrite H in E. discriminate E.
Qed.

Lemma upper_step_none (s : str) (i : nat) (c : caps) (k : K) :
  lowered s → step s (in_test false UPPER) i c k = None.
Proof.
  intros H. apply step_none. eapply Forall_impl; [exact H|]. apply upper_class.
Qed.

Lemma replace_go_no_upper (a : char) (old new s : str) :
  fixed a = false → lowered s → Str.replace_go (a :: old) new 0 s = s.
Proof.
  intros Ha. induction 1 as [|c s Hc _ IH]; [reflexivity|].
  cbn [Str.replace_go Str.startswith].
  destruct (a =? c) eqn:E; [apply N.eqb_eq in E; congruence|].
  cbn [andb]. rewrite IH. reflexivity.
Qed.

Lemma soup_fix_id (s : str) :
  lowered s →
  Str.replace (py "Tagessuppeklein") (py "Tagessuppe klein") s = s
  ∧ Str.replace (py "Tagessuppegross") (py "Tagessuppe gross") s = s.
Proof.
  intros H. split; apply (replace_go_no_upper 84); [reflexivity | exact H
                                                    | reflexivity | exact H].
Qed.

Lemma allergen_strip_id (s : str) :
  lowered s →
  re_sub (py "\b([A-ZÄÖÜ](?:\s*,\s*[A-ZÄÖÜ])+)\b") (py "") s false = inr s.
Proof.
  intros H. erewrite re_sub_inr; [|apply compile_allergen | apply template_empty].
  rewrite finditer_none; [reflexivity|].
  intros j ok. unfold match_at. cbn [code ignorecase go].
  destruct (at_boundary s j); [|reflexivity].
  rewrite upper_step_none by exact H. reflexivity.
Qed.

Lemma camel_fix_id (s : str) :
  lowered s → re_sub (py "([a-zäöü])([A-ZÄÖÜ])") (py "\1 \2") s false = inr s.
Proof.
  intros H. erewrite re_sub_inr; [|apply compile_camel | apply template_camel].
  rewrite finditer_none; [reflexivity|].
  intros j ok. unfold match_at. cbn [code ignorecase go]. unfold step at 1.
  destruct (s !! j); [|reflexivity]. destruct (in_test _ _ _); [|reflexivity].
  rewrite upper_step_none by exact H. reflexivity.
Qed.

(** *** The extractor on lowercase lines *)

Abbreviation low_char := (λ c : char, fixed c = true).

Lemma space_low : Forall low_char (py " ").
Proof. repeat constructor. Qed.

Lemma camel_template_low : Forall low_char (py "\1 \2").
Proof. repeat constructor. Qed.

Lemma clean_text_chars (Q : char → Prop) (lines : list str) (text : str) :
  Q 32 → Forall (Forall Q) lines → clean_text lines = inr text → Forall Q text.
Proof.
  intros Hsp Hl. unfold clean_text.
  assert (Hspace : Forall Q (py " ")) by (repeat constructor; exact Hsp).
  destruct (re_sub (py "\s+") _ _ _) as [e|t1] eqn:H1; [discriminate|]. rsimpl.
  destruct (re_sub _ _ (Str.strip t1) _) as [e|t2] eqn:H2; [discriminate|]. rsimpl.
  intros H3.
  apply (re_sub_chars Q) in H1; [|apply join_chars; [exact Hspace | exact Hl]
                                  | exact Hspace].
  apply (re_sub_chars Q) in H2; [|apply strip_by_chars, H1 | constructor].
  apply (re_sub_chars Q) in H3; [exact H3 | exact H2 | constructor].
Qed.

Lemma clean_text_lowered (lines : list str) (text : str) :
  Forall lowered lines → clean_text lines = inr text → lowered text.
Proof. apply (clean_text_chars low_char). reflexivity. Qed.

Lemma group_named_lowered (p : Pattern) (m : Match) (name t : str) :
  lowered (m_string m) → group_named p m name ≫= attr = inr t → lowered t.
Proof.
  intros Hm. unfold group_named.
  destruct (list_find _ _) as [[? [? n]]|]; [|discriminate]. rsimpl.
  destruct (group m n) as [g|] eqn:Hg; [|discriminate]. rsimpl.
  intros [= <-]. eapply group_chars; eassumption.
Qed.

Lemma price_item_lowered (p : Pattern) (m : Match) (it : MenuItem) :
  lowered (m_string m) → price_item p m = inr (Some it) → lowered (title it).
Proof.
  intros Hm. unfold price_item.
  destruct (group_named p m (py "title") ≫= attr) as [e|t0] eqn:Ht; [discriminate|].
  rsimpl.
  destruct (group_named p m (py "price") ≫= attr) as [e|q] eqn:Hq; [discriminate|].
  rsimpl.
  apply group_named_lowered in Ht; [|exact Hm].
  assert (H0 : lowered (Str.strip_chars (py " ,;:-") t0))
    by (apply strip_by_chars, Ht).
  destruct (soup_fix_id _ H0) as [-> _].
  destruct (soup_fix_id _ H0) as [_ ->].
  destruct (re_sub (py "([a-zäöü])([A-ZÄÖÜ])") _ _ _) as [e|t1] eqn:H1; [discriminate|].
  rsimpl.
  destruct (re_sub (py "\s{2,}") _ _ _) as [e|t2] eqn:H2; [discriminate|]. rsimpl.
  apply (re_sub_chars low_char) in H1; [|exact H0 | apply camel_template_low].
  apply (re_sub_chars low_char) in H2; [|exact H1 | apply space_low].
  destruct (nonempty t2); [|discriminate]. intros [= <-]. exact H2.
Qed.

Lemma line_item_lowered (ln : str) (it : MenuItem) :
  lowered ln → line_item ln = inr (Some it) → lowered (title it).
Proof.
  intros Hl. unfold line_item.
  destruct (re_sub _ _ _ _) as [e|t] eqn:H; [discriminate|]. rsimpl.
  apply (re_sub_chars low_char) in H; [|exact Hl | apply space_low].
  destruct (nonempty _); [|discriminate]. intros [= <-].
  apply strip_by_chars, H.
Qed.

Lemma mapM_omap_Forall {A B} (P : B → Prop) (f : A → result (option B))
    (l : list A) (os : list (option B)) :
  mapM f l = inr os →
  (∀ x y, x ∈ l → f x = inr (Some y) → P y) →
  Forall P (omap id os).
Proof.
  intros H. apply mapM_inr in H.
  induction H as [|x o l os Hx _ IH]; intros HP; [constructor|].
  assert (Hrest : Forall P (omap id os)).
  { apply IH. intros x' y Hx' Hy. eapply HP; [right; exact Hx' | exact Hy]. }
  destruct o as [y|]; [|exact Hrest].
  change (omap id (Some y :: os)) with (y :: omap id os).
  constructor; [eapply HP; [left | exact Hx] | exact Hrest].
Qed.

Lemma extract_lowered (lines : list str) (items : list MenuItem) :
  Forall lowered lines → _extract_items_from_lines lines = inr items →
  Forall (λ it, lowered (title it)) items.
Proof.
  intros Hl. unfold _extract_items_from_lines.
  destruct (clean_text lines) as [e|text] eqn:Ht; [discriminate|]. rsimpl.
  apply clean_text_lowered in Ht; [|exact Hl].
  destruct (compile PRICE_RE true) as [e|p]; [discriminate|]. rsimpl.
  destruct (mapM (price_item p) _) as [e|os] eqn:Hos; [discriminate|]. rsimpl.
  assert (H1 : Forall (λ it, lowered (title it)) (omap id os)).
  { eapply mapM_omap_Forall; [exact Hos|]. intros m it Hm Hit.
    eapply price_item_lowered; [|exact Hit].
    pose proof (finditer_string p text) as Hs. rewrite Forall_forall in Hs.
    rewrite (Hs m Hm). exact Ht. }
  destruct (nonempty (omap id os)); [intros [= <-]; exact H1|].
  destruct (mapM line_item lines) as [e|os'] eqn:Hos'; [discriminate|]. rsimpl.
  intros [= <-]. eapply mapM_omap_Forall; [exact Hos'|].
  intros ln it Hln Hit. eapply line_item_lowered; [|exact Hit].
  rewrite Forall_forall in Hl. apply Hl, Hln.
Qed.

Lemma segment_lines_lowered (seg : str) (lines : list str) :
  lowered seg → segment_lines seg = inr lines → Forall lowered lines.
Proof.
  intros Hs. unfold segment_lines. intros H. apply mapM_inr in H.
  assert (Hsrc : Forall lowered
            (filter (λ ln, nonempty (Str.strip ln)) (Str.splitlines seg))).
  { apply Forall_forall. intros ln Hln. apply list_elem_of_filter in Hln as [_ Hln].
    revert ln Hln. apply Forall_forall.
    apply splitlines_go_chars; [constructor | exact Hs]. }
  revert Hsrc. induction H as [|ln t l k Ht _ IH]; intros Hsrc; [constructor|].
  apply Forall_cons in Hsrc as [Hln Hsrc]. constructor; [|apply IH, Hsrc].
  destruct (re_sub _ _ _ _) as [e|r] eqn:Hr; [discriminate|].
  injection Ht as <-.
  apply (re_sub_chars low_char) in Hr; [|exact Hln | apply space_low].
  apply strip_by_chars, Hr.
Qed.

(** *** Attempt A *)

Lemma segments_are_slices (blob : str) (hits : list Hit)
    (segs : gmap (list N) (list N)) (wd seg : str) :
  NoDup (hits.*1) → segments_by_pos hits blob = inr (Some segs) →
  segs !! wd = Some seg → ∃ a b, seg = Str.slice blob a b.
Proof.
  intros Hnd. unfold segments_by_pos.
  destruct (2 <=? length hits)%nat; [|discriminate].
  assert (Hnd' : NoDup ((sort_hits hits).*1)) by (rewrite sort_hits_perm; exact Hnd).
  destruct (segment_loop_spec (sort_hits hits) blob [] (sort_hits hits) ∅ eq_refl Hnd')
    as (r & Hr & Hin & Hout).
  cbn [length] in Hr. rewrite Hr. intros [= E] Hl. subst r.
  destruct (decide (wd ∈ (sort_hits hits).*1)) as [Hwd|Hwd].
  - apply list_elem_of_fmap in Hwd as ([wd' o] & E & Hh). cbn [fst] in E. subst wd'.
    apply list_elem_of_lookup in Hh as [k Hk].
    rewrite (Hin k wd o Hk) in Hl. injection Hl as <-. eauto.
  - rewrite (Hout wd Hwd), lookup_empty in Hl. discriminate.
Qed.

Lemma empty_results_values (wd : str) (items : list MenuItem) :
  empty_results !! wd = Some items → items = [].
Proof. apply (proj1 (any_values_false empty_results) any_values_empty). Qed.

Lemma primary_lowered (norm : list str) (res : WeekMenu) :
  primary norm = inr res →
  ∀ wd items, res !! wd = Some items → Forall (λ it, lowered (title it)) items.
Proof.
  unfold primary. rewrite locate_eq. rsimpl.
  set (hits := omap _ _).
  assert (Hnd : NoDup (hits.*1)).
  { eapply sublist_NoDup; [apply WEEKDAY_ORDER_NoDup | apply omap_hit_fst]. }
  destruct (segments_by_pos hits (make_blob norm)) as [e|[segs|]] eqn:Hseg;
    [discriminate| |]; rsimpl.
  - destruct (truthy_dict (Some segs)).
    + destruct (fill_from_segments_spec segs WEEKDAY_ORDER empty_results)
        as (r & Hr & _ & Hprov).
      { intros wd Hwd. rewrite empty_results_dom. apply weekdays_elem, Hwd. }
      rewrite Hr. intros [= <-] wd items Hl.
      destruct (Hprov wd items Hl) as [Hold | (seg & lines & Hs & Hlines & Hitems)].
      * rewrite (empty_results_values wd items Hold). constructor.
      * destruct (segments_are_slices _ _ _ _ _ Hnd Hseg Hs) as (a & b & ->).
        eapply extract_lowered; [|exact Hitems].
        eapply segment_lines_lowered; [|exact Hlines].
        apply slice_chars, lower_lowered.
    + intros [= <-] wd items Hl.
      rewrite (empty_results_values wd items Hl). constructor.
  - intros [= <-] wd items Hl.
    rewrite (empty_results_values wd items Hl). constructor.
Qed.

(** C10: every item that attempt A produces has a title that
    [str.lower] leaves as it is: each of its characters is its own
    lowercase, so that none of them is one of the letters A to Z, Ä, Ö
    and Ü; so has every item of the final result when attempt A decides
    it.  On a text that [str.lower] leaves as it is the allergen-code
    strip, the two soup-name fixes and the lowercase-to-uppercase
    word-boundary fix change nothing. *)
Theorem primary_titles_lowercase (norm : list str) (res : WeekMenu) :
  primary norm = inr res →
  (∀ wd items it, res !! wd = Some items → it ∈ items →
     Str.lower (title it) = title it
     ∧ Forall (λ c, Str.lower [c] = [c]
                    ∧ ¬ (65 ≤ c ≤ 90) ∧ c ≠ 196 ∧ c ≠ 214 ∧ c ≠ 220) (title it))
  ∧ (∀ lines menu,
       norm_lines lines = inr norm → any_values res = true →
       parse_lines lines = inr menu →
       ∀ wd items it, menu !! wd = Some items → it ∈ items →
         Str.lower (title it) = title it)
  ∧ (∀ t, Str.lower t = t →
       re_sub (py "\b([A-ZÄÖÜ](?:\s*,\s*[A-ZÄÖÜ])+)\b") (py "") t false = inr t
       ∧ Str.replace (py "Tagessuppeklein") (py "Tagessuppe klein") t = t
       ∧ Str.replace (py "Tagessuppegross") (py "Tagessuppe gross") t = t
       ∧ re_sub (py "([a-zäöü])([A-ZÄÖÜ])") (py "\1 \2") t false = inr t).
Proof.
  intros Hprim.
  assert (Hres : ∀ wd items it, res !! wd = Some items → it ∈ items →
                   lowered (title it)).
  { intros wd items it Hl Hit.
    pose proof (primary_lowered norm res Hprim wd items Hl) as H.
    rewrite Forall_forall in H. apply H, Hit. }
  split.
  { intros wd items it Hl Hit. specialize (Hres wd items it Hl Hit).
    split; [apply lowered_lower_id, Hres|].
    eapply Forall_impl; [exact Hres|]. intros c Hc.
    split; [apply (lowered_lower_id [c]); constructor; [exact Hc | constructor]|].
    pose proof (upper_class c Hc) as Hu.
    unfold in_test, set_test, UPPER in Hu. cbn [existsb citem_test] in Hu.
    char_arith. }
  split.
  { intros lines menu Hnorm Hany Hparse wd items it Hl Hit.
    rewrite (parse_lines_eq lines norm res res Hnorm Hprim
               (fallback_skipped norm res Hany)) in Hparse.
    injection Hparse as <-. rewrite lookup_fmap in Hl.
    destruct (res !! wd) as [items0|] eqn:H0; [|discriminate].
    injection Hl as <-. apply lowered_lower_id, (Hres wd items0 it H0).
    eapply elem_of_sublist; [exact Hit | apply DedupFacts.dedup_loop_sublist]. }
  intros t Ht. apply lower_id_lowered in Ht. destruct (soup_fix_id t Ht) as [H1 H2].
  split; [apply allergen_strip_id, Ht|]. split; [exact H1|]. split; [exact H2|].
  apply camel_fix_id, Ht.
Qed.

(** The claim as it is written fails: a letter that is uppercase and
    has no lowercase, such as the double-struck capital C, passes
    [str.lower] unchanged and reaches a title. *)
Lemma uppercase_letter_in_title :
  ¬ (∀ (norm : list str) (res : WeekMenu) (wd : str) (items : list MenuItem)
       (it : MenuItem),
       primary norm = inr res → res !! wd = Some items → it ∈ items →
       Forall (λ c, isupper c = false) (title it)).
Proof.
  intros H.
  specialize (H [py "Montag ℂ CHF 4.50"; py "Dienstag Suppe CHF 5.00"]
                (<[py "montag" := [{| title := py "montag ℂ";
                                      price_chf := Some (py "4.50") |}]]>
                   (<[py "dienstag" := [{| title := py "dienstag suppe";
                                           price_chf := Some (py "5.00") |}]]>
                      empty_results))
                (py "montag")
                [{| title := py "montag ℂ"; price_chf := Some (py "4.50") |}]
                {| title := py "montag ℂ"; price_chf := Some (py "4.50") |}).
  assert (Hc : Forall (λ c, isupper c = false) (py "montag ℂ")).
  { apply H; [vm_compute; reflexivity | vm_compute; reflexivity | left]. }
  rewrite Forall_forall in Hc. specialize (Hc 8450).
  assert (Hin : 8450 ∈ py "montag ℂ")
    by (apply (bool_decide_unpack _); vm_compute; exact I).
  specialize (Hc Hin). vm_compute in Hc. discriminate Hc.
Qed.

End CaseFacts.

(** ** Segments without a currency marker *)

Module CurrencyFacts.

Import Re ReFacts ReBounds ExtractFacts ItemFacts CaseFacts.

(** A character that the [C] of the currency code cannot match. *)
Definition no_c (c : char) : Prop := lit_test true 67 c = false.

(** Without such a letter in the text the price pattern has no match. *)
Lemma no_currency_no_match (text : str) :
  Forall no_c text → finditer PRICE text = [].
Proof.
  intros H. apply finditer_none. intros j ok. unfold match_at.
  change (code PRICE) with (Cat (Group 1 (Rep false 1 None Any)) PRICE_TAIL).
  change (ignorecase PRICE) with true.
  rewrite go_Cat, go_fails; [reflexivity|].
  intros j1 c1. unfold PRICE_TAIL. rewrite go_Cat. apply go_fails.
  intros j2 c2. rewrite go_Cat. cbn [go]. apply step_none. exact H.
Qed.

(** A segment none of whose lines contains the letter [c], in either
    case, yields the title-only items of its lines. *)
Lemma no_currency_line_items (lines : list str) :
  Forall (Forall no_c) lines →
  _extract_items_from_lines lines
  = inr (title_only <$> filter (λ t, nonempty t) (line_title <$> lines)).
Proof.
  intros H. destruct (clean_text_total lines) as [text Htext].
  apply (zero_matches_line_items lines text PRICE Htext compile_price).
  apply no_currency_no_match.
  apply (clean_text_chars no_c lines text); [reflexivity | exact H | exact Htext].
Qed.

End CurrencyFacts.

(** ** The theorems at sample menus *)

Module Samples.

Import Re LocateFacts SegmentFacts ParseFacts CaseFacts.

(** Two headed days. *)
Definition headed : list str :=
  [py "Montag"; py "Suppe CHF 4.50"; py "Dienstag"; py "Pasta CHF 9.00"].

(** Five days without headings, each opened by the soup line. *)
Definition unheaded : list str :=
  [py "Tagessuppe klein CHF 4.50"; py "Pasta CHF 9.00";
   py "Tagessuppe klein CHF 4.50"; py "Reis CHF 8.00";
   py "Tagessuppe klein CHF 4.50"; py "Wurst CHF 7.50";
   py "Tagessuppe klein CHF 4.50"; py "Salat CHF 6.00";
   py "Tagessuppe klein CHF 4.50"; py "Fisch CHF 11.00"].

Lemma primary_segments_exact_witness :
  locate (make_blob headed) = inr [(py "montag", 0%nat); (py "dienstag", 22%nat)]
  ∧ ∃ segs : gmap (list N) (list N),
      segments_by_pos [(py "montag", 0%nat); (py "dienstag", 22%nat)]
        (make_blob headed) = inr (Some segs)
      ∧ segs !! py "montag" = Some (Str.slice (make_blob headed) 0 22)
      ∧ segs !! py "freitag" = None.
Proof.
  assert (Hloc : locate (make_blob headed)
                 = inr [(py "montag", 0%nat); (py "dienstag", 22%nat)])
    by (vm_compute; reflexivity).
  split; [exact Hloc|].
  destruct (primary_segments_exact _ _ Hloc) as (segs & Hs & _ & _ & Hin & _ & Hout);
    [cbn; lia|].
  exists segs. split; [exact Hs|]. split.
  - destruct (Hin 0%nat (py "montag") 0%nat) as [H _]; [vm_compute; reflexivity|].
    rewrite H. vm_compute. reflexivity.
  - apply Hout. apply (bool_decide_unpack _). vm_compute. exact I.
Defined.

Lemma fallback_by_markers_witness :
  norm_lines unheaded = inr unheaded
  ∧ primary unheaded = inr empty_results
  ∧ ∃ menu : WeekMenu, parse_lines unheaded = inr menu
      ∧ ∃ items,
          _extract_items_from_lines
            (take (next_marker (marker_idx unheaded) unheaded 0 - 0) (drop 0 unheaded))
          = inr items
          ∧ menu !! py "montag" = Some (dedup items).
Proof.
  assert (H1 : norm_lines unheaded = inr unheaded) by (vm_compute; reflexivity).
  assert (H2 : primary unheaded = inr empty_results) by (vm_compute; reflexivity).
  split; [exact H1|]. split; [exact H2|].
  destruct (fallback_by_markers unheaded unheaded empty_results H1 H2)
    as (_ & _ & _ & Hrun & _).
  destruct Hrun as (menu & Hp & Hb); [vm_compute; reflexivity | vm_compute; lia|].
  exists menu. split; [exact Hp|].
  apply (Hb 0%nat (py "montag") 0%nat); vm_compute; reflexivity.
Defined.

Lemma primary_titles_lowercase_witness :
  primary headed
  = inr (<[py "montag" := [{| title := py "montag suppe";
                              price_chf := Some (py "4.50") |}]]>
          (<[py "dienstag" := [{| title := py "dienstag pasta";
                                  price_chf := Some (py "9.00") |}]]>
             empty_results))
  ∧ ∀ wd items it,
      (<[py "montag" := [{| title := py "montag suppe";
                            price_chf := Some (py "4.50") |}]]>
        (<[py "dienstag" := [{| title := py "dienstag pasta";
                                price_chf := Some (py "9.00") |}]]>
           empty_results)) !! wd = Some items →
      it ∈ items → Str.lower (title it) = title it.
Proof.
  assert (H : primary headed
    = inr (<[py "montag" := [{| title := py "montag suppe";
                                price_chf := Some (py "4.50") |}]]>
            (<[py "dienstag" := [{| title := py "dienstag pasta";
                                    price_chf := Some (py "9.00") |}]]>
               empty_results))) by (vm_compute; reflexivity).
  split; [exact H|]. intros wd items it Hl Hit.
  apply (proj1 (primary_titles_lowercase headed _ H) wd items it Hl Hit).
Defined.

End Samples.

(** ** Line normalisation *)

Module NormalFacts.

Import Re ReFacts StrFacts WhitespaceFacts SquashFacts.

(** The words [s.split()] returns: not empty and free of whitespace. *)
Definition word (w : str) : Prop := w ≠ [] ∧ no_space w.

Lemma split_go_words (w s : str) :
  no_space w → Forall word (Str.split_go w s).
Proof.
  revert w. induction s as [|c r IH]; intros w Hw; simpl.
  - destruct w; constructor; [split; [discriminate | exact Hw] | constructor].
  - destruct (isspace c) eqn:Hc.
    + destruct w.
      * apply IH. constructor.
      * constructor; [split; [discriminate | exact Hw] | apply IH; constructor].
    + apply IH. apply Forall_app. split; [exact Hw|].
      constructor; [exact Hc | constructor].
Qed.

Lemma split_words (s : str) : Forall word (Str.split s).
Proof. apply split_go_words. constructor. Qed.

Lemma split_go_app (w p r : str) :
  no_space p → Str.split_go w (p ++ r) = Str.split_go (w ++ p) r.
Proof.
  intros Hp. revert w. induction Hp as [|c p Hc _ IH]; intros w.
  - rewrite app_nil_r. reflexivity.
  - cbn [app Str.split_go]. rewrite Hc, IH, <- app_assoc. reflexivity.
Qed.

(** Splitting the words joined by single blanks gives the words back. *)
Lemma split_join (ws : list str) :
  Forall word ws → Str.split (Str.join [32] ws) = ws.
Proof.
  unfold Str.split. induction 1 as [|w ws [Hne Hw] Hws IH]; [reflexivity|].
  destruct ws as [|w' ws].
  - cbn [Str.join]. rewrite <- (app_nil_r w) at 1.
    rewrite split_go_app by exact Hw. cbn. destruct w; [contradiction | reflexivity].
  - change (Str.join [32] (w :: w' :: ws)) with (w ++ 32 :: Str.join [32] (w' :: ws)).
    rewrite split_go_app by exact Hw. cbn [app Str.split_go].
    change (isspace 32) with true. cbv iota. rewrite IH.
    destruct w; [contradiction | reflexivity].
Qed.

Lemma join_head (w : str) (ws : list str) (c : char) (r : str) :
  w = c :: r → ∃ r', Str.join [32] (w :: ws) = c :: r'.
Proof.
  intros ->. destruct ws; cbn [Str.join]; eexists; reflexivity.
Qed.

(** The joined words begin and end with a character that is not
    whitespace. *)
Lemma join_first (ws : list str) (c : char) (r : str) :
  Forall word ws → Str.join [32] ws = c :: r → isspace c = false.
Proof.
  intros H. destruct H as [|w ws [Hne Hw] _]; [discriminate|].
  destruct w as [|c' w]; [contradiction|].
  destruct (join_head (c' :: w) ws c' w eq_refl) as [r' ->].
  intros [= <- _]. apply Forall_cons in Hw as [Hc _]. exact Hc.
Qed.

Lemma word_last (w : str) : word w → ∃ l c, w = l ++ [c] ∧ isspace c = false.
Proof.
  intros [Hne Hw]. destruct w as [|a w] using rev_ind; [contradiction|].
  exists w, a. split; [reflexivity|].
  apply Forall_app in Hw as [_ Ha]. apply Forall_cons in Ha as [Ha _]. exact Ha.
Qed.

Lemma join_last (ws : list str) :
  Forall word ws → ws ≠ [] → ∃ l c, Str.join [32] ws = l ++ [c] ∧ isspace c = false.
Proof.
  induction 1 as [|w ws Hw Hws IH]; intros Hne; [contradiction|].
  destruct ws as [|w' ws]; [apply word_last, Hw|].
  destruct IH as (l & c & E & Hc); [discriminate|].
  exists (w ++ 32 :: l), c. split; [|exact Hc].
  change (Str.join [32] (w :: w' :: ws)) with (w ++ 32 :: Str.join [32] (w' :: ws)).
  rewrite E, <- app_assoc. reflexivity.
Qed.

Lemma lstrip_by_first p (c : char) (r : str) :
  p c = false → Str.lstrip_by p (c :: r) = c :: r.
Proof. intros H. cbn. rewrite H. reflexivity. Qed.

Lemma rstrip_by_last p (l : str) (c : char) :
  p c = false → Str.rstrip_by p (l ++ [c]) = l ++ [c].
Proof.
  intros H. unfold Str.rstrip_by. rewrite reverse_snoc, lstrip_by_first by exact H.
  rewrite reverse_cons, reverse_involutive. reflexivity.
Qed.

Lemma strip_join (ws : list str) :
  Forall word ws → Str.strip (Str.join [32] ws) = Str.join [32] ws.
Proof.
  intros H. destruct ws as [|w ws]; [reflexivity|].
  destruct (join_last (w :: ws) H) as (l & c & E & Hc); [discriminate|].
  unfold Str.strip, Str.strip_by.
  destruct (Str.join [32] (w :: ws)) as [|a r] eqn:Ej; [reflexivity|].
  rewrite lstrip_by_first by (eapply join_first; eassumption).
  rewrite E. apply rstrip_by_last, Hc.
Qed.

Lemma collapse_go_app (w r : str) :
  no_space w → collapse_go false (w ++ r) = w ++ collapse_go false r.
Proof.
  induction 1 as [|c w Hc _ IH]; [reflexivity|].
  cbn [app collapse_go]. rewrite Hc, IH. reflexivity.
Qed.

Lemma collapse_join (ws : list str) :
  Forall word ws → collapse_ws (Str.join [32] ws) = Str.join [32] ws.
Proof.
  unfold collapse_ws. induction 1 as [|w ws [Hne Hw] Hws IH]; [reflexivity|].
  destruct ws as [|w' ws].
  - cbn [Str.join]. rewrite <- (app_nil_r w) at 1.
    rewrite collapse_go_app by exact Hw. cbn. apply app_nil_r.
  - change (Str.join [32] (w :: w' :: ws)) with (w ++ 32 :: Str.join [32] (w' :: ws)).
    rewrite collapse_go_app by exact Hw. cbn [collapse_go].
    change (isspace 32) with true. cbv iota.
    rewrite collapse_go_run.
    destruct (Str.join [32] (w' :: ws)) as [|a r] eqn:Ej; [reflexivity|].
    rewrite lstrip_by_first by (eapply join_first; eassumption).
    rewrite IH. reflexivity.
Qed.

(** The filter of step 2 on a normalised line. *)
Definition kept (t : str) : bool :=
  nonempty t
  && negb (Str.startswith (py "menüplan") (Str.lower t)
           || Str.contains (py "kw") (Str.lower t)).

Lemma norm_line_eq (ln : str) :
  norm_line ln = inr (if kept (join_split ln) then Some (join_split ln) else None).
Proof.
  unfold norm_line. rewrite squash_eq. rsimpl.
  rewrite re_sub_ws_collapse. rsimpl. fold (join_split ln).
  unfold join_split. change (py " ") with [32].
  rewrite collapse_join, strip_join by apply split_words.
  unfold kept. destruct (nonempty _); [|reflexivity].
  destruct (_ || _); reflexivity.
Qed.

Lemma join_split_idem (s : str) : join_split (join_split s) = join_split s.
Proof.
  unfold join_split. change (py " ") with [32].
  rewrite split_join by apply split_words. reflexivity.
Qed.

Lemma omap_Some {A} (l : list A) : omap id (Some <$> l) = l.
Proof. induction l as [|x l IH]; [reflexivity|]. cbn. f_equal. exact IH. Qed.

Lemma norm_lines_eq (lines : list str) :
  norm_lines lines = inr (filter (λ t, kept t) (join_split <$> lines)).
Proof.
  unfold norm_lines.
  rewrite (ParseFacts.mapM_fmap _
             (λ ln, if kept (join_split ln) then Some (join_split ln) else None))
    by (intros ln _; apply norm_line_eq).
  rsimpl. f_equal. induction lines as [|ln lines IH]; [reflexivity|].
  rewrite !fmap_cons, filter_cons. cbn [omap list_omap]. rewrite IH.
  destruct (kept (join_split ln)).
  - rewrite decide_True by exact I. reflexivity.
  - rewrite decide_False by exact id. reflexivity.
Qed.

(** A normalised line is its own normal form. *)
Lemma norm_line_fixed (lines : list str) (t : str) :
  t ∈ filter (λ t, kept t) (join_split <$> lines) → norm_line t = inr (Some t).
Proof.
  intros H. apply list_elem_of_filter in H as [Hk H].
  apply list_elem_of_fmap in H as (ln & -> & _).
  rewrite norm_line_eq, join_split_idem.
  destruct (kept (join_split ln)); [reflexivity | destruct Hk].
Qed.

Lemma norm_lines_idem (lines norm : list str) :
  norm_lines lines = inr norm → norm_lines norm = inr norm.
Proof.
  rewrite norm_lines_eq. intros [= <-]. unfold norm_lines.
  rewrite (ParseFacts.mapM_fmap _ Some) by apply norm_line_fixed.
  rsimpl. rewrite omap_Some. reflexivity.
Qed.

(** X1: [_squash_spaced_letters] never raises and is idempotent.  Its
    result has the words of its input and no whitespace at either end,
    and the whitespace collapse that follows it in [parse_week_pdf],
    [re.sub(r"\s+", " ", ln).strip()], finds nothing left to do. *)
Theorem squash_normal_form (s : str) :
  ∃ t, _squash_spaced_letters s = inr t
    ∧ _squash_spaced_letters t = inr t
    ∧ Str.split t = Str.split s
    ∧ Str.strip t = t
    ∧ re_sub (py "\s+") (py " ") t false = inr t.
Proof.
  exists (join_split s). split; [apply squash_eq|].
  split; [rewrite squash_eq; f_equal; apply join_split_idem|].
  unfold join_split. change (py " ") with [32].
  split; [apply split_join, split_words|].
  split; [apply strip_join, split_words|].
  change [32] with (py " "). rewrite re_sub_ws_collapse. f_equal.
  change (py " ") with [32]. apply collapse_join, split_words.
Qed.

(** X2: step 2 of [parse_week_pdf] never raises.  It replaces every
    line by its words joined with single blanks and keeps, in order, the
    lines that are then not empty and whose lowercase ([str.lower])
    neither starts with "menüplan" nor contains "kw"; a line "KW 45"
    written with the Kelvin sign for its K is dropped like any other.
    Normalising the result again returns it unchanged, and parsing the
    normalised lines gives the menu of the original lines. *)
Theorem norm_lines_fixed_point (lines : list str) :
  (∃ norm, norm_lines lines = inr norm
     ∧ norm = filter (λ t, nonempty t
                           && negb (Str.startswith (py "menüplan") (Str.lower t)
                                    || Str.contains (py "kw") (Str.lower t)))
                     ((λ ln, Str.join (py " ") (Str.split ln)) <$> lines)
     ∧ norm_lines norm = inr norm
     ∧ parse_lines norm = parse_lines lines)
  ∧ norm_lines [8490 :: py "W 45"; py "  Suppe   klein "; py "MENÜPLAN"]
    = inr [py "Suppe klein"].
Proof.
  split; [|vm_compute; reflexivity].
  exists (filter (λ t, kept t) (join_split <$> lines)).
  pose proof (norm_lines_eq lines) as H.
  pose proof (norm_lines_idem lines _ H) as H'.
  split; [exact H|]. split; [reflexivity|]. split; [exact H'|].
  unfold parse_lines. rewrite H, H'. reflexivity.
Qed.

End NormalFacts.

(** ** The items the extractor returns *)

Module PriceFacts.

Import Re ReFacts LocateFacts ExtractFacts CaseFacts.

(** The form of a stored price: one or two decimal digits, a dot, two
    decimal digits. *)
Definition is_price (t : str) : bool :=
  match t with
  | [a; p; c; d] => isdecimal a && (p =? 46) && isdecimal c && isdecimal d
  | [a; b; p; c; d] => isdecimal a && isdecimal b && (p =? 46) && isdecimal c && isdecimal d
  | _ => false
  end.

(** A run of [n] characters from offset [i] that pass the test [t]. *)
Definition run (s : str) (t : char → bool) (i n : nat) : Prop :=
  ∀ z, (i ≤ z < i + n)%nat → ∃ x, s !! z = Some x ∧ t x = true.

Lemma run_nil s t i : run s t i 0.
Proof. intros z Hz. lia. Qed.

Lemma run_cons s t i n x :
  s !! i = Some x → t x = true → run s t (S i) n → run s t i (S n).
Proof.
  intros Hx Ht Hr z Hz. destruct (decide (z = i)) as [->|Hne]; [eauto|].
  apply Hr. lia.
Qed.

Lemma step_inv s t i c (k : K) res :
  step s t i c k = Some res →
  ∃ x, s !! i = Some x ∧ t x = true ∧ k (S i) c = Some res.
Proof.
  unfold step. destruct (s !! i) as [x|]; [|discriminate].
  destruct (t x) eqn:Ht; [|discriminate]. eauto.
Qed.

(** The mandatory and the optional iterations of a quantified character
    test pass over a run and keep the group spans. *)
Lemma must_step_run s t n i c (k : K) res :
  must (step s t) n i c k = Some res →
  run s t i n ∧ k (i + n)%nat c = Some res.
Proof.
  revert i. induction n as [|n IH]; intros i; cbn [must].
  - rewrite Nat.add_0_r. intros H. split; [apply run_nil | exact H].
  - intros H. apply step_inv in H as (x & Hx & Ht & H).
    apply IH in H as [Hr H]. split; [eapply run_cons; eassumption|].
    replace (i + S n)%nat with (S i + n)%nat by lia. exact H.
Qed.

Lemma more_step_run s t greedy left fuel i c (k : K) res :
  more greedy left fuel (step s t) i c k = Some res →
  ∃ n, (∀ h, left = Some h → (n ≤ h)%nat) ∧ run s t i n
       ∧ k (i + n)%nat c = Some res.
Proof.
  revert left i. induction fuel as [|f IH]; intros left i; cbn [more].
  - intros H. exists 0%nat. rewrite Nat.add_0_r.
    split; [intros; lia|]. split; [apply run_nil | exact H].
  - assert (Hstop : k i c = Some res →
      ∃ n, (∀ h, left = Some h → (n ≤ h)%nat) ∧ run s t i n
           ∧ k (i + n)%nat c = Some res).
    { intros H. exists 0%nat. rewrite Nat.add_0_r.
      split; [intros; lia|]. split; [apply run_nil | exact H]. }
    assert (Hagain : ∀ left', left' = Nat.pred <$> left → may_repeat left = true →
      step s t i c
        (λ j c', if (i <? j)%nat
                 then more greedy left' f (step s t) j c' k
                 else None) = Some res →
      ∃ n, (∀ h, left = Some h → (n ≤ h)%nat) ∧ run s t i n
           ∧ k (i + n)%nat c = Some res).
    { intros left' -> Hrep H. apply step_inv in H as (x & Hx & Ht & H).
      destruct (i <? S i)%nat; [|discriminate].
      apply IH in H as (n & Hn & Hr & H). exists (S n).
      split; [|split; [eapply run_cons; eassumption|]].
      - intros h ->. destruct h as [|h]; [discriminate|].
        specialize (Hn h eq_refl). lia.
      - replace (i + S n)%nat with (S i + n)%nat by lia. exact H. }
    destruct greedy.
    + destruct (may_repeat left) eqn:Hrep; [|exact Hstop].
      match goal with
      | |- context [step s t i c ?k'] => destruct (step s t i c k') as [m|] eqn:Hm
      end; [|exact Hstop].
      intros [= <-]. eapply Hagain; [reflexivity | reflexivity | exact Hm].
    + destruct (k i c) as [m|] eqn:Hm.
      * intros [= <-]. apply Hstop. reflexivity.
      * destruct (may_repeat left) eqn:Hrep; [|discriminate].
        apply Hagain; reflexivity.
Qed.

(** The text of the price group. *)
Definition PRICE_GROUP : regex :=
  Cat (Rep true 1 (Some 2%nat) (In [CDigit]))
    (Cat (In [CChar 46; CChar 44]) (Rep true 2 (Some 2%nat) (In [CDigit]))).

(** What the price group matches: one or two digits, a dot or a comma,
    two digits. *)
Definition is_amount (t : str) : bool :=
  match t with
  | [a; p; c; d] => isdecimal a && ((p =? 46) || (p =? 44)) && isdecimal c && isdecimal d
  | [a; b; p; c; d] =>
    isdecimal a && isdecimal b && ((p =? 46) || (p =? 44)) && isdecimal c && isdecimal d
  | _ => false
  end.

Lemma digit_class (x : char) : in_test true [CDigit] x = true → isdecimal x = true.
Proof.
  unfold in_test. cbn [existsb citem_cased citem_fold_test orb].
  rewrite orb_false_r. auto.
Qed.

Lemma separator_class (x : char) :
  in_test true [CChar 46; CChar 44] x = true → (x =? 46) || (x =? 44) = true.
Proof.
  unfold in_test. change (existsb citem_cased [CChar 46; CChar 44]) with false.
  cbn [existsb citem_fold_test]. change (folded 46) with [46].
  change (folded 44) with [44]. unfold Str.mem_char. cbn [existsb].
  rewrite !orb_false_r. auto.
Qed.

Lemma run_lookup s t i n z :
  run s t i n → (i ≤ z < i + n)%nat → ∃ x, s !! z = Some x ∧ t x = true.
Proof. intros H. apply H. Qed.

Lemma slice_lookups (s : str) (i : nat) (l : str) :
  (∀ k x, l !! k = Some x → s !! (i + k)%nat = Some x) →
  Str.slice s i (i + length l) = l.
Proof.
  unfold Str.slice. replace (i + length l - i)%nat with (length l) by lia.
  revert i. induction l as [|a l IH]; intros i H; [apply take_0|].
  assert (Ha : s !! i = Some a) by (rewrite <- (Nat.add_0_r i); apply H; reflexivity).
  rewrite (drop_S _ _ _ Ha). cbn [length take]. f_equal. apply IH.
  intros k x Hk. replace (S i + k)%nat with (i + S k)%nat by lia. apply H. exact Hk.
Qed.

Lemma price_group_amount s i c (k : K) res :
  go true s PRICE_GROUP i c k = Some res →
  ∃ j, k j c = Some res ∧ is_amount (Str.slice s i j) = true.
Proof.
  unfold PRICE_GROUP. rewrite go_Cat. cbn [go]. intros H.
  apply must_step_run in H as [H1 H]. cbn [fmap option_fmap option_map] in H.
  apply more_step_run in H as (n & Hn & H2 & H).
  specialize (Hn 1%nat eq_refl).
  apply step_inv in H as (p & Hp & Hsep & H).
  apply must_step_run in H as [H3 H]. cbn [fmap option_fmap option_map] in H.
  apply more_step_run in H as (n' & Hn' & _ & H).
  specialize (Hn' 0%nat eq_refl). assert (n' = 0%nat) as -> by lia.
  eexists. split; [exact H|].
  destruct (H1 i) as (a & Ha & Hta); [lia|].
  destruct (H3 (S (i + 1 + n))) as (d1 & Hd1 & Htd1); [lia|].
  destruct (H3 (S (S (i + 1 + n)))) as (d2 & Hd2 & Htd2); [lia|].
  apply digit_class in Hta, Htd1, Htd2. apply separator_class in Hsep.
  destruct n as [|[|n]]; [| |lia].
  - replace (S (i + 1 + 0) + 2 + 0)%nat with (i + length [a; p; d1; d2])%nat
      by (cbn [length]; lia).
    rewrite slice_lookups.
    + cbn [is_amount]. rewrite Hta, Hsep, Htd1, Htd2. reflexivity.
    + intros [|[|[|[|z]]]] x; cbn; intros [= <-].
      * rewrite Nat.add_0_r. exact Ha.
      * rewrite <- Hp. f_equal. lia.
      * rewrite <- Hd1. f_equal. lia.
      * rewrite <- Hd2. f_equal. lia.
  - destruct (H2 (i + 1)%nat) as (b & Hb & Htb); [lia|]. apply digit_class in Htb.
    replace (S (i + 1 + 1) + 2 + 0)%nat with (i + length [a; b; p; d1; d2])%nat
      by (cbn [length]; lia).
    rewrite slice_lookups.
    + cbn [is_amount]. rewrite Hta, Htb, Hsep, Htd1, Htd2. reflexivity.
    + intros [|[|[|[|[|z]]]]] x; cbn; intros [= <-].
      * rewrite Nat.add_0_r. exact Ha.
      * exact Hb.
      * rewrite <- Hp. f_equal. lia.
      * rewrite <- Hd1. f_equal. lia.
      * rewrite <- Hd2. f_equal. lia.
Qed.

(** *** The price group in a match of the price pattern *)

Fixpoint groupless (r : regex) : bool :=
  match r with
  | Group _ _ => false
  | Cat r1 r2 | Alt r1 r2 => groupless r1 && groupless r2
  | Rep _ _ _ r1 | Ahead r1 => groupless r1
  | _ => true
  end.

(** A pattern without groups hands the spans it was given to its
    continuation. *)
Lemma go_groupless ic (s : str) (c0 : caps) (r : regex) :
  groupless r = true → respects (λ c, c = c0) (go ic s r).
Proof.
  induction r as
    [ | a | | items | r1 IH1 r2 IH2 | r1 IH1 r2 IH2 | greedy lo hi r1 IH1
    | n r1 IH1 | r1 IH1 | | ]; cbn [groupless]; intros Hg Ψ i c k res Hc Hk;
    try (apply andb_true_iff in Hg as [Hg1 Hg2]); cbn [go].
  - apply Hk, Hc.
  - apply (step_respects s _ _ Ψ i c k res Hc Hk).
  - apply (step_respects s _ _ Ψ i c k res Hc Hk).
  - apply (step_respects s _ _ Ψ i c k res Hc Hk).
  - apply (IH1 Hg1); [exact Hc|]. intros j c' res' Hc'. apply (IH2 Hg2); assumption.
  - destruct (go ic s r1 i c k) as [m|] eqn:Hm.
    + intros [= <-]. revert Hm. apply (IH1 Hg1); assumption.
    + apply (IH2 Hg2); assumption.
  - apply (must_respects _ _ lo (IH1 Hg)); [exact Hc|].
    intros j c' res' Hc'.
    apply (more_respects _ _ _ _ _ (IH1 Hg) Ψ j c' k res' Hc' Hk).
  - discriminate.
  - destruct (go ic s r1 i c (λ j c', Some (j, c'))) as [[j c']|] eqn:Hm;
      [|discriminate].
    apply Hk. revert Hm. apply (IH1 Hg (λ res, res.2 = c0)); [exact Hc|].
    intros j' c'' res' Hc'' [= <-]. exact Hc''.
  - destruct (at_boundary s i); [|discriminate]. apply Hk, Hc.
  - destruct (at_end s i); [|discriminate]. apply Hk, Hc.
Qed.

(** The price group of a match spans an amount. *)
Definition amount_group (m : Match) : Prop :=
  ∃ a b, cap_get 2 (m_caps m) = Some (a, b)
         ∧ is_amount (Str.slice (m_string m) a b) = true.

Lemma price_match_amount (s : str) (j : nat) ok (m : Match) :
  match_at PRICE s j ok = Some m → amount_group m.
Proof.
  unfold match_at, amount_group.
  destruct (go _ _ _ _ _ _) as [[e c]|] eqn:Hgo; [|discriminate].
  intros [= <-]. cbn [m_caps m_string]. revert Hgo.
  change (code PRICE) with (Cat (Group 1 (Rep false 1 None Any)) PRICE_TAIL).
  change (ignorecase PRICE) with true.
  set (Ψ := λ res : nat * caps,
         ∃ a b, cap_get 2 res.2 = Some (a, b) ∧ is_amount (Str.slice s a b) = true).
  change (∃ a b, cap_get 2 c = Some (a, b) ∧ is_amount (Str.slice s a b) = true)
    with (Ψ (e, c)).
  generalize (e, c). intros res.
  set (T := λ _ : caps, True).
  assert (HT : stable T) by (intros ? ? ? ?; exact I).
  rewrite go_Cat, go_Group.
  follow (go_respects true s T _ HT) Ψ I. clear res. intros j1 c1 res _.
  generalize ((1%nat, (j, j1)) :: c1). clear c1. intros c1. unfold PRICE_TAIL.
  rewrite go_Cat.
  follow (go_respects true s T _ HT) Ψ I. clear res. intros j2 c2 res _.
  rewrite go_Cat.
  follow (go_respects true s T _ HT) Ψ I. clear res. intros j3 c3 res _.
  rewrite go_Cat.
  follow (go_respects true s T _ HT) Ψ I. clear res. intros j4 c4 res _.
  rewrite go_Cat.
  follow (go_respects true s T _ HT) Ψ I. clear res. intros j5 c5 res _.
  rewrite go_Cat.
  follow (go_respects true s T _ HT) Ψ I. clear res. intros j6 c6 res _.
  rewrite go_Cat, go_Group. fold PRICE_GROUP. intros H.
  apply price_group_amount in H as (j7 & H & Ham). revert H.
  match goal with
  | |- go _ _ ?r ?i ?c ?k = Some _ → _ =>
    refine (go_groupless true s c r eq_refl Ψ i c k res eq_refl _)
  end.
  clear res. intros j9 c9 res ->. destruct (ok j9); [|discriminate].
  intros [= <-]. exists j6, j7. split; [reflexivity | exact Ham].
Qed.

Lemma replace_char (a b : char) (t : str) :
  Str.replace [a] [b] t = map (λ c, if a =? c then b else c) t.
Proof.
  unfold Str.replace. induction t as [|c t IH]; [reflexivity|].
  cbn [Str.replace_go Str.startswith length Nat.pred map]. rewrite andb_true_r.
  destruct (a =? c); cbn [app]; rewrite IH; reflexivity.
Qed.

Lemma amount_price (t : str) :
  is_amount t = true → is_price (Str.replace (py ",") (py ".") t) = true.
Proof.
  change (py ",") with [44]. change (py ".") with [46]. rewrite replace_char.
  assert (Hd : ∀ c, isdecimal c = true → (if 44 =? c then 46 else c) = c).
  { intros c Hc. destruct (44 =? c) eqn:E; [|reflexivity].
    apply N.eqb_eq in E. subst c. discriminate. }
  assert (Hs : ∀ c, (c =? 46) || (c =? 44) = true → (if 44 =? c then 46 else c) = 46).
  { intros c Hc. destruct (44 =? c) eqn:E; [reflexivity|].
    apply orb_true_iff in Hc as [Hc|Hc]; apply N.eqb_eq in Hc; subst c;
      [reflexivity | discriminate]. }
  destruct t as [|a [|b [|c [|d [|e [|f t]]]]]]; try discriminate; cbn [is_amount map].
  - intros H. do 3 (apply andb_true_iff in H as [H ?]).
    rewrite (Hd a), (Hs b), (Hd c), (Hd d) by assumption. cbn [is_price].
    rewrite H, H1, H0. reflexivity.
  - intros H. do 4 (apply andb_true_iff in H as [H ?]).
    rewrite (Hd a), (Hd b), (Hs c), (Hd d), (Hd e) by assumption. cbn [is_price].
    rewrite H, H3, H1, H0. reflexivity.
Qed.

(** An item with a title. *)
Definition titled (it : MenuItem) : Prop := title it ≠ [].

(** An item with a price in the stored form, and an item without a
    price. *)
Definition priced (it : MenuItem) : Prop :=
  ∃ p, price_chf it = Some p ∧ is_price p = true.

Definition unpriced (it : MenuItem) : Prop := price_chf it = None.

Lemma nonempty_ne {A} (l : list A) : nonempty l = true → l ≠ [].
Proof. destruct l; [discriminate | intros _; discriminate]. Qed.

Lemma price_item_shape (m : Match) (it : MenuItem) :
  amount_group m → price_item PRICE m = inr (Some it) → titled it ∧ priced it.
Proof.
  intros (a & b & Hcap & Ham). unfold price_item.
  rewrite group_named_title, group_named_price.
  destruct (group m 1) as [t|]; [|discriminate].
  unfold group at 1. rewrite Hcap. rsimpl. cbn [fst snd].
  destruct (re_sub _ _ _ _) as [e|t1]; [discriminate|]. rsimpl.
  destruct (re_sub _ _ _ _) as [e|t2]; [discriminate|]. rsimpl.
  destruct (nonempty t2) eqn:Hne; [|discriminate]. intros [= <-].
  split; [apply nonempty_ne, Hne|].
  eexists. split; [reflexivity | apply amount_price, Ham].
Qed.

Lemma line_item_shape (ln : str) (it : MenuItem) :
  line_item ln = inr (Some it) → titled it ∧ unpriced it.
Proof.
  unfold line_item. destruct (re_sub _ _ _ _) as [e|t]; [discriminate|]. rsimpl.
  destruct (nonempty _) eqn:Hne; [|discriminate]. intros [= <-].
  split; [apply nonempty_ne, Hne | reflexivity].
Qed.

(** What holds of every list the extractor returns. *)
Definition item_list (items : list MenuItem) : Prop :=
  Forall titled items ∧ (Forall priced items ∨ Forall unpriced items).

Lemma extract_shape (lines : list str) (items : list MenuItem) :
  _extract_items_from_lines lines = inr items → item_list items.
Proof.
  unfold _extract_items_from_lines.
  destruct (clean_text lines) as [e|text]; [discriminate|]. rsimpl.
  rewrite compile_price. rsimpl.
  destruct (mapM (price_item PRICE) _) as [e|os] eqn:Hos; [discriminate|]. rsimpl.
  assert (H1 : Forall (λ it, titled it ∧ priced it) (omap id os)).
  { eapply mapM_omap_Forall; [exact Hos|]. intros m it Hm Hit.
    eapply price_item_shape; [|exact Hit].
    pose proof (finditer_origin amount_group PRICE text) as Hs.
    rewrite Forall_forall in Hs. apply Hs; [|exact Hm].
    intros j ok m'. apply price_match_amount. }
  destruct (nonempty (omap id os)).
  - intros [= <-]. apply Forall_and in H1 as [Ht Hp]. split; [exact Ht | left; exact Hp].
  - destruct (mapM line_item lines) as [e|os'] eqn:Hos'; [discriminate|]. rsimpl.
    intros [= <-].
    assert (H2 : Forall (λ it, titled it ∧ unpriced it) (omap id os')).
    { eapply mapM_omap_Forall; [exact Hos'|]. intros ln it _ Hit.
      eapply line_item_shape, Hit. }
    apply Forall_and in H2 as [Ht Hp]. split; [exact Ht | right; exact Hp].
Qed.

Lemma Forall_sublist {A} (P : A → Prop) (l l' : list A) :
  sublist l' l → Forall P l → Forall P l'.
Proof.
  intros Hs H. rewrite Forall_forall in *. intros x Hx.
  apply H. eapply elem_of_sublist; eassumption.
Qed.

Lemma item_list_sublist (l l' : list MenuItem) :
  sublist l' l → item_list l → item_list l'.
Proof.
  intros Hs [Ht Hp]. split; [eapply Forall_sublist; eassumption|].
  destruct Hp as [Hp|Hp]; [left | right]; eapply Forall_sublist; eassumption.
Qed.

(** X7: every list the extractor returns holds items with a title that
    is not empty; either each of its items has a price, of one or two
    decimal digits, a dot and two decimal digits (a comma of the text is
    stored as a dot, and the digits are those of any script, as [\d]
    matches them), or none of them has a price. *)
Theorem extracted_items_well_formed (lines : list str) :
  (∃ items, _extract_items_from_lines lines = inr items
     ∧ Forall (λ it, title it ≠ []) items
     ∧ (Forall (λ it, ∃ p, price_chf it = Some p ∧ is_price p = true) items
        ∨ Forall (λ it, price_chf it = None) items))
  ∧ _extract_items_from_lines [py "Suppe CHF 4,50 Reis CHF ٤,٥٠"]
    = inr [{| title := py "Suppe"; price_chf := Some (py "4.50") |};
           {| title := py "Reis"; price_chf := Some (py "٤.٥٠") |}].
Proof.
  split; [|vm_compute; reflexivity].
  destruct (extract_total lines) as [items H]. exists items.
  split; [exact H | apply (extract_shape lines items H)].
Qed.

End PriceFacts.

(** ** The collected text lines *)

Module CollectFacts.

Import NormalFacts.

Lemma lstrip_by_head p (s : str) :
  match Str.lstrip_by p s with
  | [] => True
  | c :: _ => p c = false
  end.
Proof.
  induction s as [|c s IH]; [exact I|]. cbn [Str.lstrip_by].
  destruct (p c) eqn:E; [exact IH | exact E].
Qed.

Lemma rstrip_by_snoc p (l : str) (c : char) :
  Str.rstrip_by p (l ++ [c]) = if p c then Str.rstrip_by p l else l ++ [c].
Proof.
  unfold Str.rstrip_by. rewrite reverse_snoc. cbn [Str.lstrip_by].
  destruct (p c); [reflexivity|]. rewrite reverse_cons, reverse_involutive. reflexivity.
Qed.

(** Stripping on the right leaves a prefix that is empty or ends with
    a character that stays. *)
Lemma rstrip_by_spec p (s : str) :
  (∃ t, s = Str.rstrip_by p s ++ t)
  ∧ (Str.rstrip_by p s = [] ∨ ∃ l c, Str.rstrip_by p s = l ++ [c] ∧ p c = false).
Proof.
  induction s as [|c s [[t Ht] IH]] using rev_ind.
  - split; [exists []; reflexivity | left; reflexivity].
  - rewrite rstrip_by_snoc. destruct (p c) eqn:E.
    + split; [|exact IH]. exists (t ++ [c]). rewrite app_assoc, <- Ht. reflexivity.
    + split; [exists []; rewrite app_nil_r; reflexivity|]. right. eauto.
Qed.

Lemma strip_by_idem p (s : str) :
  Str.strip_by p (Str.strip_by p s) = Str.strip_by p s.
Proof.
  unfold Str.strip_by at 2 3.
  pose proof (lstrip_by_head p s) as Hh.
  destruct (rstrip_by_spec p (Str.lstrip_by p s)) as [[t Ht] [E|(l & c & E & Hc)]].
  - rewrite E. reflexivity.
  - rewrite E in *. unfold Str.strip_by.
    assert (Hl : Str.lstrip_by p (l ++ [c]) = l ++ [c]).
    { rewrite Ht in Hh. destruct l as [|a l]; cbn [app] in *.
      - apply lstrip_by_first, Hh.
      - apply lstrip_by_first, Hh. }
    rewrite Hl. apply rstrip_by_last, Hc.
Qed.

Lemma strip_idem (s : str) : Str.strip (Str.strip s) = Str.strip s.
Proof. apply strip_by_idem. Qed.

(** A line as step 1 collects it. *)
Definition collected (ln : str) : Prop := ln ≠ [] ∧ Str.strip ln = ln.

Lemma row_lines_collected (row : Row) : Forall collected (row_lines row).
Proof.
  unfold row_lines. destruct row as [|c row]; [constructor|].
  destruct (nonempty _) eqn:E; constructor; [|constructor].
  split; [apply PriceFacts.nonempty_ne, E | apply strip_idem].
Qed.

Lemma page_lines_collected (page : Page) : Forall collected (page_lines page).
Proof.
  unfold page_lines. apply Forall_app. split.
  - apply Forall_forall. intros ln Hln.
    apply list_elem_of_In, in_flat_map in Hln as (tbl & _ & Hln).
    apply in_flat_map in Hln as (row & _ & Hln).
    pose proof (row_lines_collected row) as H. rewrite Forall_forall in H.
    apply H, list_elem_of_In, Hln.
  - apply Forall_forall. intros ln Hln.
    apply list_elem_of_filter in Hln as [Hne Hln].
    apply list_elem_of_In, in_map_iff in Hln as (raw & <- & _).
    split; [|apply strip_idem]. destruct (Str.strip raw); [destruct Hne | discriminate].
Qed.

(** X3: every line step 1 of [parse_week_pdf] collects, from a table
    row or from the free text of a page, is not empty and has no
    whitespace at either end; a page contributes the lines of its
    tables, then those of its text, and a page whose table extraction
    raised or returned nothing contributes the lines of its text. *)
Theorem text_lines_stripped (pdf : list Page) :
  Forall (λ ln, ln ≠ [] ∧ Str.strip ln = ln) (text_lines pdf)
  ∧ (∀ pdf', text_lines (pdf ++ pdf') = text_lines pdf ++ text_lines pdf')
  ∧ (∀ text, text_lines [{| extract_tables := None; extract_text := text |}]
             = filter (λ ln, nonempty ln)
                 (map Str.strip (Str.splitlines (default [] text)))).
Proof.
  split; [|split].
  - unfold text_lines. apply Forall_forall. intros ln Hln.
    apply list_elem_of_In, in_flat_map in Hln as (page & _ & Hln).
    pose proof (page_lines_collected page) as H. rewrite Forall_forall in H.
    apply H, list_elem_of_In, Hln.
  - intros pdf'. unfold text_lines. apply flat_map_app.
  - intros text. unfold text_lines, page_lines. cbn. apply app_nil_r.
Qed.

End CollectFacts.

(** ** The weekday locator finds the names *)

Module NameFacts.

Import Re ReFacts UnicodeFacts ReBounds LocateFacts.

(** A word of lowercase Basic Latin letters. *)
Definition letters (w : str) : Prop := Forall (λ c, in_range 97 122 c = true) w.

Lemma letter_self (c : char) : lit_test true c c = true.
Proof.
  unfold lit_test. cbn [andb]. destruct (unicode_iscased c); [|apply N.eqb_refl].
  unfold folded, Str.mem_char. cbn [existsb]. rewrite N.eqb_refl. reflexivity.
Qed.

Lemma letter_no_space (c : char) :
  in_range 97 122 c = true → in_test true [CSpace] c = false.
Proof.
  intros H. unfold in_test. cbn [existsb citem_cased citem_fold_test orb].
  rewrite orb_false_r. destruct (isspace c) eqn:E; [|reflexivity]. exfalso.
  char_arith.
Qed.

Lemma drop_cons_inv {A} (s : list A) (i : nat) (b : A) (r : list A) :
  drop i s = b :: r → s !! i = Some b ∧ drop (S i) s = r.
Proof.
  intros H. assert (Hb : s !! i = Some b).
  { rewrite <- (Nat.add_0_r i), <- lookup_drop, H. reflexivity. }
  split; [exact Hb|]. rewrite (drop_S _ _ _ Hb) in H. congruence.
Qed.

Lemma startswith_drop (a : char) (w s : str) (i : nat) :
  Str.startswith (a :: w) (drop i s) = true →
  s !! i = Some a ∧ Str.startswith w (drop (S i) s) = true.
Proof.
  destruct (drop i s) as [|b r] eqn:E; [discriminate|]. cbn [Str.startswith].
  intros H. apply andb_true_iff in H as [Hb Hw]. apply N.eqb_eq in Hb. subst b.
  apply drop_cons_inv in E as [E1 E2]. rewrite E2. split; assumption.
Qed.

(** On a name written without gaps the pattern with [\s*] between the
    letters runs through the name. *)
Lemma spaced_contiguous (s w : str) (i : nat) (c : caps) (k : K) :
  w ≠ [] → letters w → Str.startswith w (drop i s) = true →
  go true s (spaced w) i c k = k (i + length w)%nat c.
Proof.
  intros Hne Hw. revert i. induction Hw as [|a w Ha Hw IH]; intros i Hs; [contradiction|].
  apply startswith_drop in Hs as [Hi Hs].
  destruct w as [|b w].
  - cbn [spaced go length]. unfold step. rewrite Hi, letter_self.
    f_equal. lia.
  - change (spaced (a :: b :: w))
      with (Cat (Lit a) (Cat (Rep true 0 None (In [CSpace])) (spaced (b :: w)))).
    rewrite go_Cat. cbn [go]. unfold step at 1. rewrite Hi, letter_self.
    cbn [must fmap option_fmap option_map].
    pose proof (startswith_drop b w s (S i) Hs) as [Hb _].
    apply lookup_lt_Some in Hb as Hlt.
    destruct (length s - S i)%nat as [|f] eqn:Ef; [lia|].
    cbn [more may_repeat]. unfold step at 1. rewrite Hb.
    rewrite letter_no_space by (apply Forall_cons in Hw as [H _]; exact H).
    rewrite IH by (discriminate || exact Hs). f_equal. cbn [length]. lia.
Qed.

Lemma day_match_contiguous (blob wd : str) (j : nat) :
  wd ≠ [] → letters wd → Str.startswith wd (drop j blob) = true →
  is_Some (match_at (day_pattern wd) blob j (λ _, true)).
Proof.
  intros Hne Hw Hs. unfold match_at. cbn [ignorecase code day_pattern].
  rewrite spaced_contiguous by assumption. eexists. reflexivity.
Qed.

(** [search] misses no offset. *)
Lemma search_go_complete p (s : str) (n i : nat) :
  search_go p s n i false = None →
  ∀ j, (i ≤ j ≤ i + n)%nat → match_at p s j (λ _, true) = None.
Proof.
  revert i. induction n as [|n IH]; intros i; cbn [search_go];
    change (λ j : nat, negb (false && (j =? i)%nat)) with (λ _ : nat, true);
    destruct (match_at p s i (λ _, true)) as [m'|] eqn:Hm; try discriminate.
  - intros _ j Hj. replace j with i by lia. exact Hm.
  - intros H j Hj. destruct (decide (j = i)) as [->|Hne]; [exact Hm|].
    apply (IH (S i) H). lia.
Qed.

Lemma search_complete p (s : str) :
  search p s = None →
  ∀ j, (j ≤ length s)%nat → match_at p s j (λ _, true) = None.
Proof.
  unfold search, search_from. cbn [Nat.leb]. rewrite Nat.sub_0_r.
  intros H j Hj. apply (search_go_complete p s (length s) 0 H). lia.
Qed.

Lemma startswith_inside (w s : str) (j : nat) :
  w ≠ [] → Str.startswith w (drop j s) = true → (j < length s)%nat.
Proof.
  intros Hne. destruct w as [|a w]; [contradiction|]. intros H.
  apply startswith_drop in H as [H _]. apply lookup_lt_Some in H. exact H.
Qed.

Lemma contains_startswith (w s : str) :
  Str.contains w s = true → ∃ j, Str.startswith w (drop j s) = true.
Proof.
  induction s as [|c s IH]; cbn [Str.contains]; intros H;
    apply orb_true_iff in H as [H|H].
  - exists 0%nat. exact H.
  - discriminate.
  - exists 0%nat. exact H.
  - destruct (IH H) as [j Hj]. exists (S j). exact Hj.
Qed.

Lemma weekday_letters (wd : str) : wd ∈ WEEKDAY_ORDER → wd ≠ [] ∧ letters wd.
Proof.
  unfold WEEKDAY_ORDER. intros H.
  repeat (apply elem_of_cons in H as [-> | H];
          [split; [discriminate | repeat constructor]|]).
  inversion H.
Qed.

Lemma hit_of_first (blob wd : str) (h : Hit) (j : nat) :
  wd ∈ WEEKDAY_ORDER → hit_of blob wd = Some h →
  Str.startswith wd (drop j blob) = true → (h.2 ≤ j)%nat.
Proof.
  intros Hwd. unfold hit_of.
  destruct (search (day_pattern wd) blob) as [m|] eqn:Hm; [|discriminate].
  intros [= <-] Hs. cbn [snd].
  destruct (le_lt_dec (m_start m) j) as [H|H]; [exact H|]. exfalso.
  destruct (weekday_letters wd Hwd) as [Hne Hl].
  destruct (day_match_contiguous blob wd j Hne Hl Hs) as [m' Hm'].
  rewrite (search_leftmost _ _ _ Hm j H) in Hm'. discriminate.
Qed.

Lemma hit_of_found (blob wd : str) (j : nat) :
  wd ∈ WEEKDAY_ORDER → Str.startswith wd (drop j blob) = true →
  is_Some (hit_of blob wd).
Proof.
  intros Hwd Hs. unfold hit_of.
  destruct (search (day_pattern wd) blob) as [m|] eqn:Hm; [eexists; reflexivity|].
  exfalso. destruct (weekday_letters wd Hwd) as [Hne Hl].
  destruct (day_match_contiguous blob wd j Hne Hl Hs) as [m' Hm'].
  rewrite (search_complete _ _ Hm j) in Hm'; [discriminate|].
  apply Nat.lt_le_incl. eapply startswith_inside; eassumption.
Qed.

(** X4: the locator never raises, and it finds every weekday whose
    name occurs in the blob as a run of letters, also inside a longer
    word (the patterns are used without their word boundaries).  The
    offset it records for a weekday is not behind any such occurrence
    of the name, and lies inside the blob. *)
Theorem locate_finds_names (blob : str) :
  ∃ hits, locate blob = inr hits
    ∧ (∀ wd, wd ∈ WEEKDAY_ORDER → Str.contains wd blob = true → wd ∈ hits.*1)
    ∧ (∀ wd o j, (wd, o) ∈ hits →
         Str.startswith wd (drop j blob) = true → (o ≤ j)%nat)
    ∧ (∀ wd o, (wd, o) ∈ hits → wd ∈ WEEKDAY_ORDER ∧ (o < length blob)%nat).
Proof.
  exists (omap (hit_of blob) WEEKDAY_ORDER). split; [apply locate_eq|].
  assert (Hin : ∀ wd o, (wd, o) ∈ omap (hit_of blob) WEEKDAY_ORDER →
                  wd ∈ WEEKDAY_ORDER ∧ hit_of blob wd = Some (wd, o)).
  { intros wd o H. apply list_elem_of_omap in H as (wd' & Hwd' & Hh).
    pose proof (hit_of_fst _ _ _ Hh) as E. cbn in E. subst wd'. split; assumption. }
  split; [|split].
  - intros wd Hwd Hc. apply contains_startswith in Hc as [j Hj].
    destruct (hit_of_found blob wd j Hwd Hj) as [h Hh].
    apply list_elem_of_fmap. exists h. split; [symmetry; eapply hit_of_fst, Hh|].
    apply list_elem_of_omap. exists wd. split; assumption.
  - intros wd o j H Hs. destruct (Hin wd o H) as [Hwd Hh].
    apply (hit_of_first blob wd (wd, o) j Hwd Hh Hs).
  - intros wd o H. destruct (Hin wd o H) as [Hwd Hh]. split; [exact Hwd|].
    revert Hh. unfold hit_of.
    destruct (search (day_pattern wd) blob) as [m|] eqn:Hm; [|discriminate].
    intros [= <-]. destruct (weekday_heads wd Hwd) as (a & b & w & -> & _).
    assert (Hh : hit_of blob (a :: b :: w) = Some (a :: b :: w, m_start m))
      by (unfold hit_of; rewrite Hm; reflexivity).
    apply hit_head in Hh as (x & _ & _ & Hx & _). cbn [snd] in Hx.
    apply lookup_lt_Some in Hx. exact Hx.
Qed.

End NameFacts.

(** ** Where the items of the parsed week come from *)

Module OriginFacts.

Import Re ReFacts StrFacts ExtractFacts LocateFacts SegmentFacts DedupFacts ParseFacts
  CaseFacts PriceFacts.

(** A list that attempt A fills is extracted from the segment of a
    located weekday. *)
Lemma primary_origin (norm : list str) (hits : list Hit) (res : WeekMenu)
    (wd : str) (items : list MenuItem) :
  locate (make_blob norm) = inr hits → primary norm = inr res →
  res !! wd = Some items →
  items = []
  ∨ ((2 ≤ length hits)%nat ∧ wd ∈ hits.*1
     ∧ ∃ lines, _extract_items_from_lines lines = inr items).
Proof.
  intros Hloc. unfold primary. rewrite Hloc. rsimpl.
  destruct (locate_weekdays _ _ Hloc) as [_ Hnd].
  destruct (segments_by_pos_total (make_blob norm) hits Hnd) as (o & Ho & Hnone & Hin).
  rewrite Ho. rsimpl. destruct o as [segs|].
  - destruct (truthy_dict (Some segs)).
    + destruct (fill_from_segments_spec segs WEEKDAY_ORDER empty_results)
        as (r & Hr & _ & Hprov).
      { intros wd' Hwd'. rewrite empty_results_dom. apply weekdays_elem, Hwd'. }
      rewrite Hr. intros [= <-] Hl.
      destruct (Hprov wd items Hl) as [Hold | (seg & lines & Hs & Hlines & Hitems)].
      * left. apply (empty_results_values wd items Hold).
      * right. split.
        { destruct (le_lt_dec 2 (length hits)) as [H|H]; [exact H|].
          specialize (Hnone H). discriminate. }
        split; [apply (Hin segs wd eq_refl); eauto | eauto].
    + intros [= <-] Hl. left. apply (empty_results_values wd items Hl).
  - intros [= <-] Hl. left. apply (empty_results_values wd items Hl).
Qed.

(** A list of the result of attempt B is the one it was given or is
    extracted from a block of lines. *)
Lemma fallback_origin (norm : list str) (res r : WeekMenu)
    (wd : str) (items : list MenuItem) :
  dom res = weekdays → fallback norm res = inr r → r !! wd = Some items →
  res !! wd = Some items ∨ ∃ lines, _extract_items_from_lines lines = inr items.
Proof.
  intros Hdom Hf Hl. destruct (any_values res) eqn:Hany.
  { rewrite fallback_skipped in Hf by exact Hany. injection Hf as <-. left. exact Hl. }
  destruct (le_lt_dec 5 (length (marker_idx norm))) as [Hlen|Hlen].
  2: { rewrite fallback_too_few in Hf by exact Hlen. injection Hf as <-. left. exact Hl. }
  destruct (fallback_blocks norm res Hany Hlen) as (r' & Hr' & Hd & Hblocks).
  rewrite Hf in Hr'. injection Hr' as <-.
  assert (Hwd : wd ∈ WEEKDAY_ORDER).
  { apply weekdays_elem. apply (elem_of_dom_2 (D:=gset (list N))) in Hl.
    rewrite Hd, Hdom in Hl. clear -Hl. set_solver. }
  apply list_elem_of_lookup in Hwd as [i Hi].
  destruct (Hblocks i wd Hi) as (items' & Hitems & Hl').
  rewrite Hl in Hl'. injection Hl' as <-. right. eauto.
Qed.

(** Every list of the parsed week is empty or a deduplicated result
    of the extractor. *)
Lemma parse_origin (lines : list str) (menu : WeekMenu)
    (wd : str) (items : list MenuItem) :
  parse_lines lines = inr menu → menu !! wd = Some items →
  ∃ its, items = dedup its
         ∧ (its = [] ∨ ∃ ls, _extract_items_from_lines ls = inr its).
Proof.
  destruct (norm_lines_total lines) as [norm Hnorm].
  destruct (primary_spec norm) as (hits & res & Hloc & Hprim & Hdom & _).
  destruct (fallback_total norm res Hdom) as (r & Hr & _).
  rewrite (parse_lines_eq lines norm res r Hnorm Hprim Hr). intros [= <-].
  rewrite lookup_fmap. destruct (r !! wd) as [its|] eqn:Hl; [|discriminate].
  intros [= <-]. exists its. split; [reflexivity|].
  destruct (fallback_origin norm res r wd its Hdom Hr Hl) as [Hold|Hnew];
    [|right; exact Hnew].
  destruct (primary_origin norm hits res wd its Hloc Hprim Hold) as [->|(_ & _ & H)];
    [left; reflexivity | right; exact H].
Qed.

(** X8: [parse_week_pdf] returns, on every document, a week in
    every list of which no two items have the same title in lowercase
    ([str.lower]) and the same price, every item has a title that is
    not empty, and either every item has a price, of one or two decimal
    digits, a dot and two decimal digits, or no item has one. *)
Theorem parsed_items_well_formed (pdf : list Page) (g : Globals) :
  ∃ menu : WeekMenu, parse_week_pdf pdf g = (inr menu, g)
    ∧ ∀ wd items, menu !! wd = Some items →
        NoDup ((λ it, (Str.lower (title it), price_chf it)) <$> items)
        ∧ Forall (λ it, title it ≠ []) items
        ∧ (Forall (λ it, ∃ p, price_chf it = Some p ∧ is_price p = true) items
           ∨ Forall (λ it, price_chf it = None) items).
Proof.
  rewrite ProcessFacts.parse_week_pdf_eq. generalize (text_lines pdf). intros lines.
  destruct (norm_lines_total lines) as [norm Hnorm].
  destruct (primary_spec norm) as (hits & res & Hloc & Hprim & Hdom & _).
  destruct (fallback_total norm res Hdom) as (r & Hr & _).
  pose proof (parse_lines_eq lines norm res r Hnorm Hprim Hr) as Hparse.
  eexists. split; [rewrite Hparse; reflexivity|]. intros wd items Hl.
  destruct (parse_origin lines _ wd items Hparse Hl) as (its & -> & Hits).
  split; [apply dedup_loop_keys|].
  apply (item_list_sublist its); [apply dedup_loop_sublist|].
  destruct Hits as [->|(ls & Hls)].
  - split; [constructor | left; constructor].
  - apply (extract_shape ls its Hls).
Qed.

(** X5: attempt A gives items only to located weekdays.  A weekday
    whose name the locator did not find keeps an empty list after
    attempt A, a single located weekday is not enough for attempt A to
    assign anything, and when attempt A decides the result (some list is
    not empty after it) the unlocated weekdays are empty in the parsed
    week. *)
Theorem unlocated_weekday_empty (lines : list str) :
  ∃ (norm : list str) (hits : list Hit) (res menu : WeekMenu),
    norm_lines lines = inr norm
    ∧ locate (make_blob norm) = inr hits
    ∧ primary norm = inr res
    ∧ parse_lines lines = inr menu
    ∧ (∀ wd, wd ∈ WEEKDAY_ORDER → wd ∉ hits.*1 → res !! wd = Some [])
    ∧ ((length hits ≤ 1)%nat → ∀ wd, wd ∈ WEEKDAY_ORDER → res !! wd = Some [])
    ∧ (any_values res = true →
       ∀ wd, wd ∈ WEEKDAY_ORDER → wd ∉ hits.*1 → menu !! wd = Some []).
Proof.
  destruct (norm_lines_total lines) as [norm Hnorm].
  destruct (primary_spec norm) as (hits & res & Hloc & Hprim & Hdom & Hfew).
  destruct (fallback_total norm res Hdom) as (r & Hr & _).
  pose proof (parse_lines_eq lines norm res r Hnorm Hprim Hr) as Hparse.
  exists norm, hits, res, (dedup <$> r).
  split; [exact Hnorm|]. split; [exact Hloc|]. split; [exact Hprim|].
  split; [exact Hparse|].
  assert (Hres : ∀ wd, wd ∈ WEEKDAY_ORDER → ∃ items, res !! wd = Some items).
  { intros wd Hwd. apply (elem_of_dom (D:=gset (list N))). rewrite Hdom.
    apply weekdays_elem, Hwd. }
  assert (Hun : ∀ wd, wd ∈ WEEKDAY_ORDER → wd ∉ hits.*1 → res !! wd = Some []).
  { intros wd Hwd Hout. destruct (Hres wd Hwd) as [items Hl]. rewrite Hl. f_equal.
    destruct (primary_origin norm hits res wd items Hloc Hprim Hl) as [H|(_ & H & _)];
      [exact H | contradiction]. }
  split; [exact Hun|]. split.
  - intros Hlen wd Hwd. rewrite Hfew by lia. apply empty_results_lookup, Hwd.
  - intros Hany wd Hwd Hout.
    rewrite (fallback_skipped norm res Hany) in Hr. injection Hr as <-.
    rewrite lookup_fmap, (Hun wd Hwd Hout). reflexivity.
Qed.

End OriginFacts.

(** ** The blocks of the marker-based fallback *)

Module BlockFacts.

Import ParseFacts.

Lemma sorted_lookup_lt (l : list nat) (i j a b : nat) :
  StronglySorted lt l → l !! i = Some a → l !! j = Some b → (i < j)%nat → (a < b)%nat.
Proof.
  intros Hs. revert i j. induction Hs as [|x l _ IH Hx]; intros i j Hi Hj Hij.
  - inversion Hi.
  - destruct j as [|j]; [lia|]. cbn in Hj. destruct i as [|i].
    + injection Hi as <-. rewrite Forall_forall in Hx. apply Hx.
      eapply list_elem_of_lookup_2, Hj.
    + cbn in Hi. apply (IH i j); [assumption.. | lia].
Qed.

Lemma take_drop_app {A} (l : list A) (a b c : nat) :
  (a ≤ b)%nat → (b ≤ c)%nat →
  take (b - a) (drop a l) ++ take (c - b) (drop b l) = take (c - a) (drop a l).
Proof.
  intros Hab Hbc. replace (drop b l) with (drop (b - a) (drop a l))
    by (rewrite drop_drop; f_equal; lia).
  rewrite take_take_drop. f_equal. lia.
Qed.

Lemma take_drop_middle {A} (l : list A) (a e : nat) :
  (a ≤ e)%nat → l = take a l ++ take (e - a) (drop a l) ++ drop e l.
Proof.
  intros Hae. rewrite <- (take_drop a l) at 1. f_equal.
  rewrite <- (take_drop (e - a) (drop a l)) at 1. f_equal.
  rewrite drop_drop. f_equal. lia.
Qed.

(** X6: with five or more anchor lines the five blocks of attempt B
    are cut without raising and lie one after the other: joined, they
    are the lines from the first anchor up to, not including, the sixth
    anchor (up to the end when there are five anchors).  The lines
    before the first anchor contain no anchor and belong to no block,
    and neither do the lines from the sixth anchor on. *)
Theorem fallback_blocks_contiguous (norm : list str) :
  (5 ≤ length (marker_idx norm))%nat →
  ∃ (blocks : list (list str)) (a e : nat),
    mapM (block norm (marker_idx norm)) (seq 0 5) = inr blocks
    ∧ length blocks = 5%nat
    ∧ marker_idx norm !! 0%nat = Some a
    ∧ e = default (length norm) (marker_idx norm !! 5%nat)
    ∧ (a < e ≤ length norm)%nat
    ∧ concat blocks = take (e - a) (drop a norm)
    ∧ norm = take a norm ++ concat blocks ++ drop e norm
    ∧ Forall (λ ln, is_marker ln = false) (take a norm).
Proof.
  intros Hlen. destruct (marker_idx_spec norm) as [Hs Hm].
  set (m := marker_idx norm) in *.
  rewrite (mapM_fmap _ (anchor_block norm m)).
  2: { intros i Hi. apply block_eq. apply elem_of_seq in Hi. lia. }
  destruct (lookup_lt_is_Some_2 m 0) as [a0 H0]; [lia|].
  destruct (lookup_lt_is_Some_2 m 1) as [a1 H1]; [lia|].
  destruct (lookup_lt_is_Some_2 m 2) as [a2 H2]; [lia|].
  destruct (lookup_lt_is_Some_2 m 3) as [a3 H3]; [lia|].
  destruct (lookup_lt_is_Some_2 m 4) as [a4 H4]; [lia|].
  pose proof (sorted_lookup_lt m 0 1 a0 a1 Hs H0 H1 ltac:(lia)) as L01.
  pose proof (sorted_lookup_lt m 1 2 a1 a2 Hs H1 H2 ltac:(lia)) as L12.
  pose proof (sorted_lookup_lt m 2 3 a2 a3 Hs H2 H3 ltac:(lia)) as L23.
  pose proof (sorted_lookup_lt m 3 4 a3 a4 Hs H3 H4 ltac:(lia)) as L34.
  set (e := default (length norm) (m !! 5%nat)).
  assert (He : (a4 < e ≤ length norm)%nat).
  { unfold e. destruct (m !! 5%nat) as [a5|] eqn:H5; cbn [from_option id].
    - split; [apply (sorted_lookup_lt m 4 5 a4 a5 Hs H4 H5); lia|].
      assert (Hin : a5 ∈ m) by (eapply list_elem_of_lookup_2, H5).
      apply Hm in Hin as (ln & Hln & _). apply lookup_lt_Some in Hln. lia.
    - assert (Hin : a4 ∈ m) by (eapply list_elem_of_lookup_2, H4).
      apply Hm in Hin as (ln & Hln & _). apply lookup_lt_Some in Hln. lia. }
  assert (Hcat : concat (anchor_block norm m <$> seq 0 5) = take (e - a0) (drop a0 norm)).
  { cbn [seq fmap list_fmap concat]. unfold anchor_block, next_marker.
    rewrite H0, H1, H2, H3, H4. cbn [from_option id].
    change (match m !! 5%nat with Some b => b | None => length norm end) with e.
    rewrite app_nil_r.
    rewrite (take_drop_app norm a3 a4 e) by lia.
    rewrite (take_drop_app norm a2 a3 e) by lia.
    rewrite (take_drop_app norm a1 a2 e) by lia.
    apply (take_drop_app norm a0 a1 e); lia. }
  exists (anchor_block norm m <$> seq 0 5), a0, e.
  split; [reflexivity|]. split; [reflexivity|]. split; [exact H0|].
  split; [reflexivity|]. split; [lia|]. split; [exact Hcat|].
  split; [rewrite Hcat; apply take_drop_middle; lia|].
  apply Forall_forall. intros ln Hln.
  apply list_elem_of_lookup in Hln as [i Hi].
  apply lookup_take_Some in Hi as [Hi Hlt].
  destruct (is_marker ln) eqn:E; [|reflexivity]. exfalso.
  assert (Hin : i ∈ m) by (apply Hm; eauto).
  apply list_elem_of_lookup in Hin as [[|k] Hk].
  - rewrite H0 in Hk. injection Hk as <-. lia.
  - pose proof (sorted_lookup_lt m 0 (S k) a0 i Hs H0 Hk ltac:(lia)). lia.
Qed.

(** Five soup lines, as in the sample menu without headings. *)
Lemma fallback_blocks_contiguous_witness :
  ∃ (blocks : list (list str)) (a e : nat),
    mapM (block Samples.unheaded (marker_idx Samples.unheaded)) (seq 0 5) = inr blocks
    ∧ length blocks = 5%nat
    ∧ marker_idx Samples.unheaded !! 0%nat = Some a
    ∧ e = default (length Samples.unheaded) (marker_idx Samples.unheaded !! 5%nat)
    ∧ (a < e ≤ length Samples.unheaded)%nat
    ∧ concat blocks = take (e - a) (drop a Samples.unheaded)
    ∧ Samples.unheaded = take a Samples.unheaded ++ concat blocks ++ drop e Samples.unheaded
    ∧ Forall (λ ln, is_marker ln = false) (take a Samples.unheaded).
Proof.
  apply (fallback_blocks_contiguous Samples.unheaded). vm_compute. lia.
Defined.

End BlockFacts.

(** ** The calendar helpers and today's table *)

Module TableFacts.

Import Calendar Site ParseFacts.

(** Reduce the plumbing of [outcome] only. *)
Ltac osimpl :=
  cbn [mbind outcome_bind fmap outcome_fmap mret outcome_ret lift
       result_bind result_fmap result_ret raise].

Lemma mapM_outcome_fmap {A B} (f : A → outcome B) (g : A → B) (l : list A) :
  (∀ x, x ∈ l → f x = inr (g x)) → mapM f l = inr (g <$> l).
Proof.
  induction l as [|x l IH]; intros H; [reflexivity|].
  cbn [mapM]. rewrite (H x) by left. cbn.
  rewrite IH by (intros y Hy; apply H; right; exact Hy). reflexivity.
Qed.

Lemma plus_days_date (d n : Z) :
  is_date (d + n) = true → plus_days d n = inr (d + n)%Z.
Proof.
  unfold plus_days, is_date. intros H. apply andb_true_iff in H as [H1 H2].
  apply Z.leb_le in H1. assert (E : (0 <? d + n)%Z = true) by (apply Z.ltb_lt; lia).
  rewrite E, H2. reflexivity.
Qed.

(** Monday of the week of a date. *)
Definition monday_of (today : Z) : Z := (today - weekday today)%Z.

Lemma weekday_range (d : Z) : (0 ≤ weekday d ≤ 6)%Z.
Proof. unfold weekday. pose proof (Z.mod_pos_bound (d + 6) 7). lia. Qed.

(** The working days of the week of a date are dates. *)
Lemma working_day_date (today i : Z) :
  is_date today = true → (0 ≤ i ≤ 4)%Z → is_date (monday_of today + i) = true.
Proof.
  unfold is_date, monday_of, weekday, _MAXORDINAL. intros H Hi.
  apply andb_true_iff in H as [H1 H2]. apply Z.leb_le in H1, H2.
  apply andb_true_iff. rewrite !Z.leb_le.
  pose proof (Z.div_mod (today + 6) 7 ltac:(lia)).
  pose proof (Z.mod_pos_bound (today + 6) 7 ltac:(lia)). lia.
Qed.

Lemma working_day_weekday (today i : Z) :
  (0 ≤ i ≤ 6)%Z → weekday (monday_of today + i) = i.
Proof.
  unfold monday_of, weekday. intros Hi.
  pose proof (Z.div_mod (today + 6) 7 ltac:(lia)) as E.
  replace (today - (today + 6) mod 7 + i + 6)%Z with (i + (today + 6) / 7 * 7)%Z by lia.
  rewrite Z.mod_add by lia. apply Z.mod_small. lia.
Qed.

Definition week_of (today : Z) : gmap (list N) Z :=
  list_to_map [
    (py "montag", monday_of today);
    (py "dienstag", (monday_of today + 1)%Z);
    (py "mittwoch", (monday_of today + 2)%Z);
    (py "donnerstag", (monday_of today + 3)%Z);
    (py "freitag", (monday_of today + 4)%Z)].

Lemma week_dates_eq (today : Z) :
  is_date today = true → week_dates_for_today today = inr (week_of today).
Proof.
  intros H. unfold week_dates_for_today.
  pose proof (working_day_date today 0 H ltac:(lia)) as H0.
  rewrite Z.add_0_r in H0. unfold monday_of in H0.
  rewrite (plus_days_date today (- weekday today)) by exact H0. cbn.
  fold (monday_of today).
  rewrite !plus_days_date by (apply working_day_date; [exact H | lia]).
  reflexivity.
Qed.

Lemma week_lookup (a b c d e : Z) (i : nat) (wd : str) :
  WEEKDAY_ORDER !! i = Some wd →
  (list_to_map [(py "montag", a); (py "dienstag", b); (py "mittwoch", c);
                (py "donnerstag", d); (py "freitag", e)] : gmap (list N) Z) !! wd
  = [a; b; c; d; e] !! i.
Proof.
  destruct i as [|[|[|[|[|i]]]]]; cbn; intros [= <-]; vm_compute; reflexivity.
Qed.

Lemma week_of_lookup (today : Z) (i : nat) (wd : str) :
  WEEKDAY_ORDER !! i = Some wd →
  week_of today !! wd = Some (monday_of today + Z.of_nat i)%Z.
Proof.
  intros H. unfold week_of. rewrite (week_lookup _ _ _ _ _ i wd H).
  destruct i as [|[|[|[|[|i]]]]]; try discriminate; cbn [lookup list_lookup];
    f_equal; lia.
Qed.

Lemma week_of_dom (today : Z) : dom (week_of today) = list_to_set WEEKDAY_ORDER.
Proof. unfold week_of. rewrite dom_list_to_map_L. reflexivity. Qed.

Lemma weekday_de_name_eq (d : Z) :
  weekday_de_name d
  = inr (if ((0 <=? d) && (d <=? 4))%Z then WEEKDAY_ORDER !! Z.to_nat d else None).
Proof.
  unfold weekday_de_name. destruct ((0 <=? d) && (d <=? 4))%Z eqn:E; [|reflexivity].
  apply andb_true_iff in E as [E1 E2]. apply Z.leb_le in E1, E2.
  assert (H : (d = 0 ∨ d = 1 ∨ d = 2 ∨ d = 3 ∨ d = 4)%Z) by lia.
  destruct H as [-> | [-> | [-> | [-> | ->]]]]; reflexivity.
Qed.

Lemma weekday_name_nonempty (wd : str) : wd ∈ WEEKDAY_ORDER → nonempty wd = true.
Proof.
  unfold WEEKDAY_ORDER. intros H.
  repeat (apply elem_of_cons in H as [-> | H]; [reflexivity|]). inversion H.
Qed.

Lemma cached_url_or_eq (alt : str) (g : Globals) :
  cached_url_or alt g
  = inr (match _cached_pdf_url g with Some (c :: r) => c :: r | _ => alt end).
Proof.
  unfold cached_url_or. cbn. destruct (_cached_pdf_url g) as [[|c r]|]; reflexivity.
Qed.

(** The row of one item: the date in ISO format, the label of the
    weekday, title and price of the item, the source. *)
Definition row_of (d : Z) (label src : str) (it : MenuItem) : TableRow :=
  {| col_date := isoformat d; col_weekday := label;
     col_title := title it; col_price_chf := price_chf it;
     col_source := src |}.

Lemma table_row_eq (dates : gmap (list N) Z) (wd label : str) (it : MenuItem)
    (g : Globals) (d : Z) :
  dates !! wd = Some d →
  table_row dates wd label it g
  = inr (row_of d label (default [] (_cached_pdf_url g)) it).
Proof.
  intros H. unfold table_row, getitem. rewrite H. osimpl.
  rewrite cached_url_or_eq. osimpl. unfold row_of.
  destruct (_cached_pdf_url g) as [[|c r]|]; reflexivity.
Qed.

(** X9: for every date [week_dates_for_today] returns, without an
    [OverflowError] even in the first and in the last week of the
    calendar, a dict with the five weekday names as keys: the name at
    canonical index [i] is bound to Monday of the week of [today] plus
    [i] days, a date whose [weekday()] is [i]; on a working day the
    entry of the day's own name is [today]. *)
Theorem week_dates_monday_to_friday (today : Z) :
  is_date today = true →
  ∃ dates : gmap (list N) Z,
    week_dates_for_today today = inr dates
    ∧ dom dates = list_to_set WEEKDAY_ORDER
    ∧ ∀ (i : nat) (wd : str), WEEKDAY_ORDER !! i = Some wd →
        ∃ d, dates !! wd = Some d
             ∧ d = (today - weekday today + Z.of_nat i)%Z
             ∧ is_date d = true
             ∧ weekday d = Z.of_nat i
             ∧ (weekday today = Z.of_nat i → d = today).
Proof.
  intros H. exists (week_of today). split; [apply week_dates_eq, H|].
  split; [apply week_of_dom|]. intros i wd Hi.
  assert (Hi5 : (i < 5)%nat) by (apply lookup_lt_Some in Hi; exact Hi).
  eexists. split; [apply week_of_lookup, Hi|]. unfold monday_of.
  split; [reflexivity|].
  split; [apply (working_day_date today (Z.of_nat i) H); lia|].
  split; [apply (working_day_weekday today (Z.of_nat i)); lia|].
  intros E. lia.
Qed.

(** 1 January 2024, a Monday, and the Wednesday after it. *)
Lemma week_dates_monday_to_friday_witness :
  ∃ dates : gmap (list N) Z,
    week_dates_for_today 738888 = inr dates
    ∧ dom dates = list_to_set WEEKDAY_ORDER
    ∧ ∀ (i : nat) (wd : str), WEEKDAY_ORDER !! i = Some wd →
        ∃ d, dates !! wd = Some d
             ∧ d = (738888 - weekday 738888 + Z.of_nat i)%Z
             ∧ is_date d = true
             ∧ weekday d = Z.of_nat i
             ∧ (weekday 738888 = Z.of_nat i → d = 738888%Z).
Proof. apply (week_dates_monday_to_friday 738888). reflexivity. Defined.

(** Today's rows of a week. *)
Definition todays_rows (week : WeekMenu) (today : Z) (src : str) : DataFrame :=
  match WEEKDAY_ORDER !! Z.to_nat (weekday today) with
  | Some wd => row_of today (capitalize wd) src <$> default [] (week !! wd)
  | None => []
  end.

Lemma todays_rows_weekend (week : WeekMenu) (today : Z) (src : str) :
  (5 ≤ weekday today)%Z → todays_rows week today src = [].
Proof.
  intros H. unfold todays_rows. rewrite lookup_ge_None_2; [reflexivity|]. cbn. lia.
Qed.

Lemma weekday_de_name_today (today : Z) :
  weekday_de_name (weekday today) = inr (WEEKDAY_ORDER !! Z.to_nat (weekday today)).
Proof.
  rewrite weekday_de_name_eq. pose proof (weekday_range today) as Hw.
  destruct ((0 <=? weekday today) && (weekday today <=? 4))%Z eqn:E; [reflexivity|].
  rewrite lookup_ge_None_2; [reflexivity|]. cbn.
  apply andb_false_iff in E as [E|E]; apply Z.leb_gt in E; lia.
Qed.

Lemma build_dataframe_eq (week_data : WeekMenu) (today : Z) (g : Globals) :
  is_date today = true →
  build_dataframe_for_today week_data today g
  = (inr (todays_rows week_data today (default [] (_cached_pdf_url g))), g).
Proof.
  intros H. unfold build_dataframe_for_today, todays_rows.
  rewrite (week_dates_eq today H), weekday_de_name_today. osimpl.
  destruct (WEEKDAY_ORDER !! Z.to_nat (weekday today)) as [wd|] eqn:Hwd; [|reflexivity].
  assert (Hd : week_of today !! wd = Some today).
  { rewrite (week_of_lookup today _ wd Hwd). unfold monday_of. f_equal.
    apply lookup_lt_Some in Hwd. cbn in Hwd. pose proof (weekday_range today). lia. }
  rewrite (weekday_name_nonempty wd) by (eapply list_elem_of_lookup_2, Hwd).
  cbn [andb]. f_equal. destruct (week_data !! wd) as [items|] eqn:Hitems.
  - rewrite bool_decide_true by eauto. unfold getitem. rewrite Hitems. osimpl.
    apply mapM_outcome_fmap. intros it _. apply table_row_eq, Hd.
  - rewrite bool_decide_false by (intros [? ?]; discriminate). reflexivity.
Qed.

(** X10: on every date [build_dataframe_for_today] returns a table: no
    lookup in it fails and it leaves the process state as it is.
    [weekday_de_name] gives the name at the index of the weekday and
    [None] for Saturday and Sunday, when the table is empty.  On a
    working day the table has one row for each item listed under the
    day's name (none when the name is missing), in the order of the
    list, with the date of [today], the capitalised name, title and
    price of the item and, as source, the cached URL (the empty text
    when none is cached). *)
Theorem todays_table (week_data : WeekMenu) (today : Z) (g : Globals) :
  is_date today = true →
  ∃ df, build_dataframe_for_today week_data today g = (inr df, g)
    ∧ weekday_de_name (weekday today)
      = inr (WEEKDAY_ORDER !! Z.to_nat (weekday today))
    ∧ df = match WEEKDAY_ORDER !! Z.to_nat (weekday today) with
           | Some wd => row_of today (capitalize wd) (default [] (_cached_pdf_url g))
                          <$> default [] (week_data !! wd)
           | None => []
           end
    ∧ ((5 ≤ weekday today)%Z → df = []).
Proof.
  intros H. eexists. split; [apply build_dataframe_eq, H|].
  split; [apply weekday_de_name_today|]. split; [reflexivity|].
  apply todays_rows_weekend.
Qed.

End TableFacts.

(** ** The routes *)

Module RouteFacts.

Import Calendar Site ParseFacts TableFacts.

Lemma parse_lines_total (lines : list str) :
  ∃ menu : WeekMenu, parse_lines lines = inr menu ∧ dom menu = weekdays.
Proof.
  destruct (norm_lines_total lines) as [norm Hnorm].
  destruct (primary_spec norm) as (hits & res & _ & Hprim & Hdom & _).
  destruct (fallback_total norm res Hdom) as (r & Hr & Hdr).
  exists (dedup <$> r). split; [eapply parse_lines_eq; eassumption|].
  rewrite dom_fmap_L. exact Hdr.
Qed.

(** The state after a request that found the URL. *)
Definition cached (url : str) : Globals := {| _cached_pdf_url := Some url |}.

Lemma scrape_week_fetched (net : Fetch) (g : Globals) (url : str) (pdf : list Page) :
  fetched_url net = inr url → fetched_pdf net = inr pdf →
  scrape_week net g = (parse_lines (text_lines pdf), cached url).
Proof.
  intros Hu Hp. unfold scrape_week, load_week_pdf_bytes. rewrite Hu, Hp.
  apply ProcessFacts.parse_week_pdf_eq.
Qed.

Lemma scrape_week_no_url (net : Fetch) (g : Globals) (e : exn) :
  fetched_url net = inl e → scrape_week net g = (inl e, g).
Proof.
  intros Hu. unfold scrape_week, load_week_pdf_bytes. rewrite Hu. reflexivity.
Qed.

Lemma scrape_week_no_pdf (net : Fetch) (g : Globals) (url : str) (e : exn) :
  fetched_url net = inr url → fetched_pdf net = inl e →
  scrape_week net g = (inl e, cached url).
Proof.
  intros Hu Hp. unfold scrape_week, load_week_pdf_bytes. rewrite Hu, Hp. reflexivity.
Qed.

Lemma scrape_today_df_fetched (net : Fetch) (now : Z) (g : Globals)
    (url : str) (pdf : list Page) (menu : WeekMenu) :
  is_date now = true → fetched_url net = inr url → fetched_pdf net = inr pdf →
  parse_lines (text_lines pdf) = inr menu →
  scrape_today_df net now g = (inr (todays_rows menu now url), cached url).
Proof.
  intros Hd Hu Hp Hm. unfold scrape_today_df.
  rewrite (scrape_week_fetched net g url pdf Hu Hp), Hm.
  apply (build_dataframe_eq menu now (cached url) Hd).
Qed.

Lemma empty_match (df : DataFrame) {A} (x y : A) :
  (if empty df then x else y) = match df with [] => x | _ => y end.
Proof. destruct df; reflexivity. Qed.

(** X11: when both requests succeed, the functions and routes for
    today serve one table: the items the parser finds under today's
    weekday in the document just fetched, each with today's date, the
    capitalised weekday and, as source, the URL of that document,
    whatever had been cached before; the cache holds that URL
    afterwards.  [/menu.json] returns these rows; [/save.csv] returns
    them as a file named after the date read for the name, and the 404
    response when there is no row, as on every Saturday and Sunday. *)
Theorem today_routes (net : Fetch) (now now' : Z) (g : Globals)
    (url : str) (pdf : list Page) :
  is_date now = true → fetched_url net = inr url → fetched_pdf net = inr pdf →
  ∃ (menu : WeekMenu) (df : DataFrame),
    parse_lines (text_lines pdf) = inr menu
    ∧ df = match WEEKDAY_ORDER !! Z.to_nat (weekday now) with
           | Some wd => row_of now (capitalize wd) url <$> default [] (menu !! wd)
           | None => []
           end
    ∧ ((5 ≤ weekday now)%Z → df = [])
    ∧ scrape_today_df net now g = (inr df, {| _cached_pdf_url := Some url |})
    ∧ menu_json net now g = (inr (Jsonify df), {| _cached_pdf_url := Some url |})
    ∧ download_csv_today net now now' g
      = (inr match df with
             | [] => Plain (py "Keine Daten gefunden.") 404
             | _ => SendCsv df (py "unisg_menu_" ++ isoformat now' ++ py ".csv")
             end,
         {| _cached_pdf_url := Some url |}).
Proof.
  intros Hd Hu Hp.
  destruct (parse_lines_total (text_lines pdf)) as (menu & Hm & _).
  pose proof (scrape_today_df_fetched net now g url pdf menu Hd Hu Hp Hm) as Hdf.
  exists menu, (todays_rows menu now url).
  split; [exact Hm|]. split; [reflexivity|]. split.
  { apply todays_rows_weekend. }
  split; [exact Hdf|]. unfold menu_json, download_csv_today. rewrite Hdf.
  split; [rewrite empty_match; destruct (todays_rows _ _ _); reflexivity|].
  destruct (todays_rows menu now url); reflexivity.
Qed.

(** The rows of the whole week. *)
Definition week_table (menu : WeekMenu) (now : Z) (src : str) : list TableRow :=
  concat (imap (λ i wd, row_of (now - weekday now + Z.of_nat i) (capitalize wd) src
                          <$> default [] (menu !! wd))
               WEEKDAY_ORDER).

Lemma week_rows_eq (menu : WeekMenu) (now : Z) (g : Globals) :
  week_rows menu (week_of now) g
  = inr (week_table menu now (default [] (_cached_pdf_url g))).
Proof.
  unfold week_rows.
  rewrite (mapM_outcome_fmap _
    (λ wd, row_of (default 0%Z (week_of now !! wd)) (capitalize wd)
             (default [] (_cached_pdf_url g)) <$> default [] (menu !! wd))).
  2: { intros wd Hwd. apply list_elem_of_lookup in Hwd as [i Hi].
       rewrite (week_of_lookup now i wd Hi). cbn [from_option id].
       apply mapM_outcome_fmap. intros it _.
       apply table_row_eq, week_of_lookup, Hi. }
  osimpl. f_equal. unfold week_table, WEEKDAY_ORDER.
  cbn [fmap list_fmap imap compose].
  rewrite (week_of_lookup now 0 (py "montag") eq_refl).
  rewrite (week_of_lookup now 1 (py "dienstag") eq_refl).
  rewrite (week_of_lookup now 2 (py "mittwoch") eq_refl).
  rewrite (week_of_lookup now 3 (py "donnerstag") eq_refl).
  rewrite (week_of_lookup now 4 (py "freitag") eq_refl).
  reflexivity.
Qed.

Lemma week_table_nil (menu : WeekMenu) (now : Z) (src : str) :
  week_table menu now src = []
  ↔ ∀ wd, wd ∈ WEEKDAY_ORDER → default [] (menu !! wd) = [].
Proof.
  unfold week_table, WEEKDAY_ORDER. cbn [imap compose concat]. rewrite app_nil_r.
  split.
  - intros H.
    repeat (apply app_eq_nil in H as [?%fmap_nil_inv H]). apply fmap_nil_inv in H.
    intros wd Hwd.
    repeat (apply elem_of_cons in Hwd as [-> | Hwd]; [assumption|]). inversion Hwd.
  - intros H.
    rewrite !H by (repeat first [apply list_elem_of_here | apply list_elem_of_further]).
    reflexivity.
Qed.

(** X12: when both requests succeed, [/week.json] and [/week.csv]
    serve the same rows: for the weekdays in canonical order, the items
    the parser finds under each, in their order, dated Monday of the
    current week plus the index of the weekday, labelled with the
    capitalised name, with the URL of the document just fetched as
    source.  [/week.csv] answers 404 exactly when every weekday's list
    is empty. *)
Theorem week_routes (net : Fetch) (now now' : Z) (g : Globals)
    (url : str) (pdf : list Page) :
  is_date now = true → fetched_url net = inr url → fetched_pdf net = inr pdf →
  ∃ (menu : WeekMenu) (rows : list TableRow),
    parse_lines (text_lines pdf) = inr menu
    ∧ rows = concat (imap (λ i wd, row_of (now - weekday now + Z.of_nat i)
                                     (capitalize wd) url
                                   <$> default [] (menu !! wd))
                          WEEKDAY_ORDER)
    ∧ (rows = [] ↔ ∀ wd, wd ∈ WEEKDAY_ORDER → menu !! wd = Some [])
    ∧ week_json net now g = (inr (Jsonify rows), {| _cached_pdf_url := Some url |})
    ∧ week_csv net now now' g
      = (inr match rows with
             | [] => Plain (py "Keine Daten gefunden.") 404
             | _ => SendCsv rows (py "unisg_menu_week_" ++ isoformat now' ++ py ".csv")
             end,
         {| _cached_pdf_url := Some url |}).
Proof.
  intros Hd Hu Hp.
  destruct (parse_lines_total (text_lines pdf)) as (menu & Hm & Hdom).
  exists menu, (week_table menu now url).
  split; [exact Hm|]. split; [reflexivity|]. split.
  { rewrite week_table_nil. split; intros H wd Hwd.
    - assert (Hin : wd ∈ dom menu) by (rewrite Hdom; apply weekdays_elem, Hwd).
      apply elem_of_dom in Hin as [items Hitems]. specialize (H wd Hwd).
      rewrite Hitems in H. cbn in H. subst items. exact Hitems.
    - rewrite (H wd Hwd). reflexivity. }
  unfold week_json, week_csv.
  rewrite (scrape_week_fetched net g url pdf Hu Hp), Hm.
  rewrite (week_dates_eq now Hd). osimpl.
  rewrite (week_rows_eq menu now (cached url)). osimpl. cbn [cached _cached_pdf_url from_option id].
  split; [reflexivity|].
  destruct (week_table menu now url); reflexivity.
Qed.

(** X13: no function of the serving layer catches the exception of a
    failed request: every route ends with it.  When the start page
    gives no URL the process state is left as it was; when the URL was
    found and the download of the document fails, the cache already
    holds the new URL. *)
Theorem routes_propagate_failures (net net' : Fetch) (now1 now2 now3 now4 : Z)
    (g : Globals) (e : exn) :
  (fetched_url net = inl e →
     scrape_week net g = (inl e, g)
     ∧ menu_json net now1 g = (inl (Raised e), g)
     ∧ download_csv_today net now1 now2 g = (inl (Raised e), g)
     ∧ week_json net now1 g = (inl (Raised e), g)
     ∧ week_csv net now1 now2 g = (inl (Raised e), g)
     ∧ index net net' now1 now2 now3 now4 g = (inl (Raised e), g))
  ∧ (∀ url, fetched_url net = inr url → fetched_pdf net = inl e →
       let g' := {| _cached_pdf_url := Some url |} in
       scrape_week net g = (inl e, g')
       ∧ menu_json net now1 g = (inl (Raised e), g')
       ∧ download_csv_today net now1 now2 g = (inl (Raised e), g')
       ∧ week_json net now1 g = (inl (Raised e), g')
       ∧ week_csv net now1 now2 g = (inl (Raised e), g')
       ∧ index net net' now1 now2 now3 now4 g = (inl (Raised e), g')).
Proof.
  split.
  - intros Hu. pose proof (scrape_week_no_url net g e Hu) as H.
    unfold menu_json, download_csv_today, week_json, week_csv, index, scrape_today_df.
    rewrite H. repeat split.
  - intros url Hu Hp. pose proof (scrape_week_no_pdf net g url e Hu Hp) as H.
    unfold menu_json, download_csv_today, week_json, week_csv, index, scrape_today_df.
    rewrite H. repeat split.
Qed.

Lemma friday_rows_eq (menu : WeekMenu) (now : Z) (g : Globals) :
  friday_rows menu (week_of now) g
  = inr (row_of (now - weekday now + 4) (py "Freitag")
                (default [] (_cached_pdf_url g))
           <$> default [] (menu !! py "freitag")).
Proof.
  unfold friday_rows. apply mapM_outcome_fmap. intros it _.
  apply table_row_eq. apply (week_of_lookup now 4 (py "freitag") eq_refl).
Qed.

(** The source the start page shows for a cached URL. *)
Definition source_shown (url : str) : str :=
  match url with
  | [] => py "–"
  | _ => url
  end.

Lemma cached_url_shown (url : str) :
  cached_url_or (py "–") (cached url) = inr (source_shown url).
Proof. rewrite cached_url_or_eq. destruct url; reflexivity. Qed.

(** X14: what the start page shows when the first fetch succeeds.
    If today's table has a row, the page shows it and nothing is
    fetched a second time.  If it has none and the date read for the
    weekend test is a Saturday or a Sunday, the document is fetched
    again and the page shows the items listed under "freitag" in it,
    labelled "Freitag" and dated Friday of the week of the date read
    for the week dates, or the fixed paragraph when that list is empty.
    If it has none on another day, the page shows the fixed paragraph.
    The source shown is the URL of the last fetch, a dash when that is
    the empty text. *)
Theorem index_table (net : Fetch) (now1 now4 : Z) (g : Globals)
    (url : str) (pdf : list Page) :
  is_date now1 = true → fetched_url net = inr url → fetched_pdf net = inr pdf →
  ∃ (menu : WeekMenu) (df : DataFrame),
    parse_lines (text_lines pdf) = inr menu
    ∧ scrape_today_df net now1 g = (inr df, {| _cached_pdf_url := Some url |})
    ∧ (df ≠ [] → ∀ net' now2 now3,
         index net net' now1 now2 now3 now4 g
         = (inr (Rendered (Some df) (isoformat now4) (source_shown url)),
            {| _cached_pdf_url := Some url |}))
    ∧ (df = [] → ∀ net' now2 now3, (weekday now2 < 5)%Z →
         index net net' now1 now2 now3 now4 g
         = (inr (Rendered None (isoformat now4) (source_shown url)),
            {| _cached_pdf_url := Some url |}))
    ∧ (df = [] → ∀ net' now2 now3 url' pdf', (5 ≤ weekday now2)%Z →
         is_date now3 = true →
         fetched_url net' = inr url' → fetched_pdf net' = inr pdf' →
         ∃ (menu' : WeekMenu) (rows : DataFrame),
           parse_lines (text_lines pdf') = inr menu'
           ∧ rows = row_of (now3 - weekday now3 + 4) (py "Freitag") url'
                      <$> default [] (menu' !! py "freitag")
           ∧ index net net' now1 now2 now3 now4 g
             = (inr (Rendered (match rows with [] => None | _ => Some rows end)
                       (isoformat now4) (source_shown url')),
                {| _cached_pdf_url := Some url' |})).
Proof.
  intros Hd Hu Hp.
  destruct (parse_lines_total (text_lines pdf)) as (menu & Hm & _).
  pose proof (scrape_today_df_fetched net now1 g url pdf menu Hd Hu Hp Hm) as Hdf.
  exists menu, (todays_rows menu now1 url).
  split; [exact Hm|]. split; [exact Hdf|].
  unfold index. rewrite Hdf. generalize (todays_rows menu now1 url). intros df.
  split; [|split].
  - intros Hne net' now2 now3. destruct df as [|r df]; [contradiction|].
    cbn [empty nonempty negb andb]. osimpl. rewrite cached_url_shown. reflexivity.
  - intros -> net' now2 now3 Hw. cbn [empty nonempty negb andb].
    apply Z.leb_gt in Hw. rewrite Hw. osimpl. rewrite cached_url_shown. reflexivity.
  - intros -> net' now2 now3 url' pdf' Hw Hd' Hu' Hp'. cbn [empty nonempty negb andb].
    apply Z.leb_le in Hw. rewrite Hw.
    destruct (parse_lines_total (text_lines pdf')) as (menu' & Hm' & _).
    exists menu'. eexists. split; [exact Hm'|]. split; [reflexivity|].
    rewrite (scrape_week_fetched net' (cached url) url' pdf' Hu' Hp'), Hm'.
    rewrite (week_dates_eq now3 Hd'). osimpl.
    rewrite (friday_rows_eq menu' now3 (cached url')). osimpl.
    cbn [cached _cached_pdf_url from_option id]. fold (cached url').
    rewrite cached_url_shown. osimpl. rewrite empty_match. reflexivity.
Qed.

End RouteFacts.

(** ** The link to the PDF *)

Module LinkFacts.

Import Site StrFacts.

Section link.
Variable urljoin : str → str → str.

(** A loop over the anchors returns the link of the first anchor that
    passes the test. *)
Lemma first_link_spec (test : Anchor → bool) (anchors : list Anchor) :
  match first_link urljoin test anchors with
  | Some url =>
    ∃ pre a post, anchors = pre ++ a :: post ∧ test a = true
                  ∧ Forall (λ b, test b = false) pre
                  ∧ url = absolute urljoin (href a)
  | None => Forall (λ b, test b = false) anchors
  end.
Proof.
  induction anchors as [|a anchors IH]; [constructor|]. cbn [first_link].
  destruct (test a) eqn:E.
  - exists [], a, anchors. split; [reflexivity|]. split; [exact E|].
    split; [constructor | reflexivity].
  - destruct (first_link urljoin test anchors) as [url|].
    + destruct IH as (pre & a' & post & -> & Ha' & Hpre & ->).
      exists (a :: pre), a', post. split; [reflexivity|]. split; [exact Ha'|].
      split; [constructor; assumption | reflexivity].
    + constructor; assumption.
Qed.

(** What the two loops test, in terms of the texts: the [href] in
    lowercase ends with ".pdf"; the text of the anchor, stripped and in
    lowercase, contains "aktuelle woche"; the [href] in lowercase
    contains "menueplan" or "menueplaene". *)
Definition ends_pdf (a : Anchor) : Prop :=
  ∃ u, Str.lower (href a) = u ++ py ".pdf".

Definition says_current_week (a : Anchor) : Prop :=
  ∃ u v, Str.lower (Str.strip (get_text a)) = u ++ py "aktuelle woche" ++ v.

Definition names_plan (a : Anchor) : Prop :=
  (∃ u v, Str.lower (href a) = u ++ py "menueplan" ++ v)
  ∨ (∃ u v, Str.lower (href a) = u ++ py "menueplaene" ++ v).

Lemma endswith_spec (suffix s : str) :
  endswith suffix s = true ↔ ∃ u, s = u ++ suffix.
Proof.
  unfold endswith. rewrite startswith_spec. split.
  - intros [v Hv]. exists (reverse v).
    rewrite <- (reverse_involutive s), Hv, reverse_app, reverse_involutive.
    reflexivity.
  - intros [u ->]. exists (reverse u). apply reverse_app.
Qed.

Lemma current_week_link_spec (a : Anchor) :
  current_week_link a = true ↔ says_current_week a ∧ ends_pdf a.
Proof.
  unfold current_week_link, says_current_week, ends_pdf.
  rewrite andb_true_iff, contains_spec, endswith_spec. reflexivity.
Qed.

Lemma menueplan_link_spec (a : Anchor) :
  menueplan_link a = true ↔ ends_pdf a ∧ names_plan a.
Proof.
  unfold menueplan_link, names_plan, ends_pdf.
  rewrite andb_true_iff, orb_true_iff, !contains_spec, endswith_spec. reflexivity.
Qed.

Lemma Forall_false_spec (test : Anchor → bool) (P : Anchor → Prop) (l : list Anchor) :
  (∀ a, test a = true ↔ P a) →
  Forall (λ b, test b = false) l → Forall (λ b, ¬ P b) l.
Proof.
  intros H Hl. eapply Forall_impl; [exact Hl|].
  intros b Hb HP. apply H in HP. congruence.
Qed.

(** X15: the URL [fetch_current_week_pdf_url] returns is the link of an
    anchor of the start page whose [href] ends with ".pdf", without
    regard to case: the first such anchor whose text contains "aktuelle
    woche", also when an anchor to a "menueplan" file stands before it;
    without such an anchor, the first one whose [href] contains
    "menueplan" or "menueplaene".  An [href] that starts with "http" is
    returned as it is, any other joined to the base URL.  The function
    raises the exception of the request, or [RuntimeError] when no
    anchor passes either test. *)
Theorem pdf_link_selection (page : result (list Anchor)) :
  match fetch_current_week_pdf_url urljoin page with
  | inr url =>
    ∃ anchors pre a post,
      page = inr anchors ∧ anchors = pre ++ a :: post
      ∧ url = (if Str.startswith (py "http") (href a) then href a
               else urljoin BASE_URL (href a))
      ∧ ends_pdf a
      ∧ ((says_current_week a
          ∧ Forall (λ b, ¬ (says_current_week b ∧ ends_pdf b)) pre)
         ∨ (names_plan a
            ∧ Forall (λ b, ¬ (says_current_week b ∧ ends_pdf b)) anchors
            ∧ Forall (λ b, ¬ (ends_pdf b ∧ names_plan b)) pre))
  | inl e =>
    page = inl e
    ∨ (e = RuntimeError
       ∧ ∃ anchors, page = inr anchors
           ∧ Forall (λ b, ¬ (says_current_week b ∧ ends_pdf b)) anchors
           ∧ Forall (λ b, ¬ (ends_pdf b ∧ names_plan b)) anchors)
  end
  ∧ fetch_current_week_pdf_url urljoin
      (inr [{| get_text := py "Menüplan";
               href := py "https://www.restaurant-unisg.ch/Menueplan_KW45.PDF" |};
            {| get_text := py " AKTUELLE Woche (PDF) ";
               href := py "https://www.restaurant-unisg.ch/aw.pdf" |}])
    = inr (py "https://www.restaurant-unisg.ch/aw.pdf")
  ∧ fetch_current_week_pdf_url urljoin
      (inr [{| get_text := py "Aktuelle Woche";
               href := py "https://www.restaurant-unisg.ch/woche.html" |};
            {| get_text := py "Archiv";
               href := py "https://www.restaurant-unisg.ch/MENUEPLAENE.pdf" |}])
    = inr (py "https://www.restaurant-unisg.ch/MENUEPLAENE.pdf").
Proof.
  split; [|split; vm_compute; reflexivity].
  destruct page as [e|anchors]; [left; reflexivity|].
  unfold fetch_current_week_pdf_url. rsimpl.
  pose proof (first_link_spec current_week_link anchors) as H1.
  pose proof (first_link_spec menueplan_link anchors) as H2.
  destruct (first_link urljoin current_week_link anchors) as [url|].
  - destruct H1 as (pre & a & post & E & Ha & Hpre & ->).
    apply current_week_link_spec in Ha as [Hs Hp].
    exists anchors, pre, a, post. split; [reflexivity|]. split; [exact E|].
    split; [reflexivity|]. split; [exact Hp|]. left. split; [exact Hs|].
    apply (Forall_false_spec _ _ _ current_week_link_spec Hpre).
  - apply (Forall_false_spec _ _ _ current_week_link_spec) in H1.
    destruct (first_link urljoin menueplan_link anchors) as [url|].
    + destruct H2 as (pre & a & post & E & Ha & Hpre & ->).
      apply menueplan_link_spec in Ha as [Hp Hn].
      exists anchors, pre, a, post. split; [reflexivity|]. split; [exact E|].
      split; [reflexivity|]. split; [exact Hp|]. right. split; [exact Hn|].
      split; [exact H1|].
      apply (Forall_false_spec _ _ _ menueplan_link_spec Hpre).
    + right. split; [reflexivity|]. exists anchors. split; [reflexivity|].
      split; [exact H1|].
      apply (Forall_false_spec _ _ _ menueplan_link_spec H2).
Qed.

End link.

End LinkFacts.

(** ** The serving layer at a sample document *)

Module SiteSamples.

Import Calendar Site TableFacts RouteFacts.

(** The sample menu with two headed days as the text of a one-page
    document, and the requests that find and load it. *)
Definition document : list Page :=
  [{| extract_tables := None; extract_text := Some (Str.join [10] Samples.headed) |}].

Definition menu_url : str := py "https://www.restaurant-unisg.ch/menueplan.pdf".

Definition requests : Fetch :=
  {| fetched_url := inr menu_url; fetched_pdf := inr document |}.

Definition fresh : Globals := {| _cached_pdf_url := None |}.

(** 2 January 2024, a Tuesday, and 6 January 2024, a Saturday. *)
Definition tuesday : Z := 738887.
Definition saturday : Z := 738891.

Definition pasta : MenuItem :=
  {| title := py "Pasta"; price_chf := Some (py "9.00") |}.

Lemma todays_table_witness :
  is_date tuesday = true
  ∧ ∃ df, build_dataframe_for_today (<[py "dienstag" := [pasta]]> empty_results)
            tuesday fresh = (inr df, fresh)
      ∧ df = [row_of tuesday (py "Dienstag") (py "") pasta].
Proof.
  split; [reflexivity|].
  destruct (todays_table (<[py "dienstag" := [pasta]]> empty_results) tuesday fresh)
    as (df & H & _ & Hdf & _); [reflexivity|].
  exists df. split; [exact H|]. rewrite Hdf. vm_compute. reflexivity.
Defined.

Lemma today_routes_witness :
  ∃ (menu : WeekMenu) (df : DataFrame),
    parse_lines (text_lines document) = inr menu
    ∧ df = match WEEKDAY_ORDER !! Z.to_nat (weekday tuesday) with
           | Some wd => row_of tuesday (capitalize wd) menu_url
                          <$> default [] (menu !! wd)
           | None => []
           end
    ∧ ((5 ≤ weekday tuesday)%Z → df = [])
    ∧ scrape_today_df requests tuesday fresh
      = (inr df, {| _cached_pdf_url := Some menu_url |})
    ∧ menu_json requests tuesday fresh
      = (inr (Jsonify df), {| _cached_pdf_url := Some menu_url |})
    ∧ download_csv_today requests tuesday tuesday fresh
      = (inr match df with
             | [] => Plain (py "Keine Daten gefunden.") 404
             | _ => SendCsv df (py "unisg_menu_" ++ isoformat tuesday ++ py ".csv")
             end,
         {| _cached_pdf_url := Some menu_url |}).
Proof.
  apply (today_routes requests tuesday tuesday fresh menu_url document); reflexivity.
Defined.

Lemma week_routes_witness :
  ∃ (menu : WeekMenu) (rows : list TableRow),
    parse_lines (text_lines document) = inr menu
    ∧ rows = concat (imap (λ i wd, row_of (tuesday - weekday tuesday + Z.of_nat i)
                                     (capitalize wd) menu_url
                                   <$> default [] (menu !! wd))
                          WEEKDAY_ORDER)
    ∧ (rows = [] ↔ ∀ wd, wd ∈ WEEKDAY_ORDER → menu !! wd = Some [])
    ∧ week_json requests tuesday fresh
      = (inr (Jsonify rows), {| _cached_pdf_url := Some menu_url |})
    ∧ week_csv requests tuesday tuesday fresh
      = (inr match rows with
             | [] => Plain (py "Keine Daten gefunden.") 404
             | _ => SendCsv rows
                      (py "unisg_menu_week_" ++ isoformat tuesday ++ py ".csv")
             end,
         {| _cached_pdf_url := Some menu_url |}).
Proof.
  apply (week_routes requests tuesday tuesday fresh menu_url document); reflexivity.
Defined.

(** The first fetch on a Saturday. *)
Lemma index_table_witness :
  ∃ (menu : WeekMenu) (df : DataFrame),
    parse_lines (text_lines document) = inr menu
    ∧ scrape_today_df requests saturday fresh
      = (inr df, {| _cached_pdf_url := Some menu_url |})
    ∧ (df ≠ [] → ∀ net' now2 now3,
         index requests net' saturday now2 now3 saturday fresh
         = (inr (Rendered (Some df) (isoformat saturday) (source_shown menu_url)),
            {| _cached_pdf_url := Some menu_url |}))
    ∧ (df = [] → ∀ net' now2 now3, (weekday now2 < 5)%Z →
         index requests net' saturday now2 now3 saturday fresh
         = (inr (Rendered None (isoformat saturday) (source_shown menu_url)),
            {| _cached_pdf_url := Some menu_url |}))
    ∧ (df = [] → ∀ net' now2 now3 url' pdf', (5 ≤ weekday now2)%Z →
         is_date now3 = true →
         fetched_url net' = inr url' → fetched_pdf net' = inr pdf' →
         ∃ (menu' : WeekMenu) (rows : DataFrame),
           parse_lines (text_lines pdf') = inr menu'
           ∧ rows = row_of (now3 - weekday now3 + 4) (py "Freitag") url'
                      <$> default [] (menu' !! py "freitag")
           ∧ index requests net' saturday now2 now3 saturday fresh
             = (inr (Rendered (match rows with [] => None | _ => Some rows end)
                       (isoformat saturday) (source_shown url')),
                {| _cached_pdf_url := Some url' |})).
Proof.
  apply (index_table requests saturday saturday fresh menu_url document); reflexivity.
Defined.

End SiteSamples.

(** ** The legend cut of the extractor *)

Module LegendFacts.

Import Re ReFacts ReBounds WhitespaceFacts ExtractFacts CaseFacts.

(** The four legend words. *)
Definition LEGEND_WORD : regex :=
  Alt (Cat (Lit 65) (Cat (Lit 108) (Cat (Lit 108) (Cat (Lit 101) (Cat (Lit 114)
         (Cat (Lit 103)
            (Alt (Cat (Lit 101) (Cat (Lit 110) (Lit 101)))
                 (Cat (Lit 105) (Cat (Lit 101) (Lit 110))))))))))
    (Alt (Cat (Lit 73) (Cat (Lit 99) (Cat (Lit 111) (Lit 110))))
       (Alt (Cat (Lit 73) (Cat (Lit 110) (Cat (Lit 102) (Lit 111))))
          (Cat (Lit 66) (Cat (Lit 105) (Lit 111))))).

Definition LEGEND : Pattern :=
  {| pattern := py "\b(Allerg(?:ene|ien)|Icon|Info|Bio)\b.*?$"; ignorecase := true;
     code := Cat Boundary
               (Cat (Group 1 LEGEND_WORD)
                  (Cat Boundary (Cat (Rep false 0 None Any) Eos)));
     groups := 1; groupindex := [] |}.

Lemma compile_LEGEND : compile (py "\b(Allerg(?:ene|ien)|Icon|Info|Bio)\b.*?$") true = inr LEGEND.
Proof. reflexivity. Qed.

(** A text without line feed. *)
Definition one_line (s : str) : Prop := Forall (λ c, c ≠ 10) s.

Lemma collapse_go_one_line (b : bool) (s : str) : one_line (collapse_go b s).
Proof.
  revert b. induction s as [|c s IH]; intros b; cbn [collapse_go]; [constructor|].
  destruct (isspace c) eqn:E.
  - destruct b; [apply IH|]. constructor; [discriminate | apply IH].
  - constructor; [|apply IH]. intros ->. discriminate.
Qed.

Lemma at_end_one_line (s : str) (j : nat) :
  one_line s → at_end s j = true → j = length s.
Proof.
  intros Hs. unfold at_end. intros H. apply orb_true_iff in H as [H|H].
  - apply Nat.eqb_eq, H.
  - apply andb_true_iff in H as [_ H]. apply bool_decide_eq_true in H.
    unfold one_line in Hs. rewrite Forall_forall in Hs. exfalso.
    apply (Hs 10); [|reflexivity]. eapply list_elem_of_lookup_2, H.
Qed.

Lemma go_Boundary ic (s : str) i c (k : K) :
  go ic s Boundary i c k = if at_boundary s i then k i c else None.
Proof. reflexivity. Qed.

(** A legend word needs a character to start with. *)
Lemma legend_word_inside (s : str) (j : nat) (c : caps) (k : K) :
  (length s ≤ j)%nat → go true s LEGEND_WORD j c k = None.
Proof.
  intros H. unfold LEGEND_WORD. cbn [go]. unfold step.
  rewrite (lookup_ge_None_2 s j H). reflexivity.
Qed.

(** A match of the legend pattern runs to the end of a one-line text
    and starts before it. *)
Lemma legend_match_span (s : str) (j : nat) ok (m : Match) :
  one_line s → match_at LEGEND s j ok = Some m →
  m_start m = j ∧ m_end m = length s ∧ (j < length s)%nat.
Proof.
  intros Hs. unfold match_at.
  destruct (go _ _ _ _ _ _) as [[e c]|] eqn:Hgo; [|discriminate].
  intros [= <-]. cbn [m_end m_start]. split; [reflexivity|]. revert Hgo.
  cbn [ignorecase code LEGEND].
  rewrite go_Cat, go_Boundary. destruct (at_boundary s j); [|discriminate].
  rewrite go_Cat, go_Group. intros H.
  assert (Hj : (j < length s)%nat).
  { destruct (le_lt_dec (length s) j) as [Hge|Hlt]; [|exact Hlt].
    rewrite legend_word_inside in H by exact Hge. discriminate. }
  split; [|exact Hj]. revert H.
  set (Ψ := λ res : nat * caps, res.1 = length s).
  change (e = length s) with (Ψ (e, c)).
  generalize (e, c). intros res.
  set (T := λ _ : caps, True).
  assert (HT : stable T) by (intros ? ? ? ?; exact I).
  follow (go_respects true s T _ HT) Ψ I. clear res. intros j2 c2 res _.
  rewrite go_Cat.
  follow (go_respects true s T Boundary HT) Ψ I. clear res. intros j3 c3 res _.
  rewrite go_Cat.
  follow (go_respects true s T _ HT) Ψ I. clear res. intros j4 c4 res _.
  cbn [go]. destruct (at_end s j4) eqn:E; [|discriminate].
  destruct (ok j4); [|discriminate]. intros [= <-].
  apply at_end_one_line; assumption.
Qed.

Lemma legend_no_match_at_end (s : str) ok :
  match_at LEGEND s (length s) ok = None.
Proof.
  unfold match_at. cbn [ignorecase code LEGEND].
  rewrite go_Cat, go_Boundary. destruct (at_boundary s (length s)); [|reflexivity].
  rewrite go_Cat, go_Group, legend_word_inside by lia. reflexivity.
Qed.

(** The substitution of the legend pattern keeps the text before its
    first match. *)
Lemma legend_sub (s : str) :
  one_line s →
  re_sub (py "\b(Allerg(?:ene|ien)|Icon|Info|Bio)\b.*?$") (py "") s true
  = inr match search LEGEND s with
        | Some m => take (m_start m) s
        | None => s
        end.
Proof.
  intros Hs. erewrite re_sub_inr; [|apply compile_LEGEND | apply template_empty].
  f_equal. unfold finditer, search.
  replace (2 * length s + 2)%nat with (S (S (2 * length s))) by lia.
  cbn [finditer_go].
  destruct (search_from LEGEND s 0 false) as [m|] eqn:Hm; [|reflexivity].
  assert (Hspan : m_end m = length s ∧ (m_start m < length s)%nat).
  { revert Hm. unfold search_from. destruct (0 <=? length s)%nat; [|discriminate].
    apply (search_go_origin (λ m, m_end m = length s ∧ (m_start m < length s)%nat)).
    intros j ok m' Hm'. apply legend_match_span in Hm' as (-> & H1 & H2); [|exact Hs].
    split; assumption. }
  destruct Hspan as [He Hlt]. rewrite He.
  assert (E : (length s =? m_start m)%nat = false) by (apply Nat.eqb_neq; lia).
  rewrite E. unfold search_from. rewrite Nat.leb_refl, Nat.sub_diag.
  cbn [search_go]. rewrite legend_no_match_at_end.
  cbn [sub_go expand flat_map app]. rewrite He, drop_all, app_nil_r.
  unfold Str.slice. rewrite Nat.sub_0_r. reflexivity.
Qed.

(** The text before the legend cut: the lines joined, whitespace runs
    collapsed, the ends trimmed, allergen codes removed. *)
Lemma before_legend (lines : list str) :
  ∃ before,
    re_sub (py "\b([A-ZÄÖÜ](?:\s*,\s*[A-ZÄÖÜ])+)\b") (py "")
      (Str.strip (collapse_ws (Str.join (py " ") lines))) false = inr before
    ∧ one_line before
    ∧ clean_text lines = re_sub (py "\b(Allerg(?:ene|ien)|Icon|Info|Bio)\b.*?$") (py "") before true.
Proof.
  unfold clean_text. rewrite re_sub_ws_collapse. rsimpl.
  set (t1 := Str.strip (collapse_ws (Str.join (py " ") lines))).
  assert (H1 : one_line t1) by (apply strip_by_chars, collapse_go_one_line).
  destruct (re_sub (py "\b([A-ZÄÖÜ](?:\s*,\s*[A-ZÄÖÜ])+)\b") (py "") t1 false) as [e|before] eqn:Hb.
  { erewrite re_sub_inr in Hb; [|apply compile_allergen | apply template_empty].
    discriminate. }
  exists before. split; [reflexivity|]. split; [|reflexivity].
  apply (re_sub_chars (λ c, c ≠ 10)) in Hb; [exact Hb | exact H1 | constructor].
Qed.

(** X16: the text the price pattern is run on ends before the first
    legend word.  After the allergen codes are removed, [clean_text]
    cuts the text from the first place where one of the words
    "Allergene", "Allergien", "Icon", "Info" and "Bio" stands as a whole
    word, in any case, to its end: the match of the legend pattern
    always runs to the end of the text.  So a dish with the word "Bio"
    in its name, and every dish after it in the same block, is not
    extracted.  Case and word boundaries are those of [re] on text: a
    dotless i stands for the i of "Bio", and after a letter such as Ł
    no word begins. *)
Theorem legend_cuts_rest (lines : list str) :
  ∃ before text,
    compile (py "\b(Allerg(?:ene|ien)|Icon|Info|Bio)\b.*?$") true = inr LEGEND
    ∧ re_sub (py "\b([A-ZÄÖÜ](?:\s*,\s*[A-ZÄÖÜ])+)\b") (py "")
        (Str.strip (collapse_ws (Str.join (py " ") lines))) false = inr before
    ∧ clean_text lines = inr text
    ∧ text = match search LEGEND before with
             | Some m => take (m_start m) before
             | None => before
             end
    ∧ (∀ m, search LEGEND before = Some m →
         m_end m = length before
         ∧ ∀ j, (j < m_start m)%nat → match_at LEGEND before j (λ _, true) = None)
    ∧ _extract_items_from_lines
        [py "Suppe CHF 4.50"; py "Bio Burger CHF 12.50"; py "Pasta CHF 9.00"]
      = inr [{| title := py "Suppe"; price_chf := Some (py "4.50") |}]
    ∧ clean_text [py "Suppe bıo Pasta CHF 4.50"] = inr (py "Suppe ")
    ∧ clean_text [py "Suppe Łbio Pasta CHF 4.50"]
      = inr (py "Suppe Łbio Pasta CHF 4.50").
Proof.
  destruct (before_legend lines) as (before & Hb & Hone & Hclean).
  exists before. eexists. split; [reflexivity|]. split; [exact Hb|].
  split; [rewrite Hclean; apply legend_sub, Hone|]. split; [reflexivity|].
  split; [|repeat split; vm_compute; reflexivity].
  intros m Hm. split; [|apply search_leftmost, Hm].
  revert Hm. unfold search, search_from. destruct (0 <=? length before)%nat; [|discriminate].
  apply (search_go_origin (λ m, m_end m = length before)).
  intros j ok m' Hm'. apply legend_match_span in Hm' as (_ & H & _); assumption.
Qed.

End LegendFacts.

(** ** The heading of a weekday in the title of its first item *)

Module LeadFacts.

Import Re ReFacts ReBounds WhitespaceFacts ExtractFacts LocateFacts SegmentFacts
  ParseFacts ItemFacts CaseFacts NormalFacts PriceFacts CollectFacts LegendFacts
  UnicodeFacts.

(** *** A match is found whatever the group spans are *)

(** The continuation [k'] accepts wherever [k] does. *)
Definition no_worse (k k' : K) : Prop :=
  ∀ j d d', is_Some (k j d) → is_Some (k' j d').

(** A stage that succeeds keeps succeeding with other group spans
    and a continuation that is no worse. *)
Definition blind (f : nat → caps → K → option (nat * caps)) : Prop :=
  ∀ i c c' k k', no_worse k k' → is_Some (f i c k) → is_Some (f i c' k').

Lemma step_blind (s : str) t : blind (step s t).
Proof.
  intros i c c' k k' Hk. unfold step. destruct (s !! i) as [x|]; [|exact id].
  destruct (t x); [apply Hk | exact id].
Qed.

Lemma must_blind body n : blind body → blind (must body n).
Proof.
  intros Hb. induction n as [|n IH]; intros i c c' k k' Hk; cbn [must].
  - apply Hk.
  - apply Hb. intros j d d'. apply IH, Hk.
Qed.

Lemma first_some {A} (a b : option A) :
  is_Some (match a with Some m => Some m | None => b end) ↔ is_Some a ∨ is_Some b.
Proof.
  destruct a as [x|]; split.
  - intros _. left. eauto.
  - intros _. eauto.
  - intros H. right. exact H.
  - intros [[? H]|H]; [discriminate | exact H].
Qed.

Lemma more_blind greedy left fuel body : blind body → blind (more greedy left fuel body).
Proof.
  intros Hb. revert left. induction fuel as [|f IH]; intros left i c c' k k' Hk; cbn [more].
  - apply Hk.
  - assert (Hagain :
      is_Some (if may_repeat left
               then body i c (λ j c0, if (i <? j)%nat
                                      then more greedy (Nat.pred <$> left) f body j c0 k
                                      else None)
               else None) →
      is_Some (if may_repeat left
               then body i c' (λ j c0, if (i <? j)%nat
                                       then more greedy (Nat.pred <$> left) f body j c0 k'
                                       else None)
               else None)).
    { destruct (may_repeat left); [|exact id]. apply Hb.
      intros j d d'. destruct (i <? j)%nat; [|exact id]. apply IH, Hk. }
    destruct greedy; rewrite !first_some.
    + intros [H|H]; [left; apply Hagain, H | right; revert H; apply Hk].
    + intros [H|H]; [left; revert H; apply Hk | right; apply Hagain, H].
Qed.

Lemma go_blind ic (s : str) (r : regex) : blind (go ic s r).
Proof.
  induction r as
    [ | a | | items | r1 IH1 r2 IH2 | r1 IH1 r2 IH2 | greedy lo hi r1 IH1
    | n r1 IH1 | r1 IH1 | | ]; intros i c c' k k' Hk; cbn [go].
  - apply Hk.
  - apply step_blind, Hk.
  - apply step_blind, Hk.
  - apply step_blind, Hk.
  - apply IH1. intros j d d'. apply IH2, Hk.
  - rewrite !first_some. intros [H|H]; [left; revert H; apply IH1, Hk
                                       | right; revert H; apply IH2, Hk].
  - apply (must_blind _ lo IH1). intros j d d'. apply (more_blind _ _ _ _ IH1), Hk.
  - apply IH1. intros j d d'. apply Hk.
  - destruct (go ic s r1 i c (λ j c0, Some (j, c0))) as [[j1 c1]|] eqn:H1;
      [|intros [? ?]; discriminate].
    assert (H1' : is_Some (go ic s r1 i c' (λ j c0, Some (j, c0)))).
    { apply (IH1 i c c' (λ j c0, Some (j, c0)) (λ j c0, Some (j, c0)));
        [intros ? ? ? _; eauto | rewrite H1; eauto]. }
    destruct H1' as [[j2 c2] ->]. apply Hk.
  - destruct (at_boundary s i); [apply Hk | exact id].
  - destruct (at_end s i); [apply Hk | exact id].
Qed.

(** A lazy loop over a character test stops at the first offset its
    continuation accepts. *)
Lemma more_lazy_reaches (s : str) t (fuel i n : nat) c (k : K) :
  run s t i n → (n ≤ fuel)%nat → is_Some (k (i + n)%nat c) →
  is_Some (more false None fuel (step s t) i c k).
Proof.
  revert i n. induction fuel as [|f IH]; intros i n Hr Hn Hk; cbn [more].
  - replace n with 0%nat in Hk by lia. rewrite Nat.add_0_r in Hk. exact Hk.
  - apply first_some. destruct n as [|n].
    + left. rewrite Nat.add_0_r in Hk. exact Hk.
    + right. cbn [may_repeat]. destruct (Hr i) as (x & Hx & Ht); [lia|].
      unfold step at 1. rewrite Hx, Ht.
      assert (E : (i <? S i)%nat = true) by (apply Nat.ltb_lt; lia). rewrite E.
      apply (IH (S i) n); [|lia|].
      * intros z Hz. apply Hr. lia.
      * replace (S i + n)%nat with (i + S n)%nat by lia. exact Hk.
Qed.

(** *** The first match of the price pattern *)

Definition TITLE : regex := Rep false 1 None Any.

(** The title group takes one character or more and hands over with
    the spans it was given. *)
Lemma title_span (s : str) (i : nat) (c : caps) (k : K) res :
  go true s TITLE i c k = Some res →
  ∃ n, run s any_test i (S n) ∧ k (i + S n)%nat c = Some res.
Proof.
  unfold TITLE. cbn [go]. intros H.
  apply must_step_run in H as [H1 H]. cbn [fmap option_fmap option_map] in H.
  apply more_step_run in H as (n & _ & H2 & H).
  exists n. split.
  - intros z Hz. destruct (decide (z < i + 1)%nat) as [Hlt|Hge]; [apply H1; lia|].
    apply H2. lia.
  - replace (i + S n)%nat with (i + 1 + n)%nat by lia. exact H.
Qed.

Lemma one_line_any (s : str) (z : nat) (x : char) :
  one_line s → s !! z = Some x → any_test x = true.
Proof.
  intros Hs Hx. unfold one_line in Hs. rewrite Forall_forall in Hs.
  unfold any_test. apply negb_true_iff, N.eqb_neq, Hs.
  eapply list_elem_of_lookup_2, Hx.
Qed.

(** Where the price pattern matches at all in a one-line text, it
    matches at the first character. *)
Lemma price_match_from_start (s : str) (p : nat) ok (m : Match) :
  one_line s → match_at PRICE s p ok = Some m →
  is_Some (match_at PRICE s 0 (λ _, true)).
Proof.
  intros Hs. unfold match_at.
  destruct (go _ _ _ _ _ _) as [res|] eqn:Hgo; [|discriminate]. intros _.
  change (code PRICE) with (Cat (Group 1 TITLE) PRICE_TAIL) in *.
  change (ignorecase PRICE) with true in *.
  rewrite go_Cat, go_Group in Hgo.
  apply title_span in Hgo as (n & Hrun & Hgo).
  assert (Hlen : (p + S n ≤ length s)%nat).
  { destruct (Hrun (p + n)%nat) as (x & Hx & _); [lia|].
    apply lookup_lt_Some in Hx. lia. }
  assert (H0 : is_Some (go true s (Cat (Group 1 TITLE) PRICE_TAIL) 0 []
                          (λ j c, if (λ _ : nat, true) j then Some (j, c) else None))).
  { rewrite go_Cat, go_Group. unfold TITLE. cbn [go must].
    destruct (lookup_lt_is_Some_2 s 0) as [x0 Hx0]; [lia|].
    unfold step at 1. rewrite Hx0, (one_line_any s 0 x0 Hs Hx0).
    cbn [fmap option_fmap option_map].
    apply (more_lazy_reaches s any_test _ 1 (p + n)).
    - intros z Hz. destruct (lookup_lt_is_Some_2 s z) as [x Hx]; [lia|].
      exists x. split; [exact Hx | apply (one_line_any s z x Hs Hx)].
    - lia.
    - replace (1 + (p + n))%nat with (p + S n)%nat by lia.
      eapply (go_blind true s PRICE_TAIL); [|eexists; exact Hgo].
      intros j d d' _. eauto. }
  destruct H0 as [[j c] ->]. eauto.
Qed.

Lemma price_first_match (s : str) (m : Match) (ms : list Match) :
  one_line s → finditer PRICE s = m :: ms →
  ∃ ok, match_at PRICE s 0 ok = Some m.
Proof.
  intros Hs. unfold finditer.
  replace (2 * length s + 2)%nat with (S (2 * length s + 1)) by lia.
  cbn [finditer_go].
  destruct (search_from PRICE s 0 false) as [m'|] eqn:Hm; [|discriminate].
  intros [= -> _]. revert Hm. unfold search_from.
  destruct (0 <=? length s)%nat; [|discriminate]. intros Hm.
  pose proof (search_go_leftmost _ _ _ _ _ Hm) as Hleft.
  assert (Hat : ∃ j ok, match_at PRICE s j ok = Some m).
  { revert Hm. apply (search_go_origin (λ m, ∃ j ok, match_at PRICE s j ok = Some m)).
    intros j ok m' Hm'. eauto. }
  destruct Hat as (j & ok & Hj). destruct j as [|j]; [eauto|]. exfalso.
  destruct (price_match_from_start s (S j) ok m Hs Hj) as [m0 Hm0].
  rewrite Hleft in Hm0; [discriminate|].
  apply match_at_string in Hj as [_ ->]. lia.
Qed.

(** A pattern without the group [g] leaves the span of [g] alone. *)
Fixpoint group_free (g : nat) (r : regex) : bool :=
  match r with
  | Group n r1 => negb (n =? g)%nat && group_free g r1
  | Cat r1 r2 | Alt r1 r2 => group_free g r1 && group_free g r2
  | Rep _ _ _ r1 | Ahead r1 => group_free g r1
  | _ => true
  end.

Lemma go_keeps_group ic (s : str) (g : nat) (sp : nat * nat) (r : regex) :
  group_free g r = true → respects (λ c, cap_get g c = Some sp) (go ic s r).
Proof.
  induction r as
    [ | a | | items | r1 IH1 r2 IH2 | r1 IH1 r2 IH2 | greedy lo hi r1 IH1
    | n r1 IH1 | r1 IH1 | | ]; cbn [group_free]; intros Hg Ψ i c k res Hc Hk;
    try (apply andb_true_iff in Hg as [Hg1 Hg2]); cbn [go].
  - apply Hk, Hc.
  - apply (step_respects s _ _ Ψ i c k res Hc Hk).
  - apply (step_respects s _ _ Ψ i c k res Hc Hk).
  - apply (step_respects s _ _ Ψ i c k res Hc Hk).
  - apply (IH1 Hg1); [exact Hc|]. intros j c' res' Hc'. apply (IH2 Hg2); assumption.
  - destruct (go ic s r1 i c k) as [m|] eqn:Hm.
    + intros [= <-]. revert Hm. apply (IH1 Hg1); assumption.
    + apply (IH2 Hg2); assumption.
  - apply (must_respects _ _ lo (IH1 Hg)); [exact Hc|].
    intros j c' res' Hc'.
    apply (more_respects _ _ _ _ _ (IH1 Hg) Ψ j c' k res' Hc' Hk).
  - apply (IH1 Hg2); [exact Hc|]. intros j c' res' Hc'. apply Hk.
    cbn [cap_get]. apply negb_true_iff in Hg1. rewrite Hg1. exact Hc'.
  - destruct (go ic s r1 i c (λ j c', Some (j, c'))) as [[j c']|] eqn:Hm;
      [|discriminate].
    apply Hk. revert Hm. apply (IH1 Hg (λ res, cap_get g res.2 = Some sp)); [exact Hc|].
    intros j' c'' res' Hc'' [= <-]. exact Hc''.
  - destruct (at_boundary s i); [|discriminate]. apply Hk, Hc.
  - destruct (at_end s i); [|discriminate]. apply Hk, Hc.
Qed.

(** The title group of a match at the start of the text spans its
    first character. *)
Lemma price_title_at_start (s : str) ok (m : Match) :
  match_at PRICE s 0 ok = Some m →
  ∃ j, (1 ≤ j)%nat ∧ group m 1 = Some (Str.slice s 0 j).
Proof.
  unfold match_at.
  destruct (go _ _ _ _ _ _) as [[e c]|] eqn:Hgo; [|discriminate].
  intros [= <-]. unfold group. cbn [m_caps m_string].
  change (code PRICE) with (Cat (Group 1 TITLE) PRICE_TAIL) in Hgo.
  change (ignorecase PRICE) with true in Hgo.
  rewrite go_Cat, go_Group in Hgo.
  apply title_span in Hgo as (n & _ & Hgo). cbn [Nat.add] in Hgo.
  exists (S n). split; [lia|].
  assert (H : cap_get 1 c = Some (0%nat, S n)); [|rewrite H; reflexivity].
  revert Hgo.
  refine (go_keeps_group true s 1 (0%nat, S n) PRICE_TAIL eq_refl
            (λ res, cap_get 1 res.2 = Some (0%nat, S n))
            (S n) [(1%nat, (0%nat, S n))] _ (e, c) eq_refl _).
  intros j c' res' Hc'. destruct (ok j); [|discriminate]. intros [= <-]. exact Hc'.
Qed.

(** *** Operations that keep the first character *)

(** A text that begins with the character [x]. *)
Definition begins (x : char) (t : str) : Prop := ∃ r, t = x :: r.

Lemma rstrip_by_begins p (x : char) (l : str) :
  p x = false → begins x (Str.rstrip_by p (x :: l)).
Proof.
  intros Hx. induction l as [|c l IH] using rev_ind.
  - exists []. apply (rstrip_by_last p [] x Hx).
  - change (x :: l ++ [c]) with ((x :: l) ++ [c]). rewrite rstrip_by_snoc.
    destruct (p c); [exact IH | eexists; reflexivity].
Qed.

Lemma strip_by_begins p (x : char) (l : str) :
  p x = false → begins x (Str.strip_by p (x :: l)).
Proof.
  intros Hx. unfold Str.strip_by. rewrite lstrip_by_first by exact Hx.
  apply rstrip_by_begins, Hx.
Qed.

Lemma collapse_begins (x : char) (l : str) :
  isspace x = false → begins x (collapse_ws (x :: l)).
Proof. intros Hx. unfold collapse_ws. cbn [collapse_go]. rewrite Hx. eexists. reflexivity. Qed.

Lemma join_begins (x : char) (l : str) (ls : list str) :
  begins x (Str.join (py " ") ((x :: l) :: ls)).
Proof. destruct ls; cbn [Str.join]; eexists; reflexivity. Qed.

Lemma splitlines_go_begins (x : char) (cur s : str) :
  ∃ l ls, Str.splitlines_go (x :: cur) s = (x :: l) :: ls.
Proof.
  revert cur. induction s as [|c s IH]; intros cur; cbn [Str.splitlines_go].
  - eexists _, _. reflexivity.
  - destruct (c =? 13).
    + destruct s as [|c' s']; [eexists _, _; reflexivity|].
      destruct (c' =? 10); eexists _, _; reflexivity.
    + destruct (islinebreak c); [eexists _, _; reflexivity|].
      apply (IH (cur ++ [c])).
Qed.

Lemma splitlines_begins (x : char) (s : str) :
  islinebreak x = false →
  ∃ l ls, Str.splitlines (x :: s) = (x :: l) :: ls.
Proof.
  intros Hx. unfold Str.splitlines. cbn [Str.splitlines_go].
  assert (E : (x =? 13) = false).
  { destruct (x =? 13) eqn:E; [|reflexivity]. apply N.eqb_eq in E. subst x. discriminate. }
  rewrite E, Hx. apply splitlines_go_begins.
Qed.

Lemma sub_go_begins (t : list tpart) (x : char) (r : str) (ms : list Match) :
  Forall (λ m, (1 ≤ m_start m)%nat) ms → begins x (sub_go t (x :: r) 0 ms).
Proof.
  intros H. destruct H as [|m ms Hm _]; cbn [sub_go]; [eexists; reflexivity|].
  unfold Str.slice. rewrite Nat.sub_0_r. cbn [drop].
  destruct (m_start m) as [|k]; [lia|]. eexists. reflexivity.
Qed.

(** A substitution whose pattern does not match at the start of the
    text keeps the first character. *)
Lemma re_sub_begins (pat repl : str) (ic : bool) (p : Pattern) (t : list tpart)
    (x : char) (r : str) :
  compile pat ic = inr p → parse_template (groups p) repl = inr t →
  (∀ ok, match_at p (x :: r) 0 ok = None) →
  ∃ r', re_sub pat repl (x :: r) ic = inr (x :: r').
Proof.
  intros Hp Ht Hnone. rewrite (re_sub_inr _ _ _ _ p t Hp Ht).
  destruct (sub_go_begins t x r (finditer p (x :: r))) as [r' Hr'].
  - apply finditer_origin. intros j ok m Hm.
    apply match_at_string in Hm as Hs. destruct Hs as [_ ->].
    destruct j as [|j]; [rewrite Hnone in Hm; discriminate | lia].
  - exists r'. rewrite Hr'. reflexivity.
Qed.

(** *** The extractor on lines that begin with the initial of a weekday *)

(** The first letters of the weekday names: m, d and f. *)
Definition initial (x : char) : Prop := x = 109 ∨ x = 100 ∨ x = 102.

Lemma initial_plain (x : char) :
  initial x →
  isspace x = false ∧ islinebreak x = false ∧ isupper x = false
  ∧ Str.mem_char (py " ,;:-") x = false ∧ Str.mem_char (py " ,;") x = false.
Proof. intros [-> | [-> | ->]]; repeat split; reflexivity. Qed.

Lemma legend_not_at_start (x : char) (r : str) ok :
  initial x → match_at LEGEND (x :: r) 0 ok = None.
Proof.
  intros Hx. unfold match_at. cbn [ignorecase code LEGEND].
  rewrite go_Cat, go_Boundary. destruct (at_boundary _ _); [|reflexivity].
  rewrite go_Cat, go_Group. unfold LEGEND_WORD. cbn [go]. unfold step.
  cbn [lookup list_lookup].
  destruct Hx as [-> | [-> | ->]]; reflexivity.
Qed.

Lemma ws2_not_at_start (x : char) (r : str) ok :
  isspace x = false →
  match_at {| pattern := py "\s{2,}"; ignorecase := false;
              code := Rep true 2 None (In [CSpace]);
              groups := 0; groupindex := [] |} (x :: r) 0 ok = None.
Proof.
  intros Hx. unfold match_at. cbn [code ignorecase go must]. unfold step at 1.
  cbn [lookup list_lookup]. rewrite space_test, Hx. reflexivity.
Qed.

Lemma take_begins (x : char) (r : str) (k : nat) :
  (1 ≤ k)%nat → begins x (take k (x :: r)).
Proof. destruct k; [lia|]. intros _. eexists. reflexivity. Qed.

(** The cleaned text of such lines begins with the same character. *)
Lemma clean_text_begins (x : char) (l : str) (ls : list str) :
  initial x → Forall lowered ((x :: l) :: ls) →
  ∃ r, clean_text ((x :: l) :: ls) = inr (x :: r)
       ∧ one_line (x :: r) ∧ lowered (x :: r).
Proof.
  intros Hx Hl. destruct (initial_plain x Hx) as (Hsp & _ & _ & _ & _).
  destruct (before_legend ((x :: l) :: ls)) as (before & Hb & Hone & Hclean).
  destruct (join_begins x l ls) as [r0 E0]. rewrite E0 in Hb.
  destruct (collapse_begins x r0 Hsp) as [r1 E1]. rewrite E1 in Hb.
  destruct (strip_by_begins isspace x r1 Hsp) as [r2 E2].
  unfold Str.strip in Hb. rewrite E2 in Hb.
  assert (Hlow : lowered (x :: r2)).
  { rewrite <- E2. apply strip_by_chars. rewrite <- E1.
    pose proof (re_sub_ws_collapse (x :: r0)) as Hc.
    apply (re_sub_chars low_char) in Hc; [exact Hc | | apply space_low].
    rewrite <- E0. apply join_chars; [apply space_low | exact Hl]. }
  rewrite allergen_strip_id in Hb by exact Hlow. injection Hb as <-.
  rewrite Hclean, legend_sub by exact Hone.
  destruct (search LEGEND (x :: r2)) as [m|] eqn:Hm.
  - assert (Hstart : (1 ≤ m_start m)%nat).
    { revert Hm. unfold search, search_from.
      destruct (0 <=? length (x :: r2))%nat; [|discriminate].
      apply (search_go_origin (λ m, (1 ≤ m_start m)%nat)).
      intros j ok m' Hm'. apply match_at_string in Hm' as Hs. destruct Hs as [_ ->].
      destruct j as [|j]; [|lia].
      rewrite legend_not_at_start in Hm' by exact Hx. discriminate. }
    destruct (take_begins x r2 (m_start m) Hstart) as [r E]. exists r.
    split; [f_equal; exact E|]. rewrite <- E.
    split; [apply Forall_take, Hone | apply Forall_take, Hlow].
  - exists r2. split; [reflexivity|]. split; assumption.
Qed.

(** The title the price loop makes of a match at the start of such a
    text. *)
Lemma price_item_begins (x : char) (r : str) ok (m : Match) (o : option MenuItem) :
  initial x → lowered (x :: r) →
  match_at PRICE (x :: r) 0 ok = Some m → price_item PRICE m = inr o →
  ∃ it, o = Some it ∧ begins x (title it).
Proof.
  intros Hx Hlow Hm. destruct (initial_plain x Hx) as (Hsp & _ & _ & Hp & _).
  destruct (price_title_at_start _ _ _ Hm) as (j & Hj & Hg).
  unfold price_item. rewrite group_named_title, group_named_price, Hg. rsimpl.
  destruct (group m 2) as [q|]; [|discriminate]. rsimpl.
  assert (E : Str.slice (x :: r) 0 j = x :: take (j - 1) r).
  { unfold Str.slice. destruct j; [lia|]. cbn [drop Nat.sub take].
    rewrite Nat.sub_0_r. reflexivity. }
  rewrite E. unfold Str.strip_chars.
  destruct (strip_by_begins (Str.mem_char (py " ,;:-")) x (take (j - 1) r) Hp)
    as [t0 E0].
  assert (Hlow0 : lowered (x :: t0)).
  { rewrite <- E0. apply strip_by_chars. rewrite <- E. apply slice_chars, Hlow. }
  rewrite E0. destruct (soup_fix_id (x :: t0) Hlow0) as [-> ->].
  rewrite camel_fix_id by exact Hlow0. rsimpl.
  destruct (re_sub_begins (py "\s{2,}") (py " ") false _ _ x t0
              compile_ws2 (template_space _)) as [t1 ->];
    [intros ok'; apply ws2_not_at_start, Hsp|].
  rsimpl. cbn [nonempty]. intros [= <-]. eexists. split; [reflexivity|].
  eexists. reflexivity.
Qed.

Lemma line_title_begins (x : char) (l : str) :
  initial x → begins x (line_title (x :: l)).
Proof.
  intros Hx. destruct (initial_plain x Hx) as (Hsp & _ & _ & _ & Hp).
  unfold line_title, Str.strip_chars.
  destruct (collapse_begins x l Hsp) as [r ->]. apply strip_by_begins, Hp.
Qed.

(** The first item the extractor returns for such lines has a title
    that begins with the first character of the first line. *)
Lemma extract_begins (x : char) (l : str) (ls : list str) (items : list MenuItem) :
  initial x → Forall lowered ((x :: l) :: ls) →
  _extract_items_from_lines ((x :: l) :: ls) = inr items →
  ∃ it rest, items = it :: rest ∧ begins x (title it).
Proof.
  intros Hx Hl. unfold _extract_items_from_lines.
  destruct (clean_text_begins x l ls Hx Hl) as (r & -> & Hone & Hlow). rsimpl.
  rewrite compile_price. rsimpl.
  destruct (finditer PRICE (x :: r)) as [|m ms] eqn:Hms.
  - change (mapM (price_item PRICE) []) with (inr [] : result (list (option MenuItem))).
    rsimpl. cbn [omap list_omap nonempty].
    rewrite line_items_titles. intros [= <-].
    destruct (line_title_begins x l Hx) as [t ->].
    rewrite filter_cons, decide_True by exact I. rewrite fmap_cons.
    eexists _, _. split; [reflexivity|]. eexists. reflexivity.
  - destruct (price_first_match _ _ _ Hone Hms) as [ok Hm].
    cbn [mapM]. destruct (price_item PRICE m) as [e|o] eqn:Ho; [discriminate|].
    destruct (price_item_begins x r ok m o Hx Hlow Hm Ho) as (it & -> & Hit).
    rsimpl. destruct (mapM (price_item PRICE) ms) as [e|os]; [discriminate|]. rsimpl.
    change (omap id (Some it :: os)) with (it :: omap id os). cbn [nonempty].
    intros [= <-]. eauto.
Qed.

(** *** The segments of attempt A begin at the heading *)

Lemma segment_lines_begins (x : char) (s : str) (lines : list str) :
  initial x → segment_lines (x :: s) = inr lines →
  ∃ l ls, lines = (x :: l) :: ls.
Proof.
  intros Hx. destruct (initial_plain x Hx) as (Hsp & Hlb & _).
  unfold segment_lines.
  destruct (splitlines_begins x s Hlb) as (l & ls & ->).
  rewrite filter_cons.
  destruct (strip_by_begins isspace x l Hsp) as [t Ht].
  change (Str.strip (x :: l)) with (Str.strip_by isspace (x :: l)).
  rewrite Ht. cbn [nonempty]. rewrite decide_True by exact I.
  cbn [mapM]. rewrite re_sub_ws_collapse. rsimpl.
  destruct (collapse_begins x l Hsp) as [c ->].
  destruct (strip_by_begins isspace x c Hsp) as [t' Ht'].
  change (Str.strip (x :: c)) with (Str.strip_by isspace (x :: c)). rewrite Ht'.
  destruct (mapM _ _) as [e|rest]; [discriminate|]. rsimpl. intros [= <-]. eauto.
Qed.

(** A weekday located in a lowercased text stands there with its own
    first letter. *)
Lemma located_initial (blob wd : str) (h : Hit) :
  lowered blob → wd ∈ WEEKDAY_ORDER → hit_of blob wd = Some h →
  ∃ x w, wd = x :: w ∧ initial x ∧ blob !! h.2 = Some x.
Proof.
  intros Hlow Hwd Hh.
  assert (Hhead : ∃ a b w, wd = a :: b :: w ∧ initial a).
  { unfold WEEKDAY_ORDER in Hwd.
    repeat (apply elem_of_cons in Hwd as [-> | Hwd];
            [eexists _, _, _; split; [reflexivity|]; unfold initial; tauto|]).
    inversion Hwd. }
  destruct Hhead as (a & b & w & -> & Ha).
  apply hit_head in Hh as (x & _ & _ & Hx & Hax & _).
  exists a, (b :: w). split; [reflexivity|]. split; [exact Ha|].
  rewrite Hx. f_equal.
  assert (Hfix : fixed x = true).
  { apply (proj1 (Forall_lookup _ _) Hlow _ _ Hx). }
  apply lit_test_matching in Hax.
  assert (Hall : ∀ a, initial a →
            forallb (λ y, negb (fixed y) || (y =? a)) (matching a) = true).
  { intros ? [-> | [-> | ->]]; vm_compute; reflexivity. }
  specialize (Hall a Ha). rewrite forallb_forall in Hall.
  apply list_elem_of_In, Hall in Hax. rewrite Hfix in Hax.
  apply N.eqb_eq in Hax. exact Hax.
Qed.

Lemma sorted_next_later (hs : list Hit) (i : nat) (h h' : Hit) :
  StronglySorted offset_lt hs → hs !! i = Some h → hs !! S i = Some h' →
  (h.2 < h'.2)%nat.
Proof.
  intros Hs. revert i. induction Hs as [|x l Hl IH Hx]; intros i Hi Hi'.
  - discriminate.
  - destruct i as [|i].
    + injection Hi as <-. cbn in Hi'.
      apply (proj1 (Forall_lookup _ _) Hx _ _ Hi').
    + apply (IH i); assumption.
Qed.

(** The first item of a list that attempt A fills carries the first
    letter of its weekday at the head of its title. *)
Lemma primary_first_title (norm : list str) (res : WeekMenu) (wd : str)
    (it : MenuItem) (rest : list MenuItem) :
  primary norm = inr res → res !! wd = Some (it :: rest) →
  ∃ x w, wd = x :: w ∧ begins x (title it).
Proof.
  intros Hprim Hl.
  destruct (primary_spec norm) as (hits & res' & Hloc & Hprim' & _ & Hfew).
  rewrite Hprim in Hprim'. injection Hprim' as <-.
  assert (Hblob : lowered (make_blob norm)) by apply lower_lowered.
  destruct (le_lt_dec 2 (length hits)) as [Hlen|Hlen].
  2: { rewrite (Hfew Hlen) in Hl. apply empty_results_values in Hl. discriminate Hl. }
  destruct (primary_segments_exact _ _ Hloc Hlen)
    as (segs & Hsegs & Hperm & Hsorted & Hlook & _ & Hnone).
  revert Hprim. unfold primary. rewrite Hloc. rsimpl. rewrite Hsegs. rsimpl.
  destruct (truthy_dict (Some segs)).
  2: { intros [= <-]. apply empty_results_values in Hl. discriminate Hl. }
  destruct (fill_from_segments_spec segs WEEKDAY_ORDER empty_results)
    as (r & Hr & _ & Hprov).
  { intros wd' Hwd'. rewrite empty_results_dom. apply weekdays_elem, Hwd'. }
  rewrite Hr. intros [= <-].
  destruct (Hprov wd _ Hl) as [Hold | (seg & lines & Hseg & Hlines & Hitems)].
  { apply empty_results_values in Hold. discriminate Hold. }
  assert (Hin : wd ∈ hits.*1).
  { destruct (decide (wd ∈ hits.*1)) as [H|H]; [exact H|].
    rewrite (Hnone wd H) in Hseg. discriminate Hseg. }
  rewrite <- Hperm in Hin.
  apply list_elem_of_fmap in Hin as ([wd' o] & Hwd' & Hh). cbn in Hwd'. subst wd'.
  apply list_elem_of_lookup in Hh as Hi. destruct Hi as [i Hi].
  destruct (Hlook i wd o Hi) as [Hslice _].
  rewrite Hseg in Hslice. injection Hslice as ->.
  rewrite Hperm in Hh.
  assert (Hhits : hits = omap (hit_of (make_blob norm)) WEEKDAY_ORDER).
  { rewrite locate_eq in Hloc. congruence. }
  rewrite Hhits in Hh.
  apply list_elem_of_omap in Hh as (wd' & Hwd' & Hhit).
  pose proof (hit_of_fst _ _ _ Hhit) as E. cbn in E. subst wd'.
  destruct (located_initial _ _ _ Hblob Hwd' Hhit) as (x & w & -> & Hx & Hat).
  cbn [snd] in Hat.
  assert (Hnext : (S o ≤ next_offset (sort_hits hits) (make_blob norm) i)%nat).
  { unfold next_offset.
    destruct (sort_hits _ !! S i) as [h'|] eqn:Hn.
    - pose proof (sorted_next_later _ _ _ _ Hsorted Hi Hn) as H. cbn in H. lia.
    - apply lookup_lt_Some in Hat. lia. }
  rewrite (slice_cons _ _ _ _ Hat Hnext) in Hlines.
  assert (Hlowered : Forall lowered lines).
  { apply (segment_lines_lowered
             (Str.slice (make_blob norm) o
                (next_offset (sort_hits hits) (make_blob norm) i)));
      [apply slice_chars, Hblob|].
    rewrite (slice_cons _ _ _ _ Hat Hnext). exact Hlines. }
  destruct (segment_lines_begins _ _ _ Hx Hlines) as (l & ls & ->).
  destruct (extract_begins _ _ _ _ Hx Hlowered Hitems) as (it' & rest' & E & Hb).
  injection E as <- <-. exists x, w. split; [reflexivity | exact Hb].
Qed.

(** X17: attempt A does not take the heading out of a segment.  The
    segment of a located weekday begins at the match of its name, and
    nothing on the way to the first item removes it, so whenever attempt
    A gives a weekday a list that is not empty, the title of its first
    item begins with the first letter of the name of that weekday; when
    attempt A decides the result (some list is not empty after it), the
    same holds for the lists of the parsed week. *)
Theorem heading_in_first_title (lines : list str) :
  ∃ (norm : list str) (res menu : WeekMenu),
    norm_lines lines = inr norm
    ∧ primary norm = inr res
    ∧ parse_lines lines = inr menu
    ∧ (∀ wd it rest, res !! wd = Some (it :: rest) →
         ∃ x w t, wd = x :: w ∧ title it = x :: t)
    ∧ (any_values res = true →
       ∀ wd it rest, menu !! wd = Some (it :: rest) →
         ∃ x w t, wd = x :: w ∧ title it = x :: t).
Proof.
  destruct (norm_lines_total lines) as [norm Hnorm].
  destruct (primary_spec norm) as (hits & res & Hloc & Hprim & Hdom & _).
  destruct (fallback_total norm res Hdom) as (r & Hr & _).
  pose proof (parse_lines_eq lines norm res r Hnorm Hprim Hr) as Hparse.
  exists norm, res, (dedup <$> r).
  split; [exact Hnorm|]. split; [exact Hprim|]. split; [exact Hparse|].
  assert (Hres : ∀ wd it rest, res !! wd = Some (it :: rest) →
                 ∃ x w t, wd = x :: w ∧ title it = x :: t).
  { intros wd it rest Hl.
    destruct (primary_first_title norm res wd it rest Hprim Hl) as (x & w & -> & [t Ht]).
    eauto. }
  split; [exact Hres|].
  intros Hany wd it rest.
  rewrite (fallback_skipped norm res Hany) in Hr. injection Hr as <-.
  rewrite lookup_fmap. destruct (res !! wd) as [[|it0 its]|] eqn:Hl.
  - intros H. discriminate H.
  - unfold dedup. cbn [fmap option_fmap option_map dedup_loop].
    rewrite decide_False by apply not_elem_of_empty. intros [= <- _].
    apply (Hres wd it0 its Hl).
  - intros H. discriminate H.
Qed.

End LeadFacts.
